(* ===== verification/_CoqProject ===== *)
-Q . S2P
Prelude.v
GoErrors.v
Utf8.v
GoStrings.v
Model.v
Llm.v
Strconv.v
Json.v
JsonEncode.v
FloatText.v
Sha256.v
GoTime.v
TimeFormat.v
Normalize.v
Mock.v
Samples.v
Providers.v
Database.v
Instances.v
StoreRaw.v
RawFacts.v
StoreFacts.v
Projection.v
Queue.v
Backoff.v
Worker.v
Processor.v
System.v
Refinement.v
Invariants.v
Trace.v
Safety.v
Guarantees.v
Provenance.v
Redelivery.v
Anomalies.v
Lifecycle.v
ProvidersFacts.v
Ingest.v
Responses.v
IngestFacts.v
ResponsesFacts.v
Service.v
Drain.v
Locking.v
Claiming.v
Migrate.v
Migrators.v
App.v
Supervise.v
Deployment.v
