(* ===== verification/Prelude.v ===== *)
(** * A verification of webhook-ingestor

    The program (Go, src/) accepts vendor webhooks over HTTP, stores them in a
    PostgreSQL table that is also its work queue, and lets a pool of workers turn
    each into one immutable fact and one update of an entity's current state, with
    the help of a language model. This library models every package of it and
    proves what the parts promise and what the whole guarantees.

    ** The parts and the files that model them

    - internal/model: Model.v. The shipment order, the invoice transition table,
      the records that travel between the packages.
    - internal/normalize: Normalize.v. The gate [Apply] between model and database,
      over GoStrings.v (trimming, case mapping, searching on arbitrary bytes),
      Utf8.v (decoding and encoding of runes) and GoTime.v ([time.Parse]).
    - internal/llm: Llm.v (the interface [Client]), Mock.v (mock.go), Providers.v
      (openai.go, ollama.go and the spec package), ProvidersFacts.v; over Json.v (the
      scanner of encoding/json and its values), JsonEncode.v (the writing side),
      Strconv.v (numbers and durations as text) and FloatText.v (the text of a float64
      is read back as the same float64).
    - internal/samples: Samples.v, the fixtures and what the mock makes of them.
    - internal/store: Database.v (the tables of migrations/0001_init.sql, statements
      and transactions with their failures), StoreRaw.v (raw.go), StoreFacts.v
      (normalized.go, entity.go), Migrate.v (store.go), Migrators.v (its advisory
      lock, with any number of processes migrating at once); RawFacts.v and Projection.v
      hold their properties, Instances.v a concrete database to run examples on.
    - internal/queue: Queue.v (queue.go as the class [Queue], postgres.go as the
      instance [pg_queue]), Backoff.v (the retry delay in int64), GoErrors.v (error
      values, [Permanent], [APIError], the chain both tests walk).
    - internal/worker: Worker.v ([dispatch], the loop), against the classes [Queue]
      and [Handler].
    - internal/processor: Processor.v ([Handle], [project]).
    - internal/ingest: Ingest.v (the handlers, the mux, the debug logging, against
      the classes [Store] and [Notifier]), over Sha256.v; IngestFacts.v. Responses.v
      has the JSON text of every response (over JsonEncode.v and TimeFormat.v, the
      writing of times) and a client that decodes it; ResponsesFacts.v.
    - init.go, config.go: App.v (configuration, wiring, startup). Supervise.v: the
      running process of init.go, main.go and [Pool.Run], goroutines interleaved.
      Deployment.v: any number of such processes on one database.

    ** How it is modelled

    A Go function that may fail returns [result]; one that also changes state is an
    [eff], which passes the state through errors too. Each SQL statement is a
    definition [sql_*] of type [Statement], on the three tables as finite maps, its
    constraint checks written out; [stmt] runs one with the failures a connection
    has: none, before the effect, or after it (the effect is there and the caller
    sees an error). int64 arithmetic is Z with the wrap-around written out, times
    are nanoseconds in Z, float64 is the standard library's [spec_float].

    What is not under src/ is a parameter: [Postgres] (which texts a column takes,
    how JSONB reads back, error texts; [PostgresLaws] is what the theorems use of
    it), [Oracle] (faults, clock, generated ids, row locks, jitter), [Client] and
    [HttpTransport] (model and network), [UnicodeTables] (case tables beyond ASCII).
    No theorem fixes them; the witnesses instantiate them with Instances.v.

    Packages of the Go standard library are modelled where the source uses them:
    strings, unicode/utf8, time.Parse for the layouts in use, [Time.MarshalJSON] and
    time.ParseDuration, encoding/json reading and writing, crypto/sha256,
    encoding/hex, strconv on integers and floats. The local zone of the process is
    the parameter [Local], as the offset of each instant.

    ** The whole service

    System.v is one transition system for any number of ingest handlers and workers
    on one database: a state is the tables and the position of each busy worker, a
    step is one statement of one of them (which may fail either way), one call of
    the model, or the death of a worker; [taken] says who takes it. Refinement.v proves
    that a turn of the Go loop, as Worker.v and Processor.v have it, is a sequence of
    these steps, all of them taken by the worker whose turn it is, and that the invoice
    transaction is one. Invariants.v states the invariant, Safety.v
    proves that every step keeps it, statement by statement, along the order
    [evolves] in which the tables only grow. Trace.v runs schedules, so that
    witnesses and counterexamples are computations on reachable states.

    Service.v composes it all: processes that serve requests through [Routes] and
    turn their worker loop on one database. Every run of such a fleet is a run of
    the transition system, so the theorems about reachable states hold of the
    handlers and the loop as they are wired; and an undisturbed webhook is followed
    from its POST through a turn of a worker to what the two GET endpoints answer; and
    a body sent again, however much later, is answered as a duplicate.
    Drain.v goes on from there: many turns of one worker, and a turn that the
    cancelled context of a shutdown cuts short.

    Locking.v takes the one step of the invoice transaction apart again, into BEGIN,
    SELECT FOR UPDATE, INSERT or UPDATE, and COMMIT, interleaved with the steps of
    everybody else under the row locks of PostgreSQL, and proves that the tables do
    not show the difference ([tx_step] is one of these statements, by one worker). Claiming.v does the same for the claim of a row: snapshot,
    rows locked or skipped one by one, and commit, under FOR UPDATE SKIP LOCKED.
    Provenance.v reads the projection against the facts. Redelivery.v runs the handler
    a second time.

    Deployment.v puts the processes of Supervise.v on top: a worker of System.v is a
    goroutine of a living process, in a slot made of the numbers of both, a handler
    runs while its server serves, processes are started, stopped and killed. Its
    projections are the two systems it is made of, so their theorems hold in it.

    ** What the theorems show

    - Guarantees.v: a PROCESSED event has its fact and its effect, and there was a step that
      took it; facts came
      through the gate; history is never rewritten; DELIVERED is final; attempt
      numbers fence workers; no event is stranded; the tables are well formed.
    - Provenance.v: every state, amount and type of an entity was reported by an event
      of the log; the shipment projection is a function of the facts, so two runs
      over the same payloads agree on it.
    - Locking.v: row locks make the invoice transaction one step of the system, and do
      not deadlock it: a transaction ends by its own statements, after at most two of
      the worker that holds its key.
    - Claiming.v: SKIP LOCKED makes a claim one step of the system; claims take different
      rows, never wait, and a claim left alone takes the oldest row that is free.
    - Deployment.v: a process that has stopped has nothing in flight; the code runs in a
      deployment as it does alone; once the leases are over, a worker process started
      anew decides what others left over, as Drain.v has it, and stops cleanly.
    - Redelivery.v: handling a job again changes nothing, if the model repeats itself.
    - Drain.v: once the leases are over, a worker by itself empties the queue of what the
      model and the gate decide; a shutdown at any moment of a job
      leaves the event done or to be claimed again.
    - Lifecycle.v: a lease excludes other claims; the retry policy; the invoice
      transaction is atomic; which failures are dead-lettered at once; a turn in
      which nothing fails takes an event to PROCESSED (for Service.v and Drain.v).
    - Anomalies.v, and parts of Projection.v, Backoff.v, IngestFacts.v and
      ProvidersFacts.v: where the guarantees end, as computed or general histories
      (stale workers, poison events, a model that changes its mind, an invoice event
      that a lost ack gives a second chance, a model slower than the lease, keys shared
      by an invoice and a shipment, truncated bodies and error texts, times that have no
      JSON text, a listener that fails with exit code 0).
    - Service.v: the refinement of the whole service, the way of one webhook, and
      idempotent ingestion.
    - IngestFacts.v, ResponsesFacts.v: the contract of each endpoint, lookups, and that a
      client reads back what the service knows, exactly when all of it has a JSON text.
    - JsonEncode.v, TimeFormat.v, Strconv.v, FloatText.v: what is written as JSON, as a
      time or as a number is read back, every finite float64 included; the sum a
      duration stands for.
    - Supervise.v: when [Run] returns every goroutine is done, and after a signal or
      a failed listener it does return.
    - Projection.v: many runs of [ApplyInvoice] move a row along the transition table.
    - ProvidersFacts.v: the requests as the JSON a server reads, with the payload in it;
      which replies of a provider are worth a retry.
    - Mock.v: the payloads whose answers of the mock the gate rejects.
    - Normalize.v, Backoff.v, Migrate.v, Migrators.v, App.v: the functional behaviour of
      each part.

    ** Fuel and bounds

    [worker] takes the number of turns, since the loop runs until the process ends;
    theorems are about one turn, about reachable states, or, in Drain.v, about as many
    turns as there are unfinished events.
    [connect_from] counts the thirty attempts of the source. In Strconv.v the search
    for the shortest digits of a float64 that read back goes up to its exact expansion,
    which reads back (FloatText.v), so it finds some; a duration is read with the length
    of its text as fuel, of which every number with its unit takes some, and digits are
    produced with the number of bits of the value. A month is found within twelve steps. Everything else is
    structural: the JSON scanner is a fold over the bytes with its own stack of
    containers (depth 10000, as in the source of encoding/json), decoding follows
    the value, the digest follows the blocks.

    ** What is not modelled

    What net/http does between a socket and a handler, the drain of [srv.Shutdown]
    (an action that ends with an error or not) and the body net/http leaves out of
    an answer to HEAD; the text of log output; and the go:embed file systems beyond
    their contents. That PostgreSQL grants an advisory lock to one session at a time
    and takes it back when the session ends is taken from its documentation, and so is
    what READ COMMITTED, FOR UPDATE, SKIP LOCKED and the unique key of entities do to
    transactions side by side (Locking.v and Claiming.v say it in full). A statement that
    PostgreSQL finishes after the process that sent it died counts as taken before that
    death, which no table can tell. *)

From stdpp Require Export base tactics decidable option list gmap strings.
From Stdlib Require Export ZArith Lia ZifyBool ZifyN ZifyNat.

#[global] Set Default Goal Selector "!".

(** ** Results and the state-and-error monad *)

(** A Go function that returns [(value, error)]: either the value with a nil
    error, or a non-nil error. *)
Inductive result (E A : Type) : Type :=
  | Ok (a : A)
  | Err (e : E).
Arguments Ok {E A} a.
Arguments Err {E A} e.

#[export] Instance result_ret {E} : MRet (result E) := λ A a, Ok a.
#[export] Instance result_bind {E} : MBind (result E) := λ A B f r,
  match r with Ok a => f a | Err e => Err e end.
#[export] Instance result_fmap {E} : FMap (result E) := λ A B f r,
  match r with Ok a => Ok (f a) | Err e => Err e end.

Definition is_ok {E A} (r : result E A) : bool :=
  match r with Ok _ => true | Err _ => false end.

#[export] Instance result_eq_dec {E A} `{EqDecision E, EqDecision A} :
  EqDecision (result E A).
Proof. solve_decision. Defined.

(** A stateful Go function that may fail: it reads and writes a state [S]. The
    state survives an error, as it does in the program. *)
Definition eff (S E A : Type) : Type := S → result E A * S.

#[export] Instance eff_ret {S E} : MRet (eff S E) := λ A a s, (Ok a, s).
#[export] Instance eff_bind {S E} : MBind (eff S E) := λ A B f m s,
  match m s with
  | (Ok a, s') => f a s'
  | (Err e, s') => (Err e, s')
  end.

(** [throw e] is [return ..., e]. *)
Definition throw {S E A} (e : E) : eff S E A := λ s, (Err e, s).

(** [catching c m] runs [m] and hands its outcome to the caller, who inspects it
    the way [if err != nil] does; an error outside [c] is not for the caller and
    goes on. *)
Definition catching {S E A} (c : E → bool) (m : eff S E A) : eff S E (result E A) := λ s,
  match m s with
  | (Ok a, s') => (Ok (Ok a), s')
  | (Err e, s') => if c e then (Ok (Err e), s') else (Err e, s')
  end.

(** [deferred d m] runs [m] and then the state change [d] on every path, as a Go
    [defer] does. *)
Definition deferred {S E A} (d : S → S) (m : eff S E A) : eff S E A := λ s,
  match m s with (r, s') => (r, d s') end.

(** ** Reflexive-transitive steps of a deterministic effect *)

(** [preserves R m]: whatever [m] returns, the states before and after are
    related by [R]. It composes along the monad when [R] is a preorder. *)
Definition preserves {S E A} (R : relation S) (m : eff S E A) : Prop :=
  ∀ s, R s (snd (m s)).

Section preserves.
Context {S E : Type} (R : relation S).
Context `{!PreOrder R}.

Lemma preserves_ret {A} (a : A) : preserves R (mret a : eff S E A).
Proof. intros s. cbn. reflexivity. Qed.

Lemma preserves_throw {A} (e : E) : preserves R (throw e : eff S E A).
Proof. intros s. cbn. reflexivity. Qed.

Lemma preserves_bind {A B} (m : eff S E A) (f : A → eff S E B) :
  preserves R m → (∀ a, preserves R (f a)) → preserves R (m ≫= f).
Proof.
  intros Hm Hf s. unfold mbind, eff_bind.
  specialize (Hm s). destruct (m s) as [[a|e] s'].
  - etrans; [exact Hm|apply Hf].
  - exact Hm.
Qed.

Lemma preserves_catching {A} c (m : eff S E A) :
  preserves R m → preserves R (catching c m).
Proof.
  intros Hm s. unfold catching. specialize (Hm s).
  destruct (m s) as [[a|e] s']; [done|by destruct (c e)].
Qed.

Lemma preserves_deferred {A} d (m : eff S E A) :
  (∀ s, R s (d s)) → preserves R m → preserves R (deferred d m).
Proof.
  intros Hd Hm s. unfold deferred. specialize (Hm s).
  destruct (m s) as [r s']. etrans; [exact Hm|apply Hd].
Qed.
End preserves.

(** [throws Q m]: every error [m] ends with satisfies [Q]. *)
Definition throws {S E A} (Q : E → Prop) (m : eff S E A) : Prop :=
  ∀ s e s', m s = (Err e, s') → Q e.

Section throws.
Context {S E : Type} (Q : E → Prop).

Lemma throws_ret {A} (a : A) : throws Q (mret a : eff S E A).
Proof. by intros s e s'. Qed.

Lemma throws_throw {A} (e : E) : Q e → throws Q (throw e : eff S E A).
Proof. by intros He s e' s' [= <- _]. Qed.

Lemma throws_bind {A B} (m : eff S E A) (f : A → eff S E B) :
  throws Q m → (∀ a, throws Q (f a)) → throws Q (m ≫= f).
Proof.
  intros Hm Hf s e s'. unfold mbind, eff_bind.
  destruct (m s) as [[a|e1] s1] eqn:Hs; [apply Hf|]. intros [= <- _]. by eapply Hm.
Qed.

Lemma throws_deferred {A} d (m : eff S E A) : throws Q m → throws Q (deferred d m).
Proof.
  intros Hm s e s'. unfold deferred. destruct (m s) as [r s1] eqn:Hs.
  intros [= -> _]. by eapply Hm.
Qed.
End throws.

Create HintDb ingest.
Create Rewrite HintDb ingest.
#[export] Hint Resolve preserves_ret preserves_throw preserves_bind
  preserves_catching throws_ret throws_throw throws_bind throws_deferred : ingest.

(** Case analysis on every [match] of the goal, discharging the impossible
    branches: the everyday step of a proof about branching Go code. *)
Ltac case_branches :=
  repeat (case_match; simplify_eq/=; try done).

(** Break every disjunction and conjunction of the context, then finish. *)
Ltac break_cases :=
  repeat match goal with
  | H : _ ∧ _ |- _ => destruct H
  | H : _ ∨ _ |- _ => destruct H
  end; simplify_eq; try tauto; try lia.

Ltac split_ands := repeat match goal with |- _ ∧ _ => split end.

(** ** Lists and options *)

Lemma omap_app {A B} (f : A → option B) l1 l2 :
  omap f (l1 ++ l2) = omap f l1 ++ omap f l2.
Proof. induction l1 as [|x l1 IH]; cbn; [done|]. rewrite IH. by destruct (f x). Qed.

(** Dropping the elements at the front, and at the back, that satisfy [p]. *)
Fixpoint drop_while {A} (p : A → bool) (l : list A) : list A :=
  match l with
  | [] => []
  | x :: l' => if p x then drop_while p l' else l
  end.

Definition drop_while_end {A} (p : A → bool) (l : list A) : list A :=
  reverse (drop_while p (reverse l)).

Lemma drop_while_suffix {A} (p : A → bool) l : drop_while p l `suffix_of` l.
Proof.
  induction l as [|x l IH]; cbn; [done|].
  destruct (p x); [by apply suffix_cons_r|done].
Qed.

Lemma drop_while_id {A} (p : A → bool) l :
  (∀ x, head l = Some x → p x = false) → drop_while p l = l.
Proof. destruct l as [|x l]; cbn; [done|]. intros H. by rewrite (H x). Qed.

Lemma drop_while_head {A} (p : A → bool) l x :
  head (drop_while p l) = Some x → p x = false.
Proof.
  induction l as [|y l IH]; cbn; [done|].
  destruct (p y) eqn:Hy; [done|]. cbn. by intros [= ->].
Qed.

Lemma drop_while_fmap {A B} (p : B → bool) (f : A → B) l :
  drop_while p (f <$> l) = f <$> drop_while (λ x, p (f x)) l.
Proof. induction l as [|x l IH]; cbn; [done|]. by destruct (p (f x)). Qed.

Lemma drop_while_ext {A} (p q : A → bool) l :
  (∀ x, x ∈ l → p x = q x) → drop_while p l = drop_while q l.
Proof.
  induction l as [|x l IH]; intros H; cbn; [done|].
  rewrite (H x) by set_solver. rewrite IH; [done|set_solver].
Qed.
