(* ===== verification/GoErrors.v ===== *)
(** * Go error values

    The program inspects errors in two places: [queue.IsPermanent] and
    [llm.Retryable] both walk the [Unwrap] chain with [errors.AsType]. This file
    holds the error values the program builds, that chain, and the two tests.
    It models [queue.Permanent] of internal/queue/queue.go and [llm.APIError] of
    internal/llm/llm.go; the packages over it refer to these definitions. *)

From S2P Require Import Prelude.

(** The dynamic types of error values. [errorString] stands for every error
    with no chain the program looks into ([errors.New], [fmt.Errorf] without
    [%w], the errors of net/http, encoding/json and pgx); [wrapError] is what
    [fmt.Errorf] builds for [%w]. [runtimePanic] is not an error value but a
    panic on its way up: no code of the program recovers one. *)
Inductive error : Type :=
  | errorString (msg : string)
  | wrapError (msg : string) (err : error)
  | Permanent (Err : error)
  | APIError (StatusCode : Z) (Retryable : bool) (Message : string)
  | runtimePanic (msg : string).

#[export] Instance error_eq_dec : EqDecision error.
Proof. solve_decision. Defined.

(** The [Error] method of each dynamic type. *)
Fixpoint Error (err : error) : string :=
  match err with
  | errorString msg => msg
  | wrapError msg _ => msg
  | Permanent e => Error e
  | APIError _ _ msg => msg
  | runtimePanic msg => msg
  end.

(** The [Unwrap] method, where the dynamic type has one. *)
Definition Unwrap (err : error) : option error :=
  match err with
  | wrapError _ e => Some e
  | Permanent e => Some e
  | _ => None
  end.

Definition is_panic (err : error) : bool :=
  match err with runtimePanic _ => true | _ => false end.

(** [v, err := m()], with [err] in the hands of the caller. *)
Definition attempt {S A} (m : eff S error A) : eff S error (result error A) :=
  catching (negb ∘ is_panic) m.

(** [fmt.Errorf(prefix + ": %w", err)]. *)
Definition Errorf_w (prefix : string) (err : error) : error :=
  wrapError (prefix +:+ ": " +:+ Error err) err.

(** [queue.Permanentf(prefix + ": %v", err)]: the message keeps the text of
    [err], the chain loses it. *)
Definition Permanentf (prefix : string) (err : error) : error :=
  Permanent (errorString (prefix +:+ ": " +:+ Error err)).

(** The chain [err, Unwrap err, ...] that [errors.AsType] searches. *)
Fixpoint chain (err : error) : list error :=
  err :: match err with
         | wrapError _ e => chain e
         | Permanent e => chain e
         | _ => []
         end.

(** [_, ok := errors.AsType[*Permanent](err); return ok]. *)
Definition IsPermanent (err : error) : bool :=
  existsb (λ e, match e with Permanent _ => true | _ => false end) (chain err).

(** [errors.AsType[*APIError](err)]: the first one of the chain decides. *)
Definition as_APIError (err : error) : option (Z * bool * string) :=
  head (omap (λ e, match e with APIError c r m => Some (c, r, m) | _ => None end)
             (chain err)).

Definition Retryable (err : error) : bool :=
  match as_APIError err with
  | Some (_, r, _) => r
  | None => true
  end.

(** ** Facts the clients use *)

(** Running [v, err := m()] and going on with [k]. *)
Lemma attempt_bind {S A B} (m : eff S error A) (k : result error A → eff S error B) s :
  (attempt m ≫= k) s =
  match m s with
  | (Ok a, s') => k (Ok a) s'
  | (Err e, s') => if is_panic e then (Err e, s') else k (Err e) s'
  end.
Proof.
  unfold mbind, eff_bind, attempt, catching. destruct (m s) as [[a|e] s']; [done|].
  unfold compose. by destruct (is_panic e).
Qed.

Lemma bind_run {S A B} (m : eff S error A) (k : A → eff S error B) s :
  (m ≫= k) s = match m s with
               | (Ok a, s') => k a s'
               | (Err e, s') => (Err e, s')
               end.
Proof. done. Qed.

Lemma preserves_attempt {S A} (R : relation S) `{!PreOrder R} (m : eff S error A) :
  preserves R m → preserves R (attempt m).
Proof. apply preserves_catching; apply _. Qed.
#[export] Hint Resolve preserves_attempt : ingest.

Lemma chain_unwrap err e : Unwrap err = Some e → chain err = err :: chain e.
Proof. by destruct err; intros [= ->]. Qed.

Lemma IsPermanent_wrap msg err : IsPermanent (wrapError msg err) = IsPermanent err.
Proof. done. Qed.

Lemma IsPermanent_Errorf_w prefix err :
  IsPermanent (Errorf_w prefix err) = IsPermanent err.
Proof. done. Qed.

Lemma IsPermanent_Permanentf prefix err : IsPermanent (Permanentf prefix err) = true.
Proof. done. Qed.

Lemma IsPermanent_spec err :
  IsPermanent err = true ↔ ∃ e, Permanent e ∈ chain err.
Proof.
  unfold IsPermanent. rewrite existsb_exists. split.
  - intros (e & Hin & He). destruct e; try done. eexists.
    by apply list_elem_of_In.
  - intros [e He]. exists (Permanent e). split; [|done]. by apply list_elem_of_In.
Qed.

Lemma Error_Errorf_w prefix err :
  Error (Errorf_w prefix err) = prefix +:+ ": " +:+ Error err.
Proof. done. Qed.

Lemma Error_Permanentf prefix err :
  Error (Permanentf prefix err) = prefix +:+ ": " +:+ Error err.
Proof. done. Qed.

#[export] Hint Rewrite IsPermanent_wrap IsPermanent_Errorf_w
  IsPermanent_Permanentf : ingest.
