(* ===== verification/Utf8.v ===== *)
(** * UTF-8

    A Go string is a sequence of bytes, here Rocq's [string]. Ranging over a Go
    string decodes UTF-8, and everything the program does with the text of a
    payload or of a model answer goes through that decoding. This file gives the
    decoder and the encoder of package unicode/utf8 on arbitrary byte strings,
    and proves that they are inverse and that decoding is local: a string cut at
    rune boundaries decodes to the corresponding part of the decoding. *)

From S2P Require Import Prelude.
From Stdlib Require Import Ascii.
Local Open Scope N_scope.

Definition chars (s : string) : list ascii := String.list_ascii_of_string s.
Definition str (l : list ascii) : string := String.string_of_list_ascii l.

Lemma str_chars s : str (chars s) = s.
Proof. apply String.string_of_list_ascii_of_string. Qed.
Lemma chars_str l : chars (str l) = l.
Proof. apply String.list_ascii_of_string_of_list_ascii. Qed.
Lemma length_chars s : length (chars s) = String.length s.
Proof. induction s as [|c s IH]; [done|]. exact (f_equal S IH). Qed.
Lemma chars_inj s1 s2 : chars s1 = chars s2 → s1 = s2.
Proof. intros H. by rewrite <-(str_chars s1), H, str_chars. Qed.
#[export] Hint Rewrite str_chars chars_str : ingest.

(** ** UTF-8 (package unicode/utf8) *)

Definition RuneSelf : N := 0x80.
Definition RuneError : N := 0xFFFD.
Definition MaxRune : N := 0x10FFFF.

Definition between (lo hi b : N) : bool := (lo <=? b) && (b <=? hi).
Definition continuation (b : N) : bool := between 0x80 0xBF b.
(** The accepted range of the second byte depends on the first. *)
Definition second_lo (b0 : N) : N :=
  if b0 =? 0xE0 then 0xA0 else if b0 =? 0xF0 then 0x90 else 0x80.
Definition second_hi (b0 : N) : N :=
  if b0 =? 0xED then 0x9F else if b0 =? 0xF4 then 0x8F else 0xBF.

(** [utf8.DecodeRune]: the first rune and its width; an invalid encoding yields
    [(RuneError, 1)]. *)
Definition DecodeRune (s : list ascii) : N * nat :=
  match s with
  | [] => (RuneError, 0%nat)
  | c0 :: s1 =>
    let b0 := N_of_ascii c0 in
    if b0 <? RuneSelf then (b0, 1%nat) else
    match s1 with
    | [] => (RuneError, 1%nat)
    | c1 :: s2 =>
      let b1 := N_of_ascii c1 in
      if between 0xC2 0xDF b0 && continuation b1
      then ((b0 - 0xC0) * 64 + (b1 - 0x80), 2%nat) else
      match s2 with
      | [] => (RuneError, 1%nat)
      | c2 :: s3 =>
        let b2 := N_of_ascii c2 in
        if between 0xE0 0xEF b0 && between (second_lo b0) (second_hi b0) b1
           && continuation b2
        then ((b0 - 0xE0) * 4096 + (b1 - 0x80) * 64 + (b2 - 0x80), 3%nat) else
        match s3 with
        | [] => (RuneError, 1%nat)
        | c3 :: _ =>
          let b3 := N_of_ascii c3 in
          if between 0xF0 0xF4 b0 && between (second_lo b0) (second_hi b0) b1
             && continuation b2 && continuation b3
          then ((b0 - 0xF0) * 262144 + (b1 - 0x80) * 4096 + (b2 - 0x80) * 64
                + (b3 - 0x80), 4%nat)
          else (RuneError, 1%nat)
        end
      end
    end
  end.

Definition valid_rune (r : N) : bool :=
  (r <=? MaxRune) && negb (between 0xD800 0xDFFF r).

(** [utf8.AppendRune]: runes that cannot be encoded become U+FFFD. *)
Definition encode_raw (r : N) : list ascii :=
  if r <? 0x80 then [ascii_of_N r]
  else if r <? 0x800 then
    [ascii_of_N (0xC0 + r / 64); ascii_of_N (0x80 + r mod 64)]
  else if r <? 0x10000 then
    [ascii_of_N (0xE0 + r / 4096); ascii_of_N (0x80 + (r / 64) mod 64);
     ascii_of_N (0x80 + r mod 64)]
  else
    [ascii_of_N (0xF0 + r / 262144); ascii_of_N (0x80 + (r / 4096) mod 64);
     ascii_of_N (0x80 + (r / 64) mod 64); ascii_of_N (0x80 + r mod 64)].
Definition sanitize (r : N) : N := if valid_rune r then r else RuneError.
Definition EncodeRune (r : N) : list ascii := encode_raw (sanitize r).

(** [for _, r := range s]: each rune with the bytes it was decoded from. [k]
    counts the bytes of the current rune that are still to be skipped. *)
Fixpoint runes_from (k : nat) (s : list ascii) : list (N * list ascii) :=
  match s with
  | [] => []
  | c :: s' =>
    match k with
    | S k' => runes_from k' s'
    | O => let '(r, w) := DecodeRune s in
           (r, take w s) :: runes_from (pred w) s'
    end
  end.
Definition runes (s : list ascii) : list (N * list ascii) := runes_from 0 s.
(** The bytes a list of decoded runes came from. *)
Definition raw_bytes (l : list (N * list ascii)) : list ascii := mjoin (snd <$> l).

(** [utf8.ValidString]. *)
Definition valid_chunk (p : N * list ascii) : bool :=
  negb ((fst p =? RuneError) && (length (snd p) =? 1)%nat).
Definition ValidString (s : string) : bool := forallb valid_chunk (runes (chars s)).

(** The decoding of an encoded rune sequence. *)
Definition encoded (rs : list N) : list (N * list ascii) :=
  (λ r, (r, encode_raw r)) <$> rs.

(** ** Decoding and encoding are inverse *)

Ltac unfold_ranges :=
  unfold continuation, between, RuneSelf, second_lo, second_hi in *.
Ltac bool_lia := unfold_ranges; repeat (case_match; try lia); lia.

Lemma N_of_ascii_lt c : N_of_ascii c < 256.
Proof. apply N_ascii_bounded. Qed.

Lemma byte_of_N n : n < 256 → N_of_ascii (ascii_of_N n) = n.
Proof. apply N_ascii_embedding. Qed.

Lemma valid_rune_spec r :
  valid_rune r = true ↔ r < 0xD800 ∨ (0xE000 ≤ r ∧ r < 0x110000).
Proof.
  unfold valid_rune, between, MaxRune.
  rewrite andb_true_iff, negb_true_iff, andb_false_iff, !N.leb_le, !N.leb_gt. lia.
Qed.

Lemma encode_raw_nonempty r : encode_raw r ≠ [].
Proof. unfold encode_raw. by case_branches. Qed.

Lemma DecodeRune_encode r s :
  valid_rune r = true → DecodeRune (encode_raw r ++ s) = (r, length (encode_raw r)).
Proof.
  intros Hv%valid_rune_spec. unfold encode_raw.
  pose proof (N.div_mod r 64 ltac:(done)). pose proof (N.mod_lt r 64 ltac:(done)).
  pose proof (N.div_mod (r / 64) 64 ltac:(done)).
  pose proof (N.mod_lt (r / 64) 64 ltac:(done)).
  pose proof (N.div_mod (r / 4096) 64 ltac:(done)).
  pose proof (N.mod_lt (r / 4096) 64 ltac:(done)).
  assert (r / 64 / 64 = r / 4096) by (by rewrite N.Div0.div_div).
  assert (r / 4096 / 64 = r / 262144) by (by rewrite N.Div0.div_div).
  destruct (N.ltb_spec r 0x80); [|destruct (N.ltb_spec r 0x800);
    [|destruct (N.ltb_spec r 0x10000)]]; cbn [DecodeRune app length];
    rewrite !byte_of_N by lia; unfold_ranges.
  - by rewrite (proj2 (N.ltb_lt _ _)) by lia.
  - rewrite (proj2 (N.ltb_ge _ _)) by lia.
    rewrite (proj2 (Bool.andb_true_iff _ _)) by lia. f_equal; lia.
  - rewrite (proj2 (N.ltb_ge _ _)) by lia.
    rewrite (proj2 (Bool.andb_false_iff _ _)) by lia.
    rewrite (proj2 (Bool.andb_true_iff _ _)) by (repeat case_match; lia).
    f_equal; lia.
  - rewrite (proj2 (N.ltb_ge _ _)) by lia.
    rewrite (proj2 (Bool.andb_false_iff _ _)) by lia.
    assert (forall x y, (224 <=? 240 + r / 262144) && (240 + r / 262144 <=? 239)
                        && x && y = false) as -> by lia.
    rewrite (proj2 (Bool.andb_true_iff _ _)) by (repeat case_match; lia).
    f_equal; lia.
Qed.

Lemma DecodeRune_width c s :
  (1 ≤ snd (DecodeRune (c :: s)) ≤ length (c :: s))%nat.
Proof. unfold DecodeRune. repeat case_match; cbn; lia. Qed.

Lemma DecodeRune_valid s : valid_rune (fst (DecodeRune s)) = true.
Proof.
  unfold DecodeRune. repeat case_match; cbn [fst]; try done;
    apply valid_rune_spec; unfold_ranges; repeat case_match; lia.
Qed.

(** A decoded rune depends only on the bytes it was decoded from, and an invalid
    byte stays invalid when bytes after it are cut off. *)
Lemma DecodeRune_prefix t q r w :
  t ≠ [] → DecodeRune (t ++ q) = (r, w) → (w ≤ length t)%nat → DecodeRune t = (r, w).
Proof.
  intros Ht. destruct t as [|c0 [|c1 [|c2 [|c3 t]]]]; [done|..];
    cbn [app DecodeRune length]; intros HD Hw;
    repeat (case_match; simplify_eq/=; try done; try lia).
Qed.

Lemma runes_from_drop k s : runes_from k s = runes (drop k s).
Proof.
  revert k. induction s as [|c s IH]; intros [|k]; try done.
  cbn [runes_from drop]. apply IH.
Qed.

(** The step equation of the rune loop. *)
Lemma runes_cons c s :
  runes (c :: s) =
    (fst (DecodeRune (c :: s)), take (snd (DecodeRune (c :: s))) (c :: s))
    :: runes (drop (snd (DecodeRune (c :: s))) (c :: s)).
Proof.
  unfold runes at 1. cbn [runes_from].
  pose proof (DecodeRune_width c s) as Hw.
  destruct (DecodeRune (c :: s)) as [r [|w]]; cbn [snd fst pred] in *; [lia|].
  by rewrite runes_from_drop.
Qed.

Lemma runes_encode r s :
  valid_rune r = true → runes (encode_raw r ++ s) = (r, encode_raw r) :: runes s.
Proof.
  intros Hv. pose proof (DecodeRune_encode r s Hv) as HD.
  destruct (encode_raw r ++ s) as [|c l] eqn:Hl.
  - by destruct (encode_raw r) eqn:?; [destruct (encode_raw_nonempty r)|].
  - rewrite runes_cons, HD. cbn [fst snd]. rewrite <-Hl.
    by rewrite take_app_length, drop_app_length.
Qed.

(** Induction on the decoding of a byte string, one rune at a time. *)
Lemma runes_ind (P : list ascii → list (N * list ascii) → Prop) :
  P [] [] →
  (∀ raw r s, raw ≠ [] → DecodeRune (raw ++ s) = (r, length raw) →
     P s (runes s) → P (raw ++ s) ((r, raw) :: runes s)) →
  ∀ s, P s (runes s).
Proof.
  intros Hnil Hcons s. remember (length s) as n eqn:Hn.
  revert s Hn. induction (lt_wf n) as [n _ IH]; intros s ->.
  destruct s as [|c s]; [done|].
  rewrite runes_cons. pose proof (DecodeRune_width c s) as Hw.
  destruct (DecodeRune (c :: s)) as [r w] eqn:HD. cbn [fst snd] in *.
  rewrite <-(take_drop w (c :: s)) at 1.
  apply Hcons.
  - by destruct w; [lia|].
  - rewrite take_drop, HD, length_take. f_equal. lia.
  - eapply IH; [|done]. rewrite length_drop. cbn in *; lia.
Qed.

Lemma raw_bytes_cons p l : raw_bytes (p :: l) = snd p ++ raw_bytes l.
Proof. done. Qed.
Lemma raw_bytes_app l1 l2 : raw_bytes (l1 ++ l2) = raw_bytes l1 ++ raw_bytes l2.
Proof. unfold raw_bytes. by rewrite fmap_app, join_app. Qed.

Lemma runes_raw s : raw_bytes (runes s) = s.
Proof.
  apply (runes_ind (λ s l, raw_bytes l = s)); [done|].
  intros raw r s' _ _ IH. by rewrite raw_bytes_cons, IH.
Qed.

Lemma runes_valid s : Forall (λ p, valid_rune (fst p) = true) (runes s).
Proof.
  apply (runes_ind (λ s l, Forall (λ p, valid_rune (fst p) = true) l)); [done|].
  intros raw r s' _ HD IH. constructor; [|done]. cbn.
  pose proof (DecodeRune_valid (raw ++ s')) as Hv. by rewrite HD in Hv.
Qed.

(** Cutting a string at rune boundaries cuts its decoding. *)
Lemma runes_suffix s a b : runes s = a ++ b → runes (raw_bytes b) = b.
Proof.
  revert a b. apply (runes_ind (λ s l, ∀ a b, l = a ++ b → runes (raw_bytes b) = b)).
  - intros a b Hnil. symmetry in Hnil. apply app_nil in Hnil as [_ ->]. done.
  - intros raw r s' Hraw HD IH [|x a] b Hab; simplify_list_eq; [|by eapply IH].
    rewrite raw_bytes_cons, runes_raw. cbn [snd]. destruct raw as [|c raw]; [done|].
    cbn [app]. rewrite runes_cons. cbn [app] in HD. rewrite HD. cbn [fst snd].
    change (c :: raw ++ s') with ((c :: raw) ++ s').
    by rewrite take_app_length, drop_app_length.
Qed.

Lemma runes_prefix s a b : runes s = a ++ b → runes (raw_bytes a) = a.
Proof.
  revert a b. apply (runes_ind (λ s l, ∀ a b, l = a ++ b → runes (raw_bytes a) = a)).
  - intros a b Hnil. symmetry in Hnil. apply app_nil in Hnil as [-> _]. done.
  - intros raw r s' Hraw HD IH [|x a] b Hab; [done|]. injection Hab as <- Hab.
    rewrite raw_bytes_cons. cbn [snd]. pose proof (IH a b Hab) as IHa.
    set (p := raw_bytes a) in *.
    assert (s' = p ++ raw_bytes b) as Hs'.
    { rewrite <-(runes_raw s'), Hab. apply raw_bytes_app. }
    assert (DecodeRune (raw ++ p) = (r, length raw)) as HD'.
    { apply DecodeRune_prefix with (q := raw_bytes b).
      - by destruct raw.
      - by rewrite <-(assoc_L (++)), <-Hs'.
      - rewrite length_app. lia. }
    destruct raw as [|c raw]; [done|]. cbn [app] in *. rewrite runes_cons, HD'.
    cbn [fst snd]. change (c :: raw ++ p) with ((c :: raw) ++ p).
    by rewrite take_app_length, drop_app_length, IHa.
Qed.

Lemma sanitize_valid r : valid_rune (sanitize r) = true.
Proof. unfold sanitize. by destruct (valid_rune r) eqn:?. Qed.

Lemma runes_encoded rs :
  Forall (λ r, valid_rune r = true) rs →
  runes (mjoin (encode_raw <$> rs)) = encoded rs.
Proof.
  induction 1 as [|r rs Hr _ IH]; [done|].
  change (mjoin (encode_raw <$> r :: rs)) with (encode_raw r ++ mjoin (encode_raw <$> rs)).
  by rewrite runes_encode, IH.
Qed.


(** ** ASCII *)

Definition is_ascii (c : ascii) : bool := N_of_ascii c <? RuneSelf.
Definition ascii_chunk (c : ascii) : N * list ascii := (N_of_ascii c, [c]).

Lemma DecodeRune_ascii c s : is_ascii c = true → DecodeRune (c :: s) = (N_of_ascii c, 1%nat).
Proof. unfold is_ascii. cbn. by intros ->. Qed.

Lemma runes_ascii_cons c s :
  is_ascii c = true → runes (c :: s) = ascii_chunk c :: runes s.
Proof. intros Hc. by rewrite runes_cons, DecodeRune_ascii by done. Qed.

Lemma runes_ascii s : forallb is_ascii s = true → runes s = ascii_chunk <$> s.
Proof.
  induction s as [|c s IH]; [done|]. cbn [forallb]. intros [Hc Hs]%andb_true_iff.
  by rewrite runes_ascii_cons, fmap_cons, IH.
Qed.

Lemma ascii_ValidString s : forallb is_ascii (chars s) = true → ValidString s = true.
Proof.
  intros Hs. unfold ValidString. rewrite runes_ascii by done. rewrite forallb_forall in *.
  intros p Hp. apply list_elem_of_In, list_elem_of_fmap in Hp as (c & -> & Hc).
  apply list_elem_of_In, Hs in Hc. unfold valid_chunk, ascii_chunk, is_ascii, RuneSelf, RuneError in *.
  cbn. apply negb_true_iff, andb_false_iff. left. apply N.eqb_neq. lia.
Qed.

(** A rune below [RuneSelf] was decoded from one byte, the rune itself. *)
Lemma DecodeRune_small c s :
  fst (DecodeRune (c :: s)) < RuneSelf → DecodeRune (c :: s) = (N_of_ascii c, 1%nat).
Proof.
  cbn [DecodeRune]. destruct (N.ltb_spec (N_of_ascii c) RuneSelf) as [Hc|Hc]; [done|].
  unfold between, continuation, second_lo, second_hi, RuneSelf, RuneError in *.
  repeat (case_match; cbn [fst]; try lia).
Qed.

Lemma runes_all_ascii s :
  Forall (λ p, fst p < RuneSelf) (runes s) → runes s = ascii_chunk <$> s.
Proof.
  induction s as [|c s IH]; [done|]. rewrite runes_cons. intros [Hh Ht]%Forall_cons.
  cbn [fst] in Hh. rewrite DecodeRune_small in Ht by done. cbn [snd drop] in Ht.
  rewrite DecodeRune_small, fmap_cons, <-(IH Ht) by done. done.
Qed.

(** ** A valid chunk is the encoding of its rune *)

Lemma encode_byte c n : N_of_ascii c = n → ascii_of_N n = c.
Proof. intros <-. apply ascii_N_embedding. Qed.

Lemma DecodeRune_take s r w :
  DecodeRune s = (r, w) → s ≠ [] → (r =? RuneError) && (w =? 1)%nat = false →
  take w s = encode_raw r.
Proof.
  intros HD Hs Hne. destruct s as [|c0 s]; [done|]. cbn [DecodeRune] in HD.
  pose proof (N_of_ascii_lt c0). unfold RuneSelf in HD.
  destruct (N.ltb_spec (N_of_ascii c0) 0x80) as [Hc|Hc].
  { injection HD as <- <-. unfold encode_raw. rewrite (proj2 (N.ltb_lt _ _)) by done.
    cbn. by rewrite ascii_N_embedding. }
  unfold_ranges. repeat case_match; simplify_eq; try done; cbn [take]; unfold encode_raw;
    repeat match goal with |- context [?a <? ?b] => destruct (N.ltb_spec a b); [try lia|try lia] end.
  all: repeat f_equal; symmetry; apply encode_byte; try lia.
  all: try (Z.to_euclidean_division_equations; lia).
Qed.

Lemma runes_chunks s :
  Forall (λ p, valid_chunk p = true → snd p = encode_raw (fst p)) (runes s).
Proof.
  apply (runes_ind (λ s l, Forall (λ p, valid_chunk p = true → snd p = encode_raw (fst p)) l));
    [done|].
  intros raw r s' Hraw HD IH. constructor; [|done]. unfold valid_chunk. cbn [fst snd].
  intros Hv%negb_true_iff. rewrite <-(DecodeRune_take _ _ _ HD); [|by destruct raw|done].
  by rewrite take_app_length.
Qed.

(** A rune below [RuneSelf] is its own byte. *)
Lemma runes_small s :
  Forall (λ p, fst p < RuneSelf → snd p = [ascii_of_N (fst p)]) (runes s).
Proof.
  eapply Forall_impl; [apply runes_chunks|]. intros [r raw] Hp Hr. cbn in *.
  unfold valid_chunk, RuneSelf, RuneError in *. cbn in Hp.
  rewrite Hp by (apply negb_true_iff, andb_false_iff; left; apply N.eqb_neq; lia).
  unfold encode_raw. by rewrite (proj2 (N.ltb_lt _ _)) by done.
Qed.
