(* ===== verification/GoStrings.v ===== *)
(** * Go strings

    [strings.TrimSpace], [strings.ToUpper], [strings.ToLower], [strings.Contains]
    and [strings.TrimRight] on arbitrary byte strings, and the laws the clients
    use.

    The case tables of package unicode are data that is not part of the
    repository, so they are the parameter [UnicodeTables], used only beyond
    ASCII; [UnicodeLaws] states what the tables are documented to satisfy. *)

From S2P Require Import Prelude.
From S2P Require Import Utf8.
From Stdlib Require Import Ascii Sorting.Sorted.
Local Open Scope N_scope.

(** ** Package unicode *)

Class UnicodeTables := {
  table_upper : N → N;   (** [unicode.ToUpper] beyond ASCII *)
  table_lower : N → N;   (** [unicode.ToLower] beyond ASCII *)
  strconv_Quote : string → string; (** the [%q] verb: escapes what the tables
                                       call unprintable *)
}.

(** [unicode.IsSpace]: Latin-1 by cases, the rest from the White_Space table. *)
Definition IsSpace (r : N) : bool :=
  between 0x09 0x0D r || (r =? 0x20) || (r =? 0x85) || (r =? 0xA0)
  || (r =? 0x1680) || between 0x2000 0x200A r || (r =? 0x2028) || (r =? 0x2029)
  || (r =? 0x202F) || (r =? 0x205F) || (r =? 0x3000).

Section case_mapping.
Context `{UnicodeTables}.

Definition ToUpperRune (r : N) : N :=
  if r <? RuneSelf then (if between 97 122 r then r - 32 else r)
  else table_upper r.
Definition ToLowerRune (r : N) : N :=
  if r <? RuneSelf then (if between 65 90 r then r + 32 else r)
  else table_lower r.

(** [strings.Map] with a mapping that drops nothing. *)
Definition map_runes (f : N → N) (s : string) : string :=
  str (mjoin (EncodeRune <$> (f <$> (fst <$> runes (chars s))))).
Definition ToUpper (s : string) : string := map_runes ToUpperRune s.
Definition ToLower (s : string) : string := map_runes ToLowerRune s.
End case_mapping.

(** [strings.TrimSpace]. *)
Definition space_chunk (p : N * list ascii) : bool := IsSpace (fst p).
Definition TrimSpace (s : string) : string :=
  str (raw_bytes (drop_while_end space_chunk
                    (drop_while space_chunk (runes (chars s))))).

(** [len(s)], in bytes. *)
Definition len (s : string) : nat := String.length s.

(** [strings.Contains(s, sub)]. *)
Fixpoint has_prefix (s sub : list ascii) : bool :=
  match sub, s with
  | [], _ => true
  | c :: sub', d :: s' => Ascii.eqb c d && has_prefix s' sub'
  | _ :: _, [] => false
  end.
Fixpoint contains_from (s sub : list ascii) : bool :=
  has_prefix s sub ||
  match s with [] => false | _ :: s' => contains_from s' sub end.
Definition Contains (s sub : string) : bool := contains_from (chars s) (chars sub).

(** [strings.TrimRight(s, cut)] for a one-byte cutset. *)
Definition TrimRight1 (s : string) (c : ascii) : string :=
  str (drop_while_end (Ascii.eqb c) (chars s)).

(** ** Trimming and case mapping *)

Lemma runes_map_runes f s :
  runes (chars (map_runes f s)) =
  encoded (sanitize <$> (f <$> (fst <$> runes (chars s)))).
Proof.
  unfold map_runes. rewrite chars_str.
  replace (EncodeRune <$> (f <$> (fst <$> runes (chars s)))) with
    (encode_raw <$> (sanitize <$> (f <$> (fst <$> runes (chars s))))).
  - apply runes_encoded. apply Forall_fmap, Forall_true. intros r. apply sanitize_valid.
  - rewrite <-(list_fmap_compose sanitize). done.
Qed.

Lemma fst_encoded rs : fst <$> encoded rs = rs.
Proof. unfold encoded. rewrite <-list_fmap_compose. apply list_fmap_id. Qed.

Lemma raw_encoded rs : raw_bytes (encoded rs) = mjoin (encode_raw <$> rs).
Proof. unfold raw_bytes, encoded. by rewrite <-list_fmap_compose. Qed.

(** Two strings with the same runes after decoding that are both valid UTF-8
    are equal; in particular a string of encoded runes is determined by them. *)
Lemma runes_inj s1 s2 : runes (chars s1) = runes (chars s2) → s1 = s2.
Proof. intros H. apply chars_inj. by rewrite <-(runes_raw (chars s1)), H, runes_raw. Qed.

Lemma valid_chunk_encoded r : valid_rune r = true → valid_chunk (r, encode_raw r) = true.
Proof.
  intros _. unfold valid_chunk. cbn [fst snd]. destruct (N.eqb_spec r RuneError) as [->|]; done.
Qed.

Lemma ValidString_map_runes f s : ValidString (map_runes f s) = true.
Proof.
  unfold ValidString. rewrite runes_map_runes. apply forallb_forall.
  intros p Hp%list_elem_of_In. apply list_elem_of_fmap in Hp as (r & -> & Hr).
  apply list_elem_of_fmap in Hr as (r' & -> & _). apply valid_chunk_encoded, sanitize_valid.
Qed.

Definition trim {A} (p : A → bool) (l : list A) : list A :=
  drop_while_end p (drop_while p l).

Lemma drop_while_end_prefix {A} (p : A → bool) l : drop_while_end p l `prefix_of` l.
Proof.
  unfold drop_while_end. destruct (drop_while_suffix p (reverse l)) as [k Hk].
  exists (reverse k). by rewrite <-reverse_app, <-Hk, reverse_involutive.
Qed.

Lemma runes_TrimSpace s :
  runes (chars (TrimSpace s)) = trim space_chunk (runes (chars s)).
Proof.
  unfold TrimSpace. rewrite chars_str. fold (trim space_chunk (runes (chars s))).
  unfold trim. destruct (drop_while_suffix space_chunk (runes (chars s))) as [a Ha].
  destruct (drop_while_end_prefix space_chunk (drop_while space_chunk (runes (chars s))))
    as [b Hb].
  apply (runes_prefix (raw_bytes (drop_while space_chunk (runes (chars s)))) _ b).
  rewrite <-Hb. exact (runes_suffix _ _ _ Ha).
Qed.

Lemma trim_fmap {A B} (p : B → bool) (f : A → B) l :
  trim p (f <$> l) = f <$> trim (λ x, p (f x)) l.
Proof.
  unfold trim, drop_while_end.
  by rewrite drop_while_fmap, <-fmap_reverse, drop_while_fmap, fmap_reverse.
Qed.

Lemma trim_ext {A} (p q : A → bool) l :
  (∀ x, x ∈ l → p x = q x) → trim p l = trim q l.
Proof.
  intros H. unfold trim, drop_while_end. rewrite (drop_while_ext p q l H).
  f_equal. apply drop_while_ext. intros x Hx. apply H.
  rewrite elem_of_reverse in Hx. destruct (drop_while_suffix q l) as [k Hk].
  rewrite Hk. apply elem_of_app. by right.
Qed.

Lemma last_drop_while {A} (p : A → bool) l x :
  last (drop_while p l) = Some x → last l = Some x.
Proof.
  destruct (drop_while_suffix p l) as [k Hk]. intros Hx.
  rewrite Hk, last_app, Hx. done.
Qed.

Lemma head_trim {A} (p : A → bool) l x : head (trim p l) = Some x → p x = false.
Proof.
  unfold trim. intros Hx. apply (drop_while_head p l).
  destruct (drop_while_end_prefix p (drop_while p l)) as [k Hk].
  rewrite Hk. by destruct (drop_while_end p (drop_while p l)); simplify_eq/=.
Qed.

Lemma last_trim {A} (p : A → bool) l x : last (trim p l) = Some x → p x = false.
Proof.
  unfold trim, drop_while_end. rewrite last_reverse.
  apply (drop_while_head p).
Qed.

Lemma trim_id {A} (p : A → bool) l :
  (∀ x, head l = Some x → p x = false) → (∀ x, last l = Some x → p x = false) →
  trim p l = l.
Proof.
  intros Hh Hl. unfold trim, drop_while_end. rewrite (drop_while_id p l Hh).
  rewrite drop_while_id; [apply reverse_involutive|].
  intros x. rewrite <-(reverse_involutive l), last_reverse in Hl. apply Hl.
Qed.

Lemma trim_trim {A} (p : A → bool) l : trim p (trim p l) = trim p l.
Proof. apply trim_id; [apply head_trim|apply last_trim]. Qed.

Lemma TrimSpace_idemp s : TrimSpace (TrimSpace s) = TrimSpace s.
Proof. apply runes_inj. by rewrite !runes_TrimSpace, trim_trim. Qed.

(** An ASCII text that neither begins nor ends with a space is its own trimming. *)
Lemma TrimSpace_ascii l :
  forallb is_ascii l = true →
  (∀ c, head l = Some c → IsSpace (N_of_ascii c) = false) →
  (∀ c, last l = Some c → IsSpace (N_of_ascii c) = false) →
  TrimSpace (str l) = str l.
Proof.
  intros Hl Hh Ht. apply runes_inj. rewrite runes_TrimSpace, chars_str, runes_ascii by done.
  apply trim_id.
  - intros p. destruct l as [|c l]; [done|]. intros [= <-]. by apply Hh.
  - intros p. rewrite fmap_last, fmap_Some. intros (c & Hc & ->). by apply Ht.
Qed.

(** ** What the case tables are documented to satisfy *)

(** Upper-casing yields a code point, is idempotent, and neither creates nor
    removes white space. *)
Class UnicodeLaws (U : UnicodeTables) : Prop := {
  upper_valid r : RuneSelf ≤ r → valid_rune r = true → valid_rune (table_upper r) = true;
  upper_idemp r : RuneSelf ≤ r → valid_rune r = true →
    ToUpperRune (table_upper r) = table_upper r;
  upper_space r : RuneSelf ≤ r → valid_rune r = true →
    IsSpace (table_upper r) = IsSpace r;
}.

Section upper.
Context {U : UnicodeTables} {UL : UnicodeLaws U}.

Lemma ToUpperRune_valid r : valid_rune r = true → valid_rune (ToUpperRune r) = true.
Proof.
  intros Hr. unfold ToUpperRune. destruct (N.ltb_spec r RuneSelf); [|by apply upper_valid].
  unfold RuneSelf in *. apply valid_rune_spec. case_match; lia.
Qed.

Lemma ToUpperRune_idemp r :
  valid_rune r = true → ToUpperRune (ToUpperRune r) = ToUpperRune r.
Proof.
  intros Hr. unfold ToUpperRune at 2 3.
  destruct (N.ltb_spec r RuneSelf); [|by apply upper_idemp].
  unfold ToUpperRune, between, RuneSelf in *. repeat case_match; lia.
Qed.

Lemma ToUpperRune_space r : valid_rune r = true → IsSpace (ToUpperRune r) = IsSpace r.
Proof.
  intros Hr. unfold ToUpperRune.
  destruct (N.ltb_spec r RuneSelf); [|by apply upper_space].
  destruct (between 97 122 r) eqn:Hb; [|done]. unfold between in Hb.
  unfold IsSpace, between, RuneSelf in *. lia.
Qed.

Lemma fst_ToUpper s :
  fst <$> runes (chars (ToUpper s)) = ToUpperRune <$> (fst <$> runes (chars s)).
Proof.
  unfold ToUpper. rewrite runes_map_runes, fst_encoded.
  rewrite <-!list_fmap_compose. apply Forall_fmap_ext_1.
  eapply Forall_impl; [apply runes_valid|]. intros p Hp. cbn.
  unfold sanitize. by rewrite ToUpperRune_valid.
Qed.

Lemma runes_ToUpper s :
  runes (chars (ToUpper s)) = encoded (ToUpperRune <$> (fst <$> runes (chars s))).
Proof.
  unfold ToUpper at 1. rewrite runes_map_runes. f_equal.
  pose proof (fst_ToUpper s) as Hf. unfold ToUpper in Hf.
  by rewrite runes_map_runes, fst_encoded in Hf.
Qed.

(** Upper-casing commutes with trimming, so the canonical form of a key does
    not depend on the order in which the two are applied. *)
Lemma trim_ToUpper s :
  trim space_chunk (runes (chars (ToUpper s))) =
  encoded (ToUpperRune <$> (fst <$> trim space_chunk (runes (chars s)))).
Proof.
  rewrite runes_ToUpper.
  unfold encoded. rewrite !trim_fmap. do 3 f_equal.
  apply trim_ext. intros p Hp. unfold space_chunk. cbn.
  apply ToUpperRune_space. pose proof (runes_valid (chars s)) as Hv.
  rewrite Forall_forall in Hv. by apply Hv.
Qed.

Lemma runes_empty s : runes (chars s) = [] ↔ s = "".
Proof.
  split; [|by intros ->]. intros H. by apply runes_inj.
Qed.

Lemma encoded_empty {A B} (f : B → N) (g : A → B) l : encoded (f <$> (g <$> l)) = [] ↔ l = [].
Proof. by destruct l. Qed.

Lemma ToUpper_empty s : ToUpper s = "" ↔ s = "".
Proof. by rewrite <-runes_empty, runes_ToUpper, encoded_empty, runes_empty. Qed.

(** Upper-casing does not change whether there is more than white space. *)
Lemma blank_ToUpper s : TrimSpace (ToUpper s) = "" ↔ TrimSpace s = "".
Proof.
  by rewrite <-!runes_empty, !runes_TrimSpace, trim_ToUpper, encoded_empty.
Qed.
End upper.

(** ** A concrete table: the Latin-1 letters

    Used to run the model on examples; the theorems hold for every table that
    satisfies [UnicodeLaws]. *)
Definition latin1_upper (r : N) : N :=
  if between 0xE0 0xFE r && negb (r =? 0xF7) then r - 32 else r.
Definition latin1_lower (r : N) : N :=
  if between 0xC0 0xDE r && negb (r =? 0xD7) then r + 32 else r.
Definition latin1_tables : UnicodeTables := {|
  table_upper := latin1_upper; table_lower := latin1_lower; strconv_Quote := λ s, s |}.

Lemma latin1_laws : UnicodeLaws latin1_tables.
Proof.
  split; intros r Hr Hv; cbn [table_upper latin1_tables];
    unfold ToUpperRune, latin1_upper, IsSpace, between, RuneSelf in *;
    cbn [table_upper latin1_tables].
  - apply valid_rune_spec in Hv. apply valid_rune_spec. case_match; lia.
  - unfold latin1_upper, between. repeat case_match; lia.
  - case_match; lia.
Qed.

(** ** Sorting by name *)

(** [sort.Strings] on the names, each carrying its value. *)
Section sort_named.
Context {A : Type}.

Fixpoint insert_named (f : string * A) (l : list (string * A)) : list (string * A) :=
  match l with
  | [] => [f]
  | g :: l' => if String.leb (fst f) (fst g) then f :: l else g :: insert_named f l'
  end.
Definition sort_named (l : list (string * A)) : list (string * A) := foldr insert_named [] l.

Definition name_le (f g : string * A) : Prop := String.leb (fst f) (fst g) = true.

Lemma insert_named_perm f l : insert_named f l ≡ₚ f :: l.
Proof.
  induction l as [|g l IH]; [done|]. cbn. case_match; [done|]. rewrite IH. apply Permutation_swap.
Qed.

Lemma sort_named_perm l : sort_named l ≡ₚ l.
Proof. induction l as [|f l IH]; [done|]. cbn. by rewrite insert_named_perm, IH. Qed.

Lemma insert_named_sorted f l : Sorted name_le l → Sorted name_le (insert_named f l).
Proof.
  induction l as [|g l IH]; intros Hs; [by repeat constructor|]. cbn.
  destruct (String.leb (fst f) (fst g)) eqn:Hfg; [by constructor; [|constructor]|].
  apply Sorted_inv in Hs as [Hs Hhd]. constructor; [by apply IH|].
  assert (name_le g f) as Hgf.
  { unfold name_le. destruct (String.leb_total (fst f) (fst g)); [congruence|done]. }
  destruct l as [|h l]; [by constructor|]. cbn. apply HdRel_inv in Hhd.
  destruct (String.leb (fst f) (fst h)); by constructor.
Qed.

Lemma sort_named_sorted l : Sorted name_le (sort_named l).
Proof. induction l as [|f l IH]; [constructor|]. by apply insert_named_sorted. Qed.
End sort_named.
