(* ===== verification/Model.v ===== *)
(** * Domain types and canonical state machines (internal/model/model.go)

    The two lifecycles: the shipment order, a rank per state, and the invoice
    transition table; and the records that travel between the packages. Go
    string types stay strings here: the code compares them as strings, and an
    LLM answer may hold any string at all. *)

From S2P Require Import Prelude.
From Stdlib Require Import Floats.SpecFloat.

Definition ClassShipment : string := "SHIPMENT".
Definition ClassInvoice : string := "INVOICE".
Definition ClassUnclassified : string := "UNCLASSIFIED".

Definition StatePickedUp : string := "PICKED_UP".
Definition StateInTransit : string := "IN_TRANSIT".
Definition StateOutForDelivery : string := "OUT_FOR_DELIVERY".
Definition StateDelivered : string := "DELIVERED".

Definition shipmentRank : gmap string Z :=
  {[ StatePickedUp := 1%Z; StateInTransit := 2%Z;
     StateOutForDelivery := 3%Z; StateDelivered := 4%Z ]}.

(** Indexing a Go map with a missing key yields the zero value. *)
Definition ShipmentRank (state : string) : Z := default 0%Z (shipmentRank !! state).

Definition StateIssued : string := "ISSUED".
Definition StatePaid : string := "PAID".
Definition StateVoided : string := "VOIDED".
Definition StateRefunded : string := "REFUNDED".

Definition invoiceTransitions : gmap string (list string) :=
  {[ StateIssued := [StatePaid; StateVoided]; StatePaid := [StateRefunded];
     StateVoided := []; StateRefunded := [] ]}.

Definition InvoiceTransitionAllowed (from to : string) : bool :=
  bool_decide (to ∈ default [] (invoiceTransitions !! from)).

Definition IsShipmentState (s : string) : bool :=
  match shipmentRank !! s with Some _ => true | None => false end.
Definition IsInvoiceState (s : string) : bool :=
  match invoiceTransitions !! s with Some _ => true | None => false end.

(** The processing status of a raw record; the column's CHECK admits exactly
    these four. *)
Inductive RawStatus : Type :=
  | StatusPending
  | StatusProcessing
  | StatusProcessed
  | StatusFailed.

Definition RawStatus_string (st : RawStatus) : string :=
  match st with
  | StatusPending => "PENDING"
  | StatusProcessing => "PROCESSING"
  | StatusProcessed => "PROCESSED"
  | StatusFailed => "FAILED"
  end.

#[export] Instance RawStatus_eq_dec : EqDecision RawStatus.
Proof. solve_decision. Defined.

(** Instants are nanoseconds since the Unix epoch; amounts are int64; the
    confidence is a binary64, as the specification of IEEE 754 has it. *)
Abbreviation Time := Z.
Abbreviation float64 := spec_float.

Module RawEvent.
Record t : Type := mk { ID : string; Payload : string; Attempts : Z }.
End RawEvent.

Module Normalized.
Record t : Type := mk {
  Classification : string;
  EntityKey : string;
  CanonicalState : string;
  EventTime : option Time;
  AmountMinor : option Z;
  Currency : string;
  VendorStateText : string;
  Confidence : float64
}.
(** [model.Normalized{}] *)
Definition zero : t := mk "" "" "" None None "" "" (S754_zero false).
End Normalized.

Module Entity.
Record t : Type := mk {
  EntityKey : string;
  Type_ : string;
  CurrentState : string;
  CurrentRank : Z;
  LastEventTime : option Time;
  AmountMinor : option Z;
  Currency : option string;
  UpdatedAt : Time
}.
End Entity.

(** ** The shipment lifecycle is a total order given by the rank *)

Lemma shipmentRank_cases s r :
  shipmentRank !! s = Some r →
  (s = StatePickedUp ∧ r = 1%Z) ∨ (s = StateInTransit ∧ r = 2%Z) ∨
  (s = StateOutForDelivery ∧ r = 3%Z) ∨ (s = StateDelivered ∧ r = 4%Z).
Proof.
  unfold shipmentRank. rewrite !lookup_insert_Some, lookup_singleton_Some.
  naive_solver.
Qed.

Lemma IsShipmentState_cases s :
  IsShipmentState s = true ↔
  s = StatePickedUp ∨ s = StateInTransit ∨ s = StateOutForDelivery ∨ s = StateDelivered.
Proof.
  unfold IsShipmentState. split.
  - destruct (shipmentRank !! s) eqn:Hs; [|done]. apply shipmentRank_cases in Hs. break_cases.
  - by intros [->|[->|[->| ->]]].
Qed.

Lemma IsInvoiceState_cases s :
  IsInvoiceState s = true ↔
  s = StateIssued ∨ s = StatePaid ∨ s = StateVoided ∨ s = StateRefunded.
Proof.
  unfold IsInvoiceState. split.
  - destruct (invoiceTransitions !! s) eqn:Hs; [|done]. revert Hs.
    unfold invoiceTransitions. rewrite !lookup_insert_Some, lookup_singleton_Some.
    naive_solver.
  - by intros [->|[->|[->| ->]]].
Qed.

Lemma ShipmentRank_range s : (0 ≤ ShipmentRank s ≤ 4)%Z.
Proof.
  unfold ShipmentRank. destruct (shipmentRank !! s) eqn:Hs; cbn; [|lia].
  apply shipmentRank_cases in Hs. break_cases.
Qed.

Lemma ShipmentRank_known s : IsShipmentState s = true ↔ (1 ≤ ShipmentRank s)%Z.
Proof.
  unfold IsShipmentState, ShipmentRank. destruct (shipmentRank !! s) eqn:Hs; cbn.
  - apply shipmentRank_cases in Hs. break_cases.
  - split; [done|lia].
Qed.

Lemma InvoiceTransitionAllowed_cases from to :
  InvoiceTransitionAllowed from to = true ↔
  (from = StateIssued ∧ (to = StatePaid ∨ to = StateVoided)) ∨
  (from = StatePaid ∧ to = StateRefunded).
Proof.
  unfold InvoiceTransitionAllowed. rewrite bool_decide_eq_true. split.
  - destruct (invoiceTransitions !! from) as [l|] eqn:Hl; cbn; [|set_solver].
    revert Hl. unfold invoiceTransitions.
    rewrite !lookup_insert_Some, lookup_singleton_Some.
    rewrite list_elem_of_In. intros. break_cases; cbn in *; break_cases.
  - intros [[-> [->| ->]]|[-> ->]]; cbn; set_solver.
Qed.

(** The order of the shipment states is strict. *)
Lemma ShipmentRank_inj s1 s2 :
  IsShipmentState s1 = true → IsShipmentState s2 = true →
  ShipmentRank s1 = ShipmentRank s2 → s1 = s2.
Proof.
  rewrite !IsShipmentState_cases.
  by intros [->|[->|[->| ->]]] [->|[->|[->| ->]]].
Qed.

(** No state belongs to both lifecycles. *)
Lemma shipment_not_invoice s : IsShipmentState s = true → IsInvoiceState s = false.
Proof. rewrite IsShipmentState_cases. by intros [->|[->|[->| ->]]]. Qed.
