(* ===== verification/Llm.v ===== *)
(** * The model boundary (internal/llm/llm.go)

    The raw answer of a model, the audit metadata around it, and the [Client]
    interface. The error side of the boundary ([APIError], [Retryable]) is in
    GoErrors.v. A client is not a function of the payload alone, since two calls
    on one payload may answer differently: it is given the position of the call
    in the life of the process. *)

From S2P Require Import Prelude GoErrors Model.

Module Response.
Record t : Type := mk {
  Classification : string;
  EntityKey : string;
  CanonicalState : string;
  EventTime : string;
  AmountMinor : option Z;
  Currency : string;
  VendorStateText : string;
  Confidence : float64
}.
End Response.

Module Result.
Record t : Type := mk { Response : Response.t; Model : string; PromptVer : string }.
End Result.

(** [Normalize(ctx, raw)]. *)
Class Client : Type := Normalize : nat → string → result error Result.t.
