(* ===== verification/Strconv.v ===== *)
(** * strconv and time.ParseDuration, as far as the program uses them

    [strconv.ParseInt] and [Atoi] in base ten, [strconv.ParseFloat] with its
    decimal, hexadecimal and special forms, and [time.ParseDuration]. Errors carry
    texts nobody reads, so a failed conversion is [None]. Digits are kept in full
    where Go keeps nineteen of them and falls back on a big decimal: both round the
    written number once, to nearest, ties to even. *)

From S2P Require Import Prelude Utf8 Model.
From Stdlib Require Import Ascii Floats.SpecFloat.
Local Open Scope Z_scope.

(** ** Characters *)

Definition isDigit10 (c : ascii) : bool := between 48 57 (N_of_ascii c).
Definition digit_value (c : ascii) : Z := Z.of_N (N_of_ascii c) - 48.

(** [lower(c) = c | ('x' - 'X')] *)
Definition lower (c : ascii) : ascii := ascii_of_N (N.lor (N_of_ascii c) 32).

(** A digit of the given base, 10 or 16. *)
Definition digit_of (hex : bool) (c : ascii) : option Z :=
  if isDigit10 c then Some (digit_value c)
  else if hex && between 97 102 (N_of_ascii (lower c))
  then Some (Z.of_N (N_of_ascii (lower c)) - 97 + 10)
  else None.

(** ** Integers *)

Definition digits_value (l : list ascii) : Z := foldl (λ acc c, 10 * acc + digit_value c) 0 l.

(** An optional sign. *)
Definition sign (l : list ascii) : bool * list ascii :=
  match l with
  | "-"%char :: l' => (true, l')
  | "+"%char :: l' => (false, l')
  | _ => (false, l)
  end.

(** [strconv.ParseInt(s, 10, 64)]: a sign, digits only, in range. *)
Definition ParseInt64 (l : list ascii) : option Z :=
  let '(neg, digits) := sign l in
  if forallb isDigit10 digits && negb (bool_decide (digits = [])) then
    let n := if (neg : bool) then - digits_value digits else digits_value digits in
    if (- 2 ^ 63 <=? n) && (n <? 2 ^ 63) then Some n else None
  else None.

(** [strconv.Atoi] on a 64-bit platform. *)
Definition Atoi (s : string) : option Z := ParseInt64 (chars s).

(** [strconv.FormatInt(n, 10)]: the digits from the last one on. *)
Definition digit_char (d : Z) : ascii := ascii_of_N (Z.to_N (48 + d)).

Fixpoint digits_of (fuel : nat) (n : Z) (acc : list ascii) : list ascii :=
  match fuel with
  | O => acc
  | S fuel' =>
    let acc := digit_char (n mod 10) :: acc in
    if n <? 10 then acc else digits_of fuel' (n / 10) acc
  end.
(** A number has at most as many digits as bits. *)
Definition FormatUint (n : Z) : list ascii := digits_of (S (Z.to_nat (Z.log2 n))) n [].
Definition FormatInt (n : Z) : list ascii :=
  if n <? 0 then "-"%char :: FormatUint (- n) else FormatUint n.

(** ** Floats *)

(** The mantissa as [readFloat] collects it: the digits from the first non-zero
    one on, their count, the position of the point, and what was seen. *)
Record mantissa : Type := mkMant {
  m_value : Z;
  m_nd : Z;
  m_dp : Z;
  m_sawdot : bool;
  m_sawdigits : bool;
  m_underscores : bool
}.
Definition no_digits : mantissa := mkMant 0 0 0 false false false.

Definition see_digit (hex : bool) (d : Z) (m : mantissa) : mantissa :=
  if (d =? 0) && (m_nd m =? 0)
  then mkMant (m_value m) (m_nd m) (m_dp m - 1) (m_sawdot m) true (m_underscores m)
  else mkMant (m_value m * (if hex then 16 else 10) + d) (m_nd m + 1) (m_dp m)
         (m_sawdot m) true (m_underscores m).

(** The loop of [readFloat]. *)
Fixpoint read_mantissa (hex : bool) (m : mantissa) (l : list ascii)
    : mantissa * list ascii :=
  match l with
  | [] => (m, [])
  | c :: l' =>
    if Ascii.eqb c "_" then
      read_mantissa hex
        (mkMant (m_value m) (m_nd m) (m_dp m) (m_sawdot m) (m_sawdigits m) true) l'
    else if Ascii.eqb c "." then
      if m_sawdot m then (m, l) else
      read_mantissa hex
        (mkMant (m_value m) (m_nd m) (m_nd m) true (m_sawdigits m) (m_underscores m)) l'
    else match digit_of hex c with
         | Some d => read_mantissa hex (see_digit hex d m) l'
         | None => (m, l)
         end
  end.

(** The digits of the exponent; the value stops growing at 10000. *)
Fixpoint read_exponent (e : Z) (us : bool) (l : list ascii) : Z * bool * list ascii :=
  match l with
  | [] => (e, us, [])
  | c :: l' =>
    if Ascii.eqb c "_" then read_exponent e true l'
    else if isDigit10 c
    then read_exponent (if e <? 10000 then e * 10 + digit_value c else e) us l'
    else (e, us, l)
  end.

(** [underscoreOK], whose state is the kind of the last character. *)
Inductive seen : Type := SeenStart | SeenDigit | SeenUnderscore | SeenOther.

Fixpoint underscore_from (hex : bool) (saw : seen) (l : list ascii) : bool :=
  match l with
  | [] => match saw with SeenUnderscore => false | _ => true end
  | c :: l' =>
    if bool_decide (is_Some (digit_of hex c)) then underscore_from hex SeenDigit l'
    else if Ascii.eqb c "_" then
      match saw with SeenDigit => underscore_from hex SeenUnderscore l' | _ => false end
    else match saw with
         | SeenUnderscore => false
         | _ => underscore_from hex SeenOther l'
         end
  end.

Definition underscoreOK (l : list ascii) : bool :=
  match snd (sign l) with
  | "0"%char :: p :: l' =>
    if bool_decide (lower p ∈ ["b"; "o"; "x"]%char)
    then underscore_from (Ascii.eqb (lower p) "x") SeenDigit l'
    else underscore_from false SeenStart (snd (sign l))
  | l' => underscore_from false SeenStart l'
  end.

(** What [readFloat] reads off the whole of [l]: sign, mantissa, exponent (a power
    of ten, or of two if hexadecimal), number of digits, base. *)
Record read_number : Type := mkRead {
  r_neg : bool; r_mant : Z; r_exp : Z; r_nd : Z; r_hex : bool
}.

Definition readFloat (l : list ascii) : option read_number :=
  let '(neg, l1) := sign l in
  let '(hex, l2) := match l1 with
                    | "0"%char :: x :: c :: l' =>
                      if Ascii.eqb (lower x) "x" then (true, c :: l') else (false, l1)
                    | _ => (false, l1)
                    end in
  let '(m, l3) := read_mantissa hex no_digits l2 in
  if negb (m_sawdigits m) then None else
  let dp := if m_sawdot m then m_dp m else m_nd m in
  let dp := if (hex : bool) then dp * 4 else dp in
  let nd := if hex then m_nd m * 4 else m_nd m in
  let finish (dp : Z) (us : bool) :=
    if us && negb (underscoreOK l) then None
    else Some (mkRead neg (m_value m) (if m_value m =? 0 then 0 else dp - nd) (m_nd m) hex) in
  match l3 with
  | [] => if hex then None else finish dp (m_underscores m)
  | c :: l4 =>
    if negb (Ascii.eqb (lower c) (if hex then "p" else "e")) then None else
    let '(eneg, l5) := sign l4 in
    match l5 with
    | d :: _ =>
      if negb (isDigit10 d) then None else
      let '(e, us, l6) := read_exponent 0 (m_underscores m) l5 in
      if negb (bool_decide (l6 = [])) then None else
      finish (dp + (if (eneg : bool) then - e else e)) us
    | [] => None
    end
  end.

(** The binary64 nearest to [m * 10^e], of [size] digits; [None] beyond the range.
    The first two tests only avoid powers that do not matter. *)
Definition round_decimal (neg : bool) (m : positive) (size e : Z) : option float64 :=
  if 400 <? e then None
  else if e <? - (400 + size) then Some (S754_zero neg)
  else
    let '(q, e', loc) :=
      if 0 <=? e then SFdiv_core_binary 53 1024 (Zpos m * 10 ^ e) 0 1 0
      else SFdiv_core_binary 53 1024 (Zpos m) 0 (10 ^ (- e)) 0 in
    match binary_round_aux 53 1024 neg q e' loc with
    | S754_infinity _ => None
    | f => Some f
    end.

(** The same for [m * 2^e]. *)
Definition round_binary (neg : bool) (m : positive) (e : Z) : option float64 :=
  match binary_round 53 1024 neg m e with
  | S754_infinity _ => None
  | f => Some f
  end.

(** [special]: infinities and NaN, in any case. *)
Definition special (l : list ascii) : option float64 :=
  let '(neg, l') := sign l in
  let low := lower <$> l' in
  if bool_decide (low = chars "inf" ∨ low = chars "infinity") then Some (S754_infinity neg)
  else if bool_decide (lower <$> l = chars "nan") then Some S754_nan
  else None.

(** [strconv.ParseFloat(s, 64)] *)
Definition ParseFloat (l : list ascii) : option float64 :=
  match special l with
  | Some f => Some f
  | None =>
    r ← readFloat l;
    match r_mant r with
    | Zpos p => if r_hex r then round_binary (r_neg r) p (r_exp r)
                else round_decimal (r_neg r) p (r_nd r) (r_exp r)
    | _ => Some (S754_zero (r_neg r))
    end
  end.

(** *** Writing *)

(** A positive binary64 as a fraction, and the power of ten just above it: the
    least [k] with [num / den < 10^k]. *)
Definition fraction (m : positive) (e : Z) : Z * Z :=
  if 0 <=? e then (Zpos m * 2 ^ e, 1) else (Zpos m, 2 ^ (- e)).
Definition below_pow10 (num den k : Z) : bool :=
  if 0 <=? k then num <? den * 10 ^ k else num * 10 ^ (- k) <? den.
Definition decimal_point (num den : Z) : Z :=
  let k := (Z.log2 num - Z.log2 den - 1) * 30103 / 100000 in
  default (k + 3) (find (below_pow10 num den) [k; k + 1; k + 2]).

Fixpoint drop_zeros (l : list ascii) : list ascii :=
  match l with
  | [] => []
  | c :: l' => match drop_zeros l' with
               | [] => if Ascii.eqb c "0" then [] else [c]
               | l'' => c :: l''
               end
  end.

(** Decimal digits and the position of the point: [0.d1d2... * 10^dp]. *)
Definition decimal : Type := list ascii * Z.
Definition decimal_of (d exp10 : Z) : decimal :=
  match drop_zeros (FormatUint d) with
  | [] => ([], 0)
  | ds => (ds, Z.of_nat (length (FormatUint d)) + exp10)
  end.

(** [%e] without padding the exponent, as encoding/json leaves it. *)
Definition fmtE (d : decimal) : list ascii :=
  let '(ds, dp) := d in
  (match ds with
   | [] => ["0"%char]
   | [c] => [c]
   | c :: ds' => c :: "."%char :: ds'
   end)
  ++ "e"%char :: (if dp - 1 <? 0 then "-"%char else "+"%char) :: FormatUint (Z.abs (dp - 1)).

(** [%f] *)
Definition fmtF (d : decimal) : list ascii :=
  let '(ds, dp) := d in
  let nd := Z.of_nat (length ds) in
  let int :=
    if dp <=? 0 then ["0"%char]
    else take (Z.to_nat dp) ds ++ replicate (Z.to_nat (dp - nd)) "0"%char in
  let frac :=
    replicate (Z.to_nat (Z.min (- dp) (nd - dp))) "0"%char ++ drop (Z.to_nat dp) ds in
  int ++ (if nd - dp <=? 0 then [] else "."%char :: frac).

(** The format encoding/json asks for, by the magnitude. *)
Definition fmt_decimal (f : float64) (d : decimal) : list ascii :=
  let small := SFltb (SFabs f) (S754_finite false 4722366482869645 (-72)) in    (* 1e-6 *)
  let large := negb (SFltb (SFabs f) (S754_finite false 7629394531250000 17)) in (* 1e21 *)
  if small || large then fmtE d else fmtF d.

(** The shortest digits that read back: with [n] digits the two decimals around the
    number are tried, the nearer one first. The search ends at the latest with the
    exact expansion. *)
Fixpoint shortest (fuel : nat) (f : float64) (num den k : Z) (n : Z) : decimal :=
  let scaled := if k <=? n then num * 10 ^ (n - k) else num in
  let unit := if k <=? n then den else den * 10 ^ (k - n) in
  let lo := scaled / unit in
  let near_lo := 2 * (scaled mod unit) <? unit in
  let near_lo := near_lo || (2 * (scaled mod unit) =? unit) && Z.even lo in
  let c1 := decimal_of (if near_lo then lo else lo + 1) (k - n) in
  let c2 := decimal_of (if near_lo then lo + 1 else lo) (k - n) in
  let reads (c : decimal) := match ParseFloat (fmt_decimal f c) with
                             | Some g => SFeqb f g
                             | None => false
                             end in
  match fuel with
  | O => c1
  | S fuel' => if reads c1 then c1 else if reads c2 then c2
               else shortest fuel' f num den k (n + 1)
  end.

(** [floatEncoder] of encoding/json for a float64: [None] where it is an error. A
    binary64 has at most 1074 binary, so decimal, digits after the point. *)
Definition FormatFloat (f : float64) : option (list ascii) :=
  match f with
  | S754_zero neg => Some ((if neg then ["-"%char] else []) ++ ["0"%char])
  | S754_finite neg m e =>
    let '(num, den) := fraction m e in
    let abs := S754_finite false m e in
    let k := decimal_point num den in
    Some ((if neg then ["-"%char] else [])
          ++ fmt_decimal abs (shortest (Z.to_nat (k + 1074)) abs num den k 1))
  | _ => None
  end.

(** ** Durations *)

(** [leadingInt]: the value of the leading digits, at most [2^63]. *)
Fixpoint leadingInt (x : Z) (l : list ascii) : option (Z * list ascii) :=
  match l with
  | [] => Some (x, [])
  | c :: l' =>
    if negb (isDigit10 c) then Some (x, l)
    else if 2 ^ 63 / 10 <? x then None
    else let x' := x * 10 + digit_value c in
         if 2 ^ 63 <? x' then None else leadingInt x' l'
  end.

Definition float_of_Z (z : Z) : float64 := binary_normalize 53 1024 z 0 false.

(** [leadingFraction]: the digits after the point and the power of ten that divides
    them, up to what fits. *)
Fixpoint leadingFraction (x : Z) (scale : float64) (overflow : bool) (l : list ascii)
    : Z * float64 * list ascii :=
  match l with
  | [] => (x, scale, [])
  | c :: l' =>
    if negb (isDigit10 c) then (x, scale, l)
    else if overflow then leadingFraction x scale true l'
    else if (2 ^ 63 - 1) / 10 <? x then leadingFraction x scale true l'
    else let y := x * 10 + digit_value c in
         if 2 ^ 63 <? y then leadingFraction x scale true l'
         else leadingFraction y (SFmul 53 1024 scale (float_of_Z 10)) false l'
  end.

(** [uint64(f)] of a non-negative float. *)
Definition truncate_float (f : float64) : Z :=
  match f with
  | S754_finite _ m e => if 0 <=? e then Zpos m * 2 ^ e else Zpos m / 2 ^ (- e)
  | _ => 0
  end.

(** [unitMap], in nanoseconds; the two micro signs are U+00B5 and U+03BC. *)
Definition unitMap : list (list ascii * Z) :=
  [(chars "ns", 1); (chars "us", 1000);
   (["194"; "181"; "s"]%char, 1000); (["206"; "188"; "s"]%char, 1000);
   (chars "ms", 1000000); (chars "s", 1000000000);
   (chars "m", 60000000000); (chars "h", 3600000000000)].

Definition unit_of (u : list ascii) : option Z :=
  snd <$> find (λ p, bool_decide (fst p = u)) unitMap.

Definition is_unit_char (c : ascii) : bool := negb (Ascii.eqb c "." || isDigit10 c).

(** The longest prefix of characters of a unit. *)
Fixpoint take_unit (l : list ascii) : list ascii :=
  match l with
  | c :: l' => if is_unit_char c then c :: take_unit l' else []
  | [] => []
  end.

(** One number with its unit: its nanoseconds and the rest. *)
Definition duration_part (l : list ascii) : option (Z * list ascii) :=
  '(v, l1) ← leadingInt 0 l;
  let pre := negb (length l1 =? length l)%nat in
  let '(f, scale, l2, post) :=
    match l1 with
    | "."%char :: l' =>
      let '(f, scale, l2) := leadingFraction 0 (float_of_Z 1) false l' in
      (f, scale, l2, negb (length l2 =? length l')%nat)
    | _ => (0, float_of_Z 1, l1, false)
    end in
  if negb (pre || post) then None else
  let u := take_unit l2 in
  if bool_decide (u = []) then None else
  unit ← unit_of u;
  if 2 ^ 63 / unit <? v then None else
  let v := v * unit in
  let v := if 0 <? f
           then v + truncate_float (SFmul 53 1024 (float_of_Z f)
                                      (SFdiv 53 1024 (float_of_Z unit) scale))
           else v in
  if 2 ^ 63 <? v then None else Some (v, drop_while is_unit_char l2).

(** The loop of [ParseDuration]; each part takes at least one byte. *)
Fixpoint duration_parts (fuel : nat) (d : Z) (l : list ascii) : option Z :=
  match l, fuel with
  | [], _ => Some d
  | _, O => None
  | _, S fuel' =>
    '(v, l') ← duration_part l;
    if 2 ^ 63 <? d + v then None else duration_parts fuel' (d + v) l'
  end.

(** [time.ParseDuration] *)
Definition ParseDuration (s : string) : option Z :=
  let '(neg, l) := sign (chars s) in
  if bool_decide (l = ["0"%char]) then Some 0
  else if bool_decide (l = []) then None
  else
    d ← duration_parts (length l) 0 l;
    if (neg : bool) then Some (- d)
    else if 2 ^ 63 - 1 <? d then None else Some d.

(** ** Examples *)

Example ParseDuration_examples :
  ParseDuration "30s" = Some 30000000000 ∧ ParseDuration "1h15m30.918s" = Some 4530918000000 ∧
  ParseDuration "-1.5ms" = Some (-1500000) ∧ ParseDuration ".5h" = Some 1800000000000 ∧
  ParseDuration "0" = Some 0 ∧ ParseDuration "" = None ∧ ParseDuration "30" = None ∧
  ParseDuration ".s" = None ∧ ParseDuration "1d" = None ∧
  ParseDuration "9223372036854775807ns" = Some 9223372036854775807 ∧
  ParseDuration "9223372036854775808ns" = None ∧
  ParseDuration "-9223372036854775808ns" = Some (-9223372036854775808) ∧
  ParseDuration "0.100000000000000000000h" = Some 360000000000 ∧
  ParseDuration "39h9m14.425s" = Some 140954425000000.
Proof. by vm_compute. Qed.

Example ParseFloat_examples :
  ParseFloat (chars "0.5") = Some (S754_finite false 4503599627370496 (-53)) ∧
  ParseFloat (chars "-0") = Some (S754_zero true) ∧
  ParseFloat (chars "1e309") = None ∧ ParseFloat (chars "4e-400") = Some (S754_zero false) ∧
  ParseFloat (chars "1_23.50_0_0e+1_2") = ParseFloat (chars "1.235e+14") ∧
  ParseFloat (chars "-_123.5e+12") = None ∧ ParseFloat (chars "0x1p-1") = ParseFloat (chars ".5") ∧
  ParseFloat (chars "0x_1_2.3_4_5p+1_2") = ParseFloat (chars "74565") ∧
  ParseFloat (chars "NaN") = Some S754_nan ∧ ParseFloat (chars "-Infinity") = Some (S754_infinity true) ∧
  ParseFloat (chars "infi") = None ∧ ParseFloat (chars "1.e") = None ∧ ParseFloat (chars ".") = None ∧
  ParseFloat (chars "0x1e2") = None ∧ ParseFloat (chars "0x1p-99999") = Some (S754_zero false) ∧
  ParseFloat (chars "0x1p1024") = None ∧ ParseFloat (chars "0x1.fffffffffffffp1023") = ParseFloat (chars "1.7976931348623157e308").
Proof. by vm_compute. Qed.

Example FormatFloat_examples :
  let show s := str <$> (ParseFloat (chars s) ≫= FormatFloat) in
  show "0.9" = Some "0.9" ∧ show "-0" = Some "-0" ∧ show "1" = Some "1" ∧
  show "0.000001" = Some "0.000001" ∧ show "0.00000099" = Some "9.9e-7" ∧
  show "1e20" = Some "100000000000000000000" ∧ show "1e21" = Some "1e+21" ∧
  show "-123.456" = Some "-123.456" ∧ show "5e-324" = Some "5e-324" ∧
  show "0.8999999761581421" = Some "0.8999999761581421" ∧
  show "1.7976931348623157e308" = Some "1.7976931348623157e+308" ∧
  show "0.30000000000000004" = Some "0.30000000000000004" ∧ show "nan" = None.
Proof. by vm_compute. Qed.

(** ** Properties *)

Lemma isDigit10_value c : isDigit10 c = true → 0 ≤ digit_value c ≤ 9.
Proof. unfold isDigit10, between, digit_value. lia. Qed.

Lemma foldl_digits_ge l x :
  forallb isDigit10 l = true → 0 ≤ x → x ≤ foldl (λ acc c, 10 * acc + digit_value c) x l.
Proof.
  revert x. induction l as [|c l IH]; intros x; cbn; [lia|].
  intros [Hc Hl]%andb_true_iff Hx. apply isDigit10_value in Hc.
  specialize (IH (10 * x + digit_value c) Hl). lia.
Qed.

Lemma forallb_drop_zeros (p : ascii → bool) l :
  forallb p l = true → forallb p (drop_zeros l) = true.
Proof.
  induction l as [|c l IH]; cbn; [done|]. intros [Hc Hl]%andb_true_iff. specialize (IH Hl).
  destruct (drop_zeros l); [destruct (Ascii.eqb c "0")|]; cbn in *; rewrite ?Hc; auto.
Qed.

(** *** Integers are read back *)

Lemma digit_char_value d :
  0 ≤ d < 10 → isDigit10 (digit_char d) = true ∧ digit_value (digit_char d) = d.
Proof.
  intros Hd. unfold isDigit10, digit_value, digit_char, between. rewrite byte_of_N by lia. lia.
Qed.

Lemma digits_value_app l1 l2 x :
  foldl (λ acc c, 10 * acc + digit_value c) x (l1 ++ l2)
  = foldl (λ acc c, 10 * acc + digit_value c) (foldl (λ acc c, 10 * acc + digit_value c) x l1) l2.
Proof. apply foldl_app. Qed.

(** What the digits of a number are: without leading zeros. *)
Definition numeral (l : list ascii) : Prop :=
  l ≠ [] ∧ forallb isDigit10 l = true ∧ (l = ["0"%char] ∨ head l ≠ Some "0"%char).

Lemma digits_of_spec fuel n acc :
  0 ≤ n < 10 ^ Z.of_nat fuel →
  (0 < fuel)%nat →
  ∃ ds, digits_of fuel n acc = ds ++ acc ∧ digits_value ds = n ∧ numeral ds.
Proof.
  revert n acc. induction fuel as [|fuel IH]; intros n acc Hn Hf; [lia|]. cbn [digits_of].
  destruct (digit_char_value (n mod 10)) as [Hd Hv]; [Z.to_euclidean_division_equations; lia|].
  destruct (Z.ltb_spec n 10) as [Hs|Hb].
  - exists [digit_char (n mod 10)]. split; [done|]. unfold digits_value, numeral. cbn.
    rewrite Z.mod_small in * by lia. rewrite Hd. split; [lia|]. split_ands; [done|done|].
    destruct (Z.eq_dec n 0) as [->|]; [by left|right]. intros [= Hz].
    rewrite Hz in Hv. change (digit_value "0") with 0 in Hv. lia.
  - destruct (IH (n / 10) (digit_char (n mod 10) :: acc)) as (ds & Hds & Hval & Hne & Hdig & Hz).
    { rewrite Nat2Z.inj_succ, Z.pow_succ_r in Hn by lia. Z.to_euclidean_division_equations; lia. }
    { destruct fuel; [cbn in Hn; lia|lia]. }
    exists (ds ++ [digit_char (n mod 10)]). rewrite Hds, <-app_assoc. split; [done|].
    unfold digits_value in *. rewrite digits_value_app, Hval. cbn. rewrite Hv. split.
    { pose proof (Z.div_mod n 10). lia. }
    split; [by destruct ds|]. rewrite forallb_app, Hdig. cbn. rewrite Hd. split; [done|].
    right. destruct Hz as [->|Hz]; [|by destruct ds].
    change (foldl _ 0 ["0"%char]) with 0 in Hval. Z.to_euclidean_division_equations; lia.
Qed.

Lemma FormatUint_spec n :
  0 ≤ n → digits_value (FormatUint n) = n ∧ numeral (FormatUint n).
Proof.
  intros Hn. destruct (digits_of_spec (S (Z.to_nat (Z.log2 n))) n []) as (ds & Hds & Hv & Hnum).
  - split; [done|]. pose proof (Z.log2_nonneg n). rewrite Nat2Z.inj_succ, Z2Nat.id by lia.
    destruct (Z.eq_dec n 0) as [->|Hn0]; [done|].
    destruct (Z.log2_spec n) as [_ Hlt]; [lia|]. eapply Z.lt_le_trans; [exact Hlt|].
    apply Z.pow_le_mono_l. lia.
  - lia.
  - unfold FormatUint. rewrite Hds, app_nil_r. done.
Qed.

Lemma numeral_sign l : numeral l → sign l = (false, l).
Proof.
  intros (Hne & Hd & _). destruct l as [|c l]; [done|]. cbn in Hd.
  apply andb_true_iff in Hd as [Hc _]. by destruct c as [[] [] [] [] [] [] [] []].
Qed.

Lemma ParseInt64_FormatInt n : - 2 ^ 63 ≤ n < 2 ^ 63 → ParseInt64 (FormatInt n) = Some n.
Proof.
  intros Hn. unfold FormatInt, ParseInt64. destruct (Z.ltb_spec n 0) as [Hneg|Hpos].
  - destruct (FormatUint_spec (- n)) as (Hv & Hne & Hd & _); [lia|]. cbn [sign].
    rewrite Hd, bool_decide_eq_false_2 by done. cbn [andb negb]. rewrite Hv, Z.opp_involutive.
    rewrite (proj2 (andb_true_iff _ _)); [done|lia].
  - destruct (FormatUint_spec n Hpos) as (Hv & Hnum). rewrite (numeral_sign _ Hnum).
    destruct Hnum as (Hne & Hd & _).
    rewrite Hd, bool_decide_eq_false_2 by done. cbn [andb negb]. rewrite Hv.
    rewrite (proj2 (andb_true_iff _ _)); [done|lia].
Qed.

(** *** Durations are added up *)

Lemma leadingInt_spec l r x :
  forallb isDigit10 l = true → from_option (λ c, isDigit10 c = false) True (head r) →
  0 ≤ x ≤ 2 ^ 63 →
  let v := foldl (λ acc c, 10 * acc + digit_value c) x l in
  leadingInt x (l ++ r) = if 2 ^ 63 <? v then None else Some (v, r).
Proof.
  intros Hl Hr. revert x Hl. induction l as [|c l IH]; intros x Hl Hx; cbn [foldl app].
  { destruct (Z.ltb_spec (2 ^ 63) x); [lia|].
    destruct r as [|c r]; [done|]. cbn in Hr |- *. by rewrite Hr. }
  cbn in Hl. apply andb_true_iff in Hl as [Hc Hl]. cbn [leadingInt]. rewrite Hc. cbn [negb].
  apply isDigit10_value in Hc. rewrite (Z.mul_comm x 10).
  pose proof (foldl_digits_ge l (10 * x + digit_value c) Hl ltac:(lia)) as Hge.
  change (2 ^ 63 / 10) with 922337203685477580. change (2 ^ 63) with 9223372036854775808 in *.
  destruct (Z.ltb_spec 922337203685477580 x);
    [|destruct (Z.ltb_spec 9223372036854775808 (10 * x + digit_value c)); [|apply IH; [done|lia]]];
    case_match; (done || lia).
Qed.

Lemma take_unit_app u r :
  forallb is_unit_char u = true → from_option (λ c, is_unit_char c = false) True (head r) →
  take_unit (u ++ r) = u ∧ drop_while is_unit_char (u ++ r) = r.
Proof.
  intros Hu Hr. induction u as [|c u IH]; cbn.
  - destruct r as [|c r]; [done|]. cbn in *. by rewrite Hr.
  - cbn in Hu. apply andb_true_iff in Hu as [Hc Hu]. rewrite Hc.
    destruct (IH Hu) as [-> ->]. done.
Qed.

Lemma special_nan l : lower <$> l = chars "nan" → special l = Some S754_nan.
Proof.
  intros Hl. destruct l as [|a [|b [|c [|]]]]; try done.
  unfold special. assert (snd (sign [a; b; c]) = [a; b; c]) as Hs.
  { injection Hl as Ha _ _. destruct a as [[] [] [] [] [] [] [] []]; done. }
  destruct (sign [a; b; c]) as [neg l]. cbn in Hs. subst l. rewrite Hl.
  rewrite bool_decide_eq_false_2 by (by intros [?|?]). done.
Qed.

(** A number of units, as a digit string and an entry of the table. *)
Definition term : Type := list ascii * (list ascii * Z).
Definition term_text (t : term) : list ascii := fst t ++ fst (snd t).
Definition term_value (t : term) : Z := digits_value (fst t) * snd (snd t).
Definition term_ok (t : term) : Prop :=
  fst t ≠ [] ∧ forallb isDigit10 (fst t) = true ∧ snd t ∈ unitMap.
Definition terms_text (ts : list term) : list ascii := mjoin (term_text <$> ts).
Definition terms_value (ts : list term) : Z := foldr (λ t acc, term_value t + acc) 0 ts.

Lemma unitMap_facts p :
  p ∈ unitMap →
  0 < snd p ∧ unit_of (fst p) = Some (snd p) ∧ forallb is_unit_char (fst p) = true ∧ fst p ≠ [].
Proof.
  intros Hp. unfold unitMap in Hp.
  repeat (apply elem_of_cons in Hp as [->|Hp]; [by vm_compute|]). by apply not_elem_of_nil in Hp.
Qed.

Lemma unit_char_not_digit c : is_unit_char c = true → isDigit10 c = false ∧ c ≠ "."%char.
Proof.
  unfold is_unit_char. intros [Hdot Hd]%negb_true_iff%orb_false_iff. split; [done|].
  by apply Ascii.eqb_neq.
Qed.

Lemma digit_not_unit_char c : isDigit10 c = true → is_unit_char c = false.
Proof. unfold is_unit_char. intros ->. by rewrite orb_true_r. Qed.

Lemma term_value_nonneg t : term_ok t → 0 ≤ term_value t.
Proof.
  intros (_ & Hd & [Hn _]%unitMap_facts). unfold term_value, digits_value.
  apply Z.mul_nonneg_nonneg; [by apply (foldl_digits_ge (fst t) 0)|lia].
Qed.

Lemma terms_value_nonneg ts : Forall term_ok ts → 0 ≤ terms_value ts.
Proof.
  induction 1 as [|t ts Ht Hts IH]; [done|]. pose proof (term_value_nonneg t Ht).
  change (terms_value (t :: ts)) with (term_value t + terms_value ts). lia.
Qed.

Lemma duration_part_term t r :
  term_ok t → from_option (λ c, isDigit10 c = true) True (head r) →
  duration_part (term_text t ++ r)
  = if 2 ^ 63 <? term_value t then None else Some (term_value t, r).
Proof.
  destruct t as [ds [u n]]. intros (Hne & Hds & Hu) Hr. cbn [fst snd] in Hne, Hds, Hu.
  destruct (unitMap_facts _ Hu) as (Hn & Hunit & Hchars & Hune). cbn [fst snd] in Hn, Hunit, Hchars, Hune.
  unfold term_text, term_value, duration_part. cbn [fst snd]. rewrite <-app_assoc.
  destruct u as [|c u]; [done|]. pose proof Hchars as Hc. cbn in Hc.
  apply andb_true_iff in Hc as [[Hcd Hdot]%unit_char_not_digit _].
  rewrite leadingInt_spec; [|done|done|lia]. fold (digits_value ds).
  pose proof (foldl_digits_ge ds 0 Hds ltac:(lia)) as Hge. fold (digits_value ds) in Hge.
  destruct (Z.ltb_spec (2 ^ 63) (digits_value ds)) as [Hbig|Hsmall]; cbn [mbind option_bind].
  { destruct (Z.ltb_spec (2 ^ 63) (digits_value ds * n)); [done|nia]. }
  assert (from_option (λ c, is_unit_char c = false) True (head r)) as Hr'.
  { destruct r as [|c' r]; [done|]. by apply digit_not_unit_char. }
  destruct (take_unit_app (c :: u) r Hchars Hr') as [Htake Hdrop].
  assert (length ((c :: u) ++ r) =? length (ds ++ (c :: u) ++ r) = false)%nat as ->.
  { apply Nat.eqb_neq. rewrite (length_app ds). destruct ds; [done|]. cbn. lia. }
  replace (match (c :: u) ++ r with
           | "."%char :: l' => _
           | _ => _
           end) with (0, float_of_Z 1, (c :: u) ++ r, false).
  2:{ cbn [app]. destruct c as [[] [] [] [] [] [] [] []]; done. }
  cbn [negb orb]. rewrite Htake, Hdrop, Hunit. rewrite bool_decide_eq_false_2 by done.
  cbn [mbind option_bind]. cbn [Z.ltb Z.compare].
  destruct (Z.ltb_spec (2 ^ 63 / n) (digits_value ds)) as [Ho|Ho];
    destruct (Z.ltb_spec (2 ^ 63) (digits_value ds * n)) as [Ho'|Ho']; try done.
  assert (digits_value ds ≤ 2 ^ 63 / n) by (apply Z.div_le_lower_bound; lia). lia.
Qed.

Lemma terms_text_head ts :
  Forall term_ok ts → from_option (λ c, isDigit10 c = true) True (head (terms_text ts)).
Proof.
  destruct 1 as [|[[|c ds] p] ts (Hne & Hds & _) _]; [done|done|].
  cbn in Hds |- *. by apply andb_true_iff in Hds as [? _].
Qed.

Lemma duration_parts_terms ts fuel d :
  Forall term_ok ts → (length (terms_text ts) ≤ fuel)%nat → 0 ≤ d ≤ 2 ^ 63 →
  duration_parts fuel d (terms_text ts)
  = if 2 ^ 63 <? d + terms_value ts then None else Some (d + terms_value ts).
Proof.
  intros Hts. revert fuel d. induction Hts as [|t ts Ht Hts IH]; intros fuel d Hfuel Hd.
  { cbn. rewrite Z.add_0_r. destruct (Z.ltb_spec (2 ^ 63) d); [lia|]. by destruct fuel. }
  change (terms_text (t :: ts)) with (term_text t ++ terms_text ts) in *.
  change (terms_value (t :: ts)) with (term_value t + terms_value ts).
  assert (∃ c l, term_text t = c :: l) as (c & l & Hcl).
  { destruct t as [[|c ds] p]; [by destruct Ht|]. by eexists c, _. }
  pose proof (terms_value_nonneg ts Hts). pose proof (term_value_nonneg t Ht).
  rewrite length_app, Hcl in Hfuel. cbn in Hfuel. destruct fuel as [|fuel]; [lia|].
  assert (duration_parts (S fuel) d (term_text t ++ terms_text ts)
    = '(v, l') ← duration_part (term_text t ++ terms_text ts);
      if 2 ^ 63 <? d + v then None else duration_parts fuel (d + v) l') as ->.
  { by rewrite Hcl. }
  rewrite duration_part_term by (done || by apply terms_text_head).
  destruct (Z.ltb_spec (2 ^ 63) (term_value t)); cbn [mbind option_bind].
  { case_match; [done|lia]. }
  destruct (Z.ltb_spec (2 ^ 63) (d + term_value t)).
  { case_match; [done|lia]. }
  rewrite IH by lia. by rewrite Z.add_assoc.
Qed.

(** [ParseDuration] adds up what is written: on any sequence of numbers with
    units, such as 1h30m, it returns the sum in nanoseconds exactly when that sum
    is an int64, and an error otherwise; after a minus sign it returns the opposite,
    down to the least int64; no overflow on the way goes unnoticed. *)
Theorem ParseDuration_sum ts :
  ts ≠ [] → Forall term_ok ts →
  ParseDuration (str (terms_text ts))
    = (if terms_value ts <? 2 ^ 63 then Some (terms_value ts) else None) ∧
  ParseDuration (str ("-"%char :: terms_text ts))
    = (if terms_value ts <=? 2 ^ 63 then Some (- terms_value ts) else None).
Proof.
  intros Hne Hts. pose proof (terms_text_head ts Hts) as Hhead.
  assert (∃ c c' l, terms_text ts = c :: c' :: l) as (c & c' & l & Hcl).
  { destruct Hts as [|[[|c [|c' ds]] [u n]] ts Ht Hts]; [done|by destruct Ht| |by eexists _, _, _].
    destruct Ht as (_ & _ & (_ & _ & _ & Hu)%unitMap_facts). cbn in Hu.
    destruct u as [|c' u]; [done|]. by eexists _, _, _. }
  assert (sign (terms_text ts) = (false, terms_text ts)) as Hsign.
  { rewrite Hcl in Hhead |- *. cbn in Hhead.
    destruct c as [[] [] [] [] [] [] [] []]; try done. }
  unfold ParseDuration. rewrite !chars_str, Hsign. cbn [sign].
  rewrite !bool_decide_eq_false_2 by (by rewrite Hcl).
  rewrite !duration_parts_terms by (done || lia). rewrite Z.add_0_l.
  change (2 ^ 63) with 9223372036854775808. change (9223372036854775808 - 1) with 9223372036854775807.
  split; repeat (case_match; cbn [mbind option_bind]); (done || lia).
Qed.

Lemma ParseDuration_sum_witness :
  ParseDuration "1h30m" = Some 5400000000000.
Proof.
  apply (ParseDuration_sum [(["1"%char], (chars "h", 3600000000000));
                            (["3"; "0"]%char, (chars "m", 60000000000))]).
  - done.
  - repeat constructor; (done || set_solver).
Defined.
