(* ===== verification/Json.v ===== *)
(** * encoding/json, as far as the program uses it

    The scanner of encoding/json as a step function on bytes with its stack of
    open containers ([json.Valid], and the syntax check [json.Unmarshal] starts
    with), the values it reads, the unquoting of strings, and the decoding of
    values into strings, int64s, float64s and struct fields. The texts of syntax
    and type errors are the parameter [json_error]. *)

From S2P Require Import Prelude Utf8 Model Strconv.
From Stdlib Require Import Ascii Floats.SpecFloat.
Local Open Scope Z_scope.

(** ** Values *)

(** The double quote. *)
Definition quote : ascii := "034".

(** Texts are written here with a backquote for each double quote. *)
Definition unquoted (s : string) : string :=
  str ((λ c, if Ascii.eqb c "`" then quote else c) <$> chars s).

(** What [json.Unmarshal] reads; a number keeps its literal, an object its members
    in order, duplicates included. *)
Inductive value : Type :=
  | JNull
  | JBool (b : bool)
  | JNumber (literal : list ascii)
  | JString (s : string)
  | JArray (elements : list value)
  | JObject (members : list (string * value)).

(** Induction on values through the lists inside. *)
Section value_induction.
Context (Q : value → Prop).
Context (Hnull : Q JNull) (Hbool : ∀ b, Q (JBool b)) (Hnum : ∀ l, Q (JNumber l)).
Context (Hstr : ∀ s, Q (JString s)) (Harr : ∀ vs, Forall Q vs → Q (JArray vs)).
Context (Hobj : ∀ ms, Forall (λ p, Q (snd p)) ms → Q (JObject ms)).

Fixpoint value_nested_ind (v : value) : Q v :=
  match v with
  | JNull => Hnull
  | JBool b => Hbool b
  | JNumber l => Hnum l
  | JString s => Hstr s
  | JArray vs =>
    Harr vs ((fix go (vs : list value) : Forall Q vs :=
                match vs with
                | [] => Forall_nil_2 _
                | v :: vs' => Forall_cons_2 _ _ _ (value_nested_ind v) (go vs')
                end) vs)
  | JObject ms =>
    Hobj ms ((fix go (ms : list (string * value)) : Forall (λ p, Q (snd p)) ms :=
                match ms with
                | [] => Forall_nil_2 _
                | p :: ms' => Forall_cons_2 _ _ _ (value_nested_ind (snd p)) (go ms')
                end) ms)
  end.
End value_induction.

(** ** Strings *)

Definition hex_digit (r : N) : option N :=
  if between 48 57 r then Some (r - 48)%N
  else if between 97 102 r then Some (r - 87)%N
  else if between 65 70 r then Some (r - 55)%N
  else None.

(** [getu4] on the four runes after a [\u] that the scanner has accepted. *)
Definition getu4 (h1 h2 h3 h4 : N) : option N :=
  a ← hex_digit h1; b ← hex_digit h2; c ← hex_digit h3; d ← hex_digit h4;
  Some (4096 * a + 256 * b + 16 * c + d)%N.

(** [utf16.DecodeRune] *)
Definition decode_surrogates (r1 r2 : N) : option N :=
  if between 0xD800 0xDBFF r1 && between 0xDC00 0xDFFF r2
  then Some ((r1 - 0xD800) * 1024 + (r2 - 0xDC00) + 0x10000)%N else None.

Definition unescape (e : N) : N :=
  match e with
  | 98 => 8 | 102 => 12 | 110 => 10 | 114 => 13 | 116 => 9
  | _ => e
  end%N.

(** [unquoteBytes]: the runes of a string between its quotes. A lone surrogate
    becomes U+FFFD. *)
Fixpoint unquote (l : list N) : list N :=
  match l with
  | [] => []
  | 92%N :: 117%N :: h1 :: h2 :: h3 :: h4 :: l1 =>
    match getu4 h1 h2 h3 h4 with
    | None => []                                     (* the scanner refuses it *)
    | Some r =>
      if between 0xD800 0xDFFF r then
        match l1 with
        | 92%N :: 117%N :: g1 :: g2 :: g3 :: g4 :: l2 =>
          match getu4 g1 g2 g3 g4 ≫= decode_surrogates r with
          | Some r' => r' :: unquote l2
          | None => RuneError :: unquote l1
          end
        | _ => RuneError :: unquote l1
        end
      else r :: unquote l1
    end
  | 92%N :: e :: l1 => unescape e :: unquote l1
  | r :: l1 => r :: unquote l1
  end.

(** The Go string a quoted text stands for; invalid UTF-8 becomes U+FFFD. *)
Definition unquote_string (raw : list ascii) : string :=
  str (mjoin (EncodeRune <$> unquote (fst <$> runes raw))).

(** ** The scanner *)

Inductive frame : Type :=
  | parseObjectKey (members : list (string * value))
  | parseObjectValue (members : list (string * value)) (key : string)
  | parseArrayValue (elements : list value).

(** The states of the scanner with what has been read of the current value; texts
    are kept backwards. *)
Inductive scan : Type :=
  | stateBeginValue
  | stateBeginValueOrEmpty
  | stateBeginStringOrEmpty
  | stateBeginString
  | stateEndValue (v : value)
  | stateInString (text : list ascii)
  | stateInStringEsc (text : list ascii)
  | stateInStringEscU (text : list ascii) (missing : nat)
  | stateNeg (text : list ascii)
  | state1 (text : list ascii)
  | state0 (text : list ascii)
  | stateDot (text : list ascii)
  | stateDot0 (text : list ascii)
  | stateE (text : list ascii)
  | stateESign (text : list ascii)
  | stateE0 (text : list ascii)
  | stateLiteral (rest : list ascii) (v : value).

Definition maxNestingDepth : Z := 10000.

Definition isSpaceJson (c : ascii) : bool := bool_decide (c ∈ [" "; "009"; "010"; "013"]%char).
Definition isDigit19 (c : ascii) : bool := between 49 57 (N_of_ascii c).
Definition isHexJson (c : ascii) : bool :=
  match hex_digit (N_of_ascii c) with Some _ => true | None => false end.

Definition scanner : Type := scan * list frame.

(** [pushParseState] *)
Definition push (f : frame) (next : scan) (stack : list frame) : option scanner :=
  if Z.of_nat (length stack) <? maxNestingDepth then Some (next, f :: stack) else None.

(** [stateEndValue]: a byte after a complete value. *)
Definition end_value (v : value) (stack : list frame) (c : ascii) : option scanner :=
  if isSpaceJson c then Some (stateEndValue v, stack) else
  match stack with
  | [] => None
  | parseObjectKey ms :: stack' =>
    match v with
    | JString k => if Ascii.eqb c ":" then Some (stateBeginValue, parseObjectValue ms k :: stack')
                   else None
    | _ => None
    end
  | parseObjectValue ms k :: stack' =>
    if Ascii.eqb c "," then Some (stateBeginString, parseObjectKey (ms ++ [(k, v)]) :: stack')
    else if Ascii.eqb c "}" then Some (stateEndValue (JObject (ms ++ [(k, v)])), stack')
    else None
  | parseArrayValue vs :: stack' =>
    if Ascii.eqb c "," then Some (stateBeginValue, parseArrayValue (vs ++ [v]) :: stack')
    else if Ascii.eqb c "]" then Some (stateEndValue (JArray (vs ++ [v])), stack')
    else None
  end.

Definition begin_value (stack : list frame) (c : ascii) : option scanner :=
  if isSpaceJson c then Some (stateBeginValue, stack)
  else if Ascii.eqb c "{" then push (parseObjectKey []) stateBeginStringOrEmpty stack
  else if Ascii.eqb c "[" then push (parseArrayValue []) stateBeginValueOrEmpty stack
  else if Ascii.eqb c quote then Some (stateInString [], stack)
  else if Ascii.eqb c "-" then Some (stateNeg [c], stack)
  else if Ascii.eqb c "0" then Some (state0 [c], stack)
  else if Ascii.eqb c "t" then Some (stateLiteral (chars "rue") (JBool true), stack)
  else if Ascii.eqb c "f" then Some (stateLiteral (chars "alse") (JBool false), stack)
  else if Ascii.eqb c "n" then Some (stateLiteral (chars "ull") JNull, stack)
  else if isDigit19 c then Some (state1 [c], stack)
  else None.

(** One byte. *)
Definition scan_step (st : scanner) (c : ascii) : option scanner :=
  let '(s, stack) := st in
  let number text := end_value (JNumber (reverse text)) stack c in
  let is_e := Ascii.eqb c "e" || Ascii.eqb c "E" in
  match s with
  | stateBeginValue => begin_value stack c
  | stateBeginValueOrEmpty =>
    if isSpaceJson c then Some st
    else if Ascii.eqb c "]" then
      match stack with
      | parseArrayValue vs :: stack' => Some (stateEndValue (JArray vs), stack')
      | _ => None
      end
    else begin_value stack c
  | stateBeginStringOrEmpty =>
    if isSpaceJson c then Some st
    else if Ascii.eqb c "}" then
      match stack with
      | parseObjectKey ms :: stack' => Some (stateEndValue (JObject ms), stack')
      | _ => None
      end
    else if Ascii.eqb c quote then Some (stateInString [], stack) else None
  | stateBeginString =>
    if isSpaceJson c then Some st
    else if Ascii.eqb c quote then Some (stateInString [], stack) else None
  | stateEndValue v => end_value v stack c
  | stateInString t =>
    if Ascii.eqb c quote then Some (stateEndValue (JString (unquote_string (reverse t))), stack)
    else if Ascii.eqb c "\" then Some (stateInStringEsc (c :: t), stack)
    else if (N_of_ascii c <? 32)%N then None
    else Some (stateInString (c :: t), stack)
  | stateInStringEsc t =>
    if bool_decide (c ∈ ["b"; "f"; "n"; "r"; "t"; "\"; "/"; quote]%char)
    then Some (stateInString (c :: t), stack)
    else if Ascii.eqb c "u" then Some (stateInStringEscU (c :: t) 3, stack)
    else None
  | stateInStringEscU t k =>
    if isHexJson c then
      Some (match k with
            | O => stateInString (c :: t)
            | S k' => stateInStringEscU (c :: t) k'
            end, stack)
    else None
  | stateNeg t =>
    if Ascii.eqb c "0" then Some (state0 (c :: t), stack)
    else if isDigit19 c then Some (state1 (c :: t), stack)
    else None
  | state1 t =>
    if isDigit10 c then Some (state1 (c :: t), stack)
    else if Ascii.eqb c "." then Some (stateDot (c :: t), stack)
    else if is_e then Some (stateE (c :: t), stack)
    else number t
  | state0 t =>
    if Ascii.eqb c "." then Some (stateDot (c :: t), stack)
    else if is_e then Some (stateE (c :: t), stack)
    else number t
  | stateDot t => if isDigit10 c then Some (stateDot0 (c :: t), stack) else None
  | stateDot0 t =>
    if isDigit10 c then Some (stateDot0 (c :: t), stack)
    else if is_e then Some (stateE (c :: t), stack)
    else number t
  | stateE t =>
    if Ascii.eqb c "+" || Ascii.eqb c "-" then Some (stateESign (c :: t), stack)
    else if isDigit10 c then Some (stateE0 (c :: t), stack) else None
  | stateESign t => if isDigit10 c then Some (stateE0 (c :: t), stack) else None
  | stateE0 t => if isDigit10 c then Some (stateE0 (c :: t), stack) else number t
  | stateLiteral rest v =>
    match rest with
    | [] => None
    | d :: rest' =>
      if Ascii.eqb c d then
        Some (match rest' with [] => stateEndValue v | _ => stateLiteral rest' v end, stack)
      else None
    end
  end.

Fixpoint scan_all (st : scanner) (l : list ascii) : option scanner :=
  match l with
  | [] => Some st
  | c :: l' => st' ← scan_step st c; scan_all st' l'
  end.

(** [scanner.eof]: a space ends a number; then a value must be complete. *)
Definition scan_eof (st : scanner) : option value :=
  match scan_step st " " with
  | Some (stateEndValue v, []) => Some v
  | _ => None
  end.

(** The value of a text, if the syntax is right. *)
Definition parse_json (text : string) : option value :=
  scan_all (stateBeginValue, []) (chars text) ≫= scan_eof.

(** [json.Valid] *)
Definition Valid (text : string) : bool :=
  match parse_json text with Some _ => true | None => false end.

(** ** Objects *)

(** [p[k]] on a [map[string]any]: of duplicate members the last one wins. *)
Fixpoint lookup_member (ms : list (string * value)) (k : string) : option value :=
  match ms with
  | [] => None
  | (k', v) :: ms' =>
    match lookup_member ms' k with
    | Some v' => Some v'
    | None => if decide (k' = k) then Some v else None
    end
  end.

(** [foldName], compared with an ASCII field name: letters fold to upper case, and
    two runes beyond ASCII fold to K and S. *)
Definition fold_rune (r : N) : N :=
  if between 97 122 r then (r - 32)%N
  else if (r =? 0x212A)%N then 75%N
  else if (r =? 0x17F)%N then 83%N
  else r.
Definition fold_name (s : string) : list N := fold_rune <$> (fst <$> runes (chars s)).
Definition is_field (name key : string) : bool := bool_decide (fold_name key = fold_name name).
