(* ===== verification/JsonEncode.v ===== *)
(** * encoding/json, the writing side

    [json.Marshal] on the values the program writes: HTML-safe quoting of strings,
    numbers by their literals, objects in the order of their members (struct fields
    in order, map keys sorted by the caller). The theorem is that the scanner of
    Json.v reads back what this file writes. *)

From S2P Require Import Prelude Utf8 GoStrings Model Strconv Json.
From Stdlib Require Import Ascii.
Local Open Scope Z_scope.

(** ** Strings *)

Definition hex_char (n : N) : ascii := ascii_of_N (if (n <? 10)%N then 48 + n else 87 + n)%N.

(** [htmlSafeSet], below [RuneSelf] *)
Definition html_safe (r : N) : bool :=
  (32 <=? r)%N && negb (bool_decide (r ∈ [34; 38; 60; 62; 92]%N)).

(** The bytes [appendString] writes for one rune of the source and its bytes. *)
Definition escape_chunk (p : N * list ascii) : list ascii :=
  let '(r, raw) := p in
  if (r <? RuneSelf)%N then
    if html_safe r then raw else
    match r with
    | 34%N | 92%N => "\"%char :: raw
    | 8%N => chars "\b"
    | 12%N => chars "\f"
    | 10%N => chars "\n"
    | 13%N => chars "\r"
    | 9%N => chars "\t"
    | _ => chars "\u00" ++ [hex_char (r / 16); hex_char (r mod 16)]
    end
  else if negb (valid_chunk p) then chars "\ufffd"
  else if (r =? 0x2028)%N || (r =? 0x2029)%N then chars "\u202" ++ [hex_char (r mod 16)]
  else raw.

Definition escape (s : string) : list ascii := mjoin (escape_chunk <$> runes (chars s)).
Definition appendString (s : string) : list ascii := quote :: escape s ++ [quote].

(** ** Values *)

Fixpoint commas (l : list (list ascii)) : list ascii :=
  match l with
  | [] => []
  | [x] => x
  | x :: l' => x ++ ","%char :: commas l'
  end.

Fixpoint encode (v : value) : list ascii :=
  match v with
  | JNull => chars "null"
  | JBool b => chars (if b then "true" else "false")
  | JNumber l => l
  | JString s => appendString s
  | JArray vs => "["%char :: commas (encode <$> vs) ++ ["]"%char]
  | JObject ms =>
    "{"%char :: commas ((λ p, appendString (fst p) ++ ":"%char :: encode (snd p)) <$> ms)
    ++ ["}"%char]
  end.

(** [json.Marshal], and [Encoder.Encode] with its newline. *)
Definition Marshal (v : value) : string := str (encode v).
Definition Encode (v : value) : string := str (encode v ++ ["010"%char]).

(** A value of type [any] that came out of [json.Unmarshal], as [json.Marshal]
    writes it: numbers are float64s, the keys of a map are unique and sorted. *)
Fixpoint any_value (v : value) : value :=
  match v with
  | JNumber l => JNumber (default l (ParseFloat l ≫= FormatFloat))
  | JArray vs => JArray (any_value <$> vs)
  | JObject ms =>
    JObject (sort_named ((fix go (ms : list (string * value)) : list (string * value) :=
      match ms with
      | [] => []
      | (k, x) :: ms' =>
        if bool_decide (k ∈ fst <$> ms') then go ms' else (k, any_value x) :: go ms'
      end) ms))
  | _ => v
  end.

(** ** What reading back yields *)

(** Invalid UTF-8 is written as U+FFFD. *)
Definition scrub (s : string) : string := map_runes id s.

Fixpoint scrubbed (v : value) : value :=
  match v with
  | JString s => JString (scrub s)
  | JArray vs => JArray (scrubbed <$> vs)
  | JObject ms => JObject ((λ p, (scrub (fst p), scrubbed (snd p))) <$> ms)
  | _ => v
  end.

(** The states of the scanner inside a number, and those a number may end in. *)
Definition number_state (s : scan) : option (list ascii) :=
  match s with
  | stateNeg t | state1 t | state0 t | stateDot t | stateDot0 t | stateE t | stateESign t
  | stateE0 t => Some t
  | _ => None
  end.
Definition final_state (s : scan) : bool :=
  match s with state1 _ | state0 _ | stateDot0 _ | stateE0 _ => true | _ => false end.

Fixpoint number_run (s : scan) (l : list ascii) : bool :=
  match l with
  | [] => final_state s
  | c :: l' =>
    match scan_step (s, []) c with
    | Some (s', _) => bool_decide (is_Some (number_state s')) && number_run s' l'
    | None => false
    end
  end.

(** A number literal of JSON. *)
Definition number_text (l : list ascii) : bool :=
  match l with
  | [] => false
  | c :: l' =>
    match begin_value [] c with
    | Some (s, _) => bool_decide (is_Some (number_state s)) && number_run s l'
    | None => false
    end
  end.

Fixpoint numbers_ok (v : value) : bool :=
  match v with
  | JNumber l => number_text l
  | JArray vs => forallb numbers_ok vs
  | JObject ms => forallb (λ p, numbers_ok (snd p)) ms
  | _ => true
  end.

(** The nesting of containers. *)
Fixpoint depth (v : value) : nat :=
  match v with
  | JArray vs => S (foldr (λ v n, depth v `max` n)%nat 0%nat vs)
  | JObject ms => S (foldr (λ p n, depth (snd p) `max` n)%nat 0%nat ms)
  | _ => 0
  end.

(** ** Strings are read back *)

(** The runes of the text written for one rune of the source. *)
Definition escape_runes (p : N * list ascii) : list N :=
  (λ q, fst q) <$> runes (escape_chunk p).

Lemma hex_char_facts n :
  (n < 16)%N → hex_digit (N_of_ascii (hex_char n)) = Some n ∧ is_ascii (hex_char n) = true.
Proof.
  intros Hn. unfold hex_char, is_ascii, hex_digit, between, RuneSelf.
  destruct (N.ltb_spec n 10); rewrite byte_of_N by lia; (split; [|lia]);
    repeat (case_match; [try (f_equal; lia)|]); lia.
Qed.

(** What a chunk must satisfy for the reader to get the rune back. *)
Definition reads_back (l : list ascii) (r : N) : Prop :=
  (∀ t stack rest, scan_all (stateInString t, stack) (l ++ rest)
                   = scan_all (stateInString (reverse l ++ t), stack) rest) ∧
  (∃ rs, l = mjoin (encode_raw <$> rs) ∧ Forall (λ r, valid_rune r = true) rs ∧
         ∀ rest, unquote (rs ++ rest) = r :: unquote rest).

(** Bytes that the scanner passes over inside a string. *)
Definition plain_byte (c : ascii) : bool :=
  negb (Ascii.eqb c quote) && negb (Ascii.eqb c "\") && negb (N_of_ascii c <? 32)%N.

Lemma scan_plain l t stack rest :
  forallb plain_byte l = true →
  scan_all (stateInString t, stack) (l ++ rest)
  = scan_all (stateInString (reverse l ++ t), stack) rest.
Proof.
  revert t. induction l as [|c l IH]; intros t Hl; [done|]. cbn in Hl.
  apply andb_true_iff in Hl as [Hc Hl]. unfold plain_byte in Hc.
  apply andb_true_iff in Hc as [[H1%negb_true_iff H2%negb_true_iff]%andb_true_iff H3%negb_true_iff].
  cbn [app scan_all scan_step]. rewrite H1, H2, H3. cbn [mbind option_bind].
  rewrite IH by done. by rewrite reverse_cons, <-app_assoc.
Qed.

Lemma unquote_plain r rest : r ≠ 92%N → unquote (r :: rest) = r :: unquote rest.
Proof.
  intros Hr. cbn. destruct r as [|p]; [done|].
  do 7 (destruct p as [p|p|]; try done).
Qed.

Lemma encode_raw_plain r :
  valid_rune r = true → (32 ≤ r)%N → r ≠ 34%N → r ≠ 92%N →
  forallb plain_byte (encode_raw r) = true.
Proof.
  intros Hv%valid_rune_spec Hr H34 H92.
  assert (∀ n, (32 ≤ n < 256)%N → n ≠ 34%N → n ≠ 92%N → plain_byte (ascii_of_N n) = true) as Hb.
  { intros n Hn Hn34 Hn92. unfold plain_byte. rewrite byte_of_N by lia.
    rewrite !andb_true_iff, !negb_true_iff, !Ascii.eqb_neq. split_ands; [| |lia];
      intros Heq; apply (f_equal N_of_ascii) in Heq; rewrite byte_of_N in Heq by lia; done. }
  unfold encode_raw. destruct (N.ltb_spec r 0x80); [|destruct (N.ltb_spec r 0x800);
    [|destruct (N.ltb_spec r 0x10000)]]; cbn [forallb]; rewrite !Hb; try done;
    Z.to_euclidean_division_equations; lia.
Qed.

Lemma reads_back_plain r :
  valid_rune r = true → (32 ≤ r)%N → r ≠ 34%N → r ≠ 92%N → reads_back (encode_raw r) r.
Proof.
  intros Hv Hr H34 H92. split.
  - intros t stack rest. by apply scan_plain, encode_raw_plain.
  - exists [r]. cbn. rewrite app_nil_r. split_ands; [done|by repeat constructor|].
    intros rest. by apply unquote_plain.
Qed.

(** A two-byte escape. *)
Lemma reads_back_short c r :
  c ∈ ["b"; "f"; "n"; "r"; "t"; "\"; quote]%char → unescape (N_of_ascii c) = r →
  reads_back ["\"%char; c] r.
Proof.
  intros Hc Hr. split.
  - intros t stack rest. repeat (apply elem_of_cons in Hc as [->|Hc]; [reflexivity|]).
    by apply not_elem_of_nil in Hc.
  - exists [92%N; N_of_ascii c].
    repeat (apply elem_of_cons in Hc as [->|Hc];
      [split_ands; [done|by repeat constructor|]; intros rest; cbn; by rewrite <-Hr|]).
    by apply not_elem_of_nil in Hc.
Qed.

(** A [\u] escape of a rune that is no surrogate. *)
Lemma reads_back_u c1 c2 c3 c4 r :
  Forall (λ c, is_ascii c = true) [c1; c2; c3; c4] →
  getu4 (N_of_ascii c1) (N_of_ascii c2) (N_of_ascii c3) (N_of_ascii c4) = Some r →
  between 0xD800 0xDFFF r = false → reads_back ["\"; "u"; c1; c2; c3; c4]%char r.
Proof.
  intros Ha Hg Hs. rewrite !Forall_cons in Ha. destruct Ha as (H1 & H2 & H3 & H4 & _). split.
  - intros t stack rest. unfold getu4 in Hg.
    assert (∀ t k c d, hex_digit (N_of_ascii c) = Some d →
      scan_step (stateInStringEscU t k, stack) c
      = Some (match k with O => stateInString (c :: t) | S k' => stateInStringEscU (c :: t) k' end,
              stack)) as Hstep.
    { intros t' k c d Hd. cbn [scan_step]. unfold isHexJson. by rewrite Hd. }
    destruct (hex_digit (N_of_ascii c1)) eqn:E1; [|done].
    destruct (hex_digit (N_of_ascii c2)) eqn:E2; [|done].
    destruct (hex_digit (N_of_ascii c3)) eqn:E3; [|done].
    destruct (hex_digit (N_of_ascii c4)) eqn:E4; [|done].
    change (scan_all (stateInString t, stack) (["\"; "u"; c1; c2; c3; c4]%char ++ rest))
      with (scan_all (stateInStringEscU ("u"%char :: "\"%char :: t) 3, stack)
              (c1 :: c2 :: c3 :: c4 :: rest)).
    cbn [scan_all]. do 4 (erewrite Hstep by done; cbn [mbind option_bind]). done.
  - exists (92 :: 117 :: (N_of_ascii <$> [c1; c2; c3; c4]))%N. split_ands.
    + cbn. unfold is_ascii in *. unfold encode_raw, RuneSelf in *.
      rewrite H1, H2, H3, H4. cbn. by rewrite !ascii_N_embedding.
    + repeat constructor; unfold is_ascii, RuneSelf in *; apply valid_rune_spec; lia.
    + intros rest. cbn -[getu4 between]. by rewrite Hg, Hs.
Qed.

Lemma escape_chunk_reads_back p :
  valid_rune (fst p) = true →
  (valid_chunk p = true → snd p = encode_raw (fst p)) → reads_back (escape_chunk p) (fst p).
Proof.
  destruct p as [r raw]. cbn [fst snd]. intros Hv Hraw. unfold escape_chunk.
  destruct (N.ltb_spec r RuneSelf) as [Hs|Hs]; unfold RuneSelf in Hs.
  - rewrite Hraw by (unfold valid_chunk, RuneError; cbn; apply negb_true_iff, andb_false_iff; left;
                     apply N.eqb_neq; lia).
    destruct (html_safe r) eqn:Hh.
    { unfold html_safe in Hh. apply andb_true_iff in Hh as [Hle Hn%negb_true_iff].
      apply bool_decide_eq_false in Hn. apply reads_back_plain; [done|lia|set_solver..]. }
    destruct (decide (r ∈ [8; 9; 10; 12; 13; 34; 92]%N)) as [Hin|Hnin].
    { repeat (apply elem_of_cons in Hin as [->|Hin];
        [by apply reads_back_short; [set_solver|]|]).
      by apply not_elem_of_nil in Hin. }
    replace (match r with 34%N | 92%N => _ | _ => _ end)
      with ("\" :: "u" :: "0" :: "0" :: [hex_char (r / 16); hex_char (r mod 16)])%char.
    2:{ repeat case_match; try done; destruct Hnin; set_solver. }
    assert (r / 16 < 16 ∧ r mod 16 < 16 ∧ r = 16 * (r / 16) + r mod 16)%N as (H1 & H2 & Heq)
      by (Z.to_euclidean_division_equations; lia).
    apply reads_back_u.
    + destruct (hex_char_facts _ H1), (hex_char_facts _ H2). by repeat constructor.
    + unfold getu4. rewrite (proj1 (hex_char_facts _ H1)), (proj1 (hex_char_facts _ H2)).
      change (hex_digit (N_of_ascii "0")) with (Some 0%N). cbn [mbind option_bind]. f_equal. lia.
    + unfold between. lia.
  - destruct (valid_chunk (r, raw)) eqn:Hc; cbn [negb].
    + rewrite Hraw by done. destruct ((r =? 0x2028)%N || (r =? 0x2029)%N) eqn:Hsep.
      * assert (r = 0x2028 ∨ r = 0x2029)%N as [-> | ->] by lia;
          (apply reads_back_u; [by repeat constructor|done|done]).
      * apply reads_back_plain; [done|lia..].
    + unfold valid_chunk in Hc. apply negb_false_iff, andb_true_iff in Hc as [Hr _].
      cbn in Hr. apply N.eqb_eq in Hr as ->. apply reads_back_u; [by repeat constructor|done|done].
Qed.

Lemma reads_back_runes (l : list (N * list ascii)) :
  Forall (λ p, reads_back (escape_chunk p) (fst p)) l →
  (∀ t stack rest, scan_all (stateInString t, stack) (mjoin (escape_chunk <$> l) ++ rest)
     = scan_all (stateInString (reverse (mjoin (escape_chunk <$> l)) ++ t), stack) rest) ∧
  (∃ rs, mjoin (escape_chunk <$> l) = mjoin (encode_raw <$> rs) ∧
         Forall (λ r, valid_rune r = true) rs ∧ unquote rs = fst <$> l).
Proof.
  induction 1 as [|p l [Hscan (rs & Hp & Hrs & Hunq)] _ [IHscan (rs' & Hl & Hrs' & Hunq')]].
  { split; [done|]. by exists []. }
  rewrite fmap_cons. cbn [mjoin list_join]. split.
  - intros t stack rest. rewrite <-app_assoc, Hscan, IHscan.
    by rewrite reverse_app, <-app_assoc.
  - exists (rs ++ rs'). rewrite fmap_app, join_app, <-Hp, <-Hl. split_ands; [done| |].
    + by apply Forall_app.
    + by rewrite Hunq, Hunq'.
Qed.

Lemma runes_reads_back s :
  Forall (λ p, reads_back (escape_chunk p) (fst p)) (runes (chars s)).
Proof.
  pose proof (runes_valid (chars s)) as Hv. pose proof (runes_chunks (chars s)) as Hc.
  rewrite Forall_forall in *. intros p Hp. by apply escape_chunk_reads_back; [apply Hv|apply Hc].
Qed.

Lemma unquote_escape s : unquote_string (escape s) = scrub s.
Proof.
  destruct (reads_back_runes _ (runes_reads_back s)) as [_ (rs & Hl & Hrs & Hunq)].
  unfold unquote_string, escape, scrub, map_runes. rewrite Hl, runes_encoded by done.
  unfold encoded. rewrite <-list_fmap_compose. cbn.
  replace ((fst ∘ (λ r : N, (r, encode_raw r))) <$> rs) with rs
    by (symmetry; by rewrite (list_fmap_ext _ id rs), list_fmap_id by done).
  rewrite Hunq. by rewrite list_fmap_id.
Qed.

(** A string without invalid bytes is unchanged. *)
Lemma scrub_valid s : ValidString s = true → scrub s = s.
Proof.
  intros Hv. apply chars_inj. unfold scrub, map_runes. rewrite chars_str, list_fmap_id.
  rewrite <-(runes_raw (chars s)) at 2. unfold raw_bytes.
  pose proof (runes_valid (chars s)) as Hr. pose proof (runes_chunks (chars s)) as Hc.
  unfold ValidString in Hv. rewrite forallb_forall in Hv. f_equal.
  rewrite <-list_fmap_compose. apply list_fmap_ext. intros i p Hp%list_elem_of_lookup_2.
  rewrite Forall_forall in Hr, Hc. cbn. unfold EncodeRune, sanitize. rewrite (Hr p Hp).
  symmetry. apply Hc; [done|]. apply Hv. by apply list_elem_of_In.
Qed.

(** ** Numbers are read back *)

Lemma end_value_not_number v stack c s stack' :
  end_value v stack c = Some (s, stack') → number_state s = None.
Proof. unfold end_value. repeat case_match; intros; by simplify_eq. Qed.

(** Inside a number the stack is not touched. *)
Lemma number_step s t c s' stack0 stack1 :
  number_state s = Some t → scan_step (s, stack0) c = Some (s', stack1) →
  is_Some (number_state s') →
  stack1 = stack0 ∧ number_state s' = Some (c :: t) ∧
  ∀ stack, scan_step (s, stack) c = Some (s', stack).
Proof.
  intros Hs Hstep [t' Ht'].
  assert (∀ v st, end_value v st c = Some (s', stack1) → False) as Hend.
  { intros v st Hv. apply end_value_not_number in Hv. congruence. }
  destruct s; try done; injection Hs as ->; cbn [scan_step] in *;
    repeat case_match; try (exfalso; eapply Hend; eassumption); simplify_eq; by split_and!.
Qed.

Lemma number_run_scan l s t :
  number_state s = Some t → number_run s l = true →
  ∃ s', final_state s' = true ∧ number_state s' = Some (reverse l ++ t) ∧
    ∀ stack rest, scan_all (s, stack) (l ++ rest) = scan_all (s', stack) rest.
Proof.
  revert s t. induction l as [|c l IH]; cbn [number_run]; intros s t Hs Hrun; [by exists s|].
  destruct (scan_step (s, []) c) as [[s1 st1]|] eqn:Hstep; [|done].
  apply andb_true_iff in Hrun as [Hnum%bool_decide_eq_true Hrun].
  destruct (number_step _ _ _ _ _ _ Hs Hstep Hnum) as (-> & Ht1 & Hall).
  destruct (IH s1 _ Ht1 Hrun) as (s' & Hf & Ht' & Hscan). exists s'. split_ands; [done| |].
  - by rewrite reverse_cons, <-app_assoc.
  - intros stack rest. cbn [app scan_all]. rewrite Hall. apply Hscan.
Qed.

(** The bytes that may follow a value. *)
Definition delimiter (c : ascii) : Prop := c ∈ [","; "]"; "}"; " "; "010"]%char.

Lemma final_step s t c stack :
  final_state s = true → number_state s = Some t → delimiter c →
  scan_step (s, stack) c = end_value (JNumber (reverse t)) stack c.
Proof.
  intros Hf Ht Hc. unfold delimiter in Hc.
  destruct s; try done; injection Ht as ->;
    repeat (apply elem_of_cons in Hc as [->|Hc]; [reflexivity|]); by apply not_elem_of_nil in Hc.
Qed.

Lemma begin_value_stack c stack s :
  is_Some (number_state s) → begin_value [] c = Some (s, []) → begin_value stack c = Some (s, stack).
Proof.
  intros [t Ht]. unfold begin_value, push. repeat case_match; intros; by simplify_eq.
Qed.

Lemma begin_value_number c s stack :
  begin_value [] c = Some (s, stack) → is_Some (number_state s) →
  stack = [] ∧ number_state s = Some [c].
Proof.
  unfold begin_value, push. intros Hb [t Ht]. repeat case_match; simplify_eq; done.
Qed.

Lemma scan_number l stack c rest :
  number_text l = true → delimiter c →
  scan_all (stateBeginValue, stack) (l ++ c :: rest)
  = end_value (JNumber l) stack c ≫= λ st, scan_all st rest.
Proof.
  intros Hl Hc. destruct l as [|d l]; [done|]. cbn [number_text] in Hl.
  destruct (begin_value [] d) as [[s st]|] eqn:Hb; [|done].
  apply andb_true_iff in Hl as [Hnum%bool_decide_eq_true Hrun].
  destruct (begin_value_number _ _ _ Hb Hnum) as [-> Ht].
  destruct (number_run_scan _ _ _ Ht Hrun) as (s' & Hf & Ht' & Hscan).
  cbn [app scan_all]. change (scan_step (stateBeginValue, stack) d) with (begin_value stack d).
  rewrite (begin_value_stack d stack s Hnum Hb). cbn [mbind option_bind].
  rewrite Hscan. cbn [scan_all]. rewrite (final_step _ _ _ _ Hf Ht' Hc).
  by rewrite reverse_app, reverse_involutive.
Qed.

(** *** The numbers the service writes *)

Lemma digit_cases c :
  isDigit10 c = true → c ≠ "0"%char → isDigit19 c = true ∧ isSpaceJson c = false.
Proof.
  intros Hd Hc. unfold isDigit10, isDigit19, between in *. split.
  - assert (N_of_ascii c ≠ 48)%N; [|lia]. intros H. apply Hc. by rewrite <-(encode_byte _ _ H).
  - unfold isSpaceJson. apply bool_decide_eq_false.
    intros H. repeat (apply elem_of_cons in H as [->|H]; [done|]). by apply not_elem_of_nil in H.
Qed.

(** Digits keep these states. *)
Definition digit_state (f : list ascii → scan) : Prop :=
  ∀ t c, isDigit10 c = true → scan_step (f t, []) c = Some (f (c :: t), []) ∧
         is_Some (number_state (f t)).

Lemma digit_states : digit_state state1 ∧ digit_state stateDot0 ∧ digit_state stateE0.
Proof. split_ands; intros t c Hc; cbn; rewrite Hc; by eauto. Qed.

Lemma number_run_digits f ds l t :
  digit_state f → forallb isDigit10 ds = true →
  number_run (f t) (ds ++ l) = number_run (f (reverse ds ++ t)) l.
Proof.
  intros Hf. revert t. induction ds as [|c ds IH]; intros t Hds; [done|]. cbn in Hds.
  apply andb_true_iff in Hds as [Hc Hds]. cbn [app number_run].
  rewrite (proj1 (Hf t c Hc)), bool_decide_eq_true_2 by apply (Hf _ _ Hc).
  cbn [andb]. rewrite IH by done. by rewrite reverse_cons, <-app_assoc.
Qed.

(** The tail of a number: a fraction, an exponent, both or none. *)
Definition frac_text (l : list ascii) : Prop :=
  l = [] ∨ ∃ ds, l = "."%char :: ds ∧ ds ≠ [] ∧ forallb isDigit10 ds = true.
Definition exp_text (l : list ascii) : Prop :=
  l = [] ∨ ∃ sg ds, l = "e"%char :: sg :: ds ∧ (sg = "+" ∨ sg = "-")%char ∧
                    ds ≠ [] ∧ forallb isDigit10 ds = true.

Lemma run_exp s t l :
  s = state1 t ∨ s = state0 t ∨ s = stateDot0 t → exp_text l → number_run s l = true.
Proof.
  intros Hs [->|(sg & ds & -> & Hsg & Hne & Hds)]; [by destruct Hs as [-> |[-> | ->]]|].
  cbn [number_run].
  assert (scan_step (s, []) "e" = Some (stateE ("e"%char :: t), [])) as ->
    by (by destruct Hs as [-> |[-> | ->]]).
  rewrite bool_decide_eq_true_2 by (by eexists). cbn [andb].
  assert (scan_step (stateE ("e"%char :: t), []) sg = Some (stateESign (sg :: "e"%char :: t), []))
    as -> by (by destruct Hsg as [-> | ->]).
  rewrite bool_decide_eq_true_2 by (by eexists). cbn [andb].
  destruct ds as [|c ds]; [done|]. cbn in Hds. apply andb_true_iff in Hds as [Hc Hds].
  cbn [number_run scan_step]. rewrite Hc, bool_decide_eq_true_2 by (by eexists). cbn [andb].
  rewrite <-(app_nil_r ds), number_run_digits by (done || apply digit_states). done.
Qed.

Lemma run_tail s t fr ex :
  s = state1 t ∨ s = state0 t →
  frac_text fr → exp_text ex → number_run s (fr ++ ex) = true.
Proof.
  intros Hs [->|(ds & -> & Hne & Hds)] Hex.
  { apply run_exp with t; [tauto|done]. }
  cbn [app number_run].
  assert (scan_step (s, []) "." = Some (stateDot ("."%char :: t), [])) as ->
    by (by destruct Hs as [-> | ->]).
  rewrite bool_decide_eq_true_2 by (by eexists). cbn [andb].
  destruct ds as [|c ds]; [done|]. cbn in Hds. apply andb_true_iff in Hds as [Hc Hds].
  cbn [app number_run scan_step]. rewrite Hc, bool_decide_eq_true_2 by (by eexists). cbn [andb].
  rewrite number_run_digits by (done || apply digit_states).
  eapply run_exp; [by right; right|done].
Qed.

Lemma number_text_shape neg int fr ex :
  numeral int → frac_text fr → exp_text ex →
  number_text ((if (neg : bool) then ["-"%char] else []) ++ int ++ fr ++ ex) = true.
Proof.
  intros (Hne & Hds & Hz) Hfr Hex.
  destruct (decide (int = ["0"%char])) as [->|Hn0].
  { destruct neg; cbn [app number_text begin_value]; cbn -[number_run];
      rewrite ?bool_decide_eq_true_2 by (by eexists); cbn [andb];
      (eapply run_tail; [by right|done..]). }
  destruct Hz as [Hz|Hz]; [done|]. destruct int as [|c ds]; [done|]. cbn in Hds.
  apply andb_true_iff in Hds as [Hc Hds].
  assert (c ≠ "0"%char) as Hc0 by (intros ->; by destruct Hz).
  destruct (digit_cases c Hc Hc0) as [H19 Hsp].
  assert (∀ t, number_run (state1 (c :: t)) (ds ++ fr ++ ex) = true) as Hrun.
  { intros t. rewrite number_run_digits by (done || apply digit_states).
    eapply run_tail; [by left|done..]. }
  destruct neg; cbn [app number_text].
  - change (begin_value [] "-") with (Some (stateNeg ["-"%char], @nil frame)).
    cbv beta iota. rewrite bool_decide_eq_true_2 by (by eexists). cbn [andb number_run scan_step].
    rewrite (proj2 (Ascii.eqb_neq c "0") Hc0), H19, bool_decide_eq_true_2 by (by eexists).
    apply Hrun.
  - assert (begin_value [] c = Some (state1 [c], [])) as ->.
    { unfold begin_value. rewrite Hsp. unfold isDigit19, between in H19.
      repeat match goal with
             | |- context [Ascii.eqb c ?d] => destruct (Ascii.eqb_spec c d) as [->|_]; [done|]
             end.
      unfold isDigit19, between. by rewrite H19. }
    rewrite bool_decide_eq_true_2 by (by eexists). apply Hrun.
Qed.

Lemma FormatInt_number n : number_text (FormatInt n) = true.
Proof.
  assert (∀ neg k, 0 ≤ k →
    number_text ((if (neg : bool) then ["-"%char] else []) ++ FormatUint k) = true) as H.
  { intros neg k Hk. rewrite <-(app_nil_r (FormatUint k)).
    apply (number_text_shape neg _ [] []); [by apply FormatUint_spec|by left..]. }
  unfold FormatInt. destruct (Z.ltb_spec n 0); [apply (H true)|apply (H false)]; lia.
Qed.

(** Digits without trailing zeros, or none at all for zero. *)
Definition decimal_ok (d : decimal) : Prop :=
  d = ([], 0) ∨
  ∃ c ds dp, d = (c :: ds, dp) ∧ c ≠ "0"%char ∧ forallb isDigit10 (c :: ds) = true.

Lemma FormatUint_numeral n : numeral (FormatUint n).
Proof.
  destruct (Z.le_gt_cases 0 n) as [Hn|Hn]; [by apply FormatUint_spec|].
  unfold FormatUint. rewrite Z.log2_nonpos by lia. cbn [Z.to_nat digits_of].
  rewrite (proj2 (Z.ltb_lt n 10)) by lia.
  destruct (digit_char_value (n mod 10)) as [Hd _]; [by apply Z.mod_pos_bound|].
  unfold numeral. cbn. rewrite Hd. split_ands; [done|done|].
  destruct (decide (digit_char (n mod 10) = "0"%char)) as [->|H]; [by left|right; congruence].
Qed.

Lemma drop_zeros_spec l :
  forallb isDigit10 l = true →
  forallb isDigit10 (drop_zeros l) = true ∧ (drop_zeros l = [] ∨ head (drop_zeros l) = head l).
Proof.
  induction l as [|c l IH]; cbn; [by auto|]. intros [Hc Hl]%andb_true_iff.
  destruct (IH Hl) as [Hd _]. destruct (drop_zeros l) as [|c' l'].
  - destruct (Ascii.eqb c "0"); cbn; rewrite ?Hc; auto.
  - cbn in *. rewrite Hc. auto.
Qed.

Lemma decimal_of_ok d e : decimal_ok (decimal_of d e).
Proof.
  unfold decimal_of. destruct (FormatUint_numeral d) as (Hne & Hds & Hz).
  destruct (drop_zeros_spec _ Hds) as [Hd Hh].
  destruct (drop_zeros (FormatUint d)) as [|c ds] eqn:Heq; [by left|right].
  destruct Hh as [|Hh]; [done|]. eexists c, ds, _. split_ands; [done| |done]. intros ->.
  destruct Hz as [Hz|Hz]; [|by rewrite <-Hh in Hz]. by rewrite Hz in Heq.
Qed.

Lemma shortest_ok fuel f num den k n : decimal_ok (shortest fuel f num den k n).
Proof.
  revert n. induction fuel as [|fuel IH]; intros n; cbn [shortest]; [apply decimal_of_ok|].
  repeat (case_match; try apply decimal_of_ok; try apply IH).
Qed.

Definition number_shape (l : list ascii) : Prop :=
  ∃ int fr ex, l = int ++ fr ++ ex ∧ numeral int ∧ frac_text fr ∧ exp_text ex.

Lemma numeral_cons c ds : c ≠ "0"%char → forallb isDigit10 (c :: ds) = true → numeral (c :: ds).
Proof. intros Hc Hds. unfold numeral. split_ands; [done|done|right; cbn; congruence]. Qed.
Lemma numeral_zero : numeral ["0"%char].
Proof. unfold numeral. split_ands; auto. Qed.

Lemma fmtE_shape d : decimal_ok d → number_shape (fmtE d).
Proof.
  pose proof numeral_zero as H0.
  assert (∀ dp, exp_text ("e"%char :: (if dp - 1 <? 0 then "-"%char else "+"%char)
                           :: FormatUint (Z.abs (dp - 1)))) as Hex.
  { intros dp. right. eexists _, _. destruct (FormatUint_numeral (Z.abs (dp - 1))) as (? & ? & _).
    split_ands; [done|destruct (dp - 1 <? 0); auto|done|done]. }
  intros [->|(c & ds & dp & -> & Hc & Hds)]; unfold fmtE.
  - eexists _, [], _. split_ands; [reflexivity|done|by left|apply (Hex 0)].
  - destruct ds as [|c' ds].
    + exists [c], [], ("e"%char :: (if dp - 1 <? 0 then "-"%char else "+"%char)
                        :: FormatUint (Z.abs (dp - 1))).
      split_ands; [done|by apply numeral_cons|by left|apply Hex].
    + exists [c], ("."%char :: c' :: ds), ("e"%char :: (if dp - 1 <? 0 then "-"%char else "+"%char)
                        :: FormatUint (Z.abs (dp - 1))).
      split_ands; [done|apply numeral_cons; [done|]| |apply Hex].
      * cbn in *. apply andb_true_iff in Hds as [-> _]. done.
      * right. exists (c' :: ds). split_ands; [done|done|]. cbn in *.
        by apply andb_true_iff in Hds as [_ ?].
Qed.

Lemma digits_zeros k : forallb isDigit10 (replicate k "0"%char) = true.
Proof. induction k; [done|]. exact IHk. Qed.

Lemma forallb_take_drop {A} (p : A → bool) k l :
  forallb p l = true → forallb p (take k l) = true ∧ forallb p (drop k l) = true.
Proof.
  intros H. rewrite <-(take_drop k l), forallb_app in H. by apply andb_true_iff in H.
Qed.

Lemma fmtF_shape d : decimal_ok d → number_shape (fmtF d).
Proof.
  pose proof numeral_zero as H0.
  intros [->|(c & ds & dp & -> & Hc & Hds)].
  { exists ["0"%char], [], []. split_ands; [done|done|by left|by left]. }
  unfold fmtF. set (nd := Z.of_nat (length (c :: ds))).
  destruct (forallb_take_drop isDigit10 (Z.to_nat dp) _ Hds) as [Ht Hd].
  eexists _, _, []. rewrite app_nil_r. split_ands; [reflexivity| | |by left].
  - destruct (Z.leb_spec dp 0); [done|]. destruct (Z.to_nat dp) as [|k] eqn:Hk; [lia|].
    cbn [take app]. apply numeral_cons; [done|]. rewrite app_comm_cons, forallb_app.
    change (c :: take k ds) with (take (S k) (c :: ds)). by rewrite Ht, digits_zeros.
  - destruct (Z.leb_spec (nd - dp) 0); [by left|right]. eexists. split_ands; [done| |].
    + intros [_ Hnil]%app_nil. apply (f_equal length) in Hnil. rewrite length_drop in Hnil.
      cbn [length] in Hnil. subst nd. cbn [length] in *. lia.
    + by rewrite forallb_app, digits_zeros, Hd.
Qed.

Lemma FormatFloat_number f l : FormatFloat f = Some l → number_text l = true.
Proof.
  assert (∀ neg l, number_shape l →
    number_text ((if (neg : bool) then ["-"%char] else []) ++ l) = true) as Hsh.
  { intros neg l' (int & fr & ex & -> & Hi & Hf & He). by apply number_text_shape. }
  unfold FormatFloat. destruct f as [neg| | |neg m e]; try done.
  - intros [= <-]. apply Hsh. exists ["0"%char], [], []. split_ands; [done|apply numeral_zero|by left|by left].
  - destruct (fraction m e) as [num den].
    set (abs := SpecFloat.S754_finite false m e).
    set (k := decimal_point num den).
    pose proof (shortest_ok (Z.to_nat (k + 1074)) abs num den k 1) as Hd. revert Hd.
    generalize (shortest (Z.to_nat (k + 1074)) abs num den k 1). intros d Hd [= <-].
    apply Hsh. unfold fmt_decimal. case_match; [by apply fmtE_shape|by apply fmtF_shape].
Qed.

(** ** Values are read back *)

Lemma scan_app l1 l2 st : scan_all st (l1 ++ l2) = scan_all st l1 ≫= λ st', scan_all st' l2.
Proof.
  revert st. induction l1 as [|c l1 IH]; intros st; [done|]. cbn.
  destruct (scan_step st c) as [st'|]; cbn; [apply IH|done].
Qed.

Lemma scan_string s stack rest :
  scan_all (stateInString [], stack) (escape s ++ quote :: rest)
  = scan_all (stateEndValue (JString (scrub s)), stack) rest.
Proof.
  destruct (reads_back_runes _ (runes_reads_back s)) as [Hscan _].
  unfold escape at 1. rewrite Hscan, app_nil_r. fold (escape s).
  cbn [scan_all scan_step]. rewrite Ascii.eqb_refl, reverse_involutive. cbn [mbind option_bind].
  by rewrite unquote_escape.
Qed.

Lemma end_step v stack c rest :
  scan_all (stateEndValue v, stack) (c :: rest) = end_value v stack c ≫= λ st, scan_all st rest.
Proof. done. Qed.

(** A value begins neither with a space nor with the end of an array. *)
Lemma encode_head v :
  numbers_ok v = true →
  ∃ c l, encode v = c :: l ∧ isSpaceJson c = false ∧ Ascii.eqb c "]" = false.
Proof.
  destruct v as [|[]|l|s|vs|ms]; intros Hok; try (by eexists _, _).
  cbn in Hok. destruct l as [|c l]; [done|]. exists c, l. split; [done|].
  cbn [number_text] in Hok. destruct (begin_value [] c) as [[s st]|] eqn:Hb; [|done].
  apply andb_true_iff in Hok as [Hnum%bool_decide_eq_true _]. unfold begin_value, push in Hb.
  destruct (isSpaceJson c) eqn:Hsp; [injection Hb as <- <-; by destruct Hnum|]. split; [done|].
  destruct (Ascii.eqb_spec c "]") as [->|]; done.
Qed.

Lemma begin_or_empty c st :
  isSpaceJson c = false → Ascii.eqb c "]" = false →
  scan_step (stateBeginValueOrEmpty, st) c = scan_step (stateBeginValue, st) c.
Proof. intros H1 H2. cbn. by rewrite H1, H2. Qed.

(** What [scan_encode] says of one value. *)
Definition scans (v : value) : Prop :=
  numbers_ok v = true → ∀ stack c rest,
  (Z.of_nat (length stack + depth v) ≤ maxNestingDepth) → delimiter c →
  scan_all (stateBeginValue, stack) (encode v ++ c :: rest)
  = end_value (scrubbed v) stack c ≫= λ st, scan_all st rest.

Lemma scan_elements vs acc stack rest :
  Forall scans vs → forallb numbers_ok vs = true → vs ≠ [] →
  (∀ v, v ∈ vs → Z.of_nat (S (length stack) + depth v) ≤ maxNestingDepth) →
  scan_all (stateBeginValue, parseArrayValue acc :: stack) (commas (encode <$> vs) ++ "]"%char :: rest)
  = scan_all (stateEndValue (JArray (acc ++ (scrubbed <$> vs))), stack) rest.
Proof.
  intros Hvs. revert acc. induction Hvs as [|v vs Hv Hvs IH]; intros acc Hok Hne Hd; [done|].
  cbn in Hok. apply andb_true_iff in Hok as [Hok Hoks].
  assert (Z.of_nat (length (parseArrayValue acc :: stack) + depth v) ≤ maxNestingDepth) as Hdv
    by (apply Hd; by left).
  destruct vs as [|v' vs].
  - cbn [fmap list_fmap commas]. rewrite Hv; [|done..|]. 2:{ unfold delimiter. set_solver. }
    done.
  - rewrite fmap_cons. change (commas (encode v :: (encode <$> v' :: vs)))
      with (encode v ++ ","%char :: commas (encode <$> v' :: vs)).
    rewrite <-app_assoc. cbn [app]. rewrite Hv; [|done..|]. 2:{ unfold delimiter. set_solver. }
    change (end_value (scrubbed v) (parseArrayValue acc :: stack) ",")
      with (Some (stateBeginValue, parseArrayValue (acc ++ [scrubbed v]) :: stack)).
    cbn [mbind option_bind]. rewrite IH; [by rewrite <-app_assoc|done..|].
    intros w Hw. apply Hd. by right.
Qed.

Definition encode_member (p : string * value) : list ascii :=
  appendString (fst p) ++ ":"%char :: encode (snd p).
Definition scrubbed_member (p : string * value) : string * value :=
  (scrub (fst p), scrubbed (snd p)).

Lemma scan_members ms acc stack rest first :
  first = stateBeginString ∨ first = stateBeginStringOrEmpty →
  Forall (λ p, scans (snd p)) ms → forallb (λ p, numbers_ok (snd p)) ms = true → ms ≠ [] →
  (∀ p, p ∈ ms → Z.of_nat (S (length stack) + depth (snd p)) ≤ maxNestingDepth) →
  scan_all (first, parseObjectKey acc :: stack) (commas (encode_member <$> ms) ++ "}"%char :: rest)
  = scan_all (stateEndValue (JObject (acc ++ (scrubbed_member <$> ms))), stack) rest.
Proof.
  intros Hfirst Hms. revert acc first Hfirst.
  induction Hms as [|[k v] ms Hv Hms IH]; intros acc first Hfirst Hok Hne Hd; [done|].
  cbn in Hok, Hv. apply andb_true_iff in Hok as [Hok Hoks].
  assert (Z.of_nat (length (parseObjectValue acc (scrub k) :: stack) + depth v) ≤ maxNestingDepth)
    as Hdv by (apply (Hd (k, v)); by left).
  assert (∀ tl, scan_all (first, parseObjectKey acc :: stack) (encode_member (k, v) ++ tl)
    = scan_all (stateBeginValue, parseObjectValue acc (scrub k) :: stack) (encode v ++ tl)) as Hkey.
  { intros tl. unfold encode_member, appendString. cbn [fst snd app].
    rewrite <-!app_assoc. cbn [app scan_all].
    assert (scan_step (first, parseObjectKey acc :: stack) quote
            = Some (stateInString [], parseObjectKey acc :: stack)) as ->
      by (by destruct Hfirst as [-> | ->]).
    cbn [mbind option_bind]. by rewrite scan_string. }
  destruct ms as [|m ms].
  - cbn [fmap list_fmap commas]. rewrite Hkey, Hv; [|done..|]. 2:{ unfold delimiter. set_solver. }
    done.
  - rewrite fmap_cons. change (commas (encode_member (k, v) :: (encode_member <$> m :: ms)))
      with (encode_member (k, v) ++ ","%char :: commas (encode_member <$> m :: ms)).
    rewrite <-app_assoc. cbn [app]. rewrite Hkey, Hv; [|done..|]. 2:{ unfold delimiter. set_solver. }
    change (end_value (scrubbed v) (parseObjectValue acc (scrub k) :: stack) ",")
      with (Some (stateBeginString, parseObjectKey (acc ++ [(scrub k, scrubbed v)]) :: stack)).
    cbn [mbind option_bind]. rewrite IH; [by rewrite <-app_assoc|by left|done..|].
    intros w Hw. apply Hd. by right.
Qed.

Lemma foldr_max_le {A} (f : A → nat) l x :
  x ∈ l → (f x ≤ foldr (λ y n, f y `max` n)%nat 0%nat l)%nat.
Proof. induction 1 as [x l|x y l _ IH]; cbn; lia. Qed.

Lemma scan_encode v : scans v.
Proof.
  induction v as [|b|l|s|vs IH|ms IH] using value_nested_ind; intros Hok stack c rest Hd Hc.
  - done.
  - by destruct b.
  - by apply scan_number.
  - cbn [encode]. unfold appendString. cbn [app scan_all].
    change (scan_step (stateBeginValue, stack) quote) with (Some (stateInString [], stack)).
    cbn [mbind option_bind]. rewrite <-app_assoc. cbn [app]. by rewrite scan_string.
  - cbn [encode]. rewrite <-app_comm_cons. cbn [scan_all app].
    change (scan_step (stateBeginValue, stack) "[")
      with (push (parseArrayValue []) stateBeginValueOrEmpty stack).
    unfold push. destruct (Z.ltb_spec (Z.of_nat (length stack)) maxNestingDepth); [|cbn in Hd; lia].
    cbn [mbind option_bind]. rewrite <-app_assoc. cbn [app].
    destruct vs as [|v vs]; [done|].
    destruct (encode_head v) as (c0 & l0 & Hhead & Hsp & Hbr).
    { cbn in Hok. by apply andb_true_iff in Hok as [? _]. }
    assert (∃ l1, commas (encode <$> v :: vs) = c0 :: l1) as [l1 Hl1].
    { rewrite fmap_cons, Hhead. destruct vs; cbn; by eexists. }
    rewrite Hl1. cbn [app scan_all]. rewrite begin_or_empty by done.
    change (scan_step (stateBeginValue, parseArrayValue [] :: stack) c0 ≫=
      λ st', scan_all st' (l1 ++ "]"%char :: c :: rest))
      with (scan_all (stateBeginValue, parseArrayValue [] :: stack) ((c0 :: l1) ++ "]"%char :: c :: rest)).
    rewrite <-Hl1, scan_elements; [done|done|done|done|].
    intros w Hw. cbn [depth] in Hd. pose proof (foldr_max_le depth _ _ Hw). lia.
  - cbn [encode]. rewrite <-app_comm_cons. cbn [scan_all app].
    change (scan_step (stateBeginValue, stack) "{")
      with (push (parseObjectKey []) stateBeginStringOrEmpty stack).
    unfold push. destruct (Z.ltb_spec (Z.of_nat (length stack)) maxNestingDepth); [|cbn in Hd; lia].
    cbn [mbind option_bind]. rewrite <-app_assoc. cbn [app].
    destruct ms as [|m ms]; [done|].
    change (λ p : string * value, appendString (fst p) ++ ":"%char :: encode (snd p)) with encode_member.
    rewrite scan_members; [done|by right|done|done|done|].
    intros w Hw. cbn [depth] in Hd. pose proof (foldr_max_le (λ p, depth (snd p)) _ _ Hw). lia.
Qed.

Lemma Marshal_parse v :
  numbers_ok v = true → Z.of_nat (depth v) ≤ maxNestingDepth →
  parse_json (Marshal v) = Some (scrubbed v) ∧ parse_json (Encode v) = Some (scrubbed v) ∧
  Valid (Marshal v) = true.
Proof.
  intros Hok Hd. assert (∀ c, c = " "%char ∨ c = "010"%char →
    scan_all (stateBeginValue, []) (encode v ++ [c]) = Some (stateEndValue (scrubbed v), [])) as Hscan.
  { intros c Hc. rewrite (scan_encode v Hok [] c []); [|exact Hd|].
    - by destruct Hc as [-> | ->].
    - unfold delimiter. destruct Hc as [-> | ->]; set_solver. }
  assert (parse_json (Marshal v) = Some (scrubbed v)) as Hm.
  { unfold parse_json, Marshal. rewrite chars_str. specialize (Hscan _ (or_introl eq_refl)).
    rewrite scan_app in Hscan. destruct (scan_all _ (encode v)) as [st|]; [|done].
    cbn [mbind option_bind scan_all] in Hscan |- *. unfold scan_eof.
    destruct (scan_step st " ") as [st'|]; [|done]. by injection Hscan as ->. }
  split; [done|]. split; [|unfold Valid; by rewrite Hm].
  unfold parse_json, Encode. rewrite chars_str. by rewrite (Hscan _ (or_intror eq_refl)).
Qed.

(** ** Properties *)

(** What the service writes as JSON is read back: for every value whose numbers
    are number literals and whose nesting the scanner accepts, the text of
    [json.Marshal], and that of [Encoder.Encode] with its newline, is valid JSON and
    parses to the same value, strings included: quotes, controls, HTML characters
    and line separators come back through their escapes, and only bytes that are
    not UTF-8 are replaced. *)
Theorem Marshal_roundtrip v :
  numbers_ok v = true → Z.of_nat (depth v) ≤ maxNestingDepth →
  parse_json (Marshal v) = Some (scrubbed v) ∧ parse_json (Encode v) = Some (scrubbed v) ∧
  Valid (Marshal v) = true.
Proof. apply Marshal_parse. Qed.

(** A value with what the writer escapes: a control, HTML, a separator, a stray byte. *)
Definition tricky : value :=
  JObject [(str ["a"; "<"; "009"]%char, JArray [JNumber (chars "-1.5e+9"); JNull; JBool false]);
           ("b", JString (str [quote; "226"; "128"; "168"; "255"]%char))].

Lemma Marshal_roundtrip_witness :
  parse_json (Encode tricky) = Some (scrubbed tricky).
Proof.
  apply (Marshal_roundtrip tricky).
  - vm_compute. reflexivity.
  - vm_compute. discriminate.
Defined.
