(* ===== verification/FloatText.v ===== *)
(** * The text of a float64 is read back

    What [FormatFloat] writes, [ParseFloat] reads as the same number: the rounding of
    [round_decimal] is exact on numbers a binary64 holds, the two formats denote the
    digits they print, and the search of [shortest] ends, at the latest, with the
    exact expansion. *)

From S2P Require Import Prelude Utf8 Model Strconv Json JsonEncode.
From Stdlib Require Import Ascii Floats.SpecFloat.
Local Open Scope Z_scope.

(** ** Rounding a number that fits *)

Lemma digits2_log2 p : Zpos (digits2_pos p) = Z.log2 (Zpos p) + 1.
Proof.
  assert (digits2_pos p = Pos.size p) as -> by (induction p; cbn; congruence).
  destruct p; cbn; lia.
Qed.

Lemma Zdigits2_log2 n : 0 < n → Zdigits2 n = Z.log2 n + 1.
Proof. destruct n; try lia. intros _. apply digits2_log2. Qed.

(** Shifting out zeros loses nothing. *)
Lemma shr_1_exact m :
  0 < m → shr_1 (Build_shr_record (m * 2) false false) = Build_shr_record m false false.
Proof. destruct m as [|p|p]; try lia. intros _. by rewrite Z.mul_comm. Qed.

Lemma iter_shr_exact p m :
  0 < m → iter_pos shr_1 p (Build_shr_record (m * 2 ^ Zpos p) false false)
          = Build_shr_record m false false.
Proof.
  revert m. induction p as [p IH|p IH|]; intros m Hm; cbn [iter_pos].
  - replace (m * 2 ^ Z.pos p~1) with (m * 2 ^ Zpos p * 2 ^ Zpos p * 2).
    2:{ rewrite (Pos2Z.inj_xI p). replace (2 * Zpos p + 1) with (Zpos p + Zpos p + 1) by lia.
        rewrite !Z.pow_add_r by lia. ring. }
    assert (0 < 2 ^ Zpos p) by lia. rewrite shr_1_exact, !IH by nia. done.
  - replace (m * 2 ^ Z.pos p~0) with (m * 2 ^ Zpos p * 2 ^ Zpos p).
    2:{ rewrite (Pos2Z.inj_xO p). replace (2 * Zpos p) with (Zpos p + Zpos p) by lia.
        rewrite !Z.pow_add_r by lia. ring. }
    assert (0 < 2 ^ Zpos p) by lia. rewrite !IH by nia. done.
  - apply (shr_1_exact m Hm).
Qed.

Lemma shr_fexp_exact m e d :
  0 < m → 0 ≤ d → fexp 53 1024 (Z.log2 m + 1 + (e + d)) = e + d →
  shr_fexp 53 1024 (m * 2 ^ d) e loc_Exact = (Build_shr_record m false false, e + d).
Proof.
  intros Hm Hd Hf. unfold shr_fexp, shr_record_of_loc.
  assert (0 < 2 ^ d) by lia. rewrite Zdigits2_log2, Z.log2_mul_pow2 by nia.
  replace (d + Z.log2 m + 1 + e) with (Z.log2 m + 1 + (e + d)) by lia. rewrite Hf.
  replace (e + d - e) with d by lia. destruct d as [|p|p]; [|by cbn [shr]; rewrite iter_shr_exact|lia].
  cbn [shr]. by rewrite Z.add_0_r, Z.mul_1_r.
Qed.

(** A mantissa with zeros behind it, rounded. *)
Lemma binary_round_exact neg m e d :
  0 ≤ d → bounded 53 1024 m (e + d) = true →
  binary_round_aux 53 1024 neg (Zpos m * 2 ^ d) e loc_Exact = S754_finite neg m (e + d).
Proof.
  intros Hd [Hc He]%andb_true_iff. unfold canonical_mantissa in Hc. apply Z.eqb_eq in Hc.
  rewrite digits2_log2 in Hc. unfold binary_round_aux.
  rewrite shr_fexp_exact by done. cbn [shr_m loc_of_shr_record round_nearest_even].
  pose proof (shr_fexp_exact (Zpos m) (e + d) 0) as H. rewrite Z.mul_1_r, Z.add_0_r in H.
  rewrite H by done. cbn [shr_m]. by rewrite He.
Qed.

(** [A / B] is the number [m * 2^e]: the numerator and denominator of [fraction]. *)
Lemma fraction_max m e : fraction m e = (Zpos m * 2 ^ Z.max e 0, 2 ^ Z.max (- e) 0).
Proof.
  unfold fraction. destruct (Z.leb_spec 0 e).
  - by rewrite Z.max_l, (Z.max_r (- e)) by lia.
  - by rewrite Z.max_r, (Z.max_l (- e)), Z.mul_1_r by lia.
Qed.

Lemma quotient_exact A B m e t :
  A * 2 ^ Z.max (- e) 0 = Zpos m * 2 ^ Z.max e 0 * B → t ≤ e → t ≤ 0 →
  A * 2 ^ (- t) = Zpos m * 2 ^ (e - t) * B.
Proof.
  intros HAB Ht1 Ht2. set (c := - t - Z.max (- e) 0). assert (0 ≤ c) by lia.
  replace (- t) with (Z.max (- e) 0 + c) by lia. replace (e - t) with (Z.max e 0 + c) by lia.
  rewrite !Z.pow_add_r by lia. rewrite Z.mul_assoc, HAB. ring.
Qed.

Lemma quotient_digits A B m e :
  0 < A → 0 < B → A * 2 ^ Z.max (- e) 0 = Zpos m * 2 ^ Z.max e 0 * B →
  Zdigits2 A - Zdigits2 B ≤ Z.log2 (Zpos m) + 1 + e.
Proof.
  intros HA HB HAB. rewrite !Zdigits2_log2 by done.
  destruct (Z.log2_spec A HA) as [HlA _], (Z.log2_spec B HB) as [_ HuB].
  destruct (Z.log2_spec (Zpos m)) as [_ Hum]; [done|].
  assert (2 ^ (Z.log2 A + Z.max (- e) 0) < 2 ^ (Z.succ (Z.log2 (Zpos m)) + Z.max e 0 + Z.succ (Z.log2 B)))
    as Hlt.
  { pose proof (Z.log2_nonneg A). pose proof (Z.log2_nonneg B). pose proof (Z.log2_nonneg (Zpos m)).
    rewrite !Z.pow_add_r by lia. apply Z.le_lt_trans with (A * 2 ^ Z.max (- e) 0).
    - apply Z.mul_le_mono_nonneg_r; [lia|done].
    - rewrite HAB. assert (0 < 2 ^ Z.max e 0) by lia.
      apply Z.mul_lt_mono_nonneg; [lia| |lia|done].
      by apply Z.mul_lt_mono_pos_r. }
  apply Z.pow_lt_mono_r_iff in Hlt; [lia|lia|].
  pose proof (Z.log2_nonneg B). pose proof (Z.log2_nonneg (Zpos m)). lia.
Qed.

Lemma fexp_mono a b : a ≤ b → fexp 53 1024 a ≤ fexp 53 1024 b.
Proof. unfold fexp. lia. Qed.

Lemma new_location_exact B : new_location B 0 = loc_Exact.
Proof. unfold new_location, new_location_even, new_location_odd. by destruct (Z.even B). Qed.

(** The division of [round_decimal], on a quotient that fits. *)
Lemma division_exact neg A B m e :
  0 < A → 0 < B → A * 2 ^ Z.max (- e) 0 = Zpos m * 2 ^ Z.max e 0 * B →
  bounded 53 1024 m e = true →
  (let '(q, e', loc) := SFdiv_core_binary 53 1024 A 0 B 0 in
   binary_round_aux 53 1024 neg q e' loc) = S754_finite neg m e.
Proof.
  intros HA HB HAB Hb. unfold SFdiv_core_binary. rewrite !Z.add_0_r.
  set (t := Z.min (fexp 53 1024 (Zdigits2 A - Zdigits2 B)) (0 - 0)).
  assert (t ≤ e ∧ t ≤ 0) as [Hte Ht0].
  { pose proof Hb as [Hc _]%andb_true_iff. unfold canonical_mantissa in Hc. apply Z.eqb_eq in Hc.
    rewrite digits2_log2 in Hc. pose proof (quotient_digits A B m e HA HB HAB) as Hd.
    apply fexp_mono in Hd. lia. }
  replace (match 0 - 0 - t with Z0 => A | Zpos _ => Z.shiftl A (0 - 0 - t) | Zneg _ => 0 end)
    with (A * 2 ^ (- t)).
  2:{ replace (0 - 0 - t) with (- t) by lia. destruct (- t) eqn:Hnt; [by rewrite Z.mul_1_r| |lia].
      by rewrite Z.shiftl_mul_pow2. }
  rewrite (quotient_exact A B m e t HAB Hte Ht0).
  pose proof (Z.div_mul (Zpos m * 2 ^ (e - t)) B) as Hdiv.
  pose proof (Z.mod_mul (Zpos m * 2 ^ (e - t)) B) as Hmod. unfold Z.div, Z.modulo in *.
  destruct (Z.div_eucl _ B) as [q r]. rewrite Hdiv, Hmod, new_location_exact by lia.
  pose proof (binary_round_exact neg m t (e - t)) as Hround.
  replace (t + (e - t)) with e in Hround by lia. apply Hround; [lia|done].
Qed.

(** The decimal [v * 10^e] is [num / den]. *)
Definition decimal_is (v e num den : Z) : Prop :=
  v * 10 ^ Z.max e 0 * den = num * 10 ^ Z.max (- e) 0.

Lemma round_decimal_exact neg v size e m ex :
  - (400 + size) ≤ e ≤ 400 → bounded 53 1024 m ex = true →
  decimal_is (Zpos v) e (fst (fraction m ex)) (snd (fraction m ex)) →
  round_decimal neg v size e = Some (S754_finite neg m ex).
Proof.
  intros He Hb Hd. unfold decimal_is in Hd. rewrite fraction_max in Hd. cbn [fst snd] in Hd.
  unfold round_decimal. rewrite (proj2 (Z.ltb_ge 400 e)), (proj2 (Z.ltb_ge e _)) by lia.
  pose proof (Z.pow_pos_nonneg 10 (Z.max e 0)). pose proof (Z.pow_pos_nonneg 10 (Z.max (- e) 0)).
  pose proof (division_exact neg (Zpos v * 10 ^ Z.max e 0) (10 ^ Z.max (- e) 0) m ex
    ltac:(lia) ltac:(lia) Hd Hb) as Hdiv.
  destruct (Z.leb_spec 0 e).
  - rewrite Z.max_l, (Z.max_r (- e)) in Hdiv by lia.
    change (10 ^ 0) with 1 in Hdiv.
    destruct (SFdiv_core_binary 53 1024 (Zpos v * 10 ^ e) 0 1 0) as [[q e'] loc]. by rewrite Hdiv.
  - rewrite Z.max_r, (Z.max_l (- e)), Z.mul_1_r in Hdiv by lia.
    destruct (SFdiv_core_binary 53 1024 (Zpos v) 0 (10 ^ (- e)) 0) as [[q e'] loc]. by rewrite Hdiv.
Qed.

(** ** Reading digits *)

Abbreviation value_from := (foldl (λ acc c, 10 * acc + digit_value c)).

Lemma digit_chars c :
  isDigit10 c = true →
  Ascii.eqb c "_" = false ∧ Ascii.eqb c "." = false ∧ digit_of false c = Some (digit_value c) ∧
  lower c = c.
Proof.
  intros Hc. unfold digit_of. rewrite Hc. revert Hc. by destruct c as [[] [] [] [] [] [] [] []].
Qed.

Lemma digit_value_zero c : isDigit10 c = true → c ≠ "0"%char → digit_value c ≠ 0.
Proof.
  intros Hc Hne. revert Hc Hne. by destruct c as [[] [] [] [] [] [] [] []].
Qed.

Lemma value_from_app l x :
  value_from x l = x * 10 ^ Z.of_nat (length l) + digits_value l.
Proof.
  unfold digits_value. revert x. induction l as [|c l IH]; intros x; cbn [foldl length].
  { change (10 ^ Z.of_nat 0) with 1. lia. }
  rewrite IH, (IH (10 * 0 + digit_value c)), Nat2Z.inj_succ, Z.pow_succ_r by lia. ring.
Qed.

Lemma digits_value_range l :
  forallb isDigit10 l = true → 0 ≤ digits_value l < 10 ^ Z.of_nat (length l).
Proof.
  induction l as [|c l IH]; cbn [forallb]; [done|]. intros [Hc Hl]%andb_true_iff.
  unfold digits_value. cbn [foldl length]. rewrite value_from_app, Nat2Z.inj_succ, Z.pow_succ_r by lia.
  specialize (IH Hl). apply isDigit10_value in Hc. nia.
Qed.

Lemma digits_value_low c l :
  isDigit10 c = true → c ≠ "0"%char → forallb isDigit10 l = true →
  10 ^ Z.of_nat (length l) ≤ digits_value (c :: l).
Proof.
  intros Hc Hne Hl. unfold digits_value. cbn [foldl]. rewrite value_from_app.
  pose proof (digit_value_zero c Hc Hne). apply isDigit10_value in Hc.
  pose proof (digits_value_range l Hl). nia.
Qed.

Lemma digits_value_zeros k : digits_value (replicate k "0"%char) = 0.
Proof.
  induction k as [|k IH]; [done|]. cbn [replicate]. unfold digits_value in *. cbn [foldl].
  exact IH.
Qed.

(** The mantissa after more digits, once one is there. *)
Definition more (l : list ascii) (m : mantissa) : mantissa :=
  mkMant (value_from (m_value m) l) (m_nd m + Z.of_nat (length l)) (m_dp m) (m_sawdot m)
    true (m_underscores m).

Lemma read_more l m rest :
  forallb isDigit10 l = true → 0 < m_nd m → m_sawdigits m = true →
  read_mantissa false m (l ++ rest) = read_mantissa false (more l m) rest.
Proof.
  revert m. induction l as [|c l IH]; intros m Hl Hnd Hsaw; cbn [app].
  { unfold more. cbn [foldl length]. rewrite Z.add_0_r. destruct m. cbn in *. by subst. }
  cbn [forallb] in Hl. apply andb_true_iff in Hl as [Hc Hl].
  destruct (digit_chars c Hc) as (Hu & Hd & Hv & _). cbn [read_mantissa]. rewrite Hu, Hd, Hv.
  unfold see_digit. rewrite (proj2 (Z.eqb_neq (m_nd m) 0)), andb_false_r by lia.
  rewrite IH; [|done|cbn; lia|done]. unfold more. cbn [foldl length m_value m_nd m_dp m_sawdot m_underscores].
  do 2 f_equal; [|lia]. f_equal. ring.
Qed.

(** From the first digit on that is not zero. *)
Lemma read_first c l m rest :
  c ≠ "0"%char → forallb isDigit10 (c :: l) = true → m_nd m = 0 → m_value m = 0 →
  read_mantissa false m ((c :: l) ++ rest)
  = read_mantissa false (mkMant (digits_value (c :: l)) (Z.of_nat (length (c :: l))) (m_dp m)
                           (m_sawdot m) true (m_underscores m)) rest.
Proof.
  intros Hne Hl Hnd Hval. cbn [forallb] in Hl. apply andb_true_iff in Hl as [Hc Hl].
  destruct (digit_chars c Hc) as (Hu & Hd & Hv & _). cbn [app read_mantissa]. rewrite Hu, Hd, Hv.
  unfold see_digit. rewrite (proj2 (Z.eqb_neq _ 0)) by (by apply digit_value_zero). cbn [andb].
  rewrite Hnd, Hval, read_more; [|done|cbn; lia|done]. unfold more, digits_value.
  cbn [foldl length m_value m_nd m_dp m_sawdot m_underscores]. do 2 f_equal. lia.
Qed.

(** Zeros before it only move the point. *)
Lemma read_zeros k m rest :
  m_nd m = 0 → m_sawdigits m = true →
  read_mantissa false m (replicate k "0"%char ++ rest)
  = read_mantissa false (mkMant (m_value m) 0 (m_dp m - Z.of_nat k) (m_sawdot m) true
                           (m_underscores m)) rest.
Proof.
  revert m. induction k as [|k IH]; intros m Hnd Hsaw; cbn [replicate app].
  { rewrite Z.sub_0_r. destruct m. cbn in *. by subst. }
  change (read_mantissa false m ("0"%char :: replicate k "0"%char ++ rest))
    with (read_mantissa false (see_digit false 0 m) (replicate k "0"%char ++ rest)).
  unfold see_digit. rewrite Hnd. cbn [Z.eqb andb]. rewrite IH by done.
  cbn [m_value m_dp m_sawdot m_underscores]. f_equal. f_equal. lia.
Qed.

Lemma read_dot m rest :
  m_sawdot m = false →
  read_mantissa false m ("."%char :: rest)
  = read_mantissa false (mkMant (m_value m) (m_nd m) (m_nd m) true (m_sawdigits m)
                           (m_underscores m)) rest.
Proof. intros Hm. cbn [read_mantissa Ascii.eqb Bool.eqb]. by rewrite Hm. Qed.

Lemma read_exponent_digits l e us :
  forallb isDigit10 l = true → 0 ≤ e →
  ∃ x, read_exponent e us l = (x, us, []) ∧ (value_from e l < 10000 → x = value_from e l).
Proof.
  revert e. induction l as [|c l IH]; intros e Hl He; [by exists e|].
  cbn [forallb] in Hl. apply andb_true_iff in Hl as [Hc Hl].
  destruct (digit_chars c Hc) as (Hu & _). cbn [read_exponent foldl]. rewrite Hu, Hc.
  pose proof (isDigit10_value _ Hc) as Hv.
  destruct (Z.ltb_spec e 10000) as [Hs|Hb].
  - destruct (IH (e * 10 + digit_value c) Hl ltac:(lia)) as (x & Hx & Hval).
    exists x. split; [exact Hx|]. by rewrite (Z.mul_comm 10 e).
  - destruct (IH e Hl He) as (x & Hx & _). exists x. split; [exact Hx|]. intros Hlt. exfalso.
    pose proof (foldl_digits_ge l (10 * e + digit_value c) Hl). lia.
Qed.

(** ** Reading a whole text *)

Definition signed (neg : bool) (l : list ascii) : list ascii :=
  (if neg then ["-"%char] else []) ++ l.

(** A text that begins with a digit and is not hexadecimal. *)
Definition plain (c : ascii) (r : list ascii) : Prop :=
  isDigit10 c = true ∧
  (c = "0"%char → from_option (λ x, Ascii.eqb (lower x) "x" = false) True (head r)).

Lemma sign_signed neg c r : isDigit10 c = true → sign (signed neg (c :: r)) = (neg, c :: r).
Proof.
  intros Hc. destruct neg; [done|]. revert Hc. by destruct c as [[] [] [] [] [] [] [] []].
Qed.

Lemma special_signed neg c r : isDigit10 c = true → special (signed neg (c :: r)) = None.
Proof.
  intros Hc. unfold special. rewrite sign_signed by done.
  destruct (digit_chars c Hc) as (_ & _ & _ & Hl). cbn [fmap list_fmap].
  rewrite !bool_decide_eq_false_2; [done|..]; revert Hc; rewrite ?Hl.
  - destruct neg; [done|]. cbn [signed app fmap list_fmap]. rewrite Hl.
    by intros Hc [= -> _].
  - intros Hc. by intros [[= -> _]|[= -> _]].
Qed.

Lemma decimal_prefix c r :
  plain c r →
  match c :: r with
  | "0"%char :: x :: c' :: l' =>
    if Ascii.eqb (lower x) "x" then (true, c' :: l') else (false, c :: r)
  | _ => (false, c :: r)
  end = (false, c :: r).
Proof.
  intros [_ Hx]. destruct (decide (c = "0"%char)) as [->|Hne].
  - specialize (Hx eq_refl). destruct r as [|x [|c' r]]; [done..|]. cbn in Hx. by rewrite Hx.
  - revert Hne. by destruct c as [[] [] [] [] [] [] [] []].
Qed.

(** The point after the digits read so far. *)
Definition point (m : mantissa) : Z := if m_sawdot m then m_dp m else m_nd m.

Lemma readFloat_end neg c r m :
  plain c r → read_mantissa false no_digits (c :: r) = (m, []) →
  m_sawdigits m = true → m_underscores m = false →
  readFloat (signed neg (c :: r))
  = Some (mkRead neg (m_value m) (if m_value m =? 0 then 0 else point m - m_nd m) (m_nd m) false).
Proof.
  intros Hp Hm Hs Hu. unfold readFloat. rewrite sign_signed by apply Hp.
  rewrite decimal_prefix by done. rewrite Hm, Hs, Hu. done.
Qed.

Lemma readFloat_exp c r m esign ds :
  plain c r →
  read_mantissa false no_digits (c :: r) = (m, "e"%char :: (if esign : bool then "-" else "+")%char :: ds) →
  m_sawdigits m = true → m_underscores m = false → forallb isDigit10 ds = true → ds ≠ [] →
  ∃ x, (∀ neg, readFloat (signed neg (c :: r))
    = Some (mkRead neg (m_value m)
              (if m_value m =? 0 then 0 else point m + (if esign then - x else x) - m_nd m)
              (m_nd m) false)) ∧
    (digits_value ds < 10000 → x = digits_value ds).
Proof.
  intros Hp Hm Hs Hu Hds Hne. destruct (read_exponent_digits ds 0 false Hds) as (x & Hx & Hval); [lia|].
  exists x. split; [|exact Hval]. intros neg. unfold readFloat. rewrite sign_signed by apply Hp.
  rewrite decimal_prefix by done. rewrite Hm, Hs, Hu. cbn [negb].
  change (Ascii.eqb (lower "e") "e") with true. cbn [negb].
  assert (sign ((if esign then "-" else "+")%char :: ds) = (esign, ds)) as -> by (by destruct esign).
  destruct ds as [|d ds]; [done|]. cbn [forallb] in Hds. apply andb_true_iff in Hds as [Hd _].
  rewrite Hd. cbn [negb]. rewrite Hx. rewrite bool_decide_eq_true_2 by done. cbn [negb andb].
  by destruct esign.
Qed.

(** [ParseFloat] of a decimal text: the same number under either sign. *)
Lemma ParseFloat_read c r v nd x :
  isDigit10 c = true →
  (∀ neg, readFloat (signed neg (c :: r)) = Some (mkRead neg (Zpos v) x nd false)) →
  ∀ neg, ParseFloat (signed neg (c :: r)) = round_decimal neg v nd x.
Proof.
  intros Hc Hr neg. unfold ParseFloat. by rewrite special_signed, Hr by done.
Qed.

(** ** The two formats *)

(** What a text of the digits [ds] and the point [dp] reads as. *)
Definition reads_as (l : list ascii) (ds : list ascii) (dp : Z) : Prop :=
  ∃ v size x, (∀ neg, ParseFloat (signed neg l) = round_decimal neg v size x) ∧
    (Z.abs (dp - 1) < 10000 →
     (Zpos v = digits_value ds ∧ size = Z.of_nat (length ds) ∧ x = dp - Z.of_nat (length ds)) ∨
     (Zpos v = digits_value ds * 10 ^ (dp - Z.of_nat (length ds)) ∧ Z.of_nat (length ds) ≤ dp ∧
      size = dp ∧ x = 0)).

Lemma digits_positive c ds :
  c ≠ "0"%char → forallb isDigit10 (c :: ds) = true → 0 < digits_value (c :: ds).
Proof.
  cbn [forallb]. intros Hne [Hc Hds]%andb_true_iff.
  pose proof (digits_value_low c ds Hc Hne Hds). lia.
Qed.

Lemma not_hex c r : isDigit10 c = true → c ≠ "0"%char → plain c r.
Proof. by split. Qed.

Lemma fmtE_reads c ds dp :
  c ≠ "0"%char → forallb isDigit10 (c :: ds) = true → reads_as (fmtE (c :: ds, dp)) (c :: ds) dp.
Proof.
  intros Hne Hds. pose proof (digits_positive c ds Hne Hds) as Hpos.
  pose proof Hds as [Hc Hds']%andb_true_iff.
  set (e := "e"%char :: (if dp - 1 <? 0 then "-"%char else "+"%char) :: FormatUint (Z.abs (dp - 1))).
  destruct (FormatUint_spec (Z.abs (dp - 1)) ltac:(lia)) as (Hval & Hene & Hedig & _).
  set (r := (match ds with [] => [] | _ => "."%char :: ds end) ++ e).
  assert (fmtE (c :: ds, dp) = c :: r) as -> by (by destruct ds).
  assert (∃ m, read_mantissa false no_digits (c :: r) = (m, e) ∧ m_value m = digits_value (c :: ds) ∧
    m_nd m = Z.of_nat (length (c :: ds)) ∧ point m = 1 ∧ m_sawdigits m = true ∧
    m_underscores m = false) as (m & Hm & Hv & Hnd & Hpt & Hsaw & Hus).
  { assert (c :: r = [c] ++ (match ds with [] => [] | _ => "."%char :: ds end) ++ e) as -> by done.
    assert (forallb isDigit10 [c] = true) as Hc1 by (cbn; by rewrite Hc).
    rewrite read_first by done. destruct ds as [|d ds].
    - eexists. split; [reflexivity|]. by split_ands.
    - cbn [app]. rewrite read_dot, app_comm_cons by done.
      rewrite read_more by done. eexists. split; [reflexivity|]. split_ands; try done.
      cbn [more m_nd length]. lia. }
  destruct (readFloat_exp c r m (dp - 1 <? 0) (FormatUint (Z.abs (dp - 1))))
    as (x & Hread & Hx); [by apply not_hex|exact Hm|done..|].
  rewrite Hv, Hnd, Hpt in Hread. rewrite Hval in Hx.
  destruct (digits_value (c :: ds)) as [|v|v] eqn:Hdv; [lia| |lia]. cbn [Z.eqb] in Hread.
  exists v, (Z.of_nat (length (c :: ds))),
    (1 + (if dp - 1 <? 0 then - x else x) - Z.of_nat (length (c :: ds))).
  split; [by apply ParseFloat_read|]. intros Hdp. left. split_ands; [done|done|].
  rewrite Hx by done. destruct (Z.ltb_spec (dp - 1) 0); lia.
Qed.

(** Digits that end the text, with the point they were given. *)
Lemma readFloat_digits c r m :
  plain c r → read_mantissa false no_digits (c :: r) = (m, []) → 0 < m_value m →
  m_sawdigits m = true → m_underscores m = false →
  ∃ v, Zpos v = m_value m ∧
    ∀ neg, ParseFloat (signed neg (c :: r)) = round_decimal neg v (m_nd m) (point m - m_nd m).
Proof.
  intros Hp Hm Hpos Hs Hu. destruct (m_value m) as [|v|v] eqn:Hv; [lia| |lia]. exists v.
  split; [done|]. apply ParseFloat_read; [apply Hp|]. intros neg.
  by rewrite (readFloat_end neg c r m Hp Hm Hs Hu), Hv.
Qed.

(** A point before, inside or after the digits. *)
Lemma fmtF_below c ds dp :
  c ≠ "0"%char → forallb isDigit10 (c :: ds) = true → dp ≤ 0 →
  reads_as (fmtF (c :: ds, dp)) (c :: ds) dp.
Proof.
  intros Hne Hds Hdp. pose proof (digits_positive c ds Hne Hds) as Hpos.
  unfold fmtF. rewrite (proj2 (Z.leb_le dp 0)) by done.
  rewrite (proj2 (Z.leb_gt (Z.of_nat (length (c :: ds)) - dp) 0)) by (cbn [length]; lia).
  rewrite Z.min_l by lia. replace (Z.to_nat dp) with 0%nat by lia. cbn [drop app].
  destruct (readFloat_digits "0" ("."%char :: replicate (Z.to_nat (- dp)) "0"%char ++ c :: ds)
    (mkMant (digits_value (c :: ds)) (Z.of_nat (length (c :: ds))) dp true true false))
    as (v & Hv & Hread); try done.
  { change (read_mantissa false no_digits ("0"%char :: ?r))
      with (read_mantissa false (see_digit false 0 no_digits) r).
    rewrite read_dot, read_zeros by done. cbn [m_value m_dp m_nd m_sawdot m_underscores see_digit].
    rewrite <-(app_nil_r (c :: ds)). rewrite read_first by done. cbn [read_mantissa].
    rewrite app_nil_r. do 2 f_equal. cbn. lia. }
  cbn [m_nd point m_sawdot m_dp m_value] in *.
  exists v, (Z.of_nat (length (c :: ds))), (dp - Z.of_nat (length (c :: ds))).
  split; [exact Hread|]. intros _. left. by split_ands.
Qed.

Lemma fmtF_inside c ds dp :
  c ≠ "0"%char → forallb isDigit10 (c :: ds) = true → 0 < dp < Z.of_nat (length (c :: ds)) →
  reads_as (fmtF (c :: ds, dp)) (c :: ds) dp.
Proof.
  intros Hne Hds Hdp. pose proof (digits_positive c ds Hne Hds) as Hpos.
  unfold fmtF. rewrite (proj2 (Z.leb_gt dp 0)) by lia.
  rewrite (proj2 (Z.leb_gt (Z.of_nat (length (c :: ds)) - dp) 0)) by lia.
  replace (Z.to_nat (dp - Z.of_nat (length (c :: ds)))) with 0%nat by lia.
  replace (Z.to_nat (Z.min (- dp) (Z.of_nat (length (c :: ds)) - dp))) with 0%nat by lia.
  cbn [replicate app]. rewrite app_nil_r. destruct (Z.to_nat dp) as [|k] eqn:Hk; [lia|].
  assert (k < length ds)%nat as Hlt by (cbn [length] in Hdp; lia).
  cbn [take drop app]. pose proof Hds as [Hc Hds']%andb_true_iff.
  destruct (forallb_take_drop isDigit10 k ds Hds') as [Ht Hd].
  destruct (readFloat_digits c (take k ds ++ "."%char :: drop k ds)
    (mkMant (digits_value (c :: ds)) (Z.of_nat (length (c :: ds))) dp true true false))
    as (v & Hv & Hread); try done.
  { rewrite app_comm_cons. rewrite read_first; [|done|by cbn; rewrite Hc, Ht|done|done].
    rewrite read_dot by done. rewrite <-(app_nil_r (drop k ds)).
    rewrite read_more by (done || cbn; lia). cbn [read_mantissa].
    unfold more. cbn [m_value m_nd m_dp m_sawdot m_sawdigits m_underscores]. do 2 f_equal.
    - unfold digits_value. rewrite <-foldl_app. by rewrite <-app_comm_cons, take_drop.
    - cbn [length]. rewrite length_take, length_drop. lia.
    - cbn [length]. rewrite length_take. lia. }
  cbn [m_nd point m_sawdot m_dp m_value] in *.
  exists v, (Z.of_nat (length (c :: ds))), (dp - Z.of_nat (length (c :: ds))).
  split; [exact Hread|]. intros _. left. by split_ands.
Qed.

Lemma fmtF_above c ds dp :
  c ≠ "0"%char → forallb isDigit10 (c :: ds) = true → Z.of_nat (length (c :: ds)) ≤ dp →
  reads_as (fmtF (c :: ds, dp)) (c :: ds) dp.
Proof.
  intros Hne Hds Hdp. pose proof (digits_positive c ds Hne Hds) as Hpos.
  unfold fmtF. rewrite (proj2 (Z.leb_gt dp 0)) by (cbn [length] in Hdp; lia).
  rewrite (proj2 (Z.leb_le (Z.of_nat (length (c :: ds)) - dp) 0)) by lia.
  rewrite take_ge by lia. cbn [app]. rewrite app_nil_r.
  set (z := Z.to_nat (dp - Z.of_nat (length (c :: ds)))).
  pose proof Hds as [Hc Hds']%andb_true_iff.
  assert (forallb isDigit10 (c :: ds ++ replicate z "0"%char) = true) as Hall.
  { rewrite app_comm_cons, forallb_app. by rewrite Hds, digits_zeros. }
  assert (digits_value (c :: ds ++ replicate z "0"%char) = digits_value (c :: ds) * 10 ^ Z.of_nat z) as Hval.
  { rewrite app_comm_cons. unfold digits_value. rewrite digits_value_app, value_from_app.
    rewrite digits_value_zeros, length_replicate. lia. }
  assert (Z.of_nat (length (c :: ds ++ replicate z "0"%char)) = dp) as Hlen.
  { rewrite app_comm_cons, length_app, length_replicate. lia. }
  destruct (readFloat_digits c (ds ++ replicate z "0"%char)
    (mkMant (digits_value (c :: ds) * 10 ^ Z.of_nat z) dp 0 false true false))
    as (v & Hv & Hread); try done.
  { rewrite <-(app_nil_r (c :: _ ++ _)). rewrite read_first by done. cbn [read_mantissa].
    by rewrite Hval, Hlen. }
  { cbn [m_value]. assert (0 < 10 ^ Z.of_nat z) by lia. nia. }
  cbn [m_nd point m_sawdot m_dp m_value] in *. rewrite Z.sub_diag in Hread.
  exists v, dp, 0. split; [exact Hread|]. intros _. right. split_ands; try done.
  rewrite Hv. do 2 f_equal. lia.
Qed.

Lemma fmt_decimal_reads f c ds dp :
  c ≠ "0"%char → forallb isDigit10 (c :: ds) = true →
  reads_as (fmt_decimal f (c :: ds, dp)) (c :: ds) dp.
Proof.
  intros Hne Hds. unfold fmt_decimal. destruct (_ || _); [by apply fmtE_reads|].
  destruct (Z.le_gt_cases dp 0); [by apply fmtF_below|].
  destruct (Z.le_gt_cases (Z.of_nat (length (c :: ds))) dp); [by apply fmtF_above|by apply fmtF_inside].
Qed.

(** ** The sign *)

Lemma binary_round_sign q e loc :
  binary_round_aux 53 1024 true q e loc = SFopp (binary_round_aux 53 1024 false q e loc).
Proof.
  unfold binary_round_aux. destruct (shr_fexp _ _ _ _ _) as [mrs e1].
  destruct (shr_fexp _ _ _ _ _) as [mrs' e2]. destruct (shr_m mrs'); [done| |done]. by case_match.
Qed.

Lemma round_decimal_sign v size x m e :
  round_decimal false v size x = Some (S754_finite false m e) →
  round_decimal true v size x = Some (S754_finite true m e).
Proof.
  unfold round_decimal. destruct (_ <? _); [done|]. destruct (_ <? _); [done|].
  destruct (if 0 <=? x then _ else _) as [[q e'] loc]. rewrite binary_round_sign.
  destruct (binary_round_aux _ _ _ _ _ _); cbn; try done. by intros [= -> -> ->].
Qed.

Lemma SFeqb_finite m e g : SFeqb (S754_finite false m e) g = true → g = S754_finite false m e.
Proof.
  unfold SFeqb. destruct g as [[]|[]| |[] m' e']; cbn; try done.
  destruct (Z.compare_spec e e') as [->| |]; try done.
  change (Pos.compare_cont Eq m m') with (Pos.compare m m').
  by destruct (Pos.compare_spec m m') as [->| |].
Qed.

(** What [shortest] accepts is read back, with either sign. *)
Definition accepted (f : float64) (d : decimal) : bool :=
  match ParseFloat (fmt_decimal f d) with Some g => SFeqb f g | None => false end.

Lemma accepted_reads m e d :
  decimal_ok d → accepted (S754_finite false m e) d = true →
  ∀ neg, ParseFloat (signed neg (fmt_decimal (S754_finite false m e) d))
         = Some (S754_finite neg m e).
Proof.
  intros Hd Hacc. unfold accepted in Hacc. destruct (ParseFloat _) as [g|] eqn:Hp; [|done].
  apply SFeqb_finite in Hacc as ->.
  destruct Hd as [->|(c & ds & dp & -> & Hne & Hds)].
  { unfold fmt_decimal in Hp. by destruct (_ || _). }
  destruct (fmt_decimal_reads (S754_finite false m e) c ds dp Hne Hds) as (v & size & x & Hread & _).
  pose proof (Hread false) as Hf. cbn [signed app] in Hf. rewrite Hp in Hf.
  intros []; rewrite Hread; [by apply round_decimal_sign|done].
Qed.

(** ** The exact expansion *)

Lemma drop_zeros_split l :
  l = drop_zeros l ++ replicate (length l - length (drop_zeros l)) "0"%char ∧
  (length (drop_zeros l) ≤ length l)%nat.
Proof.
  induction l as [|c l [IH Hle]]; [done|]. cbn [drop_zeros].
  destruct (drop_zeros l) as [|c' l'].
  - cbn [app length] in IH. rewrite Nat.sub_0_r in IH.
    destruct (Ascii.eqb_spec c "0") as [->|_]; cbn [length app].
    + split; [rewrite Nat.sub_0_r; cbn [replicate]; congruence|lia].
    + split; [|lia]. rewrite Nat.sub_succ, Nat.sub_0_r. congruence.
  - cbn [length app] in *. split; [|lia]. rewrite Nat.sub_succ. congruence.
Qed.

(** The digits of a positive number, without the zeros at the end. *)
Lemma decimal_of_digits lo x :
  0 < lo →
  ∃ c ds z, decimal_of lo x = (c :: ds, Z.of_nat (length (c :: ds)) + Z.of_nat z + x) ∧
    c ≠ "0"%char ∧ forallb isDigit10 (c :: ds) = true ∧
    lo = digits_value (c :: ds) * 10 ^ Z.of_nat z.
Proof.
  intros Hlo. destruct (FormatUint_spec lo ltac:(lia)) as [Hval _].
  destruct (drop_zeros_split (FormatUint lo)) as [Hsplit Hle].
  set (z := (length (FormatUint lo) - length (drop_zeros (FormatUint lo)))%nat) in Hsplit.
  assert (digits_value (drop_zeros (FormatUint lo)) * 10 ^ Z.of_nat z = lo) as Hdz.
  { rewrite <-Hval at 2. rewrite Hsplit at 2. unfold digits_value.
    rewrite digits_value_app, (value_from_app (replicate z _)), digits_value_zeros, length_replicate. lia. }
  pose proof (decimal_of_ok lo x) as Hok. unfold decimal_of in *.
  destruct (drop_zeros (FormatUint lo)) as [|c ds] eqn:Heq.
  { change (digits_value []) with 0 in Hdz. lia. }
  destruct Hok as [|(c' & ds' & dp & [= <- <- _] & Hc & Hds)]; [done|].
  exists c, ds, z. split_ands; [|done|done|by rewrite Hdz]. f_equal. lia.
Qed.

Lemma cancel_tens v den num s z :
  0 ≤ s → 0 ≤ z → v * 10 ^ z * den = num * 10 ^ s → decimal_is v (z - s) num den.
Proof.
  intros Hs Hz H. unfold decimal_is. destruct (Z.le_gt_cases s z).
  - rewrite Z.max_l, Z.max_r by lia. apply (Z.mul_cancel_r _ _ (10 ^ s)); [lia|].
    transitivity (v * 10 ^ (z - s + s) * den); [rewrite Z.pow_add_r by lia; ring|].
    replace (z - s + s) with z by lia. lia.
  - rewrite Z.max_r, Z.max_l by lia. apply (Z.mul_cancel_r _ _ (10 ^ z)); [lia|].
    transitivity (num * 10 ^ (- (z - s) + z)); [|rewrite Z.pow_add_r by lia; ring].
    replace (- (z - s) + z) with s by lia. lia.
Qed.

(** How large and how small a binary64 can be. *)
Lemma bounded_range m e :
  bounded 53 1024 m e = true →
  0 < Zpos m * 2 ^ Z.max e 0 < 10 ^ 309 ∧ 0 < 2 ^ Z.max (- e) 0 < 10 ^ 324 ∧ - 1074 ≤ e.
Proof.
  intros [Hc He]%andb_true_iff. unfold canonical_mantissa, fexp, emin in Hc.
  apply Z.eqb_eq in Hc. rewrite digits2_log2 in Hc. apply Z.leb_le in He.
  destruct (Z.log2_spec (Zpos m)) as [_ Hm]; [done|].
  assert (Zpos m < 2 ^ 53) as Hm53.
  { eapply Z.lt_le_trans; [exact Hm|]. apply Z.pow_le_mono_r; lia. }
  assert (0 < 2 ^ Z.max e 0 ≤ 2 ^ 971) as Hp.
  { split; [lia|]. apply Z.pow_le_mono_r; lia. }
  assert (0 < 2 ^ Z.max (- e) 0 ≤ 2 ^ 1074) as Hd.
  { split; [lia|]. apply Z.pow_le_mono_r; lia. }
  assert (2 ^ 53 * 2 ^ 971 < 10 ^ 309) as H1 by (vm_compute; reflexivity).
  assert (2 ^ 1074 < 10 ^ 324) as H2 by (vm_compute; reflexivity).
  generalize dependent (2 ^ 971). generalize dependent (2 ^ 1074).
  generalize dependent (10 ^ 309). generalize dependent (10 ^ 324). intros. split_ands; try lia; nia.
Qed.

Lemma le_times a b : 0 ≤ a → 0 < b → a ≤ a * b.
Proof. nia. Qed.

Lemma mul_mono_pos a b c : a ≤ b → 0 < c → a * c ≤ b * c.
Proof. intros. apply Z.mul_le_mono_nonneg_r; lia. Qed.

(** So the exponents of its digits are small. *)
Lemma decimal_range v x n num den :
  0 < num < 10 ^ 309 → 0 < den < 10 ^ 324 → 0 < n → 10 ^ (n - 1) ≤ v < 10 ^ n →
  decimal_is v x num den → - 324 < n + x ≤ 309 ∧ x ≤ 308.
Proof.
  intros Hnum Hden Hn Hv H. unfold decimal_is in H.
  assert (0 < 10 ^ (n - 1)) as Hn1 by lia.
  destruct (Z.le_gt_cases 0 x) as [Hx|Hx].
  - rewrite Z.max_l, Z.max_r in H by lia. change (10 ^ 0) with 1 in H. rewrite Z.mul_1_r in H.
    assert (0 < 10 ^ x) as H10 by lia.
    assert (10 ^ (n - 1 + x) < 10 ^ 309) as Hlt.
    { rewrite Z.pow_add_r by lia. apply Z.le_lt_trans with num; [rewrite <-H|lia].
      transitivity (v * 10 ^ x); [apply mul_mono_pos; lia|].
      apply le_times; [|lia]. apply Z.mul_nonneg_nonneg; lia. }
    apply Z.pow_lt_mono_r_iff in Hlt; lia.
  - rewrite Z.max_r, Z.max_l in H by lia. change (10 ^ 0) with 1 in H. rewrite Z.mul_1_r in H.
    assert (0 < 10 ^ (- x)) as H10 by lia. split; [split|lia].
    + assert (10 ^ (- x) < 10 ^ (n + 324)) as Hlt.
      { apply Z.le_lt_trans with (num * 10 ^ (- x)); [rewrite Z.mul_comm; apply le_times; lia|].
        rewrite <-H, Z.pow_add_r by lia. apply Z.mul_lt_mono_nonneg; lia. }
      apply Z.pow_lt_mono_r_iff in Hlt; lia.
    + assert (10 ^ (n - 1) < 10 ^ (309 - x)) as Hlt.
      { apply Z.le_lt_trans with (v * den); [etrans; [apply Hv|apply le_times; lia]|].
        rewrite H, <-Z.add_opp_r, Z.pow_add_r by lia. apply Z.mul_lt_mono_pos_r; lia. }
      apply Z.pow_lt_mono_r_iff in Hlt; lia.
Qed.

Lemma expansion_reads m e lo s :
  bounded 53 1024 m e = true → 0 ≤ s →
  lo * 2 ^ Z.max (- e) 0 = Zpos m * 2 ^ Z.max e 0 * 10 ^ s →
  ∀ f neg, ParseFloat (signed neg (fmt_decimal f (decimal_of lo (- s)))) = Some (S754_finite neg m e).
Proof.
  intros Hb Hs Hlo f neg. destruct (bounded_range m e Hb) as (Hnum & Hden & _).
  assert (0 < lo) as Hpos.
  { assert (0 < 10 ^ s) by lia. assert (0 < Zpos m * 2 ^ Z.max e 0 * 10 ^ s) by nia. nia. }
  destruct (decimal_of_digits lo (- s) Hpos) as (c & ds & z & -> & Hne & Hds & Hval).
  pose proof Hds as [Hc Hds']%andb_true_iff.
  set (n := Z.of_nat (length (c :: ds))).
  assert (decimal_is (digits_value (c :: ds)) (Z.of_nat z - s)
            (Zpos m * 2 ^ Z.max e 0) (2 ^ Z.max (- e) 0)) as Hdec.
  { apply cancel_tens; [done|lia|]. by rewrite <-Hval. }
  assert (10 ^ (n - 1) ≤ digits_value (c :: ds) < 10 ^ n) as Hrange.
  { split; [|by apply digits_value_range].
    replace (n - 1) with (Z.of_nat (length ds)) by (subst n; cbn [length]; lia).
    by apply digits_value_low. }
  destruct (decimal_range _ _ n _ _ Hnum Hden ltac:(subst n; cbn [length]; lia) Hrange Hdec)
    as [Hdp Hx].
  destruct (fmt_decimal_reads f c ds (n + Z.of_nat z + - s) Hne Hds) as (v & size & x & Hread & Hcase).
  fold n in Hcase. rewrite Hread. apply round_decimal_exact; [|exact Hb|].
  - destruct Hcase as [(_ & -> & ->)|(_ & ? & -> & ->)]; lia.
  - rewrite fraction_max. cbn [fst snd].
    destruct Hcase as [(-> & _ & ->)|(-> & Hle & _ & ->)]; [lia| |].
    + by replace (n + Z.of_nat z + - s - n) with (Z.of_nat z - s) by lia.
    + unfold decimal_is in *. replace (n + Z.of_nat z + - s - n) with (Z.of_nat z - s) by lia.
      rewrite (Z.max_l (Z.of_nat z - s)), (Z.max_r (- (Z.of_nat z - s))) in Hdec by lia.
      change (10 ^ Z.max 0 0) with 1. change (10 ^ Z.max (- 0) 0) with 1.
      change (10 ^ 0) with 1 in Hdec. by rewrite Z.mul_1_r.
Qed.

Lemma shortest_step fuel f num den k n :
  ∃ c1 c2, decimal_ok c1 ∧ decimal_ok c2 ∧
    shortest (S fuel) f num den k n =
    if accepted f c1 then c1 else if accepted f c2 then c2 else shortest fuel f num den k (n + 1).
Proof. do 2 eexists. split; [|split; [|reflexivity]]; apply decimal_of_ok. Qed.

Lemma shortest_reads m e k fuel n :
  bounded 53 1024 m e = true → k + 1074 ≤ n + Z.of_nat fuel →
  let '(num, den) := fraction m e in
  ∀ neg, ParseFloat (signed neg (fmt_decimal (S754_finite false m e)
                                  (shortest fuel (S754_finite false m e) num den k n)))
         = Some (S754_finite neg m e).
Proof.
  intros Hb. rewrite fraction_max. set (f := S754_finite false m e).
  revert n. induction fuel as [|fuel IH]; intros n Hn neg.
  - cbn [shortest]. rewrite (proj2 (Z.leb_le k n)) by lia.
    destruct (bounded_range m e Hb) as (_ & Hden & He).
    assert ((2 ^ Z.max (- e) 0 | Zpos m * 2 ^ Z.max e 0 * 10 ^ (n - k))) as Hdiv.
    { apply Z.divide_mul_r. exists (5 ^ (n - k) * 2 ^ (n - k - Z.max (- e) 0)).
      rewrite <-Z.mul_assoc, <-Z.pow_add_r by lia.
      replace (n - k - Z.max (- e) 0 + Z.max (- e) 0) with (n - k) by lia.
      by rewrite <-Z.pow_mul_l. }
    pose proof Hdiv as Hmod%Z.mod_divide; [|lia]. rewrite Hmod.
    rewrite (proj2 (Z.ltb_lt (2 * 0) _)) by lia. cbn [orb].
    replace (k - n) with (- (n - k)) by lia. apply expansion_reads; [done|lia|].
    rewrite Z.mul_comm. symmetry. by apply Z.div_exact; [lia|].
  - destruct (shortest_step fuel f (Zpos m * 2 ^ Z.max e 0) (2 ^ Z.max (- e) 0) k n)
      as (c1 & c2 & H1 & H2 & ->).
    destruct (accepted f c1) eqn:A1; [by apply accepted_reads|].
    destruct (accepted f c2) eqn:A2; [by apply accepted_reads|]. apply IH. lia.
Qed.

(** Every finite number that has a JSON text is read back from it, also the negative
    zero; infinities and NaN have none. *)
Lemma float_read_back f :
  valid_binary 53 1024 f = true →
  match FormatFloat f with
  | Some l => ParseFloat l = Some f
  | None => f = S754_nan ∨ ∃ neg, f = S754_infinity neg
  end.
Proof.
  destruct f as [neg|neg| |neg m e]; cbn [valid_binary FormatFloat]; intros Hb.
  - by destruct neg.
  - right. by exists neg.
  - by left.
  - destruct (fraction m e) as [num den] eqn:Hfr.
    pose proof (shortest_reads m e (decimal_point num den)
      (Z.to_nat (decimal_point num den + 1074)) 1 Hb ltac:(lia)) as H.
    rewrite Hfr in H. apply H.
Qed.

