(* ===== verification/Sha256.v ===== *)
(** * crypto/sha256 and encoding/hex

    [sha256.Sum256] as FIPS 180-4 defines it, on 32-bit words in Z, and
    [hex.EncodeToString]: internal/ingest keys its log by the hexadecimal digest
    of the request body. *)

From S2P Require Import Prelude Utf8.
From Stdlib Require Import Ascii.
Local Open Scope Z_scope.

(** ** 32-bit words *)

Definition w32 (x : Z) : Z := x mod 2 ^ 32.
Definition add32 (x y : Z) : Z := w32 (x + y).
Definition rotr (n x : Z) : Z := Z.lor (Z.shiftr x n) (w32 (Z.shiftl x (32 - n))).
Definition not32 (x : Z) : Z := 2 ^ 32 - 1 - x.

Definition Ch (x y z : Z) : Z := Z.lxor (Z.land x y) (Z.land (not32 x) z).
Definition Maj (x y z : Z) : Z := Z.lxor (Z.lxor (Z.land x y) (Z.land x z)) (Z.land y z).
Definition Sigma0 (x : Z) : Z := Z.lxor (Z.lxor (rotr 2 x) (rotr 13 x)) (rotr 22 x).
Definition Sigma1 (x : Z) : Z := Z.lxor (Z.lxor (rotr 6 x) (rotr 11 x)) (rotr 25 x).
Definition sigma0 (x : Z) : Z := Z.lxor (Z.lxor (rotr 7 x) (rotr 18 x)) (Z.shiftr x 3).
Definition sigma1 (x : Z) : Z := Z.lxor (Z.lxor (rotr 17 x) (rotr 19 x)) (Z.shiftr x 10).

(** The constants of the standard: 32 bits after the point of the square and cube
    roots of the first primes. *)
Definition is_prime (n : nat) : bool := forallb (λ d, negb (n mod d =? 0)%nat) (seq 2 (n - 2)).
Definition primes : list Z := Z.of_nat <$> take 64 (List.filter is_prime (seq 2 310)).

(** The integer cube root of a number below [2^(3k)], bit by bit. *)
Fixpoint cube_root (k : nat) (r n : Z) : Z :=
  match k with
  | O => r
  | S k' =>
    let r' := r + 2 ^ Z.of_nat k' in
    cube_root k' (if r' ^ 3 <=? n then r' else r) n
  end.

Definition round_constants : list Z :=
  Eval vm_compute in (λ p, w32 (cube_root 36 0 (p * 2 ^ 96))) <$> primes.
Definition initial_words : list Z :=
  Eval vm_compute in (λ p, w32 (Z.sqrt (p * 2 ^ 64))) <$> take 8 primes.

Record state : Type := State { sa : Z; sb : Z; sc : Z; sd : Z; se : Z; sf : Z; sg : Z; sh : Z }.

Definition state_of (l : list Z) : state :=
  let at_ i := nth i l 0 in
  State (at_ 0%nat) (at_ 1%nat) (at_ 2%nat) (at_ 3%nat) (at_ 4%nat) (at_ 5%nat) (at_ 6%nat) (at_ 7%nat).
Definition initial_state : state := state_of initial_words.

(** ** Padding and blocks *)

Definition byte_z (c : ascii) : Z := Z.of_N (N_of_ascii c).

Definition be_bytes (k : nat) (x : Z) : list Z :=
  (λ i, Z.shiftr x (8 * Z.of_nat i) mod 256) <$> reverse (seq 0 k).

Definition padded (l : list ascii) : list Z :=
  let n := length l in
  (byte_z <$> l) ++ 128 :: replicate ((119 - n mod 64) mod 64) 0 ++ be_bytes 8 (8 * Z.of_nat n).

Fixpoint words (l : list Z) : list Z :=
  match l with
  | a :: b :: c :: d :: l' => (a * 2 ^ 24 + b * 2 ^ 16 + c * 2 ^ 8 + d) :: words l'
  | _ => []
  end.

(** Sixteen words at a time; [k] blocks. *)
Fixpoint blocks (k : nat) (l : list Z) : list (list Z) :=
  match k with
  | O => []
  | S k' => take 16 l :: blocks k' (drop 16 l)
  end.

(** The message schedule, kept backwards while it grows to 64 words. *)
Fixpoint extend (k : nat) (rev : list Z) : list Z :=
  match k with
  | O => rev
  | S k' =>
    let at_ i := nth i rev 0 in
    extend k' (w32 (sigma1 (at_ 1%nat) + at_ 6%nat + sigma0 (at_ 14%nat) + at_ 15%nat) :: rev)
  end.
Definition schedule (block : list Z) : list Z := reverse (extend 48 (reverse block)).

Definition round (s : state) (kw : Z * Z) : state :=
  let '(k, w) := kw in
  let t1 := w32 (sh s + Sigma1 (se s) + Ch (se s) (sf s) (sg s) + k + w) in
  let t2 := add32 (Sigma0 (sa s)) (Maj (sa s) (sb s) (sc s)) in
  State (add32 t1 t2) (sa s) (sb s) (sc s) (add32 (sd s) t1) (se s) (sf s) (sg s).

Definition compress (s : state) (block : list Z) : state :=
  let r := foldl round s (zip round_constants (schedule block)) in
  State (add32 (sa s) (sa r)) (add32 (sb s) (sb r)) (add32 (sc s) (sc r)) (add32 (sd s) (sd r))
        (add32 (se s) (se r)) (add32 (sf s) (sf r)) (add32 (sg s) (sg r)) (add32 (sh s) (sh r)).

Definition digest (s : state) : list Z :=
  mjoin (be_bytes 4 <$> [sa s; sb s; sc s; sd s; se s; sf s; sg s; sh s]).

(** [sha256.Sum256] *)
Definition Sum256 (body : string) : list Z :=
  let l := padded (chars body) in
  digest (foldl compress initial_state (blocks (length l / 64) (words l))).

(** ** Hexadecimal *)

Definition hex_char (d : Z) : ascii := ascii_of_N (Z.to_N (if d <? 10 then 48 + d else 87 + d)).

(** [hex.EncodeToString] *)
Definition EncodeToString (l : list Z) : string :=
  str (mjoin ((λ b, [hex_char (b / 16); hex_char (b mod 16)]) <$> l)).

(** ** Facts *)

Example sha256_abc :
  EncodeToString (Sum256 "abc") = "ba7816bf8f01cfea414140de5dae2223b00361a396177a9cb410ff61f20015ad".
Proof. vm_compute. reflexivity. Qed.
Example sha256_two_blocks :
  EncodeToString (Sum256 "abcdbcdecdefdefgefghfghighijhijkijkljklmklmnlmnomnopnopq") =
  "248d6a61d20638b8e5c026930c3e6039a33ce45964ff2167f6ecedd419db06c1".
Proof. vm_compute. reflexivity. Qed.

Lemma be_bytes_range k x : Forall (λ b, 0 ≤ b < 256) (be_bytes k x).
Proof. apply Forall_fmap, Forall_true. intros i. apply Z.mod_pos_bound. lia. Qed.

Lemma Sum256_range body : length (Sum256 body) = 32%nat ∧ Forall (λ b, 0 ≤ b < 256) (Sum256 body).
Proof.
  unfold Sum256, digest. set (s := foldl _ _ _). split; [done|].
  apply Forall_join, Forall_fmap, Forall_true. intros x. apply be_bytes_range.
Qed.

Lemma hex_char_ascii d :
  0 ≤ d < 16 → is_ascii (hex_char d) = true ∧ hex_char d ≠ Ascii.zero.
Proof.
  intros Hd. assert (N_of_ascii (hex_char d) = Z.to_N (if d <? 10 then 48 + d else 87 + d)) as Hn.
  { unfold hex_char. apply byte_of_N. destruct (Z.ltb_spec d 10); lia. }
  split.
  - unfold is_ascii, RuneSelf. rewrite Hn. destruct (Z.ltb_spec d 10); lia.
  - intros H0. rewrite H0 in Hn. cbn in Hn. destruct (Z.ltb_spec d 10); lia.
Qed.

(** A hexadecimal text is ASCII without the zero byte. *)
Lemma EncodeToString_ascii l :
  Forall (λ b, 0 ≤ b < 256) l →
  Forall (λ c, is_ascii c = true ∧ c ≠ Ascii.zero) (chars (EncodeToString l)).
Proof.
  intros Hl. unfold EncodeToString. rewrite chars_str. apply Forall_join, Forall_fmap.
  eapply Forall_impl; [exact Hl|]. intros b [Hb0 Hb1].
  pose proof (Z.mod_pos_bound b 16 ltac:(lia)).
  pose proof (Z.div_pos b 16 ltac:(lia) ltac:(lia)).
  assert (b / 16 < 16) by (apply Z.div_lt_upper_bound; lia).
  repeat constructor; apply hex_char_ascii; lia.
Qed.
