(* ===== verification/GoTime.v ===== *)
(** * [time.Parse]

    internal/normalize reads the vendor's event time with [time.Parse] against
    six layouts. This file gives [time.Parse] for the layout elements those
    layouts use: the year, the two-digit month, day, hour, minute and second, the
    fraction of a second that a value may carry where the layout has none, and
    the numeric zones with a colon. The result is an instant, in nanoseconds
    since the Unix epoch; the zone a value is written in only shifts it. *)

From S2P Require Import Prelude Utf8 Model Strconv.
From Stdlib Require Import Ascii.
Local Open Scope Z_scope.

(** [lia] reasons about division and remainder by constants in this file. *)
Ltac Zify.zify_post_hook ::= Z.to_euclidean_division_equations.

(** ** The calendar *)

Definition is_leap (y : Z) : bool :=
  (y mod 4 =? 0) && (negb (y mod 100 =? 0) || (y mod 400 =? 0)).

Definition daysIn (m y : Z) : Z :=
  if m =? 2 then (if is_leap y then 29 else 28)
  else if (m =? 4) || (m =? 6) || (m =? 9) || (m =? 11) then 30 else 31.

(** Days of the year before the first of the month. *)
Definition days_before (m y : Z) : Z :=
  foldr Z.add 0 ((λ k, daysIn (Z.of_nat k) y) <$> seq 1 (Z.to_nat (m - 1))).

(** Days from January 1 of year 0 to January 1 of year [y], proleptic Gregorian. *)
Definition days_to_year (y : Z) : Z :=
  365 * y + (y - 1) / 4 - (y - 1) / 100 + (y - 1) / 400 + 1.

Definition unix_epoch_day : Z := 719528.

(** A civil date and time with the offset of its zone, east of UTC, in seconds. *)
Record civil : Type := Civil {
  year : Z; month : Z; day : Z; hour : Z; minute : Z; second : Z; nsec : Z;
  zoneOffset : Z
}.

(** [Date(year, month, day, hour, min, sec, nsec, zone)] as an instant. *)
Definition instant (c : civil) : Time :=
  ((days_to_year (year c) + days_before (month c) (year c) + (day c - 1)
    - unix_epoch_day) * 86400
   + hour c * 3600 + minute c * 60 + second c - zoneOffset c) * 1000000000 + nsec c.

(** ** Layouts *)

Inductive chunk : Type :=
  | Literal (c : ascii)
  | stdLongYear | stdZeroMonth | stdZeroDay | stdHour | stdZeroMinute | stdZeroSecond
  | stdISO8601ColonTZ   (** Z07:00 *)
  | stdNumColonTZ.      (** -07:00 *)

Definition starts (l : list ascii) (s : string) : bool :=
  bool_decide (take (length (chars s)) l = chars s).

(** [nextStdChunk], repeated: the reference numbers of a layout are replaced by
    the element they stand for. *)
Fixpoint layout_from (k : nat) (l : list ascii) : list chunk :=
  match l with
  | [] => []
  | c :: l' =>
    match k with
    | S k' => layout_from k' l'
    | O =>
      if starts l "2006" then stdLongYear :: layout_from 3 l'
      else if starts l "01" then stdZeroMonth :: layout_from 1 l'
      else if starts l "02" then stdZeroDay :: layout_from 1 l'
      else if starts l "15" then stdHour :: layout_from 1 l'
      else if starts l "04" then stdZeroMinute :: layout_from 1 l'
      else if starts l "05" then stdZeroSecond :: layout_from 1 l'
      else if starts l "Z07:00" then stdISO8601ColonTZ :: layout_from 5 l'
      else if starts l "-07:00" then stdNumColonTZ :: layout_from 5 l'
      else Literal c :: layout_from 0 l'
    end
  end.
Definition layout_chunks (layout : string) : list chunk := layout_from 0 (chars layout).

(** ** Reading numbers *)

Definition digit (c : ascii) : option Z :=
  let n := Z.of_N (N_of_ascii c) in
  if (48 <=? n) && (n <=? 57) then Some (n - 48) else None.
Definition isDigit (c : ascii) : bool :=
  match digit c with Some _ => true | None => false end.

(** [atoi] on a string whose first byte is not a sign. *)
Fixpoint atoi_from (acc : Z) (l : list ascii) : option Z :=
  match l with
  | [] => Some acc
  | c :: l' => d ← digit c; atoi_from (10 * acc + d) l'
  end.
Definition atoi (l : list ascii) : option Z := atoi_from 0 l.

(** [getnum(s, fixed)]: one or two digits, exactly two if [fixed]. *)
Definition getnum (fixed : bool) (l : list ascii) : option (Z * list ascii) :=
  match l with
  | [] => None
  | c0 :: l0 =>
    d0 ← digit c0;
    match l0 with
    | [] => if fixed then None else Some (d0, [])
    | c1 :: l1 =>
      match digit c1 with
      | None => if fixed then None else Some (d0, l0)
      | Some d1 => Some (10 * d0 + d1, l1)
      end
    end
  end.

Definition commaOrPeriod (c : ascii) : bool := Ascii.eqb c "." || Ascii.eqb c ",".

(** The digits after the comma or period and what follows them. *)
Fixpoint digits_prefix (l : list ascii) : list ascii * list ascii :=
  match l with
  | c :: l' => if isDigit c then let '(ds, r) := digits_prefix l' in (c :: ds, r)
               else ([], l)
  | [] => ([], [])
  end.

(** [parseNanoseconds]: at most nine digits count. *)
Definition parseNanoseconds (ds : list ascii) : option Z :=
  let ds := take 9 ds in
  ns ← atoi ds; Some (ns * 10 ^ (9 - Z.of_nat (length ds))).

(** A fraction of a second in the value although the layout has none. *)
Definition parse_fraction (l : list ascii) : option (Z * list ascii) :=
  match l with
  | c :: ((d :: _) as l') =>
    if commaOrPeriod c && isDigit d
    then let '(ds, r) := digits_prefix l' in ns ← parseNanoseconds ds; Some (ns, r)
    else Some (0, l)
  | _ => Some (0, l)
  end.

(** [+hh:mm] or [-hh:mm], as an offset in seconds. *)
Definition parse_colon_zone (l : list ascii) : option (Z * list ascii) :=
  match l with
  | sg :: h1 :: h2 :: colon :: m1 :: m2 :: l' =>
    if negb (Ascii.eqb colon ":") then None else
    '(hr, _) ← getnum true [h1; h2];
    '(mm, _) ← getnum true [m1; m2];
    if (24 <? hr) || (60 <? mm) then None else
    let off := (hr * 60 + mm) * 60 in
    if Ascii.eqb sg "+" then Some (off, l')
    else if Ascii.eqb sg "-" then Some (- off, l')
    else None
  | _ => None
  end.

(** ** [time.Parse] *)

(** The literal text between elements; a space in the layout stands for any
    number of spaces in the value, but not for another character. *)
Definition skip1 (c : ascii) (l : list ascii) : option (list ascii) :=
  if Ascii.eqb c " " then
    match l with
    | d :: _ => if Ascii.eqb d " " then Some (drop_while (Ascii.eqb " ") l) else None
    | [] => Some []
    end
  else match l with
       | d :: l' => if Ascii.eqb d c then Some l' else None
       | [] => None
       end.

Definition set_year v c := Civil v (month c) (day c) (hour c) (minute c) (second c) (nsec c) (zoneOffset c).
Definition set_month v c := Civil (year c) v (day c) (hour c) (minute c) (second c) (nsec c) (zoneOffset c).
Definition set_day v c := Civil (year c) (month c) v (hour c) (minute c) (second c) (nsec c) (zoneOffset c).
Definition set_hour v c := Civil (year c) (month c) (day c) v (minute c) (second c) (nsec c) (zoneOffset c).
Definition set_minute v c := Civil (year c) (month c) (day c) (hour c) v (second c) (nsec c) (zoneOffset c).
Definition set_second v c := Civil (year c) (month c) (day c) (hour c) (minute c) v (nsec c) (zoneOffset c).
Definition set_nsec v c := Civil (year c) (month c) (day c) (hour c) (minute c) (second c) v (zoneOffset c).
Definition set_zone v c := Civil (year c) (month c) (day c) (hour c) (minute c) (second c) (nsec c) v.

Definition parse_chunk (k : chunk) (l : list ascii) (c : civil)
    : option (list ascii * civil) :=
  match k with
  | Literal ch => l' ← skip1 ch l; Some (l', c)
  | stdLongYear =>
    if (length l <? 4)%nat then None
    else y ← atoi (take 4 l); Some (drop 4 l, set_year y c)
  | stdZeroMonth =>
    '(m, l') ← getnum true l;
    if (m <=? 0) || (12 <? m) then None else Some (l', set_month m c)
  | stdZeroDay => '(d, l') ← getnum true l; Some (l', set_day d c)
  | stdHour =>
    '(h, l') ← getnum false l;
    if (h <? 0) || (24 <=? h) then None else Some (l', set_hour h c)
  | stdZeroMinute =>
    '(m, l') ← getnum true l;
    if (m <? 0) || (60 <=? m) then None else Some (l', set_minute m c)
  | stdZeroSecond =>
    '(s, l') ← getnum true l;
    if (s <? 0) || (60 <=? s) then None else
    '(ns, l'') ← parse_fraction l'; Some (l'', set_nsec ns (set_second s c))
  | stdISO8601ColonTZ =>
    match l with
    | z :: l' =>
      if Ascii.eqb z "Z" then Some (l', set_zone 0 c)
      else '(off, l'') ← parse_colon_zone l; Some (l'', set_zone off c)
    | [] => None
    end
  | stdNumColonTZ => '(off, l') ← parse_colon_zone l; Some (l', set_zone off c)
  end.

Fixpoint parse_chunks (ks : list chunk) (l : list ascii) (c : civil) : option civil :=
  match ks with
  | [] => match l with [] => Some c | _ => None end   (* extra text *)
  | k :: ks' => '(l', c') ← parse_chunk k l c; parse_chunks ks' l' c'
  end.

(** [time.Parse(layout, value)], failure as [None]. *)
Definition Parse (layout value : string) : option Time :=
  c ← parse_chunks (layout_chunks layout) (chars value) (Civil 0 1 1 0 0 0 0 0);
  if (day c <? 1) || (daysIn (month c) (year c) <? day c) then None
  else Some (instant c).

Definition RFC3339 : string := "2006-01-02T15:04:05Z07:00".

(** The test vectors of internal/normalize and the fixtures of internal/samples. *)
Example parse_shanghai :
  Parse RFC3339 "2026-04-21T22:47:00+08:00" = Parse RFC3339 "2026-04-21T14:47:00Z".
Proof. vm_compute. reflexivity. Qed.
Example parse_epoch : Parse RFC3339 "1970-01-01T00:00:00Z" = Some 0.
Proof. vm_compute. reflexivity. Qed.
Example parse_fixture : Parse RFC3339 "2026-04-26T06:00:00.25Z" = Some 1777183200250000000.
Proof. vm_compute. reflexivity. Qed.
Example parse_named_zone : Parse RFC3339 "28/04/2026 09:42 WIB" = None.
Proof. vm_compute. reflexivity. Qed.
Example parse_leap :
  (Parse RFC3339 "2023-02-29T00:00:00Z", Parse RFC3339 "2024-02-29T00:00:00Z")
  = (None, Some 1709164800000000000).
Proof. vm_compute. reflexivity. Qed.

(** ** Reading back a formatted time *)

Definition fmt2 (n : Z) : list ascii := [digit_char (n / 10); digit_char (n mod 10)].
Definition fmt4 (n : Z) : list ascii := fmt2 (n / 100) ++ fmt2 (n mod 100).
Definition fmt9 (n : Z) : list ascii :=
  digit_char (n / 100000000) :: fmt4 (n / 10000 mod 10000) ++ fmt4 (n mod 10000).

(** Trailing zeros of the fraction are left out. *)
Definition fmt_fraction (n : Z) : list ascii :=
  if n =? 0 then [] else "."%char :: drop_zeros (fmt9 n).
Definition fmt_zone (off : Z) : list ascii :=
  if off =? 0 then ["Z"%char]
  else (if Z.quot off 60 <? 0 then "-"%char else "+"%char)
       :: fmt2 (Z.abs off / 3600) ++ ":"%char :: fmt2 (Z.abs off / 60 mod 60).

(** The layout [RFC3339Nano]. *)
Definition format_rfc3339 (c : civil) : list ascii :=
  fmt4 (year c) ++ "-"%char :: fmt2 (month c) ++ "-"%char :: fmt2 (day c)
  ++ "T"%char :: fmt2 (hour c) ++ ":"%char :: fmt2 (minute c)
  ++ ":"%char :: fmt2 (second c) ++ fmt_fraction (nsec c) ++ fmt_zone (zoneOffset c).

(** The civil times RFC 3339 can write: real dates, whole-minute offsets of less
    than a day. *)
Definition valid_civil (c : civil) : Prop :=
  0 ≤ year c < 10000 ∧ 1 ≤ month c ≤ 12 ∧ 1 ≤ day c ≤ daysIn (month c) (year c) ∧
  0 ≤ hour c < 24 ∧ 0 ≤ minute c < 60 ∧ 0 ≤ second c < 60 ∧
  0 ≤ nsec c < 1000000000 ∧ zoneOffset c mod 60 = 0 ∧ Z.abs (zoneOffset c) < 86400.

Lemma daysIn_range m y : 28 ≤ daysIn m y ≤ 31.
Proof. unfold daysIn. repeat case_match; lia. Qed.

Lemma digit_char_digit d : 0 ≤ d < 10 → digit (digit_char d) = Some d.
Proof.
  intros Hd. unfold digit, digit_char. rewrite byte_of_N by lia.
  rewrite Z2N.id by lia. destruct ((48 <=? 48 + d) && (48 + d <=? 57)) eqn:Hb; [f_equal|]; lia.
Qed.

Lemma isDigit_digit_char d : 0 ≤ d < 10 → isDigit (digit_char d) = true.
Proof. intros Hd. unfold isDigit. by rewrite digit_char_digit. Qed.

Lemma getnum_fmt2 fixed n l : 0 ≤ n < 100 → getnum fixed (fmt2 n ++ l) = Some (n, l).
Proof.
  intros Hn. cbn [getnum fmt2 app].
  rewrite !digit_char_digit by lia. cbn [mbind option_bind]. do 2 f_equal. lia.
Qed.

Lemma atoi_from_app acc l1 l2 :
  atoi_from acc (l1 ++ l2) = atoi_from acc l1 ≫= λ a, atoi_from a l2.
Proof.
  revert acc. induction l1 as [|c l1 IH]; intros acc; [done|].
  cbn. destruct (digit c); cbn; [apply IH|done].
Qed.

Lemma atoi_fmt2 acc n : 0 ≤ n < 100 → atoi_from acc (fmt2 n) = Some (100 * acc + n).
Proof.
  intros Hn. unfold fmt2. cbn [atoi_from].
  rewrite !digit_char_digit by lia. cbn [mbind option_bind]. f_equal. lia.
Qed.

Lemma atoi_fmt4 acc n : 0 ≤ n < 10000 → atoi_from acc (fmt4 n) = Some (10000 * acc + n).
Proof.
  intros Hn. unfold fmt4. rewrite atoi_from_app, atoi_fmt2 by lia. cbn [mbind option_bind].
  rewrite atoi_fmt2 by lia. f_equal. lia.
Qed.

Lemma atoi_fmt9 n : 0 ≤ n < 1000000000 → atoi (fmt9 n) = Some n.
Proof.
  intros Hn. unfold atoi, fmt9. cbn [atoi_from]. rewrite digit_char_digit by lia.
  cbn [mbind option_bind]. rewrite atoi_from_app, atoi_fmt4 by lia. cbn [mbind option_bind].
  rewrite atoi_fmt4 by lia. f_equal. lia.
Qed.

Lemma fmt2_digits n : 0 ≤ n < 100 → forallb isDigit (fmt2 n) = true.
Proof. intros Hn. cbn. by rewrite !isDigit_digit_char by lia. Qed.

Lemma fmt4_digits n : 0 ≤ n < 10000 → forallb isDigit (fmt4 n) = true.
Proof. intros Hn. unfold fmt4. by rewrite forallb_app, !fmt2_digits by lia. Qed.

Lemma fmt9_digits n : 0 ≤ n < 1000000000 → forallb isDigit (fmt9 n) = true.
Proof.
  intros Hn. unfold fmt9. cbn [forallb].
  rewrite isDigit_digit_char, forallb_app, !fmt4_digits by lia. done.
Qed.

Lemma digits_prefix_app ds l :
  forallb isDigit ds = true → (∀ c, head l = Some c → isDigit c = false) →
  digits_prefix (ds ++ l) = (ds, l).
Proof.
  intros Hds Hl. induction ds as [|d ds IH]; cbn in *.
  - destruct l as [|c l]; [done|]. cbn. by rewrite Hl.
  - apply andb_true_iff in Hds as [-> Hds]. by rewrite IH.
Qed.

Lemma atoi_drop_zeros l acc v :
  atoi_from acc l = Some v →
  (length (drop_zeros l) ≤ length l)%nat ∧
  ∃ v', atoi_from acc (drop_zeros l) = Some v' ∧
        v' * 10 ^ (Z.of_nat (length l) - Z.of_nat (length (drop_zeros l))) = v.
Proof.
  revert acc v. induction l as [|c l IH]; intros acc v; cbn [atoi_from drop_zeros].
  { intros [= <-]. split; [done|]. exists acc. cbn. split; [done|lia]. }
  destruct (digit c) as [d|] eqn:Hc; [|done]. cbn [mbind option_bind]. intros Hv.
  destruct (IH _ _ Hv) as [Hlen (v' & Hv' & Hpow)].
  destruct (drop_zeros l) as [|c' l'] eqn:Hz.
  - cbn in Hv'. injection Hv' as <-. cbn [length] in *. rewrite Z.sub_0_r in Hpow.
    destruct (Ascii.eqb_spec c "0") as [->|Hc0].
    + assert (d = 0) as -> by (by injection Hc). split; [cbn; lia|]. exists acc. split; [done|].
      cbn [length]. rewrite Nat2Z.inj_succ, Z.sub_0_r, Z.pow_succ_r by lia. rewrite <-Hpow.
      rewrite Z.add_0_r. ring.
    + split; [cbn; lia|]. exists (10 * acc + d). cbn [atoi_from]. rewrite Hc. split; [done|].
      cbn [length]. rewrite <-Hpow. do 2 f_equal. lia.
  - split; [cbn [length] in *; lia|]. exists v'. cbn [atoi_from] in *. rewrite Hc.
    split; [done|]. cbn [length] in *. rewrite <-Hpow. do 2 f_equal. lia.
Qed.

Lemma parseNanoseconds_fmt n :
  0 ≤ n < 1000000000 → parseNanoseconds (drop_zeros (fmt9 n)) = Some n.
Proof.
  intros Hn. destruct (atoi_drop_zeros (fmt9 n) 0 n (atoi_fmt9 n Hn)) as [Hlen (v & Hv & Hpow)].
  change (length (fmt9 n)) with 9%nat in *.
  unfold parseNanoseconds. rewrite (take_ge (drop_zeros _)) by lia. unfold atoi. rewrite Hv.
  cbn [mbind option_bind]. f_equal. exact Hpow.
Qed.

Lemma parse_fraction_fmt n l :
  0 ≤ n < 1000000000 →
  (∀ c, head l = Some c → isDigit c = false ∧ commaOrPeriod c = false) →
  parse_fraction (fmt_fraction n ++ l) = Some (n, l).
Proof.
  intros Hn Hl. unfold fmt_fraction. destruct (Z.eqb_spec n 0) as [->|Hn0].
  - destruct l as [|c [|d l]]; [done..|]. cbn. by rewrite (proj2 (Hl c eq_refl)).
  - pose proof (forallb_drop_zeros _ _ (fmt9_digits n Hn)) as Hd.
    pose proof (parseNanoseconds_fmt n Hn) as Hns.
    destruct (drop_zeros (fmt9 n)) as [|d ds] eqn:Hz.
    { injection Hns as Hns. lia. }
    pose proof Hd as Hd0. cbn in Hd0. apply andb_true_iff in Hd0 as [Hdd _].
    change (("."%char :: d :: ds) ++ l) with ("."%char :: (d :: ds) ++ l).
    unfold parse_fraction. cbn [app]. rewrite Hdd. change (commaOrPeriod ".") with true.
    cbn [andb]. change (d :: ds ++ l) with ((d :: ds) ++ l).
    rewrite digits_prefix_app by (done || (intros c Hc; by apply Hl)). by rewrite Hns.
Qed.

Lemma parse_zone_fmt off c :
  off mod 60 = 0 → Z.abs off < 86400 →
  parse_chunk stdISO8601ColonTZ (fmt_zone off) c = Some ([], set_zone off c).
Proof.
  intros Hm Hr. unfold fmt_zone. destruct (Z.eqb_spec off 0) as [->|H0]; [done|].
  pose proof (getnum_fmt2 true (Z.abs off / 3600) [] ltac:(lia)) as Hh.
  pose proof (getnum_fmt2 true (Z.abs off / 60 mod 60) [] ltac:(lia)) as Hmm.
  assert (((Z.abs off / 3600) * 60 + Z.abs off / 60 mod 60) * 60 = Z.abs off) as Hoff by lia.
  unfold fmt2 in *. rewrite app_nil_r in Hh, Hmm.
  destruct (Z.ltb_spec (Z.quot off 60) 0); cbn [parse_chunk app].
  all: replace (Ascii.eqb _ "Z") with false by done; unfold parse_colon_zone.
  all: change (Ascii.eqb ":" ":") with true; cbn [negb].
  all: rewrite Hh; cbn [mbind option_bind]; rewrite Hmm; cbn [mbind option_bind].
  all: rewrite (proj2 (orb_false_iff _ _)) by lia; cbn; rewrite Hoff; do 3 f_equal; lia.
Qed.

Lemma fmt_zone_head off d :
  head (fmt_zone off) = Some d → isDigit d = false ∧ commaOrPeriod d = false.
Proof. unfold fmt_zone. repeat case_match; by intros [= <-]. Qed.

(** Each element reads back what the matching formatter wrote. *)
Lemma chunk_literal ch l c : ch ≠ " "%char → parse_chunk (Literal ch) (ch :: l) c = Some (l, c).
Proof.
  intros Hc%Ascii.eqb_neq. cbn. unfold skip1. by rewrite Hc, Ascii.eqb_refl.
Qed.

Lemma chunk_year n l c :
  0 ≤ n < 10000 → parse_chunk stdLongYear (fmt4 n ++ l) c = Some (l, set_year n c).
Proof.
  intros Hn. unfold parse_chunk. rewrite (proj2 (Nat.ltb_ge _ _)) by (cbn; lia).
  rewrite (take_app_length' _ _ 4), (drop_app_length' _ _ 4) by done.
  unfold atoi. by rewrite atoi_fmt4 by lia.
Qed.

Ltac chunk_number :=
  intros; unfold parse_chunk; rewrite getnum_fmt2 by lia; cbn [mbind option_bind];
  rewrite ?(proj2 (orb_false_iff _ _)) by lia; try done.

Lemma chunk_month n l c :
  1 ≤ n ≤ 12 → parse_chunk stdZeroMonth (fmt2 n ++ l) c = Some (l, set_month n c).
Proof. chunk_number. Qed.
Lemma chunk_day n l c :
  1 ≤ n ≤ 31 → parse_chunk stdZeroDay (fmt2 n ++ l) c = Some (l, set_day n c).
Proof. chunk_number. Qed.
Lemma chunk_hour n l c :
  0 ≤ n < 24 → parse_chunk stdHour (fmt2 n ++ l) c = Some (l, set_hour n c).
Proof. chunk_number. Qed.
Lemma chunk_minute n l c :
  0 ≤ n < 60 → parse_chunk stdZeroMinute (fmt2 n ++ l) c = Some (l, set_minute n c).
Proof. chunk_number. Qed.
Lemma chunk_second n ns l c :
  0 ≤ n < 60 → 0 ≤ ns < 1000000000 →
  (∀ d, head l = Some d → isDigit d = false ∧ commaOrPeriod d = false) →
  parse_chunk stdZeroSecond (fmt2 n ++ fmt_fraction ns ++ l) c
  = Some (l, set_nsec ns (set_second n c)).
Proof. chunk_number. by rewrite parse_fraction_fmt. Qed.

Lemma Parse_format c :
  valid_civil c → Parse RFC3339 (str (format_rfc3339 c)) = Some (instant c).
Proof.
  intros (Hy & Hmo & Hd & Hh & Hmi & Hs & Hn & Hzm & Hzr).
  pose proof (daysIn_range (month c) (year c)).
  unfold Parse. rewrite chars_str.
  change (layout_chunks RFC3339) with
    [stdLongYear; Literal "-"; stdZeroMonth; Literal "-"; stdZeroDay; Literal "T"; stdHour;
     Literal ":"; stdZeroMinute; Literal ":"; stdZeroSecond; stdISO8601ColonTZ].
  unfold format_rfc3339. cbn [parse_chunks].
  rewrite chunk_year by done. cbn [mbind option_bind].
  rewrite chunk_literal by done. cbn [mbind option_bind].
  rewrite chunk_month by done. cbn [mbind option_bind].
  rewrite chunk_literal by done. cbn [mbind option_bind].
  rewrite chunk_day by lia. cbn [mbind option_bind].
  rewrite chunk_literal by done. cbn [mbind option_bind].
  rewrite chunk_hour by done. cbn [mbind option_bind].
  rewrite chunk_literal by done. cbn [mbind option_bind].
  rewrite chunk_minute by done. cbn [mbind option_bind].
  rewrite chunk_literal by done. cbn [mbind option_bind].
  rewrite chunk_second by (done || apply fmt_zone_head). cbn [mbind option_bind].
  rewrite parse_zone_fmt by done. cbn [mbind option_bind].
  destruct c; cbn in *. by rewrite (proj2 (orb_false_iff _ _)) by lia.
Qed.

Lemma format_ascii c :
  valid_civil c → forallb is_ascii (format_rfc3339 c) = true.
Proof.
  intros (Hy & Hmo & Hd & Hh & Hmi & Hs & Hn & Hzm & Hzr).
  pose proof (daysIn_range (month c) (year c)).
  assert (∀ d, 0 ≤ d < 10 → is_ascii (digit_char d) = true) as Hdig.
  { intros d Hd'. unfold is_ascii, digit_char, RuneSelf. rewrite byte_of_N by lia. lia. }
  assert (∀ n, 0 ≤ n < 100 → forallb is_ascii (fmt2 n) = true) as H2.
  { intros n Hn'. cbn. by rewrite !Hdig by lia. }
  assert (∀ n, 0 ≤ n < 10000 → forallb is_ascii (fmt4 n) = true) as H4.
  { intros n Hn'. unfold fmt4. by rewrite forallb_app, !H2 by lia. }
  assert (forallb is_ascii (fmt_fraction (nsec c)) = true) as Hf.
  { unfold fmt_fraction. case_match; [done|]. cbn [forallb]. apply forallb_drop_zeros.
    unfold fmt9. cbn [forallb]. by rewrite Hdig, forallb_app, !H4 by lia. }
  assert (forallb is_ascii (fmt_zone (zoneOffset c)) = true) as Hz.
  { unfold fmt_zone. case_match; [done|]. cbn [forallb].
    rewrite forallb_app. cbn [forallb]. rewrite !H2 by lia. by case_match. }
  unfold format_rfc3339.
  repeat (rewrite forallb_app || cbn [forallb]).
  rewrite H4, !H2, Hf, Hz by lia. done.
Qed.
