(* ===== verification/TimeFormat.v ===== *)
(** * Writing a time (time.Time in JSON)

    The civil date of an instant in a zone, and [Time.MarshalJSON] with its refusal
    of years that RFC 3339 cannot write. What is written is read back by the
    [time.Parse] of GoTime.v as the same instant. *)

From S2P Require Import Prelude Utf8 Model Strconv GoTime.
From Stdlib Require Import Ascii.
Local Open Scope Z_scope.

Ltac Zify.zify_post_hook ::= Z.to_euclidean_division_equations.

(** ** The civil date of an instant *)

(** The year a day (counted from January 1 of year 0) falls in: an estimate by the
    mean length of a year, one off at most. *)
Definition year_of_day (d : Z) : Z :=
  let y := d * 400 / 146097 in
  if d <? days_to_year y then y - 1
  else if days_to_year (y + 1) <=? d then y + 1 else y.

(** Month and days before it, from the day of the year. *)
Fixpoint month_from (k : nat) (m : Z) (y d : Z) : Z * Z :=
  match k with
  | O => (m, d)
  | S k' => if d <? daysIn m y then (m, d) else month_from k' (m + 1) y (d - daysIn m y)
  end.

(** [Time.date] and [Time.clock] in a zone [off] seconds east of UTC. *)
Definition civil_of (off : Z) (t : Time) : civil :=
  let secs := t / 1000000000 + off in
  let d := secs / 86400 + unix_epoch_day in
  let y := year_of_day d in
  let '(m, dd) := month_from 11 1 y (d - days_to_year y) in
  let s := secs mod 86400 in
  Civil y m (dd + 1) (s / 3600) (s / 60 mod 60) (s mod 60) (t mod 1000000000) off.

(** The offset of the zone [time.Local] at an instant. *)
Class Local : Type := local_offset : Time → Z.
(** Offsets since zones are kept in whole minutes. *)
Class LocalLaws (L : Local) : Prop := {
  local_minutes t : local_offset t mod 60 = 0;
  local_range t : Z.abs (local_offset t) < 86400
}.

(** [Time.MarshalJSON] without its quotes: an error beyond year 9999 or before year
    0 ([None]). *)
Definition MarshalTime `{Local} (t : Time) : option (list ascii) :=
  let c := civil_of (local_offset t) t in
  if (year c <? 0) || (9999 <? year c) then None else Some (format_rfc3339 c).

Definition utc : Local := λ _, 0.
#[export] Instance utc_laws : LocalLaws utc.
Proof. by split. Qed.

Example MarshalTime_examples :
  str <$> @MarshalTime utc 1777183200250000000 = Some "2026-04-26T06:00:00.25Z" ∧
  str <$> @MarshalTime (λ _, -12600) 0 = Some "1969-12-31T20:30:00-03:30" ∧
  str <$> @MarshalTime utc 951782400000000000 = Some "2000-02-29T00:00:00Z" ∧
  str <$> @MarshalTime utc (-62167219200000000000) = Some "0000-01-01T00:00:00Z" ∧
  @MarshalTime utc (-62167219200000000001) = None.
Proof. by vm_compute. Qed.

(** ** The date is the right one *)

Lemma days_to_year_step y : days_to_year (y + 1) = days_to_year y + (if is_leap y then 366 else 365).
Proof.
  unfold days_to_year, is_leap. replace (y + 1 - 1) with y by lia.
  assert (y / 4 = (y - 1) / 4 + (if y mod 4 =? 0 then 1 else 0)) as -> by (case_match; lia).
  assert (y / 100 = (y - 1) / 100 + (if y mod 100 =? 0 then 1 else 0)) as -> by (case_match; lia).
  assert (y / 400 = (y - 1) / 400 + (if y mod 400 =? 0 then 1 else 0)) as -> by (case_match; lia).
  destruct (Z.eqb_spec (y mod 4) 0), (Z.eqb_spec (y mod 100) 0), (Z.eqb_spec (y mod 400) 0);
    cbn; lia.
Qed.

Lemma year_of_day_spec d :
  days_to_year (year_of_day d) ≤ d < days_to_year (year_of_day d + 1).
Proof.
  unfold year_of_day. set (y := d * 400 / 146097).
  assert (y * 146097 ≤ d * 400 < y * 146097 + 146097) as Hy.
  { pose proof (Z.div_mod (d * 400) 146097). pose proof (Z.mod_pos_bound (d * 400) 146097).
    fold y in H. clearbody y. lia. }
  clearbody y.
  assert (days_to_year (y - 1) ≤ d < days_to_year (y + 1 + 1)) as Hd
    by (unfold days_to_year; lia).
  destruct (Z.ltb_spec d (days_to_year y)).
  - replace (y - 1 + 1) with y by lia. lia.
  - destruct (Z.leb_spec (days_to_year (y + 1)) d); lia.
Qed.

(** The days of the months from [m] on. *)
Fixpoint months_sum (k : nat) (m y : Z) : Z :=
  match k with O => 0 | S k' => daysIn m y + months_sum k' (m + 1) y end.

Lemma month_from_spec k m y d :
  0 ≤ d < months_sum (S k) m y →
  let '(m', d') := month_from k m y d in
  m ≤ m' ≤ m + Z.of_nat k ∧ 0 ≤ d' < daysIn m' y ∧
  d = months_sum (Z.to_nat (m' - m)) m y + d'.
Proof.
  revert m d. induction k as [|k IH]; intros m d Hd; cbn [month_from].
  - rewrite Z.sub_diag. change (Z.to_nat 0) with 0%nat. cbn [months_sum] in *. lia.
  - destruct (Z.ltb_spec d (daysIn m y)).
    + rewrite Z.sub_diag. change (Z.to_nat 0) with 0%nat. cbn [months_sum] in *. lia.
    + specialize (IH (m + 1) (d - daysIn m y)).
      destruct (month_from k (m + 1) y (d - daysIn m y)) as [m' d'].
      destruct IH as (Hm & Hd' & Heq); [cbn [months_sum] in *; lia|]. split_ands; [lia..|].
      replace (Z.to_nat (m' - m)) with (S (Z.to_nat (m' - (m + 1)))) by lia.
      cbn [months_sum]. lia.
Qed.

Lemma months_sum_before m y :
  1 ≤ m ≤ 12 → months_sum (Z.to_nat (m - 1)) 1 y = days_before m y.
Proof.
  intros Hm. assert (m ∈ seqZ 1 12) as Hin by (apply elem_of_seqZ; lia).
  change (seqZ 1 12) with [1; 2; 3; 4; 5; 6; 7; 8; 9; 10; 11; 12] in Hin.
  repeat (apply elem_of_cons in Hin as [->|Hin]; [reflexivity|]).
  by apply not_elem_of_nil in Hin.
Qed.

Lemma months_sum_year y : months_sum 12 1 y = if is_leap y then 366 else 365.
Proof. cbn. unfold daysIn. cbn. by destruct (is_leap y). Qed.

Lemma civil_of_spec off t :
  instant (civil_of off t) = t ∧
  (0 ≤ year (civil_of off t) < 10000 → off mod 60 = 0 → Z.abs off < 86400 →
   valid_civil (civil_of off t)).
Proof.
  unfold civil_of. set (secs := t / 1000000000 + off).
  set (d := secs / 86400 + unix_epoch_day). set (y := year_of_day d).
  destruct (year_of_day_spec d) as [Hlo Hhi]. fold y in Hlo, Hhi.
  rewrite days_to_year_step, <-months_sum_year in Hhi.
  pose proof (month_from_spec 11 1 y (d - days_to_year y) ltac:(lia)) as Hm.
  destruct (month_from 11 1 y (d - days_to_year y)) as [m dd].
  destruct Hm as (Hm & Hdd & Heq). rewrite months_sum_before in Heq by lia.
  assert (0 ≤ secs mod 86400 < 86400) as Hs by (apply Z.mod_pos_bound; lia).
  assert (secs = (d - unix_epoch_day) * 86400 + secs mod 86400) as Hsecs
    by (unfold d; pose proof (Z.div_mod secs 86400); lia).
  set (s := secs mod 86400) in *.
  split.
  - unfold instant. cbn. replace (days_to_year y + days_before m y + (dd + 1 - 1) - unix_epoch_day)
      with (d - unix_epoch_day) by lia.
    assert (s / 3600 * 3600 + s / 60 mod 60 * 60 + s mod 60 = s) as Hclock by lia.
    assert ((d - unix_epoch_day) * 86400 + s / 3600 * 3600 + s / 60 mod 60 * 60 + s mod 60 - off
            = t / 1000000000) as -> by (unfold secs in Hsecs; lia).
    pose proof (Z.div_mod t 1000000000). lia.
  - cbn. intros Hy Hoff Hr. unfold valid_civil. cbn. split_ands; (lia || done).
Qed.

Lemma days_to_year_mono y1 y2 : y1 ≤ y2 → days_to_year y1 ≤ days_to_year y2.
Proof. unfold days_to_year. lia. Qed.

(** The years 0 to 9999 are the seconds from 0000-01-01T00:00:00 to the end of
    9999-12-31. *)
Lemma year_in_range off t :
  0 ≤ year (civil_of off t) ≤ 9999 ↔ -62167219200 ≤ t / 1000000000 + off < 253402300800.
Proof.
  unfold civil_of. set (secs := t / 1000000000 + off).
  set (d := secs / 86400 + unix_epoch_day). destruct (year_of_day_spec d) as [Hlo Hhi].
  destruct (month_from _ _ _ _) as [m dd]. cbn [year]. set (y := year_of_day d) in *.
  assert (-62167219200 ≤ secs < 253402300800 ↔ 0 ≤ d < 3652425) as ->.
  { unfold d, unix_epoch_day. clearbody secs. clear. lia. }
  clearbody d y. split; intros H.
  - pose proof (days_to_year_mono 0 y ltac:(lia)) as H1.
    pose proof (days_to_year_mono (y + 1) 10000 ltac:(lia)) as H2.
    change (days_to_year 0) with 0 in H1. change (days_to_year 10000) with 3652425 in H2. lia.
  - split; apply Z.nlt_ge; intros Hy.
    + pose proof (days_to_year_mono (y + 1) 0 ltac:(lia)) as H1.
      change (days_to_year 0) with 0 in H1. lia.
    + pose proof (days_to_year_mono 10000 y ltac:(lia)) as H1.
      change (days_to_year 10000) with 3652425 in H1. lia.
Qed.

(** What [MarshalTime] accepts: local times from year 0 to year 9999. *)
Definition has_text `{Local} (t : Time) : Prop :=
  -62167219200 ≤ t / 1000000000 + local_offset t < 253402300800.

Lemma MarshalTime_iff `{Local} t : is_Some (MarshalTime t) ↔ has_text t.
Proof.
  unfold MarshalTime, has_text. rewrite <-year_in_range. destruct (_ || _) eqn:Hy.
  - split; [by intros [? ?]|]. apply orb_true_iff in Hy. lia.
  - apply orb_false_iff in Hy. split; [lia|by eexists].
Qed.

(** A time that can be written is read back. *)
Lemma MarshalTime_spec `{L : Local, !LocalLaws L} t l :
  MarshalTime t = Some l → Parse RFC3339 (str l) = Some t ∧ forallb is_ascii l = true.
Proof.
  unfold MarshalTime. destruct (civil_of_spec (local_offset t) t) as [Hinst Hvalid].
  destruct (_ || _) eqn:Hy; [done|]. intros [= <-].
  assert (valid_civil (civil_of (local_offset t) t)) as Hv.
  { apply Hvalid; [lia|apply local_minutes|apply local_range]. }
  split; [|by apply format_ascii]. by rewrite Parse_format, Hinst.
Qed.

(** A time the service writes into a response is the time it stored: for every
    instant and every local zone of whole minutes, if [Time.MarshalJSON] accepts the
    instant, parsing its text as RFC 3339 gives back exactly that instant, to the
    nanosecond; and it refuses only instants whose year in that zone is outside
    0..9999. *)
Theorem MarshalTime_roundtrip `{L : Local, !LocalLaws L} t :
  match MarshalTime t with
  | Some l => Parse RFC3339 (str l) = Some t
  | None => ∃ c, instant c = t ∧ zoneOffset c = local_offset t ∧ ¬ (0 ≤ year c ≤ 9999)
  end.
Proof.
  destruct (MarshalTime t) as [l|] eqn:Hm; [by apply MarshalTime_spec|].
  exists (civil_of (local_offset t) t). destruct (civil_of_spec (local_offset t) t) as [Hi _].
  split; [done|]. unfold MarshalTime in Hm. destruct (_ || _) eqn:Hy; [|done].
  split; [|lia]. unfold civil_of. by destruct (month_from _ _ _ _).
Qed.

Lemma MarshalTime_roundtrip_witness :
  Parse RFC3339 "2026-04-26T06:00:00.25Z" = Some 1777183200250000000.
Proof. exact (MarshalTime_roundtrip (L := utc) 1777183200250000000). Defined.
