(* ===== verification/Normalize.v ===== *)
(** * The validation gate (internal/normalize/normalize.go)

    [Apply] turns the raw answer of a model into a fact that may be persisted,
    or rejects it. The functions follow the source; the theorems say what a fact
    that passes the gate looks like, what the gate rejects, and that
    canonicalisation and time parsing are what the rest of the program needs. *)

From S2P Require Import Prelude GoErrors Utf8 GoStrings Model Llm Strconv GoTime.
From Stdlib Require Import Ascii Floats.SpecFloat.
Local Open Scope Z_scope.

Section normalize.
Context {U : UnicodeTables}.

(** [Normalizer]; [New] stores the threshold. *)
Record Normalizer : Type := New { MinConfidence : float64 }.

Definition CanonicalKey (s : string) : string := ToUpper (TrimSpace s).

(** [for _, r := range s] with an early return. *)
Definition isAlpha (s : string) : bool :=
  forallb (λ p, negb ((fst p <? 65)%N || (90 <? fst p)%N)) (runes (chars s)).

Definition sanitizeMoney (amount : option Z) (currency : string) : option Z * string :=
  let cur := ToUpper (TrimSpace currency) in
  match amount with
  | None => (None, "")
  | Some a =>
    if (a <? 0) || negb (len cur =? 3)%nat || negb (isAlpha cur) then (None, "")
    else (amount, cur)
  end.

Definition eventTimeLayouts : list string :=
  [RFC3339;
   "2006-01-02 15:04:05Z07:00";
   "2006-01-02 15:04:05-07:00";
   "2006-01-02T15:04:05";
   "2006-01-02 15:04:05";
   "2006-01-02"].

Fixpoint first_layout (layouts : list string) (s : string) : option Time :=
  match layouts with
  | [] => None
  | layout :: layouts' =>
    match Parse layout s with
    | Some t => Some t
    | None => first_layout layouts' s
    end
  end.

Definition parseEventTime (s : string) : option Time :=
  let s := TrimSpace s in
  if decide (s = "") then None else first_layout eventTimeLayouts s.

(** The texts of [fmt.Errorf] in [Apply]. *)
Definition err_state (kind state : string) : error :=
  errorString (kind +:+ " canonical_state " +:+ strconv_Quote state +:+ " not recognized").
Definition err_key (kind : string) : error :=
  errorString (kind +:+ " missing entity_key").
Definition err_class (class : string) : error :=
  errorString ("unknown classification " +:+ strconv_Quote class).

Definition Apply (n : Normalizer) (r : Response.t) : result error Normalized.t :=
  let class := ToUpper (TrimSpace (Response.Classification r)) in
  let class :=
    if negb (bool_decide (class = ClassUnclassified))
       && SFltb (Response.Confidence r) (MinConfidence n)
    then ClassUnclassified else class in
  let out := Normalized.mk class "" "" (parseEventTime (Response.EventTime r)) None ""
               (TrimSpace (Response.VendorStateText r)) (Response.Confidence r) in
  if decide (class = ClassUnclassified) then Ok out
  else if decide (class = ClassShipment) then
    let state := ToUpper (TrimSpace (Response.CanonicalState r)) in
    if negb (IsShipmentState state)
    then Err (err_state "shipment" (Response.CanonicalState r)) else
    let key := CanonicalKey (Response.EntityKey r) in
    if decide (key = "") then Err (err_key "shipment")
    else Ok (Normalized.mk class key state (Normalized.EventTime out) None ""
               (Normalized.VendorStateText out) (Normalized.Confidence out))
  else if decide (class = ClassInvoice) then
    let state := ToUpper (TrimSpace (Response.CanonicalState r)) in
    if negb (IsInvoiceState state)
    then Err (err_state "invoice" (Response.CanonicalState r)) else
    let key := CanonicalKey (Response.EntityKey r) in
    if decide (key = "") then Err (err_key "invoice")
    else
      let '(amount, currency) :=
        sanitizeMoney (Response.AmountMinor r) (Response.Currency r) in
      Ok (Normalized.mk class key state (Normalized.EventTime out) amount currency
            (Normalized.VendorStateText out) (Normalized.Confidence out))
  else Err (err_class (Response.Classification r)).
End normalize.

(** ** What a fact that passed the gate looks like *)

(** Amount and currency come as a pair or not at all. *)
Definition money_coherent (amount : option Z) (currency : string) : Prop :=
  match amount with
  | None => currency = ""
  | Some a => 0 ≤ a ∧ len currency = 3%nat ∧
              Forall (λ c, (65 ≤ N_of_ascii c ≤ 90)%N) (chars currency)
  end.

Inductive coherent `{UnicodeTables} (f : Normalized.t) : Prop :=
  | coherent_unclassified :
      Normalized.Classification f = ClassUnclassified →
      Normalized.EntityKey f = "" → Normalized.CanonicalState f = "" →
      Normalized.AmountMinor f = None → Normalized.Currency f = "" → coherent f
  | coherent_shipment :
      Normalized.Classification f = ClassShipment →
      IsShipmentState (Normalized.CanonicalState f) = true →
      Normalized.EntityKey f ≠ "" → CanonicalKey (Normalized.EntityKey f) = Normalized.EntityKey f →
      Normalized.AmountMinor f = None → Normalized.Currency f = "" → coherent f
  | coherent_invoice :
      Normalized.Classification f = ClassInvoice →
      IsInvoiceState (Normalized.CanonicalState f) = true →
      Normalized.EntityKey f ≠ "" → CanonicalKey (Normalized.EntityKey f) = Normalized.EntityKey f →
      money_coherent (Normalized.AmountMinor f) (Normalized.Currency f) → coherent f.

(** The class [Apply] works with, after the confidence gate. *)
Definition gated_class `{UnicodeTables} (n : Normalizer) (r : Response.t) : string :=
  let class := ToUpper (TrimSpace (Response.Classification r)) in
  if SFltb (Response.Confidence r) (MinConfidence n) then ClassUnclassified else class.

(** The structural defects that make [Apply] fail. *)
Definition defective `{UnicodeTables} (n : Normalizer) (r : Response.t) : Prop :=
  let state := ToUpper (TrimSpace (Response.CanonicalState r)) in
  let no_key := CanonicalKey (Response.EntityKey r) = "" in
  let class := gated_class n r in
  (class = ClassShipment ∧ (IsShipmentState state = false ∨ no_key)) ∨
  (class = ClassInvoice ∧ (IsInvoiceState state = false ∨ no_key)) ∨
  (class ≠ ClassShipment ∧ class ≠ ClassInvoice ∧ class ≠ ClassUnclassified).

Section gate_facts.
Context {U : UnicodeTables}.

Lemma isAlpha_spec s :
  isAlpha s = true → Forall (λ c, (65 ≤ N_of_ascii c ≤ 90)%N) (chars s).
Proof.
  unfold isAlpha. intros Hs. assert (Forall (λ p, (65 ≤ fst p ≤ 90)%N) (runes (chars s))) as HA.
  { apply Forall_forall. intros p Hp%list_elem_of_In.
    rewrite forallb_forall in Hs. specialize (Hs p Hp). lia. }
  rewrite runes_all_ascii in HA.
  - rewrite Forall_fmap in HA. exact HA.
  - eapply Forall_impl; [exact HA|]. unfold RuneSelf. cbn. intros; lia.
Qed.

Lemma sanitizeMoney_coherent amount currency :
  money_coherent (fst (sanitizeMoney amount currency)) (snd (sanitizeMoney amount currency)).
Proof.
  unfold sanitizeMoney. destruct amount as [a|]; [|done].
  destruct (_ || _) eqn:Hc; [done|]. cbn.
  apply orb_false_iff in Hc as [[Ha Hl]%orb_false_iff Halpha].
  apply negb_false_iff in Hl, Halpha. split_ands; [lia|by apply Nat.eqb_eq|].
  by apply isAlpha_spec.
Qed.

(** [Apply] decides on the gated class. *)
Lemma gated_class_eq n r :
  (if negb (bool_decide (ToUpper (TrimSpace (Response.Classification r)) = ClassUnclassified))
      && SFltb (Response.Confidence r) (MinConfidence n)
   then ClassUnclassified else ToUpper (TrimSpace (Response.Classification r)))
  = gated_class n r.
Proof. unfold gated_class. case_bool_decide as Hc; [rewrite Hc|]; by destruct (SFltb _ _). Qed.

Lemma Apply_cases n r :
  match Apply n r with
  | Ok _ => ¬ defective n r
  | Err _ => defective n r
  end.
Proof.
  unfold Apply. rewrite gated_class_eq. unfold defective. cbv zeta.
  assert (ClassUnclassified ≠ ClassShipment ∧ ClassUnclassified ≠ ClassInvoice
          ∧ ClassShipment ≠ ClassInvoice) as (? & ? & ?) by done.
  case_decide; [|case_decide; [|case_decide]].
  - intros [[? _]|[[? _]|(_ & _ & ?)]]; congruence.
  - destruct (IsShipmentState _); cbn [negb]; [|tauto].
    case_decide; [tauto|]. intros [[_ [?|?]]|[[? _]|(? & _ & _)]]; congruence.
  - destruct (IsInvoiceState _); cbn [negb]; [|tauto].
    case_decide; [tauto|]. destruct (sanitizeMoney _ _).
    intros [[? _]|[[_ [?|?]]|(_ & ? & _)]]; congruence.
  - tauto.
Qed.

Context {UL : UnicodeLaws U}.

Lemma CanonicalKey_fixed s : CanonicalKey (CanonicalKey s) = CanonicalKey s.
Proof.
  unfold CanonicalKey. set (t := TrimSpace s).
  assert (trim space_chunk (runes (chars t)) = runes (chars t)) as Ht.
  { unfold t. by rewrite runes_TrimSpace, trim_trim. }
  assert (TrimSpace (ToUpper t) = ToUpper t) as ->.
  { apply runes_inj. rewrite runes_TrimSpace, trim_ToUpper, Ht.
    by rewrite runes_ToUpper. }
  apply runes_inj. rewrite !runes_ToUpper, fst_encoded. f_equal.
  rewrite <-list_fmap_compose. apply Forall_fmap_ext_1, Forall_fmap.
  eapply Forall_impl; [apply runes_valid|]. intros p Hp. by apply ToUpperRune_idemp.
Qed.

Lemma Apply_coherent_aux n r f : Apply n r = Ok f → coherent f.
Proof.
  unfold Apply. rewrite gated_class_eq. cbv zeta.
  case_decide; [|case_decide; [|case_decide]].
  - intros [= <-]. by apply coherent_unclassified.
  - destruct (IsShipmentState _) eqn:Hs; cbn [negb]; [|done]. case_decide; [done|].
    intros [= <-]. apply coherent_shipment; try done. apply CanonicalKey_fixed.
  - destruct (IsInvoiceState _) eqn:Hs; cbn [negb]; [|done]. case_decide; [done|].
    pose proof (sanitizeMoney_coherent (Response.AmountMinor r) (Response.Currency r)) as Hm.
    destruct (sanitizeMoney _ _) as [a c]. cbn in Hm. intros [= <-].
    apply coherent_invoice; try done. apply CanonicalKey_fixed.
  - done.
Qed.
End gate_facts.

(** ** Properties *)

(** C23. Every fact the gate lets through is coherent: it is unclassified and
    carries nothing, or it is a shipment with a shipment state, a canonical
    non-empty key and no money, or an invoice with an invoice state, a canonical
    non-empty key and either no money or a non-negative amount with three
    capital letters as its currency. *)
Theorem Apply_gate_sound {U : UnicodeTables} {UL : UnicodeLaws U} n r f :
  Apply n r = Ok f → coherent f.
Proof. apply Apply_coherent_aux. Qed.

(** C24. The gate rejects an answer exactly when it is structurally incoherent:
    after the confidence gate it is a shipment or an invoice whose state is not
    of its lifecycle or whose key is empty, or it is of no known class. Nothing
    else, in particular no unparseable time and no malformed money, is an
    error. *)
Theorem Apply_fails_iff_defective {U : UnicodeTables} n r :
  (∃ e, Apply n r = Err e) ↔ defective n r.
Proof.
  pose proof (Apply_cases n r) as H. destruct (Apply n r) as [f|e]; split.
  - by intros [? ?].
  - done.
  - done.
  - by eexists.
Qed.

(** Uncertainty is an outcome and not an error: an answer whose confidence is
    below the floor becomes an unclassified fact without key, state or money,
    whatever its class, state and key say. *)
Theorem Apply_low_confidence {U : UnicodeTables} n r :
  SFltb (Response.Confidence r) (MinConfidence n) = true →
  ∃ f, Apply n r = Ok f ∧ Normalized.Classification f = ClassUnclassified ∧
       Normalized.EntityKey f = "" ∧ Normalized.CanonicalState f = "" ∧
       Normalized.AmountMinor f = None ∧ Normalized.Currency f = "".
Proof.
  intros Hc. eexists. split.
  - unfold Apply. rewrite gated_class_eq. unfold gated_class. rewrite Hc. cbv zeta.
    by rewrite decide_True by done.
  - done.
Qed.

(** Canonicalisation is idempotent, for every byte string and every case
    table that satisfies the laws: the key stored on write is a fixed point, so
    looking it up again canonicalises to the same row. *)
Theorem CanonicalKey_idemp {U : UnicodeTables} {UL : UnicodeLaws U} s :
  CanonicalKey (CanonicalKey s) = CanonicalKey s.
Proof. apply CanonicalKey_fixed. Qed.

Lemma last_app_ne {A} (l1 l2 : list A) : l2 ≠ [] → last (l1 ++ l2) = last l2.
Proof. rewrite last_app. intros H. destruct (last l2) eqn:Hl; [done|]. by apply last_None in Hl. Qed.

Lemma last_format c : last (format_rfc3339 c) = last (fmt_zone (zoneOffset c)).
Proof.
  assert (format_rfc3339 c =
    (fmt4 (year c) ++ "-"%char :: fmt2 (month c) ++ "-"%char :: fmt2 (day c)
     ++ "T"%char :: fmt2 (hour c) ++ ":"%char :: fmt2 (minute c)
     ++ ":"%char :: fmt2 (second c) ++ fmt_fraction (nsec c)) ++ fmt_zone (zoneOffset c)) as ->.
  { unfold format_rfc3339. by list_simplifier. }
  apply last_app_ne. unfold fmt_zone. by case_match.
Qed.

Lemma last_fmt_zone off d :
  off mod 60 = 0 → Z.abs off < 86400 →
  last (fmt_zone off) = Some d → IsSpace (N_of_ascii d) = false.
Proof.
  intros Hm Hr. unfold fmt_zone. destruct (Z.eqb_spec off 0) as [->|]; [by intros [= <-]|].
  change (last (?x :: ?l)) with (last ([x] ++ l)).
  rewrite (last_app_ne [_]) by done. rewrite last_app_ne by done.
  intros [= <-]. unfold digit_char. rewrite byte_of_N by lia. unfold IsSpace, between. lia.
Qed.

(** C37. Reading a time back: for every real date and time of day, to the
    nanosecond, and every whole-minute zone of less than a day, the RFC 3339 text
    is parsed to exactly that instant, shifted to UTC. *)
Theorem parseEventTime_rfc3339 c :
  valid_civil c → parseEventTime (str (format_rfc3339 c)) = Some (instant c).
Proof.
  intros Hc. pose proof (Parse_format c Hc) as HP. pose proof (format_ascii c Hc) as Ha.
  assert (TrimSpace (str (format_rfc3339 c)) = str (format_rfc3339 c)) as Ht.
  { apply TrimSpace_ascii; [done|..].
    - destruct Hc as (Hy & _). unfold format_rfc3339, fmt4, fmt2. cbn.
      intros d [= <-]. unfold digit_char. rewrite byte_of_N by lia.
      unfold IsSpace, between. lia.
    - rewrite last_format. intros d. destruct Hc as (_ & _ & _ & _ & _ & _ & _ & Hzm & Hzr).
      by apply last_fmt_zone. }
  unfold parseEventTime. rewrite Ht. rewrite decide_False.
  - cbn [first_layout eventTimeLayouts]. by rewrite HP.
  - intros Hnil. assert (format_rfc3339 c = []) as Hf.
    { by rewrite <-(chars_str (format_rfc3339 c)), Hnil. }
    done.
Qed.

(** The confidence floor of the default configuration, 0.6. *)
Definition floor_0_6 : Normalizer := {| MinConfidence := S754_finite false 5404319552844595 (-53) |}.
Definition conf_0_95 : float64 := S754_finite false 8556839292003942 (-53).
Definition conf_0_4 : float64 := S754_finite false 7205759403792794 (-54).
Definition shipment_answer : Response.t :=
  Response.mk "SHIPMENT" "  maeu240498712 " "in_transit" "2026-04-21T22:47:00+08:00"
    None "" "" conf_0_95.
Definition shipment_fact : Normalized.t :=
  Normalized.mk ClassShipment "MAEU240498712" StateInTransit
    (Some 1776782820000000000) None "" "" conf_0_95.
Definition unsure_answer : Response.t :=
  Response.mk "SHIPMENT" "MAEU240498712" "IN_TRANSIT" "" None "" "" conf_0_4.

Lemma Apply_gate_sound_witness :
  @Apply latin1_tables floor_0_6 shipment_answer = Ok shipment_fact ∧
  @coherent latin1_tables shipment_fact.
Proof.
  assert (@Apply latin1_tables floor_0_6 shipment_answer = Ok shipment_fact) as H
    by (vm_compute; reflexivity).
  split; [exact H|]. exact (@Apply_gate_sound latin1_tables latin1_laws _ _ _ H).
Defined.

Lemma Apply_low_confidence_witness :
  ∃ f, @Apply latin1_tables floor_0_6 unsure_answer = Ok f ∧
       Normalized.Classification f = ClassUnclassified.
Proof.
  destruct (@Apply_low_confidence latin1_tables floor_0_6 unsure_answer) as (f & Hf & Hc & _).
  - vm_compute. reflexivity.
  - exists f. split; [exact Hf|exact Hc].
Defined.

Lemma CanonicalKey_idemp_witness :
  @CanonicalKey latin1_tables (@CanonicalKey latin1_tables "  maeu240498712 ") =
  @CanonicalKey latin1_tables "  maeu240498712 ".
Proof. exact (@CanonicalKey_idemp latin1_tables latin1_laws "  maeu240498712 "). Defined.

Definition shanghai : civil := Civil 2026 4 21 22 47 0 0 28800.
Lemma parseEventTime_rfc3339_witness :
  parseEventTime "2026-04-21T22:47:00+08:00" = Some 1776782820000000000.
Proof.
  assert (valid_civil shanghai) as H by (vm_compute; intuition discriminate).
  exact (parseEventTime_rfc3339 shanghai H).
Defined.
