(* ===== verification/Mock.v ===== *)
(** * The mock model (internal/llm/mock.go)

    The rule-based [Client] of offline runs and tests: the classification
    heuristics over the decoded payload and its lower-cased text. Samples.v has the
    answers internal/llm/mock_test.go pins. *)

From S2P Require Import Prelude GoErrors Utf8 GoStrings Model Llm Strconv Json Normalize.
From Stdlib Require Import Ascii Floats.SpecFloat.
Local Open Scope Z_scope.

(** [spec.PromptVersion] *)
Definition PromptVersion : string := "v1".

(** The constants 0.9, 0.4 and 0.3. *)
Definition conf_0_9 : float64 := S754_finite false 8106479329266893 (-53).
Definition conf_0_3 : float64 := S754_finite false 5404319552844595 (-54).

Example conf_values :
  ParseFloat (chars "0.9") = Some conf_0_9 ∧ ParseFloat (chars "0.4") = Some conf_0_4 ∧
  ParseFloat (chars "0.3") = Some conf_0_3 ∧
  ParseFloat (chars "0.6") = Some (MinConfidence floor_0_6).
Proof. by vm_compute. Qed.

(** The [map[string]any] a payload is decoded into: empty for anything but an
    object. *)
Definition unmarshal_map (raw : string) : list (string * value) :=
  match parse_json raw with
  | Some (JObject ms) => ms
  | _ => []
  end.

Definition has_key (p : list (string * value)) (k : string) : bool :=
  match lookup_member p k with Some _ => true | None => false end.

(** [p[k].(string)] *)
Definition string_at (p : list (string * value)) (k : string) : option string :=
  match lookup_member p k with Some (JString s) => Some s | _ => None end.

(** [p[k].(map[string]any)] *)
Definition map_at (p : list (string * value)) (k : string) : option (list (string * value)) :=
  match lookup_member p k with Some (JObject ms) => Some ms | _ => None end.

Fixpoint firstString (p : list (string * value)) (keys : list string) : string :=
  match keys with
  | [] => ""
  | k :: keys' =>
    match string_at p k with
    | Some v => if decide (v = "") then firstString p keys' else v
    | None => firstString p keys'
    end
  end.

Definition looksInvoice (p : list (string * value)) (flat : string) : bool :=
  if has_key p "transaction" then true
  else if has_key p "doc_ref" then true
  else Contains flat "invoice" || Contains flat "remitter".

Definition looksShipment (p : list (string * value)) : bool :=
  existsb (has_key p)
    ["container"; "container_no"; "transport_doc"; "carrier_scac"; "milestone";
     "milestone_text"; "house_bl"; "master_bl"].

Definition any_of (flat : string) (subs : list string) : bool := existsb (Contains flat) subs.

Definition shipmentState (flat : string) : string :=
  if any_of flat ["out for delivery"] then "OUT_FOR_DELIVERY"
  else if any_of flat ["released to consignee"; "delivered"; "consignee facility"]
  then "DELIVERED"
  else if any_of flat ["received at origin"; "gate-in"; "gate in"; "empty container released";
                       "picked up"; "pickup"]
  then "PICKED_UP"
  else if any_of flat ["sailed"; "departed"; "loaded onboard"; "in transit"; "vessel"]
  then "IN_TRANSIT"
  else "".

Definition invoiceState (flat : string) : string :=
  if any_of flat ["refund"] then "REFUNDED"
  else if any_of flat ["void"; "cancel"] then "VOIDED"
  else if any_of flat ["settled"; "paid"; "payment received"] then "PAID"
  else if any_of flat ["raised"; "issued"] then "ISSUED"
  else "".

Definition shipmentKey (p : list (string * value)) : string :=
  let fallback := firstString p ["master_bl"; "house_bl"; "container_no"; "container"] in
  match map_at p "transport_doc" with
  | Some td =>
    match string_at td "number" with
    | Some n => if decide (n = "") then fallback else n
    | None => fallback
    end
  | None => fallback
  end.

Definition time_keys : list string :=
  ["milestone_at"; "milestone_local_time"; "issued_at"; "settled_at"; "occurred_at";
   "event_time"; "timestamp"].
Definition firstTimeString (p : list (string * value)) : string :=
  let v := firstString p time_keys in
  if decide (v = "") then
    match map_at p "transaction" with
    | Some tx => firstString tx time_keys
    | None => ""
    end
  else v.

Definition txKind (p : list (string * value)) : string :=
  match map_at p "transaction" with
  | Some tx => default "" (string_at tx "kind")
  | None => ""
  end.

Section mock.
Context {U : UnicodeTables}.

(** The [switch] of [Normalize]. *)
Definition mock_classify (p : list (string * value)) (flat : string) : Response.t :=
  if looksInvoice p flat then
    Response.mk "INVOICE"
      (ToUpper (firstString p ["doc_ref"; "invoice_id"; "invoice_no"; "invoice_ref"]))
      (invoiceState flat) (firstTimeString p) None "" (txKind p) conf_0_9
  else if looksShipment p then
    Response.mk "SHIPMENT" (ToUpper (shipmentKey p)) (shipmentState flat) (firstTimeString p)
      None "" (firstString p ["milestone"; "milestone_text"; "milestone_local_time"]) conf_0_9
  else Response.mk "UNCLASSIFIED" "" "" "" None "" "" conf_0_3.

Definition mock_response (raw : string) : Response.t :=
  let r := mock_classify (unmarshal_map raw) (ToLower raw) in
  if negb (bool_decide (Response.Classification r = "UNCLASSIFIED"))
     && bool_decide (Response.CanonicalState r = "")
  then Response.mk (Response.Classification r) (Response.EntityKey r)
         (Response.CanonicalState r) (Response.EventTime r) (Response.AmountMinor r)
         (Response.Currency r) (Response.VendorStateText r) conf_0_4
  else r.

(** [Mock.Normalize]; [NewMock] is the instance. *)
#[export] Instance mock_client : Client := λ _ raw,
  Ok (Result.mk (mock_response raw) "mock" PromptVersion).

(** ** What the gate makes of it *)

Lemma shipmentState_cases flat :
  shipmentState flat = "" ∨ IsShipmentState (shipmentState flat) = true.
Proof. unfold shipmentState. repeat case_match; by (left + right). Qed.

Lemma invoiceState_cases flat :
  invoiceState flat = "" ∨ IsInvoiceState (invoiceState flat) = true.
Proof. unfold invoiceState. repeat case_match; by (left + right). Qed.

(** A known state is its own upper-cased trimming. *)
Lemma known_state_fixed s :
  IsShipmentState s = true ∨ IsInvoiceState s = true → ToUpper (TrimSpace s) = s.
Proof.
  rewrite IsShipmentState_cases, IsInvoiceState_cases.
  intros [[->|[->|[->| ->]]]|[->|[->|[->| ->]]]]; by vm_compute.
Qed.
(** The shapes an answer of the mock has. *)
Lemma mock_cases raw :
  let r := mock_response raw in
  (Response.Classification r = ClassUnclassified ∧ Response.CanonicalState r = "" ∧
   Response.Confidence r = conf_0_3) ∨
  ((Response.Classification r = ClassShipment ∨ Response.Classification r = ClassInvoice) ∧
   Response.CanonicalState r = "" ∧ Response.Confidence r = conf_0_4) ∨
  (Response.Classification r = ClassShipment ∧ IsShipmentState (Response.CanonicalState r) = true ∧
   Response.Confidence r = conf_0_9) ∨
  (Response.Classification r = ClassInvoice ∧ IsInvoiceState (Response.CanonicalState r) = true ∧
   Response.Confidence r = conf_0_9).
Proof.
  cbv zeta. unfold mock_response, mock_classify.
  pose proof (shipmentState_cases (ToLower raw)) as Hs.
  pose proof (invoiceState_cases (ToLower raw)) as Hi.
  destruct (looksInvoice _ _); [|destruct (looksShipment _)];
    cbn [Response.Classification Response.CanonicalState Response.Confidence];
    rewrite ?bool_decide_false by done; cbn [negb andb].
  - case_bool_decide as He; cbn; [right; left; rewrite He; tauto|].
    do 3 right. split_ands; try done. by destruct Hi.
  - case_bool_decide as He; cbn; [right; left; rewrite He; tauto|].
    do 2 right. left. split_ands; try done. by destruct Hs.
  - by left.
Qed.

Lemma mock_gated raw :
  gated_class floor_0_6 (mock_response raw) =
  if decide (Response.CanonicalState (mock_response raw) = "") then ClassUnclassified
  else Response.Classification (mock_response raw).
Proof.
  unfold gated_class.
  destruct (mock_cases raw) as [(-> & -> & ->)|[([->| ->] & -> & ->)|[(-> & Hs & ->)|(-> & Hs & ->)]]].
  - by vm_compute.
  - by vm_compute.
  - by vm_compute.
  - rewrite decide_False by (intros He; by rewrite He in Hs). by vm_compute.
  - rewrite decide_False by (intros He; by rewrite He in Hs). by vm_compute.
Qed.

Lemma mock_defective raw :
  let r := mock_response raw in
  defective floor_0_6 r ↔
  Response.CanonicalState r ≠ "" ∧ CanonicalKey (Response.EntityKey r) = "".
Proof.
  cbv zeta. unfold defective. rewrite mock_gated.
  destruct (mock_cases raw) as [(_ & -> & _)|[(_ & -> & _)|[(-> & Hs & _)|(-> & Hs & _)]]].
  - rewrite decide_True by done. split; [|by intros [? _]].
    intros [[? _]|[[? _]|(_ & _ & ?)]]; done.
  - rewrite decide_True by done. split; [|by intros [? _]].
    intros [[? _]|[[? _]|(_ & _ & ?)]]; done.
  - assert (Response.CanonicalState (mock_response raw) ≠ "") as Hne
      by (intros He; by rewrite He in Hs).
    rewrite decide_False, (known_state_fixed _ (or_introl Hs)), Hs by done. split.
    + intros [[_ [?|?]]|[[? _]|(? & _)]]; done.
    + intros [_ ?]. left. split; [done|by right].
  - assert (Response.CanonicalState (mock_response raw) ≠ "") as Hne
      by (intros He; by rewrite He in Hs).
    rewrite decide_False, (known_state_fixed _ (or_intror Hs)), Hs by done. split.
    + intros [[? _]|[[_ [?|?]]|(_ & ? & _)]]; done.
    + intros [_ ?]. right. left. split; [done|by right].
Qed.
End mock.

(** ** Properties *)

(** One of [words] occurs in the lower-cased payload. *)
Definition names_one (flat : string) (words : list string) : Prop :=
  ∃ w, w ∈ words ∧ Contains flat w = true.

(** The first of the values that is not empty, if any, is only white space. *)
Definition blank_first (values : list string) : Prop :=
  ∀ v, head (filter (λ s, s ≠ "") values) = Some v → TrimSpace v = "".

(** The strings under the listed names. *)
Definition strings_under (p : list (string * value)) (keys : list string) : list string :=
  omap (string_at p) keys.

Lemma any_of_spec flat words : any_of flat words = true ↔ names_one flat words.
Proof.
  unfold any_of, names_one. rewrite existsb_exists. by setoid_rewrite list_elem_of_In.
Qed.

Lemma firstString_spec p keys :
  firstString p keys = default "" (head (filter (λ s, s ≠ "") (strings_under p keys))).
Proof.
  induction keys as [|k keys IH]; [done|]. unfold strings_under in *. cbn.
  destruct (string_at p k) as [v|]; [|done]. destruct (decide (v = "")) as [->|Hv].
  - by rewrite filter_cons_False by tauto.
  - by rewrite filter_cons_True.
Qed.

Lemma shipmentKey_spec p :
  let number := match map_at p "transport_doc" with
                | Some td => strings_under td ["number"]
                | None => []
                end in
  shipmentKey p = default "" (head (filter (λ s, s ≠ "") (number ++
    strings_under p ["master_bl"; "house_bl"; "container_no"; "container"]))).
Proof.
  cbv zeta. unfold shipmentKey. rewrite firstString_spec.
  destruct (map_at p "transport_doc") as [td|]; [|done].
  change (strings_under td ["number"]) with (match string_at td "number" with
    Some n => [n] | None => [] end).
  destruct (string_at td "number") as [n|]; [|done]. cbn [app]. destruct (decide (n = "")) as [->|Hn].
  - by rewrite filter_cons_False by tauto.
  - by rewrite filter_cons_True.
Qed.

Lemma states_named flat :
  (shipmentState flat ≠ "" ↔ names_one flat ["out for delivery"; "released to consignee";
     "delivered"; "consignee facility"; "received at origin"; "gate-in"; "gate in";
     "empty container released"; "picked up"; "pickup"; "sailed"; "departed";
     "loaded onboard"; "in transit"; "vessel"]) ∧
  (invoiceState flat ≠ "" ↔ names_one flat ["refund"; "void"; "cancel"; "settled"; "paid";
     "payment received"; "raised"; "issued"]).
Proof.
  rewrite <-!any_of_spec. unfold shipmentState, invoiceState, any_of. cbn [existsb].
  rewrite !orb_false_r. split; repeat case_match; rewrite ?orb_true_iff in *;
    rewrite ?orb_false_iff in *; (split; [intros ?; try done; tauto|]); try done; intros; 
    destruct_and?; intuition congruence.
Qed.

Section mock_key.
Context {U : UnicodeTables} {UL : UnicodeLaws U}.

Lemma blank_key l :
  CanonicalKey (ToUpper (default "" (head (filter (λ s, s ≠ "") l)))) = "" ↔ blank_first l.
Proof.
  unfold CanonicalKey, blank_first. rewrite ToUpper_empty, blank_ToUpper.
  destruct (head _) as [v|]; cbn; [naive_solver|]. split; [done|]. by intros _; vm_compute.
Qed.

Lemma mock_state_key raw :
  let p := unmarshal_map raw in
  let flat := ToLower raw in
  Response.CanonicalState (mock_response raw)
    = (if looksInvoice p flat then invoiceState flat
       else if looksShipment p then shipmentState flat else "") ∧
  Response.EntityKey (mock_response raw)
    = (if looksInvoice p flat
       then ToUpper (firstString p ["doc_ref"; "invoice_id"; "invoice_no"; "invoice_ref"])
       else if looksShipment p then ToUpper (shipmentKey p) else "").
Proof.
  cbv zeta. unfold mock_response, mock_classify.
  destruct (looksInvoice _ _); [|destruct (looksShipment _)]; by case_match.
Qed.

Lemma mock_rejected raw :
  (∃ e, Apply floor_0_6 (mock_response raw) = Err e) ↔
  Response.CanonicalState (mock_response raw) ≠ "" ∧
  CanonicalKey (Response.EntityKey (mock_response raw)) = "".
Proof.
  rewrite <-mock_defective. pose proof (Apply_cases floor_0_6 (mock_response raw)) as H.
  destruct (Apply _ _) as [f|e]; split; try done; [by intros [? ?]|by eexists].
Qed.
End mock_key.

(** C38. Under the default confidence floor the mock's answers fail the gate for one
    reason only. For every payload, JSON or not, the gate rejects the answer exactly
    when the payload looks like an invoice, its text names one of the invoice states,
    and the first non-empty string among doc_ref, invoice_id, invoice_no and invoice_ref
    is only white space or missing; or it looks like a shipment and not an invoice, its
    text names one of the shipment states, and the same goes for transport_doc.number,
    master_bl, house_bl, container_no and container. A later field is not looked at,
    so white space under doc_ref hides an invoice_id; and an answer without a state
    always passes. *)
Theorem mock_through_gate {U : UnicodeTables} {UL : UnicodeLaws U} raw :
  let p := unmarshal_map raw in
  let flat := ToLower raw in
  let number := match map_at p "transport_doc" with
                | Some td => strings_under td ["number"]
                | None => []
                end in
  (∃ e, Apply floor_0_6 (mock_response raw) = Err e) ↔
  (looksInvoice p flat = true ∧
   names_one flat ["refund"; "void"; "cancel"; "settled"; "paid"; "payment received"; "raised";
                   "issued"] ∧
   blank_first (strings_under p ["doc_ref"; "invoice_id"; "invoice_no"; "invoice_ref"])) ∨
  (looksInvoice p flat = false ∧ looksShipment p = true ∧
   names_one flat ["out for delivery"; "released to consignee"; "delivered";
                   "consignee facility"; "received at origin"; "gate-in"; "gate in";
                   "empty container released"; "picked up"; "pickup"; "sailed"; "departed";
                   "loaded onboard"; "in transit"; "vessel"] ∧
   blank_first (number ++
     strings_under p ["master_bl"; "house_bl"; "container_no"; "container"])).
Proof.
  intros p flat number. rewrite mock_rejected.
  destruct (mock_state_key raw) as [-> ->]. fold p flat.
  destruct (states_named flat) as [<- <-]. rewrite <-!blank_key, <-firstString_spec.
  pose proof (shipmentKey_spec p) as Hk. cbv zeta in Hk. fold number in Hk. rewrite <-Hk.
  destruct (looksInvoice p flat); [|destruct (looksShipment p)]; naive_solver.
Qed.

(** White space in the first key field, and a key that can be used in the second. *)
Lemma mock_through_gate_witness :
  ∃ e, @Apply latin1_tables floor_0_6 (@mock_response latin1_tables
    (unquoted "{`doc_ref`:` `,`invoice_id`:`INV-1`,`text`:`invoice paid`}")) = Err e.
Proof.
  apply (@mock_through_gate latin1_tables latin1_laws). left.
  split; [vm_compute; reflexivity|]. split.
  - exists "paid". split; [set_solver|vm_compute; reflexivity].
  - intros v Hv. vm_compute in Hv. injection Hv as <-. vm_compute. reflexivity.
Defined.
