(* ===== verification/Samples.v ===== *)
(** * The fixtures (internal/samples)

    The embedded vendor payloads, with a backquote for each double quote, and the
    two accessors over the embedded file system; the answers of the mock model to
    them are those internal/llm/mock_test.go pins. *)

From S2P Require Import Prelude GoErrors Utf8 GoStrings Model Llm Json Normalize Mock.
From Stdlib Require Import Ascii.
Local Open Scope Z_scope.

Definition maersk_in_transit : string := unquoted
"{
  `carrier_scac`: `MAEU`,
  `event_msg_id`: `MAEU-EVT-2026-04-22-0001`,
  `transport_doc`: { `type`: `MBL`, `number`: `MAEU240498712` },
  `container`: `MSKU7748112`,
  `vessel`: { `name`: `MAERSK GUATEMALA`, `imo`: `9778120`, `voyage`: `424W` },
  `milestone`: `Loaded onboard and sailed`,
  `milestone_at`: `2026-04-21T22:47:00+08:00`,
  `port`: { `code`: `CNSHA`, `name`: `Shanghai` }
}
".
Definition maersk_picked_up : string := unquoted
"{
  `carrier_scac`: `MAEU`,
  `event_msg_id`: `MAEU-EVT-2026-04-19-0042`,
  `transport_doc`: { `type`: `MBL`, `number`: `MAEU240498712` },
  `container`: `MSKU7748112`,
  `milestone`: `Empty container released to shipper; full container received at origin terminal`,
  `milestone_at`: `2026-04-19T11:15:00+08:00`,
  `port`: { `code`: `CNSHA`, `name`: `Shanghai` },
  `shipper_ref`: `ACME-IND-PO-2026-9921`
}
".
Definition gfp_paid : string := unquoted
"{
  `source`: `globalfreightpay.api`,
  `channel`: `carrier_billing`,
  `doc_ref`: `GFP-INV-2026-Q2-08821`,
  `carrier`: `Hapag-Lloyd AG`,
  `linked_bl`: `HLCU2604OCEAN221`,
  `transaction`: {
    `kind`: `settled in full`,
    `settled_at`: `2026-04-22 18:47:11+02:00`,
    `amount`: `EUR 24.350,75`,
    `remitter`: `ACME Logistics GmbH`,
    `memo`: `Ocean freight + THC + BAF, Shanghai -> Hamburg, container HLBU4490221`
  }
}
".
Definition gfp_issued : string := unquoted
"{
  `source`: `globalfreightpay.api`,
  `channel`: `carrier_billing`,
  `doc_ref`: `GFP-INV-2026-Q2-08821`,
  `carrier`: `Hapag-Lloyd AG`,
  `linked_bl`: `HLCU2604OCEAN221`,
  `transaction`: {
    `kind`: `freight invoice raised`,
    `issued_at`: `2026-04-15T09:00:00+02:00`,
    `amount`: `EUR 24.350,75`,
    `due_at`: `2026-05-15T00:00:00+02:00`,
    `line_items`: [
      { `desc`: `Ocean freight Shanghai -> Hamburg`, `amt`: `EUR 21.000,00` },
      { `desc`: `Terminal handling charges (THC)`, `amt`: `EUR 1.850,75` },
      { `desc`: `Bunker adjustment factor (BAF)`, `amt`: `EUR 1.500,00` }
    ]
  }
}
".
Definition one_delivered : string := unquoted
"{
  `carrier`: `Ocean Network Express`,
  `carrier_scac`: `ONEY`,
  `event_id`: `ONE-2026-04-28-114`,
  `house_bl`: `ONEYJKTHKG2604113`,
  `master_bl`: `ONEYMBLHKG260499`,
  `container_no`: `TLLU2890442`,
  `consignee`: `ACME Manufacturing PT.`,
  `milestone_text`: `Cargo released to consignee at consignee facility - empty container returned to depot`,
  `milestone_local_time`: `28/04/2026 09:42 WIB`,
  `port_of_discharge`: `IDJKT`,
  `delivery_order_no`: `DO-IDJKT-26044881`
}
".
Definition advisory_unclassified : string := unquoted
"{
  `issuer`: `marine-traffic-advisory`,
  `advisory_id`: `MTA-2026-04-26-EU-007`,
  `severity`: `AMBER`,
  `issued_at`: `2026-04-26T06:00:00Z`,
  `subject`: `Ongoing congestion at Port of Antwerp-Bruges`,
  `body`: `Vessel waiting times at Antwerp-Bruges berths have increased to 4-6 days due to labour action by terminal operators. Carriers are advised to consider rerouting via Rotterdam or Zeebrugge.`,
  `affected_services`: [`AE7`, `FAL3`, `Mediterranean Bridge`],
  `expires_at`: `2026-05-03T00:00:00Z`
}
".

(** The embedded files, [//go:embed *.json]. *)
Definition fsys : list (string * string) :=
  [("maersk_in_transit.json", maersk_in_transit); ("maersk_picked_up.json", maersk_picked_up);
   ("gfp_paid.json", gfp_paid); ("gfp_issued.json", gfp_issued);
   ("one_delivered.json", one_delivered); ("advisory_unclassified.json", advisory_unclassified)].

(** [fsys.ReadFile]: the root is a directory. *)
Definition Read (name : string) : result error string :=
  if decide (name = ".") then Err (errorString "read .: is a directory") else
  match list_find (λ f, fst f = name) fsys with
  | Some (_, (_, text)) => Ok text
  | None => Err (errorString ("open " +:+ name +:+ ": file does not exist"))
  end.

(** [fs.Glob(fsys, "*.json")]: all of them, in the order of the directory. *)
Definition Names : list string := fst <$> sort_named fsys.

Definition answer_of (raw : string) : string * string * string :=
  let r := @mock_response latin1_tables raw in
  (Response.Classification r, Response.CanonicalState r, Response.EntityKey r).

(** The expectations of internal/llm/mock_test.go. *)
Example mock_fixtures :
  answer_of <$> [maersk_in_transit; maersk_picked_up; gfp_paid; gfp_issued; one_delivered; advisory_unclassified] =
  [("SHIPMENT", "IN_TRANSIT", "MAEU240498712");
   ("SHIPMENT", "PICKED_UP", "MAEU240498712");
   ("INVOICE", "PAID", "GFP-INV-2026-Q2-08821");
   ("INVOICE", "ISSUED", "GFP-INV-2026-Q2-08821");
   ("SHIPMENT", "DELIVERED", "ONEYMBLHKG260499");
   ("UNCLASSIFIED", "", "")].
Proof. vm_compute. reflexivity. Qed.

(** Every listed fixture is there, is JSON, and passes the gate with its answer. *)
Example fixtures_pass :
  forallb (λ name, match Read name with
                   | Ok raw => Valid raw && is_ok (@Apply latin1_tables floor_0_6
                                                     (@mock_response latin1_tables raw))
                   | Err _ => false
                   end) Names = true ∧ length Names = 6%nat ∧
  is_ok (Read "missing.json") = false.
Proof. vm_compute. done. Qed.
