(* ===== verification/Providers.v ===== *)
(** * The hosted and the local model (internal/llm/openai.go, ollama.go, spec)

    The two HTTP clients: what they send, how a reply becomes a [Result] or an
    [APIError] with its retry class, and the prompt and schema of the spec package
    they share. The transport with the server behind it is the parameter
    [HttpTransport]; the texts of JSON errors are [json_error]. *)

From S2P Require Import Prelude GoErrors Utf8 GoStrings Model Llm Strconv Json JsonEncode.
From S2P Require Import Mock.
From stdpp Require Import pretty.
From Stdlib Require Import Ascii Floats.SpecFloat.
Local Open Scope Z_scope.

(** ** The spec package *)

Definition systemPrompt : string := unquoted
"You are a webhook normalization engine for a supply-chain platform.
Classify the vendor JSON payload and extract a strict normalized record.

CLASSIFICATION:
- SHIPMENT: any update about a physical parcel/container moving through a logistics network.
- INVOICE: any financial document the platform owes, is owed, or has settled.
- UNCLASSIFIED: anything else (advisories, congestion notices, marketing, unknown).

CANONICAL STATES — collapse vendor wording into exactly one:
- Shipment: PICKED_UP, IN_TRANSIT, OUT_FOR_DELIVERY, DELIVERED
- Invoice:  ISSUED, PAID, VOIDED, REFUNDED
Examples: `Loaded onboard and sailed` -> IN_TRANSIT; `full container received at origin` -> PICKED_UP;
`Cargo released to consignee` -> DELIVERED; `freight invoice raised` -> ISSUED; `settled in full` -> PAID.
Set canonical_state to null for UNCLASSIFIED.

ENTITY_KEY (stable id grouping events of the SAME shipment/invoice across webhooks):
- Shipment: the master bill-of-lading / transport document number; else the house BL; else the container number.
- Invoice: the invoice document reference.
- Uppercase and trim. Null for UNCLASSIFIED.

FIELDS:
- event_time: when the real-world event occurred, converted to RFC3339 in UTC (Z suffix). Null if absent.
- amount_minor: monetary amount as an integer in the currency's minor units. Mind locale formats:
  `EUR 24.350,75` -> 2435075. Null if none.
- currency: ISO-4217 code (e.g. EUR). Null if none.
- vendor_state_text: the original vendor status/milestone words, verbatim.
- confidence: 0.0-1.0 in the classification + state. If unsure, use UNCLASSIFIED with low confidence.

Return only a single JSON object matching the schema — no prose, no markdown.
".

Definition schemaJSON : string := unquoted
"{
  `name`: `webhook_normalization`,
  `schema`: {
    `type`: `object`,
    `additionalProperties`: false,
    `required`: [
      `classification`,
      `entity_key`,
      `canonical_state`,
      `event_time`,
      `amount_minor`,
      `currency`,
      `vendor_state_text`,
      `confidence`
    ],
    `properties`: {
      `classification`: {
        `type`: `string`,
        `enum`: [`SHIPMENT`, `INVOICE`, `UNCLASSIFIED`]
      },
      `entity_key`: {
        `type`: [`string`, `null`]
      },
      `canonical_state`: {
        `type`: [`string`, `null`],
        `enum`: [`PICKED_UP`, `IN_TRANSIT`, `OUT_FOR_DELIVERY`, `DELIVERED`, `ISSUED`, `PAID`, `VOIDED`, `REFUNDED`, null]
      },
      `event_time`: {
        `type`: [`string`, `null`]
      },
      `amount_minor`: {
        `type`: [`integer`, `null`]
      },
      `currency`: {
        `type`: [`string`, `null`]
      },
      `vendor_state_text`: {
        `type`: [`string`, `null`]
      },
      `confidence`: {
        `type`: `number`,
        `minimum`: 0,
        `maximum`: 1
      }
    }
  },
  `strict`: true
}
".

(** [loadSchema]: the envelope [{name, schema, strict}] of the embedded file. *)
Definition normalization : list (string * value) := unmarshal_map schemaJSON.
Definition SystemPrompt : string := systemPrompt.
Definition SchemaName : string := default "" (string_at normalization "name").
Definition SchemaStrict : bool :=
  match lookup_member normalization "strict" with Some (JBool b) => b | _ => false end.
Definition SchemaBody : value := JObject (default [] (map_at normalization "schema")).

(** ** Decoding into structs *)

(** A decoded value and whether a member had the wrong type: decoding goes on after
    a type error and reports it at the end. *)
Definition decoded (A : Type) : Type := A * bool.

Definition dec_string (old : string) (v : value) : decoded string :=
  match v with
  | JString s => (s, false)
  | JNull => (old, false)
  | _ => (old, true)
  end.

Definition dec_float (old : float64) (v : value) : decoded float64 :=
  match v with
  | JNumber l => match ParseFloat l with Some f => (f, false) | None => (old, true) end
  | JNull => (old, false)
  | _ => (old, true)
  end.

(** Into a [*int64]. *)
Definition dec_int_ptr (old : option Z) (v : value) : decoded (option Z) :=
  match v with
  | JNumber l => match ParseInt64 l with Some n => (Some n, false) | None => (old, true) end
  | JNull => (None, false)
  | _ => (old, true)
  end.

(** Into a struct whose members [field] sets, one after the other. *)
Definition dec_struct {A} (field : A → string → value → decoded A) (old : A) (v : value)
    : decoded A :=
  match v with
  | JObject ms =>
    foldl (λ '(a, e) '(k, v), let '(a', e') := field a k v in (a', e || e')) (old, false) ms
  | JNull => (old, false)
  | _ => (old, true)
  end.

(** [json.Unmarshal(text, &old)]: the value afterwards, and whether it failed. *)
Definition Unmarshal {A} (dec : A → value → decoded A) (zero : A) (text : string) : decoded A :=
  match parse_json text with
  | Some v => dec zero v
  | None => (zero, true)
  end.

Definition zero_response : Response.t := Response.mk "" "" "" "" None "" "" (S754_zero false).

Definition response_field (r : Response.t) (k : string) (v : value) : decoded Response.t :=
  let '(Response.mk c ek cs et am cu vt cf) := r in
  if is_field "classification" k then
    let '(x, e) := dec_string c v in (Response.mk x ek cs et am cu vt cf, e)
  else if is_field "entity_key" k then
    let '(x, e) := dec_string ek v in (Response.mk c x cs et am cu vt cf, e)
  else if is_field "canonical_state" k then
    let '(x, e) := dec_string cs v in (Response.mk c ek x et am cu vt cf, e)
  else if is_field "event_time" k then
    let '(x, e) := dec_string et v in (Response.mk c ek cs x am cu vt cf, e)
  else if is_field "amount_minor" k then
    let '(x, e) := dec_int_ptr am v in (Response.mk c ek cs et x cu vt cf, e)
  else if is_field "currency" k then
    let '(x, e) := dec_string cu v in (Response.mk c ek cs et am x vt cf, e)
  else if is_field "vendor_state_text" k then
    let '(x, e) := dec_string vt v in (Response.mk c ek cs et am cu x cf, e)
  else if is_field "confidence" k then
    let '(x, e) := dec_float cf v in (Response.mk c ek cs et am cu vt x, e)
  else (r, false).
Definition dec_response : Response.t → value → decoded Response.t := dec_struct response_field.

(** A one-member struct, as the envelopes are. *)
Definition dec_member {A} (name : string) (dec : A → value → decoded A)
    : A → value → decoded A :=
  dec_struct (λ a k v, if is_field name k then dec a v else (a, false)).

(** Into a slice: element by element, over the elements that are there. *)
Fixpoint dec_elements {A} (dec : A → value → decoded A) (zero : A) (old : list A) (vs : list value)
    : decoded (list A) :=
  match vs with
  | [] => ([], false)
  | v :: vs' =>
    let '(a, e) := dec (default zero (head old)) v in
    let '(l, e') := dec_elements dec zero (tail old) vs' in
    (a :: l, e || e')
  end.
Definition dec_slice {A} (dec : A → value → decoded A) (zero : A) (old : list A) (v : value)
    : decoded (list A) :=
  match v with
  | JArray vs => dec_elements dec zero old vs
  | JNull => ([], false)
  | _ => (old, true)
  end.

(** ** HTTP *)

Record HttpRequest : Type := mkHttpRequest {
  q_url : string;
  q_headers : list (string * string);
  q_timeout : Z;
  q_body : string
}.
(** The body is what could be read of it. *)
Record HttpReply : Type := mkHttpReply { StatusCode : Z; ReplyBody : string }.

Class HttpTransport : Type := {
  NewRequest : string → result error unit;                 (** refuses a malformed URL *)
  Do : nat → HttpRequest → result error HttpReply;
  json_error : string → string
}.

Definition Second : Z := 1000000000.

Definition truncate (b : string) (n : nat) : string :=
  if (n <? len b)%nat then str (take n (chars b)) else b.

Definition chat_message (role content : string) : value :=
  JObject [("role", JString role); ("content", JString content)].
Definition messages (raw : string) : value :=
  JArray [chat_message "system" SystemPrompt; chat_message "user" raw].

Definition api_error (msg : string) : error := APIError 0 true msg.

(** ** OpenAI *)

Record OpenAI : Type := mkOpenAI {
  o_apiKey : string; o_model : string; o_url : string; o_strictSchema : bool
}.

Definition NewOpenAI (apiKey model baseURL : string) : OpenAI :=
  let model := if decide (model = "") then "gpt-4o-mini" else model in
  let baseURL := if decide (baseURL = "") then "https://api.openai.com/v1" else baseURL in
  mkOpenAI apiKey model (TrimRight1 baseURL "/" +:+ "/chat/completions")
    (Contains baseURL "api.openai.com").

(** [stripKeys]: the listed keys dropped from every map inside. *)
Fixpoint stripKeys (keys : list string) (v : value) : value :=
  match v with
  | JObject ms =>
    JObject ((fix go (ms : list (string * value)) : list (string * value) :=
                match ms with
                | [] => []
                | (k, val) :: ms' =>
                  if bool_decide (k ∈ keys) then go ms' else (k, stripKeys keys val) :: go ms'
                end) ms)
  | JArray vs => JArray (stripKeys keys <$> vs)
  | _ => v
  end.
Definition openAIStrictSchema (s : value) : value := stripKeys ["minimum"; "maximum"] s.

Definition responseFormat (o : OpenAI) : value :=
  if o_strictSchema o then
    JObject [("type", JString "json_schema");
             ("json_schema", JObject [("name", JString SchemaName);
                                      ("strict", JBool SchemaStrict);
                                      ("schema", any_value (openAIStrictSchema SchemaBody))])]
  else JObject [("type", JString "json_object")].

Definition retryableStatus (code : Z) (body : string) : bool :=
  let type_ := fst (Unmarshal (dec_member "error" (dec_member "type" dec_string)) "" body) in
  if bool_decide (type_ ∈ ["insufficient_quota"; "invalid_api_key"]) then false
  else (code =? 429) || (500 <=? code).

(** The content of each choice. *)
Definition dec_choices : list string → value → decoded (list string) :=
  dec_member "choices" (dec_slice (dec_member "message" (dec_member "content" dec_string)) "").

Section clients.
Context `{HttpTransport}.

(** [chatRequest] *)
Definition openai_body (o : OpenAI) (raw : string) : value :=
  JObject [("model", JString (o_model o)); ("temperature", JNumber ["0"%char]);
           ("messages", messages raw); ("response_format", responseFormat o)].
Definition openai_request (o : OpenAI) (raw : string) : HttpRequest :=
  mkHttpRequest (o_url o)
    [("Content-Type", "application/json"); ("Authorization", "Bearer " +:+ o_apiKey o)]
    (60 * Second) (Marshal (openai_body o raw)).

(** [OpenAI.Normalize] *)
Definition openai_normalize (o : OpenAI) : Client := λ k raw,
  match NewRequest (o_url o) with
  | Err err => Err err
  | Ok _ =>
    match Do k (openai_request o raw) with
    | Err err => Err (api_error ("openai: " +:+ Error err))
    | Ok resp =>
      let body := ReplyBody resp in
      if negb (StatusCode resp =? 200) then
        Err (APIError (StatusCode resp) (retryableStatus (StatusCode resp) body)
               ("openai status " +:+ pretty (StatusCode resp) +:+ ": " +:+ truncate body 300))
      else
        match Unmarshal dec_choices [] body with
        | (_, true) | ([], false) => Err (api_error "openai: malformed response envelope")
        | (content :: _, false) =>
          match Unmarshal dec_response zero_response content with
          | (_, true) =>
            Err (api_error ("openai: content not valid JSON: " +:+ json_error content))
          | (out, false) => Ok (Result.mk out (o_model o) PromptVersion)
          end
        end
    end
  end.
End clients.

(** ** Ollama *)

Record Ollama : Type := mkOllama { l_model : string; l_url : string }.

Definition NewOllama (model host : string) : Ollama :=
  let model := if decide (model = "") then "llama3.2" else model in
  let host := if decide (host = "") then "http://localhost:11434" else host in
  mkOllama model (TrimRight1 host "/" +:+ "/api/chat").

Definition dec_ollama : string → value → decoded string :=
  dec_member "message" (dec_member "content" dec_string).

Section ollama.
Context `{HttpTransport}.

(** [ollamaRequest] *)
Definition ollama_body (o : Ollama) (raw : string) : value :=
  JObject [("model", JString (l_model o)); ("messages", messages raw);
           ("stream", JBool false); ("format", any_value SchemaBody);
           ("options", JObject [("temperature", JNumber ["0"%char])])].
Definition ollama_request (o : Ollama) (raw : string) : HttpRequest :=
  mkHttpRequest (l_url o) [("Content-Type", "application/json")] (120 * Second)
    (Marshal (ollama_body o raw)).

(** [Ollama.Normalize] *)
Definition ollama_normalize (o : Ollama) : Client := λ k raw,
  match NewRequest (l_url o) with
  | Err err => Err err
  | Ok _ =>
    match Do k (ollama_request o raw) with
    | Err err => Err (api_error ("ollama: " +:+ Error err))
    | Ok resp =>
      let body := ReplyBody resp in
      if negb (StatusCode resp =? 200) then
        Err (APIError (StatusCode resp) (500 <=? StatusCode resp)
               ("ollama status " +:+ pretty (StatusCode resp) +:+ ": " +:+ truncate body 300))
      else
        match Unmarshal dec_ollama "" body with
        | (_, true) => Err (api_error "ollama: malformed response envelope")
        | (content, false) =>
          match Unmarshal dec_response zero_response content with
          | (_, true) =>
            Err (api_error ("ollama: content not valid JSON: " +:+ json_error content))
          | (out, false) => Ok (Result.mk out (l_model o) PromptVersion)
          end
        end
    end
  end.
End ollama.
