(* ===== verification/Database.v ===== *)
(** * The database and the world a process runs in

    The tables of migrations/0001_init.sql with their constraints, and the way a
    process reaches them: one SQL statement at a time, each of which may fail
    before or after it took effect. What belongs to PostgreSQL and its driver and
    not to the repository (text and JSON admission, UUID parsing, column
    rounding, error texts, generated ids, the clock, lock contention) is the
    parameters [Postgres] and [Oracle]. *)

From S2P Require Import Prelude GoErrors Utf8 Model.
Local Open Scope Z_scope.

(** ** Tables *)

Module RawRow.
Record t : Type := mk {
  payload_hash : string;
  raw_payload : string;
  source : option string;
  status : RawStatus;
  attempts : Z;
  err : option string;
  lease_until : option Time;
  received_at : Time
}.
End RawRow.

Module FactRow.
Record t : Type := mk {
  classification : string;
  entity_key : option string;
  canonical_state : option string;
  event_time : option Time;
  amount_minor : option Z;
  currency : option string;
  vendor_state_text : option string;
  confidence : float64;
  llm_model : string;
  prompt_version : string;
  created_at : Time
}.
End FactRow.

Module EntityRow.
Record t : Type := mk {
  type_ : string;
  current_state : string;
  current_rank : Z;
  last_event_time : option Time;
  amount_minor : option Z;
  currency : option string;
  created_at : Time;
  updated_at : Time
}.
End EntityRow.

(** Each table is keyed by its primary key; [normalized_events] by its UNIQUE
    [raw_event_id], since its own id is never read. *)
Record DB : Type := mkDB {
  raw_events : gmap string RawRow.t;
  normalized_events : gmap string FactRow.t;
  entities : gmap string EntityRow.t
}.

Definition empty_db : DB := mkDB ∅ ∅ ∅.
Definition set_raw (m : gmap string RawRow.t) (db : DB) : DB :=
  mkDB m (normalized_events db) (entities db).
Definition set_facts (m : gmap string FactRow.t) (db : DB) : DB :=
  mkDB (raw_events db) m (entities db).
Definition set_entities (m : gmap string EntityRow.t) (db : DB) : DB :=
  mkDB (raw_events db) (normalized_events db) m.

(** [CHECK (classification IN (...))] *)
Definition classification_check (c : string) : bool :=
  bool_decide (c ∈ ["SHIPMENT"; "INVOICE"; "UNCLASSIFIED"]).

(** [INT]: a four-byte signed integer. *)
Definition int4_max : Z := 2147483647.

(** SQL's [NULLIF(x, '')] and [COALESCE]. *)
Definition NULLIF_empty (s : string) : option string :=
  if decide (s = "") then None else Some s.
Definition COALESCE {A} (a b : option A) : option A :=
  match a with Some _ => a | None => b end.

(** ** PostgreSQL and its driver *)

Inductive PgErr : Type :=
  | InvalidText | InvalidJson | InvalidUuid | IntegerOutOfRange
  | UniqueViolation | ForeignKeyViolation | CheckViolation | ValueTooLong | NoTransaction.

Class Postgres : Type := {
  pg_text : string → bool;              (** a string parameter TEXT accepts *)
  pg_jsonb : string → option string;    (** bytes stored in JSONB, as read back *)
  pg_char3 : string → option string;    (** CHAR(3) *)
  pg_uuid : string → option string;     (** a UUID parameter, in canonical form *)
  pg_timestamptz : Time → Time;         (** the precision of TIMESTAMPTZ *)
  pg_real : float64 → float64;          (** the precision of REAL *)
  pg_interval : Z → Z;                  (** [make_interval(secs => d.Seconds())] *)
  pg_message : PgErr → string
}.

(** What PostgreSQL documents about these: TEXT holds valid UTF-8 without the zero
    byte, a generated UUID is in canonical form, three ASCII letters fill a
    CHAR(3), and an interval keeps the sign of the duration. *)
Class PostgresLaws (P : Postgres) : Prop := {
  pg_text_spec s : pg_text s = true ↔
    ValidString s = true ∧ (Ascii.zero ∉ chars s);
  pg_uuid_idemp s u : pg_uuid s = Some u → pg_uuid u = Some u;
  pg_interval_nonneg d : 0 ≤ d → 0 ≤ pg_interval d
}.

Definition pg_error `{Postgres} (e : PgErr) : error := errorString (pg_message e).

(** [pgx.ErrNoRows] *)
Definition ErrNoRows : error := errorString "no rows in result set".

(** ** The world of a process *)

(** A statement succeeds, or the connection fails before the server ran it, or
    after: the effect is there and the client still sees an error. *)
Inductive Fault : Type :=
  | NoFault
  | FailBefore (e : error)
  | FailAfter (e : error).

(** What wakes an idle [Claim]. *)
Inductive Wait : Type :=
  | CtxDone (e : error)
  | WaitNotify
  | PollTimeout.

(** The outcomes the environment decides, by the number of operations the process
    has performed. *)
Class Oracle : Type := {
  fault : nat → Fault;
  clock : nat → Time;                     (** [now()] *)
  gen_random_uuid : nat → string;
  locked : nat → gset string;             (** rows locked by other transactions *)
  choose : nat → nat;                     (** which of several equally old rows *)
  wakeup : nat → Wait;
  ctx_cancelled : nat → bool;             (** [ctx.Err() != nil] *)
  rand_Int64N : nat → Z → Z
}.

Record World : Type := mkWorld {
  w_db : DB;
  w_tx : option (nat * DB); (** the open transaction: its start and its view *)
  w_notify : bool;          (** the one-slot notify channel holds a signal *)
  w_ticks : nat             (** operations performed so far *)
}.

Definition set_db (db : DB) (w : World) : World :=
  mkWorld db (w_tx w) (w_notify w) (w_ticks w).
Definition set_tx (tx : option (nat * DB)) (w : World) : World :=
  mkWorld (w_db w) tx (w_notify w) (w_ticks w).
Definition set_notify (b : bool) (w : World) : World :=
  mkWorld (w_db w) (w_tx w) b (w_ticks w).
Definition tick (w : World) : World :=
  mkWorld (w_db w) (w_tx w) (w_notify w) (S (w_ticks w)).

Abbreviation Eff := (eff World error).

(** A statement's meaning: its result and the new tables, or an error and no
    change. It sees the number of the operation, for [now()] and the ids. *)
Definition Statement (A : Type) : Type := nat → DB → result error (A * DB).

Section world.
Context `{Oracle}.

(** [s.Pool.Exec], [s.Pool.QueryRow]: one statement, committed on its own. *)
Definition stmt {A} (f : Statement A) : Eff A := λ w,
  let t := w_ticks w in
  match fault t with
  | FailBefore e => (Err e, tick w)
  | NoFault =>
    match f t (w_db w) with
    | Ok (a, db') => (Ok a, set_db db' (tick w))
    | Err e => (Err e, tick w)
    end
  | FailAfter e =>
    match f t (w_db w) with
    | Ok (_, db') => (Err e, set_db db' (tick w))
    | Err e' => (Err e', tick w)
    end
  end.

(** [s.Pool.Begin] *)
Definition tx_begin : Eff unit := λ w,
  match fault (w_ticks w) with
  | NoFault => (Ok (), set_tx (Some (w_ticks w, w_db w)) (tick w))
  | FailBefore e | FailAfter e => (Err e, tick w)
  end.

(** [tx.Exec], [tx.QueryRow]: visible to this transaction only, whose [now()] is
    its start. *)
Definition tx_stmt `{Postgres} {A} (f : Statement A) : Eff A := λ w,
  match w_tx w, fault (w_ticks w) with
  | None, _ => (Err (pg_error NoTransaction), tick w)
  | Some _, (FailBefore e | FailAfter e) => (Err e, tick w)
  | Some (t, db), NoFault =>
    match f t db with
    | Ok (a, db') => (Ok a, set_tx (Some (t, db')) (tick w))
    | Err e => (Err e, tick w)
    end
  end.

(** [tx.Commit] *)
Definition tx_commit `{Postgres} : Eff unit := λ w,
  match w_tx w, fault (w_ticks w) with
  | None, _ => (Err (pg_error NoTransaction), tick w)
  | Some (_, db), NoFault => (Ok (), set_tx None (set_db db (tick w)))
  | Some (_, db), FailAfter e => (Err e, set_tx None (set_db db (tick w)))
  | Some _, FailBefore e => (Err e, tick w)
  end.

(** [ctx.Err() != nil] *)
Definition ctx_err : Eff bool := λ w, (Ok (ctx_cancelled (w_ticks w)), tick w).

(** [tx.Rollback], a no-op after a commit. *)
Definition tx_rollback (w : World) : World := set_tx None w.
End world.

(** ** What running a statement can do

    [ran f db r db']: a process that runs [f] on [db] may see [r] and leave [db'].
    Either the statement ran and was reported, or it failed and changed nothing,
    or it ran and its report was lost. *)
Inductive ran {A} (f : Statement A) (db : DB) : result error A → DB → Prop :=
  | ran_ok t a db' : f t db = Ok (a, db') → ran f db (Ok a) db'
  | ran_err e : ran f db (Err e) db
  | ran_lost t a db' e : f t db = Ok (a, db') → ran f db (Err e) db'.

Lemma stmt_ran `{Oracle} {A} (f : Statement A) w :
  ran f (w_db w) (fst (stmt f w)) (w_db (snd (stmt f w))) ∧
  w_tx (snd (stmt f w)) = w_tx w.
Proof.
  unfold stmt. destruct (fault (w_ticks w)) as [|e|e]; cbn; [|split; [constructor|done]|];
    (destruct (f (w_ticks w) (w_db w)) as [[a db']|e'] eqn:Hf; cbn;
     (split; [by econstructor|done])).
Qed.

(** Without a fault the statement is what the process sees. *)
Lemma stmt_no_fault `{Oracle} {A} (f : Statement A) w a db' :
  fault (w_ticks w) = NoFault → f (w_ticks w) (w_db w) = Ok (a, db') →
  stmt f w = (Ok a, set_db db' (tick w)).
Proof. intros Hn Hf. unfold stmt. by rewrite Hn, Hf. Qed.
