(* ===== verification/Instances.v ===== *)
(** * A concrete database and a calm environment

    Instances of the parameters [Postgres] and [Oracle], used to run the model on
    examples and to show that the hypotheses of the theorems can hold. No theorem
    about the program is restricted to them. *)

From S2P Require Import Prelude GoErrors Utf8 GoStrings Model Database.
From stdpp Require Import pretty.
Local Open Scope Z_scope.

Definition sample_postgres : Postgres := {|
  pg_text s := ValidString s && bool_decide (Ascii.zero ∉ chars s);
  pg_jsonb p := Some p;
  pg_char3 s := if (len s <=? 3)%nat then Some s else None;
  pg_uuid s := Some s;
  pg_timestamptz t := t - t mod 1000;
  pg_real x := x;
  pg_interval d := d;
  pg_message _ := "database error"
|}.

Lemma sample_postgres_laws : PostgresLaws sample_postgres.
Proof.
  split; cbn.
  - intros s. by rewrite andb_true_iff, bool_decide_eq_true.
  - done.
  - done.
Qed.

(** Nothing fails, and a minute passes between two operations. *)
Definition calm : Oracle := {|
  fault _ := NoFault;
  clock t := Z.of_nat t * 60000000000;
  gen_random_uuid t := "id-" +:+ pretty t;
  locked _ := ∅;
  choose _ := 0%nat;
  wakeup _ := PollTimeout;
  ctx_cancelled _ := false;
  rand_Int64N _ _ := 0
|}.

(** A process at the start of its life, on an empty database. *)
Definition boot : World := mkWorld empty_db None false 0.
