(* ===== verification/StoreRaw.v ===== *)
(** * The ingestion log as a queue (internal/store/raw.go)

    Each SQL statement of the file is a definition [sql_*], on the tables; each
    method is the composition of its statements the way the Go code composes
    them, error tests included. *)

From S2P Require Import Prelude GoErrors Model Database.
Local Open Scope Z_scope.

(** The read model of GET /events/{id}. *)
Module EventView.
Record t : Type := mk {
  ID : string;
  Status : string;
  Attempts : Z;
  Error : option string;
  Classification : option string;
  EntityKey : option string;
  CanonicalState : option string;
  Confidence : option float64;
  ReceivedAt : Time;
  ProcessedAt : option Time
}.
End EventView.

Section raw.
Context `{Postgres, Oracle}.

(** [WHERE payload_hash = $1] *)
Definition find_by_hash (hash : string) (db : DB) : option string :=
  fst <$> head (filter (λ p, RawRow.payload_hash (snd p) = hash)
                  (map_to_list (raw_events db))).

(** INSERT INTO raw_events ... ON CONFLICT (payload_hash) DO NOTHING RETURNING id *)
Definition sql_insert_raw (hash payload source : string)
    : Statement (option string) := λ t db,
  if negb (pg_text hash && pg_text source) then Err (pg_error InvalidText) else
  match pg_jsonb payload with
  | None => Err (pg_error InvalidJson)
  | Some json =>
    match find_by_hash hash db with
    | Some _ => Ok (None, db)
    | None =>
      let id := gen_random_uuid t in
      match raw_events db !! id with
      | Some _ => Err (pg_error UniqueViolation)
      | None =>
        Ok (Some id,
            set_raw (<[id := RawRow.mk hash json (NULLIF_empty source)
                               StatusPending 0 None None (clock t)]> (raw_events db)) db)
      end
    end
  end.

(** SELECT id FROM raw_events WHERE payload_hash=$1, scanned into [id] *)
Definition sql_raw_id (hash : string) : Statement string := λ t db,
  if negb (pg_text hash) then Err (pg_error InvalidText) else
  match find_by_hash hash db with
  | Some id => Ok (id, db)
  | None => Err ErrNoRows
  end.

Definition InsertRaw (hash payload source : string) : Eff (string * bool) :=
  r ← attempt (stmt (sql_insert_raw hash payload source));
  match r with
  | Ok (Some id) => mret (id, true)
  | Err err => throw err
  | Ok None =>
    (* Conflict: the row already exists. *)
    id ← stmt (sql_raw_id hash);
    mret (id, false)
  end.

(** WHERE status = 'PENDING' OR (status = 'PROCESSING' AND lease_until < now()) *)
Definition claimable (now : Time) (r : RawRow.t) : bool :=
  match RawRow.status r with
  | StatusPending => true
  | StatusProcessing =>
    match RawRow.lease_until r with
    | Some l => l <? now
    | None => false    (* NULL < now() is not true *)
    end
  | StatusProcessed | StatusFailed => false
  end.

(** The rows SKIP LOCKED leaves. *)
Definition candidates (now : Time) (lk : gset string) (db : DB)
    : list (string * RawRow.t) :=
  filter (λ p, claimable now (snd p) = true ∧ fst p ∉ lk)
         (map_to_list (raw_events db)).

(** ORDER BY received_at LIMIT 1: among the oldest, PostgreSQL picks any. *)
Definition oldest (l : list (string * RawRow.t)) : list (string * RawRow.t) :=
  filter (λ p, Forall (λ q, RawRow.received_at (snd p) ≤ RawRow.received_at (snd q)) l) l.
Definition pick (n : nat) (l : list (string * RawRow.t)) : option (string * RawRow.t) :=
  l !! (n mod length l)%nat.

Definition lease_row (now lease : Z) (r : RawRow.t) : RawRow.t :=
  RawRow.mk (RawRow.payload_hash r) (RawRow.raw_payload r) (RawRow.source r)
    StatusProcessing (RawRow.attempts r + 1) (RawRow.err r)
    (Some (now + pg_interval lease)) (RawRow.received_at r).

(** UPDATE raw_events SET ... WHERE id = (SELECT ...) RETURNING ... *)
Definition sql_claim (lease : Z) : Statement (option RawEvent.t) := λ t db,
  match pick (choose t) (oldest (candidates (clock t) (locked t) db)) with
  | None => Ok (None, db)
  | Some (id, r) =>
    if int4_max <? RawRow.attempts r + 1 then Err (pg_error IntegerOutOfRange) else
    let r' := lease_row (clock t) lease r in
    Ok (Some (RawEvent.mk id (RawRow.raw_payload r') (RawRow.attempts r')),
        set_raw (<[id := r']> (raw_events db)) db)
  end.

Definition Claim (lease : Z) : Eff (option RawEvent.t) := stmt (sql_claim lease).

(** UPDATE raw_events SET ... WHERE id=$1 *)
Definition update_raw (id : string) (f : RawRow.t → RawRow.t) (db : DB)
    : result error (unit * DB) :=
  match pg_uuid id with
  | None => Err (pg_error InvalidUuid)
  | Some u => Ok ((), set_raw (alter f u (raw_events db)) db)
  end.

(** SET status=st, error=e, lease_until=l *)
Definition set_status (st : RawStatus) (e : option string) (l : option Time)
    (r : RawRow.t) : RawRow.t :=
  RawRow.mk (RawRow.payload_hash r) (RawRow.raw_payload r) (RawRow.source r)
    st (RawRow.attempts r) e l (RawRow.received_at r).

Definition sql_mark_processed (id : string) : Statement unit := λ t db,
  update_raw id (set_status StatusProcessed None None) db.
Definition MarkProcessed (id : string) : Eff unit := stmt (sql_mark_processed id).

Definition sql_fail (id reason : string) : Statement unit := λ t db,
  if negb (pg_text reason) then Err (pg_error InvalidText)
  else update_raw id (set_status StatusFailed (Some reason) None) db.

(** SET error=$2, lease_until=now()+...: the status is not written. *)
Definition sql_reschedule (id reason : string) (backoff : Z) : Statement unit := λ t db,
  if negb (pg_text reason) then Err (pg_error InvalidText)
  else update_raw id (λ r, set_status (RawRow.status r) (Some reason)
                             (Some (clock t + pg_interval backoff)) r) db.

Definition RetryOrFail (id : string) (attempts maxAttempts backoff : Z)
    (reason : string) : Eff unit :=
  if maxAttempts <=? attempts then stmt (sql_fail id reason)
  else stmt (sql_reschedule id reason backoff).

Definition Fail (id reason : string) : Eff unit := stmt (sql_fail id reason).

(** SELECT ... FROM raw_events r LEFT JOIN normalized_events n ... WHERE r.id = $1 *)
Definition sql_get_event (id : string) : Statement (option EventView.t) := λ t db,
  match pg_uuid id with
  | None => Err (pg_error InvalidUuid)
  | Some u =>
    match raw_events db !! u with
    | None => Ok (None, db)
    | Some r =>
      let n := normalized_events db !! u in
      Ok (Some (EventView.mk u (RawStatus_string (RawRow.status r)) (RawRow.attempts r)
                  (RawRow.err r)
                  (FactRow.classification <$> n) (n ≫= FactRow.entity_key)
                  (n ≫= FactRow.canonical_state) (FactRow.confidence <$> n)
                  (RawRow.received_at r) (FactRow.created_at <$> n)), db)
    end
  end.
Definition GetEvent (id : string) : Eff (option EventView.t) := stmt (sql_get_event id).
End raw.
