(* ===== verification/RawFacts.v ===== *)
(** * What the statements of the ingestion log do

    Lemmas and properties about StoreRaw.v: the choice [Claim] makes, the
    idempotency of [InsertRaw], and the lifecycle updates of a row. *)

From S2P Require Import Prelude GoErrors Model Database Instances StoreRaw.
Local Open Scope Z_scope.

(** No two rows have the same payload hash: the UNIQUE constraint. *)
Definition hash_unique (db : DB) : Prop :=
  ∀ i j ri rj, raw_events db !! i = Some ri → raw_events db !! j = Some rj →
    RawRow.payload_hash ri = RawRow.payload_hash rj → i = j.

Section lookup.
Lemma find_by_hash_Some hash db id :
  find_by_hash hash db = Some id →
  ∃ r, raw_events db !! id = Some r ∧ RawRow.payload_hash r = hash.
Proof.
  unfold find_by_hash. intros Hf.
  destruct (filter _ _) as [|[i r] l] eqn:Hl; [done|]. cbn in Hf. injection Hf as ->.
  exists r. assert ((id, r) ∈ filter (λ p, RawRow.payload_hash (snd p) = hash)
                                (map_to_list (raw_events db))) as Hin.
  { rewrite Hl. set_solver. }
  apply list_elem_of_filter in Hin as [? ?%elem_of_map_to_list]. by split.
Qed.

Lemma find_by_hash_None hash db :
  find_by_hash hash db = None ↔
  ∀ id r, raw_events db !! id = Some r → RawRow.payload_hash r ≠ hash.
Proof.
  unfold find_by_hash. split.
  - intros Hf id r Hr Hh.
    assert ((id, r) ∈ filter (λ p, RawRow.payload_hash (snd p) = hash)
                        (map_to_list (raw_events db))) as Hin.
    { apply list_elem_of_filter. split; [done|]. by apply elem_of_map_to_list. }
    destruct (filter _ _); [set_solver|done].
  - intros Hall. destruct (filter _ _) as [|[i r] l] eqn:Hl; [done|]. exfalso.
    assert ((i, r) ∈ filter (λ p, RawRow.payload_hash (snd p) = hash)
                       (map_to_list (raw_events db))) as Hin.
    { rewrite Hl. set_solver. }
    apply list_elem_of_filter in Hin as [? Hr%elem_of_map_to_list]. by eapply Hall.
Qed.

Lemma find_by_hash_unique hash db id r :
  hash_unique db → raw_events db !! id = Some r → RawRow.payload_hash r = hash →
  find_by_hash hash db = Some id.
Proof.
  intros Hu Hr Hh. destruct (find_by_hash hash db) as [i|] eqn:Hf.
  - apply find_by_hash_Some in Hf as (r' & Hr' & Hh'). f_equal.
    eapply Hu; [done..|congruence].
  - rewrite find_by_hash_None in Hf. by destruct (Hf id r Hr).
Qed.
End lookup.

Section choice.
Context `{Postgres, Oracle}.

Lemma pick_elem n l x : pick n l = Some x → x ∈ l.
Proof. unfold pick. intros. by eapply list_elem_of_lookup_2. Qed.

Lemma pick_None n l : pick n l = None → l = [].
Proof.
  unfold pick. intros Hp%lookup_ge_None. destruct l as [|x l]; [done|].
  pose proof (Nat.mod_upper_bound n (length (x :: l)) ltac:(done)). lia.
Qed.

Lemma oldest_spec l x :
  x ∈ oldest l ↔
  x ∈ l ∧ ∀ q, q ∈ l → RawRow.received_at (snd x) ≤ RawRow.received_at (snd q).
Proof.
  unfold oldest. rewrite list_elem_of_filter, Forall_forall. tauto.
Qed.

(** A non-empty list has an oldest element. *)
Lemma oldest_nil l : oldest l = [] → l = [].
Proof.
  intros Ho. destruct l as [|x l]; [done|]. exfalso.
  assert (∃ m, m ∈ x :: l ∧ ∀ q, q ∈ x :: l →
            RawRow.received_at (snd m) ≤ RawRow.received_at (snd q)) as (m & Hm & Hmin).
  { clear Ho. induction l as [|y l IH].
    - exists x. split; [set_solver|]. intros q [->|[]%not_elem_of_nil]%elem_of_cons. lia.
    - destruct IH as (m & Hm & Hmin).
      destruct (Z.le_ge_cases (RawRow.received_at (snd m)) (RawRow.received_at (snd y))).
      + exists m. split; [set_solver|]. intros q Hq.
        apply elem_of_cons in Hq as [->|[->|Hq]%elem_of_cons];
          [apply Hmin; set_solver|done|apply Hmin; set_solver].
      + exists y. split; [set_solver|]. intros q Hq.
        apply elem_of_cons in Hq as [->|[->|Hq]%elem_of_cons].
        * etrans; [done|]. apply Hmin. set_solver.
        * lia.
        * etrans; [done|]. apply Hmin. set_solver. }
  assert (m ∈ oldest (x :: l)) as Hin by (by apply oldest_spec).
  rewrite Ho in Hin. set_solver.
Qed.

Lemma candidates_spec now lk db id r :
  (id, r) ∈ candidates now lk db ↔
  claimable now r = true ∧ (id ∉ lk) ∧ raw_events db !! id = Some r.
Proof.
  unfold candidates. rewrite list_elem_of_filter, elem_of_map_to_list. cbn. tauto.
Qed.
End choice.

(** ** Properties *)

(** What a claim does: the statement of [claim_leases_oldest], for the other files. *)
Lemma claim_spec `{Postgres, Oracle} lease t db :
  match sql_claim lease t db with
  | Ok (Some ev, db') =>
    ∃ r, raw_events db !! RawEvent.ID ev = Some r ∧
      claimable (clock t) r = true ∧ (RawEvent.ID ev ∉ locked t) ∧
      (∀ id' r', raw_events db !! id' = Some r' → claimable (clock t) r' = true →
         id' ∉ locked t → RawRow.received_at r ≤ RawRow.received_at r') ∧
      RawEvent.Payload ev = RawRow.raw_payload r ∧
      RawEvent.Attempts ev = RawRow.attempts r + 1 ∧
      db' = set_raw (<[RawEvent.ID ev := lease_row (clock t) lease r]> (raw_events db)) db
  | Ok (None, db') =>
    db' = db ∧ ∀ id r, raw_events db !! id = Some r → claimable (clock t) r = true →
                       id ∈ locked t
  | Err _ => ∃ id r, raw_events db !! id = Some r ∧ int4_max ≤ RawRow.attempts r
  end.
Proof.
  unfold sql_claim. destruct (pick _ _) as [[id r]|] eqn:Hp.
  - apply pick_elem, oldest_spec in Hp as [Hc Hmin].
    apply candidates_spec in Hc as (Hcl & Hlk & Hr).
    destruct (Z.ltb_spec int4_max (RawRow.attempts r + 1)); [exists id, r; split; [done|lia]|].
    exists r. split_ands; try done. intros id' r' Hr' Hcl' Hlk'.
    apply (Hmin (id', r')). by apply candidates_spec.
  - apply pick_None, oldest_nil in Hp. split; [done|]. intros id r Hr Hcl.
    destruct (decide (id ∈ locked t)) as [|Hlk]; [done|]. exfalso.
    assert ((id, r) ∈ candidates (clock t) (locked t) db) as Hin by (by apply candidates_spec).
    rewrite Hp in Hin. set_solver.
Qed.

(** C20. What one claim does, in every state of the log: it leases the oldest of the
    rows that are PENDING, or PROCESSING with an expired lease, and not locked by
    another transaction, bumps its attempts and hands out its payload, and leaves
    all other rows alone; it finds nothing only if every claimable row is locked;
    it fails only if the attempt counter is exhausted. *)
Theorem claim_leases_oldest `{Postgres, Oracle} lease t db :
  match sql_claim lease t db with
  | Ok (Some ev, db') =>
    ∃ r, raw_events db !! RawEvent.ID ev = Some r ∧
      claimable (clock t) r = true ∧ (RawEvent.ID ev ∉ locked t) ∧
      (∀ id' r', raw_events db !! id' = Some r' → claimable (clock t) r' = true →
         id' ∉ locked t → RawRow.received_at r ≤ RawRow.received_at r') ∧
      RawEvent.Payload ev = RawRow.raw_payload r ∧
      RawEvent.Attempts ev = RawRow.attempts r + 1 ∧
      db' = set_raw (<[RawEvent.ID ev := lease_row (clock t) lease r]> (raw_events db)) db
  | Ok (None, db') =>
    db' = db ∧ ∀ id r, raw_events db !! id = Some r → claimable (clock t) r = true →
                       id ∈ locked t
  | Err _ => ∃ id r, raw_events db !! id = Some r ∧ int4_max ≤ RawRow.attempts r
  end.
Proof. apply claim_spec. Qed.

Section insert.
Context `{Postgres, Oracle}.

Lemma insert_raw_ok hash payload source t db r db' :
  sql_insert_raw hash payload source t db = Ok (r, db') →
  (r = None ∧ db' = db ∧ is_Some (find_by_hash hash db)) ∨
  (∃ json, r = Some (gen_random_uuid t) ∧ pg_jsonb payload = Some json ∧
     find_by_hash hash db = None ∧ raw_events db !! gen_random_uuid t = None ∧
     db' = set_raw (<[gen_random_uuid t :=
             RawRow.mk hash json (NULLIF_empty source) StatusPending 0 None None (clock t)]>
             (raw_events db)) db).
Proof.
  unfold sql_insert_raw. destruct (negb _); [done|].
  destruct (pg_jsonb payload) as [json|]; [|done].
  destruct (find_by_hash hash db) eqn:Hf; [intros [= <- <-]; left; eauto|].
  destruct (raw_events db !! _) eqn:Hr; [done|]. intros [= <- <-]. right. by exists json.
Qed.

Lemma insert_raw_unique hash payload source t db r db' :
  hash_unique db → sql_insert_raw hash payload source t db = Ok (r, db') → hash_unique db'.
Proof.
  intros Hu [(_ & -> & _)|(json & _ & _ & Hf & Hn & ->)]%insert_raw_ok; [done|].
  rewrite find_by_hash_None in Hf. intros i j ri rj. cbn.
  rewrite !lookup_insert_Some.
  intros [[<- <-]|[? Hi]] [[<- <-]|[? Hj]]; cbn; intros Heq; try done.
  - by destruct (Hf _ _ Hj).
  - by destruct (Hf _ _ Hi).
  - by eapply Hu.
Qed.

(** The row a hash leads to after an insertion was reported. *)
Lemma InsertRaw_finds hash payload source w id isNew w' :
  hash_unique (w_db w) → InsertRaw hash payload source w = (Ok (id, isNew), w') →
  hash_unique (w_db w') ∧ find_by_hash hash (w_db w') = Some id ∧
  (isNew = true → find_by_hash hash (w_db w) = None) ∧
  (isNew = false → w_db w' = w_db w).
Proof.
  intros Hu. unfold InsertRaw. rewrite attempt_bind. unfold stmt at 1.
  destruct (fault (w_ticks w)) as [|e|e].
  - destruct (sql_insert_raw _ _ _ _ _) as [[r db']|e] eqn:Hi; [|by destruct (is_panic e)].
    pose proof (insert_raw_unique _ _ _ _ _ _ _ Hu Hi) as Hu'.
    apply insert_raw_ok in Hi as [(-> & -> & _)|(json & -> & _ & Hf & Hn & ->)].
    + rewrite bind_run. unfold stmt, sql_raw_id. cbn.
      destruct (fault _); [|done|by destruct (negb _), (find_by_hash _ _)].
      destruct (negb _); [done|]. destruct (find_by_hash hash (w_db w)) eqn:Hf; [|done].
      cbn. intros [= <- <- <-]. by cbn.
    + cbn. intros [= <- <- <-]. cbn in *. split_ands; try done.
      eapply find_by_hash_unique; [done|by apply lookup_insert_eq|done].
  - by destruct (is_panic e).
  - destruct (sql_insert_raw _ _ _ _ _) as [[r db']|e']; by destruct (is_panic _).
Qed.
End insert.

(** Sending a hash that is in the log. *)
Lemma InsertRaw_dup `{Postgres, Oracle} hash payload source w id :
  find_by_hash hash (w_db w) = Some id →
  w_db (snd (InsertRaw hash payload source w)) = w_db w ∧
  match fst (InsertRaw hash payload source w) with
  | Ok r => r = (id, false)
  | Err _ => True
  end.
Proof.
  intros Hf.
  assert (∀ t r db', sql_insert_raw hash payload source t (w_db w) = Ok (r, db') →
            r = None ∧ db' = w_db w) as Hdup.
  { intros t r db' [(? & ? & _)|(? & _ & _ & Hn & _)]%insert_raw_ok; [done|]. congruence. }
  unfold InsertRaw. rewrite attempt_bind. unfold stmt at 1 3.
  destruct (fault (w_ticks w)) as [|e|e].
  - destruct (sql_insert_raw _ _ _ _ _) as [[r db']|e] eqn:Hi; [|by destruct (is_panic e)].
    destruct (Hdup _ _ _ Hi) as [-> ->]. rewrite bind_run.
    unfold stmt, sql_raw_id. cbn. rewrite Hf.
    destruct (fault _); cbn; [by destruct (negb _)|done|by destruct (negb _)].
  - by destruct (is_panic e).
  - destruct (sql_insert_raw _ _ _ _ _) as [[r db']|e'] eqn:Hi; [|by destruct (is_panic e')].
    destruct (Hdup _ _ _ Hi) as [-> ->]. by destruct (is_panic e).
Qed.

(** Ingestion is idempotent: after a reported insertion, the same payload hash
    sent again, with any body and any source and under any later failures, is
    either reported as an error or acknowledged as a duplicate with the same id,
    and in both cases the tables are unchanged. *)
Theorem InsertRaw_idempotent `{Postgres, Oracle} hash p1 p2 s1 s2 w id isNew w1 :
  hash_unique (w_db w) → InsertRaw hash p1 s1 w = (Ok (id, isNew), w1) →
  w_db (snd (InsertRaw hash p2 s2 w1)) = w_db w1 ∧
  match fst (InsertRaw hash p2 s2 w1) with
  | Ok r => r = (id, false)
  | Err _ => True
  end.
Proof.
  intros Hu Hins. destruct (InsertRaw_finds _ _ _ _ _ _ _ Hu Hins) as (_ & Hf & _).
  by apply InsertRaw_dup.
Qed.

Section examples.
Local Existing Instances sample_postgres calm.

Definition first_insert : World := snd (InsertRaw "h1" "{}" "acme" boot).

Lemma InsertRaw_idempotent_witness :
  w_db (snd (InsertRaw "h1" "[]" "" first_insert)) = w_db first_insert ∧
  match fst (InsertRaw "h1" "[]" "" first_insert) with
  | Ok r => r = ("id-0", false)
  | Err _ => True
  end.
Proof.
  apply (InsertRaw_idempotent "h1" "{}" "[]" "acme" "" boot "id-0" true first_insert).
  - intros i j ri rj Hi. by vm_compute in Hi.
  - vm_compute. reflexivity.
Defined.
End examples.
