(* ===== verification/StoreFacts.v ===== *)
(** * Facts and projections (internal/store/normalized.go and entity.go)

    The insertion of an immutable fact, and the two ways an entity's current
    state is advanced: one conditional UPSERT for shipments, a transaction with a
    row lock and a transition table for invoices. *)

From S2P Require Import Prelude GoErrors Model Database.
Local Open Scope Z_scope.

Section facts.
Context `{Postgres, Oracle}.

(** NULLIF($n,'') into a column of type CHAR(3) *)
Definition char3_param (s : string) : result error (option string) :=
  match NULLIF_empty s with
  | None => Ok None
  | Some c => match pg_char3 c with
              | Some c' => Ok (Some c')
              | None => Err (pg_error ValueTooLong)
              end
  end.

Definition fact_row (n : Normalized.t) (currency : option string)
    (llmModel promptVersion : string) (now : Time) : FactRow.t :=
  FactRow.mk (Normalized.Classification n)
    (NULLIF_empty (Normalized.EntityKey n)) (NULLIF_empty (Normalized.CanonicalState n))
    (pg_timestamptz <$> Normalized.EventTime n) (Normalized.AmountMinor n) currency
    (NULLIF_empty (Normalized.VendorStateText n)) (pg_real (Normalized.Confidence n))
    llmModel promptVersion now.

(** The string parameters of the statement. *)
Definition fact_texts (n : Normalized.t) (llmModel promptVersion : string) : list string :=
  [Normalized.Classification n; Normalized.EntityKey n; Normalized.CanonicalState n;
   Normalized.Currency n; Normalized.VendorStateText n; llmModel; promptVersion].

(** INSERT INTO normalized_events ... ON CONFLICT (raw_event_id) DO NOTHING *)
Definition sql_insert_normalized (rawID : string) (n : Normalized.t)
    (llmModel promptVersion : string) : Statement unit := λ t db,
  match pg_uuid rawID with
  | None => Err (pg_error InvalidUuid)
  | Some u =>
    if negb (forallb pg_text (fact_texts n llmModel promptVersion))
    then Err (pg_error InvalidText) else
    currency ← char3_param (Normalized.Currency n);
    if negb (classification_check (Normalized.Classification n))
    then Err (pg_error CheckViolation) else
    match normalized_events db !! u with
    | Some _ => Ok ((), db)
    | None =>
      match raw_events db !! u with
      | None => Err (pg_error ForeignKeyViolation)
      | Some _ =>
        Ok ((), set_facts (<[u := fact_row n currency llmModel promptVersion (clock t)]>
                             (normalized_events db)) db)
      end
    end
  end.

Definition InsertNormalized (rawID : string) (n : Normalized.t)
    (llmModel promptVersion : string) : Eff unit :=
  stmt (sql_insert_normalized rawID n llmModel promptVersion).

(** The row a new shipment gets. *)
Definition new_shipment (state : string) (rank : Z) (eventTime : option Time)
    (now : Time) : EntityRow.t :=
  EntityRow.mk ClassShipment state rank eventTime None None now now.

(** SET current_state = EXCLUDED.current_state, ...: the type, the amount and the
    currency of the existing row stay. *)
Definition advance_shipment (state : string) (rank : Z) (eventTime : option Time)
    (now : Time) (e : EntityRow.t) : EntityRow.t :=
  EntityRow.mk (EntityRow.type_ e) state rank eventTime (EntityRow.amount_minor e)
    (EntityRow.currency e) (EntityRow.created_at e) now.

(** INSERT INTO entities ... ON CONFLICT (entity_key) DO UPDATE SET ...
    WHERE entities.current_rank < EXCLUDED.current_rank, on the row of the key *)
Definition shipment_upsert (state : string) (rank : Z) (eventTime : option Time)
    (now : Time) (row : option EntityRow.t) : EntityRow.t :=
  match row with
  | None => new_shipment state rank eventTime now
  | Some e => if EntityRow.current_rank e <? rank
              then advance_shipment state rank eventTime now e else e
  end.

Definition sql_apply_shipment (key state : string) (rank : Z)
    (eventTime : option Time) : Statement unit := λ t db,
  if negb (pg_text key && pg_text state) then Err (pg_error InvalidText)
  else if (int4_max <? rank) || (rank <? - int4_max - 1) then Err (pg_error IntegerOutOfRange)
  else Ok ((), set_entities
                 (<[key := shipment_upsert state rank (pg_timestamptz <$> eventTime)
                             (clock t) (entities db !! key)]> (entities db)) db).

Definition ApplyShipment (key state : string) (rank : Z) (eventTime : option Time)
    : Eff unit := stmt (sql_apply_shipment key state rank eventTime).

(** SELECT current_state FROM entities WHERE entity_key=$1 FOR UPDATE *)
Definition sql_lock_entity (key : string) : Statement (option string) := λ t db,
  if negb (pg_text key) then Err (pg_error InvalidText)
  else Ok (EntityRow.current_state <$> entities db !! key, db).

(** INSERT INTO entities ... VALUES ($1, 'INVOICE', $2, 0, ...) *)
Definition sql_insert_invoice (key state : string) (eventTime : option Time)
    (amountMinor : option Z) (currency : string) : Statement unit := λ t db,
  if negb (pg_text key && pg_text state && pg_text currency)
  then Err (pg_error InvalidText) else
  cur ← char3_param currency;
  match entities db !! key with
  | Some _ => Err (pg_error UniqueViolation)
  | None =>
    Ok ((), set_entities
              (<[key := EntityRow.mk ClassInvoice state 0 (pg_timestamptz <$> eventTime)
                          amountMinor cur (clock t) (clock t)]> (entities db)) db)
  end.

(** SET current_state = $2, ..., amount_minor = COALESCE($4, amount_minor), ... *)
Definition advance_invoice (state : string) (eventTime : option Time)
    (amountMinor : option Z) (cur : option string) (now : Time) (e : EntityRow.t)
    : EntityRow.t :=
  EntityRow.mk (EntityRow.type_ e) state (EntityRow.current_rank e) eventTime
    (COALESCE amountMinor (EntityRow.amount_minor e)) (COALESCE cur (EntityRow.currency e))
    (EntityRow.created_at e) now.

(** UPDATE entities SET ... WHERE entity_key = $1 *)
Definition sql_update_invoice (key state : string) (eventTime : option Time)
    (amountMinor : option Z) (currency : string) : Statement unit := λ t db,
  if negb (pg_text key && pg_text state && pg_text currency)
  then Err (pg_error InvalidText) else
  cur ← char3_param currency;
  Ok ((), set_entities
            (alter (advance_invoice state (pg_timestamptz <$> eventTime) amountMinor cur
                      (clock t)) key (entities db)) db).

Definition ApplyInvoice (key state : string) (eventTime : option Time)
    (amountMinor : option Z) (currency : string) : Eff unit :=
  tx_begin;;
  deferred tx_rollback (
    current ← tx_stmt (sql_lock_entity key);
    match current with
    | None =>
      tx_stmt (sql_insert_invoice key state eventTime amountMinor currency);;
      tx_commit
    | Some current =>
      if negb (InvoiceTransitionAllowed current state)
      then tx_commit    (* illegal or out of order: keep the projection *)
      else tx_stmt (sql_update_invoice key state eventTime amountMinor currency);;
           tx_commit
    end).

Definition entity_view (key : string) (e : EntityRow.t) : Entity.t :=
  Entity.mk key (EntityRow.type_ e) (EntityRow.current_state e)
    (EntityRow.current_rank e) (EntityRow.last_event_time e)
    (EntityRow.amount_minor e) (EntityRow.currency e) (EntityRow.updated_at e).

(** SELECT ... FROM entities WHERE entity_key=$1 *)
Definition sql_get_entity (key : string) : Statement (option Entity.t) := λ t db,
  if negb (pg_text key) then Err (pg_error InvalidText)
  else Ok (entity_view key <$> entities db !! key, db).
Definition GetEntity (key : string) : Eff (option Entity.t) := stmt (sql_get_entity key).
End facts.

(** ** The invoice transaction as one step *)

Section invoice_spec.
Context `{Postgres, Oracle}.

(** What the transaction does to the row of the key. *)
Definition invoice_upsert (state : string) (eventTime : option Time)
    (amountMinor : option Z) (cur : option string) (now : Time)
    (row : option EntityRow.t) : EntityRow.t :=
  match row with
  | None => EntityRow.mk ClassInvoice state 0 eventTime amountMinor cur now now
  | Some e =>
    if InvoiceTransitionAllowed (EntityRow.current_state e) state
    then advance_invoice state eventTime amountMinor cur now e else e
  end.

(** The whole transaction as a single statement: this is the specification
    [ApplyInvoice] implements. *)
Definition sql_apply_invoice (key state : string) (eventTime : option Time)
    (amountMinor : option Z) (currency : string) : Statement unit := λ t db,
  match entities db !! key with
  | None => sql_insert_invoice key state eventTime amountMinor currency t db
  | Some e =>
    if InvoiceTransitionAllowed (EntityRow.current_state e) state
    then sql_update_invoice key state eventTime amountMinor currency t db
    else Ok ((), db)
  end.

(** Where it succeeds, it replaces the row by its [invoice_upsert]. *)
Lemma sql_apply_invoice_ok key state et amt cur t db r db' :
  sql_apply_invoice key state et amt cur t db = Ok (r, db') →
  db' = db ∨ ∃ c, char3_param cur = Ok c ∧
    db' = set_entities (<[key := invoice_upsert state (pg_timestamptz <$> et) amt c
                                   (clock t) (entities db !! key)]> (entities db)) db.
Proof.
  unfold sql_apply_invoice, sql_insert_invoice, sql_update_invoice, invoice_upsert.
  destruct (entities db !! key) as [e|] eqn:He.
  - destruct (InvoiceTransitionAllowed _ _); [|intros [= _ <-]; by left].
    destruct (negb _); [done|]. destruct (char3_param cur) as [c|]; [|done].
    intros [= _ <-]. right. exists c. split; [done|]. f_equal.
    apply map_eq. intros k. destruct (decide (k = key)) as [->|Hk].
    + by rewrite lookup_alter_eq, lookup_insert_eq, He.
    + by rewrite lookup_alter_ne, lookup_insert_ne by done.
  - destruct (negb _); [done|]. destruct (char3_param cur) as [c|]; [|done].
    cbn. intros [= _ <-]. right. by exists c.
Qed.

(** Where it succeeds, the row is in the new state, or in one from which the table
    does not lead there. *)
Lemma sql_apply_invoice_state key state et amt cur t db r db' :
  sql_apply_invoice key state et amt cur t db = Ok (r, db') →
  ∃ e, entities db' !! key = Some e ∧
    (EntityRow.current_state e = state ∨
     InvoiceTransitionAllowed (EntityRow.current_state e) state = false).
Proof.
  unfold sql_apply_invoice, sql_insert_invoice, sql_update_invoice.
  destruct (entities db !! key) as [e|] eqn:He.
  - destruct (InvoiceTransitionAllowed _ _) eqn:Ha.
    + destruct (negb _); [done|]. destruct (char3_param cur) as [c|]; [|done].
      cbn. intros [= _ <-]. cbn. rewrite lookup_alter_eq, He. eexists. split; [done|]. by left.
    + intros [= _ <-]. exists e. split; [done|]. by right.
  - destruct (negb _); [done|]. destruct (char3_param cur) as [c|]; [|done].
    cbn. intros [= _ <-]. cbn. rewrite lookup_insert_eq. eexists. split; [done|]. by left.
Qed.

(** What state the row is in afterwards, from the one it was in. *)
Lemma sql_apply_invoice_next key state et amt cur t db r db' :
  sql_apply_invoice key state et amt cur t db = Ok (r, db') →
  ∃ e, entities db' !! key = Some e ∧
    EntityRow.current_state e =
      match entities db !! key with
      | Some e0 => if InvoiceTransitionAllowed (EntityRow.current_state e0) state
                   then state else EntityRow.current_state e0
      | None => state
      end.
Proof.
  unfold sql_apply_invoice, sql_insert_invoice, sql_update_invoice.
  destruct (entities db !! key) as [e|] eqn:He;
    [destruct (InvoiceTransitionAllowed _ _); [|intros [= _ <-]; by exists e]|];
    (destruct (negb _); [done|]; destruct (char3_param cur) as [c|]; [|done];
     cbn; intros [= _ <-]; cbn; rewrite ?lookup_alter_eq, ?He, ?lookup_insert_eq; by eexists).
Qed.

(** Under every pattern of faults, the transaction either did nothing or did
    the single step, and it is never left open. *)
Lemma ApplyInvoice_ran key state et amt cur w :
  ran (sql_apply_invoice key state et amt cur) (w_db w)
    (fst (ApplyInvoice key state et amt cur w))
    (w_db (snd (ApplyInvoice key state et amt cur w))) ∧
  (w_tx w = None → w_tx (snd (ApplyInvoice key state et amt cur w)) = None).
Proof.
  unfold ApplyInvoice, tx_begin, mbind, eff_bind.
  destruct (fault (w_ticks w)) eqn:F0; cbn; try (split; [constructor|done]).
  unfold deferred, tx_stmt. cbn. destruct (fault (S (w_ticks w))) eqn:F1; cbn;
    try (split; [constructor|done]).
  unfold sql_lock_entity. destruct (negb (pg_text key)); cbn; [split; [constructor|done]|].
  destruct (entities (w_db w) !! key) as [e|] eqn:He; cbn.
  - destruct (negb _) eqn:Ha; cbn.
    + apply negb_true_iff in Ha. unfold tx_commit; cbn.
      assert (sql_apply_invoice key state et amt cur 0%nat (w_db w) = Ok ((), w_db w)).
      { unfold sql_apply_invoice. by rewrite He, Ha. }
      destruct (fault (S (S (w_ticks w)))); cbn; (split; [by econstructor|done]).
    + apply negb_false_iff in Ha.
      destruct (fault (S (S (w_ticks w)))) eqn:F2; cbn; try (split; [constructor|done]).
      destruct (sql_update_invoice _ _ _ _ _ _ _) as [[[] db']|] eqn:Hu; cbn;
        [|split; [constructor|done]].
      assert (sql_apply_invoice key state et amt cur (w_ticks w) (w_db w)
              = Ok ((), db')).
      { unfold sql_apply_invoice. by rewrite He, Ha. }
      unfold tx_commit; cbn.
      destruct (fault (S (S (S (w_ticks w))))); cbn; (split; [by econstructor|done]).
  - destruct (fault (S (S (w_ticks w)))) eqn:F2; cbn; try (split; [constructor|done]).
    destruct (sql_insert_invoice _ _ _ _ _ _ _) as [[[] db']|] eqn:Hu; cbn;
      [|split; [constructor|done]].
    assert (sql_apply_invoice key state et amt cur (w_ticks w) (w_db w)
            = Ok ((), db')).
    { unfold sql_apply_invoice. by rewrite He. }
    unfold tx_commit; cbn.
    destruct (fault (S (S (S (w_ticks w))))); cbn; (split; [by econstructor|done]).
Qed.
(** On texts and a currency the columns take, it always succeeds. *)
Lemma apply_invoice_succeeds key state et amt cur c t db :
  pg_text key = true → pg_text state = true → pg_text cur = true → char3_param cur = Ok c →
  sql_apply_invoice key state et amt cur t db
  = Ok ((), set_entities (<[key := invoice_upsert state (pg_timestamptz <$> et) amt c
                                     (clock t) (entities db !! key)]> (entities db)) db).
Proof.
  intros H1 H2 H3 Hc. unfold sql_apply_invoice, sql_insert_invoice, sql_update_invoice, invoice_upsert.
  rewrite H1, H2, H3, Hc. cbn. destruct (entities db !! key) as [e|] eqn:He; [|done].
  destruct (InvoiceTransitionAllowed _ _).
  - do 3 f_equal. by apply alter_alt_Some.
  - rewrite insert_id by done. by destruct db.
Qed.

Lemma ApplyInvoice_healthy (no_fault : ∀ t, fault t = NoFault) key state et amt cur w db' :
  pg_text key = true →
  sql_apply_invoice key state et amt cur (w_ticks w) (w_db w) = Ok ((), db') →
  ∃ w', ApplyInvoice key state et amt cur w = (Ok (), w') ∧ w_db w' = db'.
Proof.
  intros Hk Hs. unfold ApplyInvoice, tx_begin, mbind, eff_bind. rewrite no_fault.
  unfold deferred, tx_stmt. cbn. rewrite no_fault. unfold sql_lock_entity. rewrite Hk. cbn.
  unfold sql_apply_invoice in Hs. destruct (entities (w_db w) !! key) as [e|] eqn:He; cbn.
  - destruct (InvoiceTransitionAllowed _ _); cbn.
    + rewrite no_fault, Hs. unfold tx_commit. cbn. rewrite no_fault. cbn. by eexists.
    + unfold tx_commit. cbn. rewrite no_fault. cbn. injection Hs as <-. by eexists.
  - rewrite no_fault, Hs. unfold tx_commit. cbn. rewrite no_fault. cbn. by eexists.
Qed.
End invoice_spec.
