(* ===== verification/Projection.v ===== *)
(** * The current-state projection, one entity at a time

    The two write paths of internal/store/entity.go over whole sequences of events. A
    shipment row, under [shipment_upsert] of StoreFacts.v, converges to the state of
    highest rank in every order; an invoice row, under runs of [ApplyInvoice] itself,
    follows the transition table; and the places where order or key reuse does
    matter are exhibited. *)

From S2P Require Import Prelude GoErrors Model Database Instances StoreFacts.
Local Open Scope Z_scope.

(** An observed event of an entity: the state, the vendor's time, and the time it
    is applied. *)
Record event : Type := Event { ev_state : string; ev_time : option Time; ev_now : Time }.

Definition apply_shipment (row : option EntityRow.t) (ev : event) : option EntityRow.t :=
  Some (shipment_upsert (ev_state ev) (ShipmentRank (ev_state ev)) (ev_time ev)
          (ev_now ev) row).
Definition apply_shipments (row : option EntityRow.t) (l : list event) : option EntityRow.t :=
  foldl apply_shipment row l.

(** What convergence is about: the state and its rank. *)
Definition view (row : option EntityRow.t) : option (string * Z) :=
  (λ e, (EntityRow.current_state e, EntityRow.current_rank e)) <$> row.

(** The rank column agrees with the state column. *)
Definition ranked (e : EntityRow.t) : Prop :=
  IsShipmentState (EntityRow.current_state e) = true ∧
  EntityRow.current_rank e = ShipmentRank (EntityRow.current_state e).

Definition row_rank (row : option EntityRow.t) : Z :=
  match row with Some e => EntityRow.current_rank e | None => 0 end.
Definition best_rank (l : list event) : Z :=
  foldr (λ ev acc, Z.max (ShipmentRank (ev_state ev)) acc) 0 l.

Lemma ranked_view e1 e2 :
  ranked e1 → ranked e2 → EntityRow.current_rank e1 = EntityRow.current_rank e2 →
  view (Some e1) = view (Some e2).
Proof.
  intros [Hs1 Hr1] [Hs2 Hr2] Heq. cbn. rewrite Heq. do 2 f_equal.
  apply ShipmentRank_inj; congruence.
Qed.

Lemma apply_shipment_ranked row ev :
  (∀ e, row = Some e → ranked e) → IsShipmentState (ev_state ev) = true →
  ∃ e, apply_shipment row ev = Some e ∧ ranked e ∧
       EntityRow.current_rank e = Z.max (row_rank row) (ShipmentRank (ev_state ev)).
Proof.
  intros Hrow Hev. eexists. split; [done|]. pose proof (ShipmentRank_range (ev_state ev)).
  unfold shipment_upsert. destruct row as [e|]; cbn.
  - destruct (Hrow e eq_refl) as [Hs Hr].
    destruct (Z.ltb_spec (EntityRow.current_rank e) (ShipmentRank (ev_state ev))); cbn.
    + split; [by split|lia].
    + split; [by split|lia].
  - split; [by split|lia].
Qed.

Lemma apply_shipments_max row l :
  (∀ e, row = Some e → ranked e) → Forall (λ ev, IsShipmentState (ev_state ev) = true) l →
  (l = [] ∧ apply_shipments row l = row) ∨
  (l ≠ [] ∧ ∃ e, apply_shipments row l = Some e ∧ ranked e ∧
        EntityRow.current_rank e = Z.max (row_rank row) (best_rank l)).
Proof.
  revert row. induction l as [|ev l IH]; intros row Hrow Hl; [by left|right; split; [done|]].
  apply Forall_cons in Hl as [Hev Hl].
  destruct (apply_shipment_ranked row ev Hrow Hev) as (e & He & Hranked & Hmax).
  cbn [apply_shipments foldl]. fold (apply_shipments (apply_shipment row ev) l).
  destruct (IH (apply_shipment row ev)) as [[-> Hnil]|(_ & e' & He' & Hr' & Hm')].
  - intros e'. rewrite He. by intros [= <-].
  - done.
  - exists e. rewrite Hnil. split; [done|]. split; [done|]. unfold best_rank; cbn [foldr].
    pose proof (ShipmentRank_range (ev_state ev)). lia.
  - exists e'. split; [done|]. split; [done|]. rewrite Hm', He.
    cbn [row_rank]. unfold best_rank; cbn [foldr]. lia.
Qed.

Lemma best_rank_perm l1 l2 : l1 ≡ₚ l2 → best_rank l1 = best_rank l2.
Proof. induction 1; unfold best_rank in *; cbn [foldr] in *; lia. Qed.

(** ** Properties *)

(** Convergence: whatever order the shipment events of an entity are applied in,
    and at whatever times, its state and rank end up the same. *)
Theorem shipment_converges row l1 l2 :
  (∀ e, row = Some e → ranked e) →
  Forall (λ ev, IsShipmentState (ev_state ev) = true) l1 → l1 ≡ₚ l2 →
  view (apply_shipments row l1) = view (apply_shipments row l2).
Proof.
  intros Hrow Hl1 Hp. assert (Forall (λ ev, IsShipmentState (ev_state ev) = true) l2) as Hl2
    by (by rewrite <-Hp).
  destruct (apply_shipments_max row l1 Hrow Hl1) as [[-> _]|(Hn1 & e1 & -> & Hr1 & Hm1)].
  { by apply Permutation_nil in Hp as ->. }
  destruct (apply_shipments_max row l2 Hrow Hl2) as [[-> _]|(_ & e2 & -> & Hr2 & Hm2)].
  { symmetry in Hp. by apply Permutation_nil in Hp. }
  apply ranked_view; [done..|]. by rewrite Hm1, Hm2, (best_rank_perm _ _ Hp).
Qed.

(** The state it ends up in is the one of highest rank among the row's state
    and the events: a late event of a lower rank never regresses it. *)
Theorem shipment_reaches_max l e :
  Forall (λ ev, IsShipmentState (ev_state ev) = true) l →
  apply_shipments None l = Some e →
  IsShipmentState (EntityRow.current_state e) = true ∧
  (∃ ev, ev ∈ l ∧ ev_state ev = EntityRow.current_state e) ∧
  (∀ ev, ev ∈ l → ShipmentRank (ev_state ev) ≤ ShipmentRank (EntityRow.current_state e)).
Proof.
  intros Hl He.
  destruct (apply_shipments_max None l) as [[-> _]|(_ & e' & He' & [Hs Hr] & Hm)]; [done..|].
  rewrite He in He'. injection He' as <-. cbn in Hm. split; [done|].
  assert (∀ ev, ev ∈ l → ShipmentRank (ev_state ev) ≤ best_rank l) as Hub.
  { clear. induction l as [|x l IH]; [set_solver|].
    unfold best_rank in *. intros ev [->|Hin]%elem_of_cons; cbn [foldr]; [lia|].
    specialize (IH ev Hin). lia. }
  assert (0 < best_rank l → ∃ ev, ev ∈ l ∧ ShipmentRank (ev_state ev) = best_rank l) as Hex.
  { clear. unfold best_rank. induction l as [|x l IH]; cbn [foldr]; [lia|]. intros Hpos.
    destruct (Z.max_spec (ShipmentRank (ev_state x)) (foldr (λ ev acc, Z.max (ShipmentRank (ev_state ev)) acc) 0 l)) as [[? ->]|[? ->]].
    - destruct IH as (ev & ? & ?); [lia|]. exists ev. set_solver.
    - exists x. set_solver. }
  apply ShipmentRank_known in Hs as Hs1. split.
  - destruct Hex as (ev & Hin & Hev); [lia|]. exists ev. split; [done|].
    rewrite Forall_forall in Hl. apply ShipmentRank_inj; [by apply Hl|done|lia].
  - intros ev Hin. specialize (Hub ev Hin). lia.
Qed.

(** ** The invoice transaction, call after call *)

(** What the gate makes of an invoice event. *)
Record invoice_event : Type := InvoiceEvent {
  iv_state : string; iv_time : option Time; iv_amount : option Z; iv_currency : string
}.

(** The table of the lifecycle, and the state and event time it leads to. *)
Definition invoice_table : list (string * string) :=
  [("ISSUED", "PAID"); ("ISSUED", "VOIDED"); ("PAID", "REFUNDED")].
Definition follow `{Postgres} (s : string * option Time) (ev : invoice_event)
    : string * option Time :=
  if bool_decide ((fst s, iv_state ev) ∈ invoice_table)
  then (iv_state ev, pg_timestamptz <$> iv_time ev) else s.

Section invoices.
Context {P : Postgres} {O : Oracle}.

Fixpoint ApplyInvoices (key : string) (l : list invoice_event) : Eff unit :=
  match l with
  | [] => mret ()
  | ev :: l' =>
    ApplyInvoice key (iv_state ev) (iv_time ev) (iv_amount ev) (iv_currency ev);;
    ApplyInvoices key l'
  end.

(** Texts and a currency the columns take. *)
Definition iv_storable (ev : invoice_event) : Prop :=
  pg_text (iv_state ev) = true ∧ pg_text (iv_currency ev) = true ∧
  is_ok (char3_param (iv_currency ev)) = true.

Definition invoice_view (e : EntityRow.t) : string * option Time :=
  (EntityRow.current_state e, EntityRow.last_event_time e).
Definition other_rows (key : string) (m m' : gmap string EntityRow.t) : Prop :=
  ∀ k, k ≠ key → m' !! k = m !! k.

Lemma table_transition from to :
  bool_decide ((from, to) ∈ invoice_table) = InvoiceTransitionAllowed from to.
Proof.
  apply eq_true_iff_eq. rewrite bool_decide_eq_true, InvoiceTransitionAllowed_cases.
  unfold invoice_table. rewrite !elem_of_cons, elem_of_nil. naive_solver.
Qed.

Context (no_fault : ∀ t, fault t = NoFault).

Lemma ApplyInvoice_row key ev w :
  pg_text key = true → iv_storable ev →
  ∃ w' c, ApplyInvoice key (iv_state ev) (iv_time ev) (iv_amount ev) (iv_currency ev) w = (Ok (), w') ∧
    w_db w' = set_entities (<[key := invoice_upsert (iv_state ev) (pg_timestamptz <$> iv_time ev)
      (iv_amount ev) c (clock (w_ticks w)) (entities (w_db w) !! key)]> (entities (w_db w))) (w_db w).
Proof using no_fault.
  intros Hk (Hs & Hc & Hc3). destruct (char3_param _) as [c|] eqn:Hchar; [|done].
  destruct (ApplyInvoice_healthy no_fault key (iv_state ev) (iv_time ev) (iv_amount ev)
    (iv_currency ev) w _ Hk (apply_invoice_succeeds _ _ _ _ _ _ _ _ Hk Hs Hc Hchar)) as (w' & ? & ?).
  by exists w', c.
Qed.

(** From a row of the key on. *)
Lemma ApplyInvoices_row key l w e :
  pg_text key = true → Forall iv_storable l → entities (w_db w) !! key = Some e →
  ∃ w' e', ApplyInvoices key l w = (Ok (), w') ∧ entities (w_db w') !! key = Some e' ∧
    EntityRow.type_ e' = EntityRow.type_ e ∧
    invoice_view e' = foldl follow (invoice_view e) l ∧
    other_rows key (entities (w_db w)) (entities (w_db w')) ∧
    (EntityRow.current_state e = StateVoided ∨ EntityRow.current_state e = StateRefunded → e' = e).
Proof using no_fault.
  intros Hk Hl. revert w e. induction Hl as [|ev l Hev Hl IH]; intros w e He.
  { exists w, e. by split_ands. }
  destruct (ApplyInvoice_row key ev w Hk Hev) as (w1 & c & Hrun & Hdb). rewrite He in Hdb.
  destruct (IH w1 (invoice_upsert (iv_state ev) (pg_timestamptz <$> iv_time ev) (iv_amount ev) c
    (clock (w_ticks w)) (Some e))) as (w2 & e2 & Hrun2 & He2 & Ht & Hv & Ho & Hterm).
  { rewrite Hdb. cbn. apply lookup_insert_eq. }
  exists w2, e2. cbn [ApplyInvoices foldl]. rewrite bind_run, Hrun. split; [done|]. split; [done|].
  assert (invoice_view (invoice_upsert (iv_state ev) (pg_timestamptz <$> iv_time ev) (iv_amount ev) c
    (clock (w_ticks w)) (Some e)) = follow (invoice_view e) ev) as Hview.
  { unfold follow. cbn [fst invoice_view]. rewrite table_transition. cbn.
    by destruct (InvoiceTransitionAllowed _ _). }
  rewrite Hview in Hv. split; [|split; [done|split]].
  - rewrite Ht. cbn. by destruct (InvoiceTransitionAllowed _ _).
  - intros k Hne. rewrite (Ho k Hne), Hdb. cbn. by rewrite lookup_insert_ne.
  - intros Hend. cbn in Hterm. destruct (InvoiceTransitionAllowed _ _) eqn:Ha; [|by apply Hterm].
    apply InvoiceTransitionAllowed_cases in Ha. exfalso.
    destruct Hend as [Hend|Hend]; rewrite Hend in Ha; by break_cases.
Qed.
End invoices.

(** C27. The invoice row follows the lifecycle: run [ApplyInvoice] for any events of a
    key without a row, one after the other, with states and currencies the database
    stores and no statement failing. Every call succeeds; the row is an invoice seeded
    with the first state and its time; each later event moves it to its own state and
    time when ISSUED leads to PAID or VOIDED, or PAID to REFUNDED, and otherwise leaves
    both; from the moment the row is VOIDED or REFUNDED, no later event changes any
    column of it; and no other key is touched. *)
Theorem invoice_follows_table {P : Postgres} {O : Oracle} key ev l1 l2 w :
  (∀ t, fault t = NoFault) → pg_text key = true → Forall iv_storable (ev :: l1 ++ l2) →
  entities (w_db w) !! key = None →
  let first := (iv_state ev, pg_timestamptz <$> iv_time ev) in
  ∃ w1 e1 w2 e2,
    ApplyInvoices key (ev :: l1) w = (Ok (), w1) ∧ ApplyInvoices key l2 w1 = (Ok (), w2) ∧
    entities (w_db w1) !! key = Some e1 ∧ entities (w_db w2) !! key = Some e2 ∧
    EntityRow.type_ e1 = ClassInvoice ∧
    (EntityRow.current_state e1, EntityRow.last_event_time e1) = foldl follow first l1 ∧
    (EntityRow.current_state e2, EntityRow.last_event_time e2) = foldl follow first (l1 ++ l2) ∧
    (EntityRow.current_state e1 = StateVoided ∨ EntityRow.current_state e1 = StateRefunded →
     e2 = e1) ∧
    other_rows key (entities (w_db w)) (entities (w_db w2)).
Proof.
  intros Hnf Hk [Hev [Hl1 Hl2]%Forall_app]%Forall_cons He first.
  destruct (ApplyInvoice_row Hnf key ev w Hk Hev) as (w0 & c & Hrun & Hdb). rewrite He in Hdb.
  cbn [invoice_upsert] in Hdb. set (e0 := EntityRow.mk _ _ _ _ _ _ _ _) in Hdb.
  destruct (ApplyInvoices_row Hnf key l1 w0 e0 Hk Hl1) as (w1 & e1 & Hrun1 & He1 & Ht1 & Hv1 & Ho1 & _).
  { rewrite Hdb. apply lookup_insert_eq. }
  destruct (ApplyInvoices_row Hnf key l2 w1 e1 Hk Hl2 He1)
    as (w2 & e2 & Hrun2 & He2 & _ & Hv2 & Ho2 & Hterm).
  exists w1, e1, w2, e2. unfold invoice_view in *. split_ands; try done.
  - cbn [ApplyInvoices]. by rewrite bind_run, Hrun.
  - by rewrite foldl_app, Hv2, Hv1.
  - intros k Hne. rewrite (Ho2 k Hne), (Ho1 k Hne), Hdb. cbn. by rewrite lookup_insert_ne.
Qed.

(** Invoices do not converge: the same three events, with the refund observed
    before the payment, end in PAID instead of REFUNDED, and the refund is lost
    for good. *)
Theorem invoice_order_matters :
  let final l := EntityRow.current_state <$>
    entities (w_db (snd (@ApplyInvoices sample_postgres calm "INV-7" l boot))) !! "INV-7" in
  ∃ l1 l2, l1 ≡ₚ l2 ∧ final l1 = Some StateRefunded ∧ final l2 = Some StatePaid.
Proof.
  exists [InvoiceEvent StateIssued None None ""; InvoiceEvent StatePaid None None "";
          InvoiceEvent StateRefunded None None ""],
    [InvoiceEvent StateIssued None None ""; InvoiceEvent StateRefunded None None "";
     InvoiceEvent StatePaid None None ""].
  split; [|by vm_compute]. apply perm_skip, perm_swap.
Qed.

(** The vendor's event time breaks no tie: of two events of one rank the one
    applied first decides [last_event_time], also when it is the later one. *)
Theorem shipment_tie_ignores_event_time st t1 t2 n1 n2 :
  apply_shipments None [Event st t1 n1; Event st t2 n2] =
  apply_shipments None [Event st t1 n1].
Proof.
  unfold apply_shipments. cbn [foldl]. unfold apply_shipment at 1. cbn [ev_state].
  unfold apply_shipment, shipment_upsert, new_shipment. cbn [ev_state EntityRow.current_rank].
  by rewrite Z.ltb_irrefl.
Qed.

(** One key used for an invoice and a shipment: the shipment event overwrites
    the state of the invoice row (whose rank is 0) and leaves its type, and from
    then on no invoice event is applied to it any more. *)
Theorem shipment_hijacks_invoice e st t now :
  EntityRow.type_ e = ClassInvoice → EntityRow.current_rank e = 0 →
  IsShipmentState st = true →
  let e' := shipment_upsert st (ShipmentRank st) t now (Some e) in
  EntityRow.type_ e' = ClassInvoice ∧ EntityRow.current_state e' = st ∧
  (∀ s t' amt cur now', invoice_upsert s t' amt cur now' (Some e') = e').
Proof.
  intros Ht Hr Hs. cbn. rewrite Hr.
  apply ShipmentRank_known in Hs as Hk. rewrite (proj2 (Z.ltb_lt _ _)) by lia.
  split; [done|]. split; [done|]. intros s t' amt cur now'. cbn.
  destruct (InvoiceTransitionAllowed st s) eqn:Ha; [|done]. exfalso.
  apply InvoiceTransitionAllowed_cases in Ha.
  destruct Ha as [[-> _]|[-> _]]; by vm_compute in Hs.
Qed.

Definition events_a : list event :=
  [Event StateDelivered (Some 40) 1; Event StatePickedUp (Some 10) 2; Event StateInTransit None 3].
Definition events_b : list event :=
  [Event StatePickedUp (Some 10) 2; Event StateDelivered (Some 40) 1; Event StateInTransit None 3].
Definition delivered_row : EntityRow.t :=
  EntityRow.mk ClassShipment StateDelivered 4 (Some 40) None None 1 1.
Definition issued_row : EntityRow.t :=
  EntityRow.mk ClassInvoice StateIssued 0 None None None 1 1.

Lemma shipment_converges_witness :
  view (apply_shipments None events_a) = view (apply_shipments None events_b).
Proof.
  apply (shipment_converges None events_a events_b).
  - done.
  - repeat constructor.
  - apply perm_swap.
Defined.

Lemma shipment_reaches_max_witness :
  IsShipmentState StateDelivered = true ∧
  (∃ ev, ev ∈ events_a ∧ ev_state ev = StateDelivered) ∧
  (∀ ev, ev ∈ events_a → ShipmentRank (ev_state ev) ≤ ShipmentRank StateDelivered).
Proof.
  apply (shipment_reaches_max events_a delivered_row).
  - repeat constructor.
  - reflexivity.
Defined.

(** Voided, then paid and billed again: the row stays as it was voided. *)
Lemma invoice_follows_table_witness :
  ∃ w1 e1 w2, @ApplyInvoices sample_postgres calm "INV-7"
      [InvoiceEvent StateIssued (Some 5) (Some 100) "EUR"; InvoiceEvent StateVoided (Some 9) None ""]
      boot = (Ok (), w1) ∧
    @ApplyInvoices sample_postgres calm "INV-7"
      [InvoiceEvent StatePaid (Some 7) (Some 250) "USD"] w1 = (Ok (), w2) ∧
    entities (w_db w2) !! "INV-7" = Some e1 ∧ EntityRow.current_state e1 = StateVoided.
Proof.
  destruct (@invoice_follows_table sample_postgres calm "INV-7"
    (InvoiceEvent StateIssued (Some 5) (Some 100) "EUR") [InvoiceEvent StateVoided (Some 9) None ""]
    [InvoiceEvent StatePaid (Some 7) (Some 250) "USD"] boot)
    as (w1 & e1 & w2 & e2 & H1 & H2 & _ & H4 & _ & H6 & _ & H8 & _).
  - reflexivity.
  - reflexivity.
  - repeat constructor.
  - reflexivity.
  - exists w1, e1, w2. split; [exact H1|]. split; [exact H2|].
    assert (EntityRow.current_state e1 = StateVoided) as Hst.
    { apply (f_equal fst) in H6. exact H6. }
    rewrite (H8 (or_introl Hst)) in H4. split; [exact H4|exact Hst].
Defined.

Lemma shipment_hijacks_invoice_witness :
  EntityRow.type_ (shipment_upsert StatePickedUp (ShipmentRank StatePickedUp) None 5
                     (Some issued_row)) = ClassInvoice.
Proof.
  refine (proj1 (shipment_hijacks_invoice issued_row StatePickedUp None 5 _ _ _)); reflexivity.
Defined.
