(* ===== verification/Queue.v ===== *)
(** * The work source (internal/queue/queue.go and postgres.go)

    [Queue] is the interface the consumer depends on. [PgQueue] is the database
    implementation: the defaults of its configuration, the coalescing notify
    channel, the long-polling [Claim], and the retry policy with its exponential
    backoff in int64 arithmetic. *)

From S2P Require Import Prelude GoErrors Model Database StoreRaw.
Local Open Scope Z_scope.

Module Job.
Record t : Type := mk { ID : string; Payload : string; Attempts : Z }.
End Job.

(** The interface [Queue], over the state [S] its methods act on. *)
Class Queue (S : Type) : Type := {
  Claim : eff S error (option Job.t);
  Ack : string → eff S error unit;
  Retry : string → Z → string → eff S error unit;
  Fail : string → string → eff S error unit;
  Notify : S → S
}.

(** ** int64 *)

Definition wrap64 (z : Z) : Z := (z + 2 ^ 63) mod 2 ^ 64 - 2 ^ 63.

(** [x << s]: a negative count panics, a large one shifts everything out. *)
Definition shl64 (x s : Z) : option Z :=
  if s <? 0 then None
  else Some (if 64 <=? s then 0 else wrap64 (Z.shiftl x s)).

Module PgQueue.
Definition Millisecond : Z := 1000000.
Definition Second : Z := 1000 * Millisecond.
Definition Minute : Z := 60 * Second.

Record Config : Type := mkConfig {
  MaxAttempts : Z;
  Lease : Z;
  BaseBackoff : Z;
  MaxBackoff : Z;
  PollInterval : Z
}.

(** [NewPostgres]: unset fields get defaults. *)
Definition NewPostgres (cfg : Config) : Config :=
  mkConfig
    (if MaxAttempts cfg <? 1 then 5 else MaxAttempts cfg)
    (if Lease cfg <=? 0 then 30 * Second else Lease cfg)
    (if BaseBackoff cfg <=? 0 then 2 * Second else BaseBackoff cfg)
    (if MaxBackoff cfg <=? 0 then 5 * Minute else MaxBackoff cfg)
    (if PollInterval cfg <=? 0 then Second else PollInterval cfg).

(** The delay before jitter: [d] after the cap. *)
Definition backoff_ceiling (cfg : Config) (attempts : Z) : option Z :=
  d ← shl64 (BaseBackoff cfg) (attempts - 1);
  Some (if (d <=? 0) || (MaxBackoff cfg <? d) then MaxBackoff cfg else d).

(** [half + rand.Int64N(half+1)] *)
Definition backoff (cfg : Config) (rnd : Z → Z) (attempts : Z) : option Z :=
  d ← backoff_ceiling cfg attempts;
  let half := Z.quot d 2 in
  Some (half + rnd (half + 1)).

Section methods.
Context `{Postgres, Oracle}.
Context (cfg : Config).

(** A non-blocking send on a channel of capacity one. *)
Definition Notify (w : World) : World :=
  if w_notify w then w else set_notify true w.

(** The [select] of an idle [Claim]. *)
Definition wait : Eff (option Job.t) := λ w,
  match wakeup (w_ticks w) with
  | CtxDone e => (Err e, tick w)
  | WaitNotify => (Ok None, set_notify false (tick w))
  | PollTimeout => (Ok None, tick w)
  end.

Definition Claim : Eff (option Job.t) :=
  raw ← StoreRaw.Claim (Lease cfg);
  match raw with
  | Some raw => mret (Some (Job.mk (RawEvent.ID raw) (RawEvent.Payload raw)
                              (RawEvent.Attempts raw)))
  | None => wait
  end.

Definition Ack (id : string) : Eff unit := MarkProcessed id.

(** [q.backoff(attempts)]: draws the jitter; a negative shift panics. *)
Definition draw_backoff (attempts : Z) : Eff Z := λ w,
  match backoff cfg (rand_Int64N (w_ticks w)) attempts with
  | Some d => (Ok d, tick w)
  | None => (Err (runtimePanic "runtime error: negative shift amount"), tick w)
  end.

Definition Retry (id : string) (attempts : Z) (reason : string) : Eff unit :=
  d ← draw_backoff attempts;
  RetryOrFail id attempts (MaxAttempts cfg) d reason.

Definition Fail (id reason : string) : Eff unit := StoreRaw.Fail id reason.
End methods.

(** The implementation of the interface. *)
#[export] Instance pg_queue `{Postgres, Oracle} (cfg : Config) : Queue World := {|
  Queue.Claim := Claim cfg;
  Queue.Ack := Ack;
  Queue.Retry := Retry cfg;
  Queue.Fail := Fail;
  Queue.Notify := Notify
|}.
End PgQueue.
