(* ===== verification/Backoff.v ===== *)
(** * The retry delay, in int64 arithmetic (internal/queue/postgres.go)

    Facts about [backoff]: its bounds for every configuration [NewPostgres]
    accepts, and when the test [d <= 0 || d > MaxBackoff] catches the overflow of
    the shift. *)

From S2P Require Import Prelude GoErrors Model Database StoreRaw Queue.
Local Open Scope Z_scope.
Import PgQueue.

(** The delay the comment above [backoff] promises: [BaseBackoff * 2^(attempts-1)]
    capped at [MaxBackoff], in unbounded arithmetic. *)
Definition ideal_ceiling (cfg : Config) (attempts : Z) : Z :=
  Z.min (BaseBackoff cfg * 2 ^ (attempts - 1)) (MaxBackoff cfg).

(** [rand.Int64N(n)] is in [[0, n)]. *)
Definition jitter_ok (rnd : Z → Z) : Prop := ∀ n, 0 < n → 0 ≤ rnd n < n.

Lemma wrap64_range z : - 2 ^ 63 ≤ wrap64 z < 2 ^ 63.
Proof. unfold wrap64. pose proof (Z.mod_pos_bound (z + 2 ^ 63) (2 ^ 64) ltac:(lia)). lia. Qed.

Lemma wrap64_small z : - 2 ^ 63 ≤ z < 2 ^ 63 → wrap64 z = z.
Proof. intros Hz. unfold wrap64. rewrite Z.mod_small by lia. lia. Qed.

Lemma wrap64_eq z : ∃ q, wrap64 z = z - q * 2 ^ 64.
Proof.
  unfold wrap64. exists ((z + 2 ^ 63) / 2 ^ 64).
  rewrite Z.mod_eq by lia. lia.
Qed.

Lemma NewPostgres_positive cfg :
  1 ≤ MaxAttempts (NewPostgres cfg) ∧ 0 < Lease (NewPostgres cfg) ∧
  0 < BaseBackoff (NewPostgres cfg) ∧ 0 < MaxBackoff (NewPostgres cfg) ∧
  0 < PollInterval (NewPostgres cfg).
Proof.
  unfold NewPostgres, Minute, Second, Millisecond. destruct cfg; cbn.
  split_ands; case_match; lia.
Qed.

Lemma backoff_ceiling_some cfg attempts :
  1 ≤ attempts → ∃ d, backoff_ceiling cfg attempts = Some d.
Proof.
  intros Ha. unfold backoff_ceiling, shl64.
  destruct (Z.ltb_spec (attempts - 1) 0); [lia|]. cbn. eauto.
Qed.

Lemma backoff_ceiling_range cfg attempts d :
  0 < MaxBackoff cfg → backoff_ceiling cfg attempts = Some d → 0 < d ≤ MaxBackoff cfg.
Proof.
  intros Hm. unfold backoff_ceiling. destruct (shl64 _ _) as [x|]; [|done]. cbn.
  intros [= <-]. case_match; lia.
Qed.

Lemma jitter_range rnd d :
  jitter_ok rnd → 0 < d → d / 2 ≤ Z.quot d 2 + rnd (Z.quot d 2 + 1) ≤ d.
Proof.
  intros Hr Hd. rewrite Z.quot_div_nonneg by lia.
  pose proof (Hr (d / 2 + 1) ltac:(lia)). lia.
Qed.

(** The shift in unbounded arithmetic, reduced to 64 bits. *)
Lemma shl64_mod x s : 0 ≤ s → ∃ q, shl64 x s = Some (x * 2 ^ s - q * 2 ^ 64).
Proof.
  intros Hs. unfold shl64. destruct (Z.ltb_spec s 0); [lia|].
  destruct (Z.leb_spec 64 s).
  - exists (x * 2 ^ (s - 64)). f_equal.
    assert (2 ^ s = 2 ^ (s - 64) * 2 ^ 64) as -> by (rewrite <-Z.pow_add_r by lia; f_equal; lia).
    lia.
  - rewrite Z.shiftl_mul_pow2 by lia. destruct (wrap64_eq (x * 2 ^ s)) as [q Hq].
    exists q. by rewrite Hq.
Qed.

Lemma shl64_range x s d : shl64 x s = Some d → - 2 ^ 63 ≤ d < 2 ^ 63.
Proof.
  unfold shl64. case_match; [done|]. intros [= <-]. case_match; [lia|]. apply wrap64_range.
Qed.

(** A positive result of an overflowing shift is at least [2^(z+s)], where [2^z]
    divides the shifted value. *)
Lemma shl64_overflow_large x s z d :
  0 ≤ s → 0 ≤ z → z + s ≤ 64 → (2 ^ z | x) → shl64 x s = Some d → 0 < d → 2 ^ (z + s) ≤ d.
Proof.
  intros Hs Hz Hzs [k ->] Hd Hpos. destruct (shl64_mod (k * 2 ^ z) s Hs) as [q Hq].
  rewrite Hd in Hq. injection Hq as ->.
  assert (2 ^ 64 = 2 ^ (64 - (z + s)) * 2 ^ (z + s)) as H64.
  { rewrite <-Z.pow_add_r by lia. f_equal. lia. }
  assert (k * 2 ^ z * 2 ^ s = k * 2 ^ (z + s)) as Hk by (rewrite Z.pow_add_r by lia; lia).
  rewrite Hk, H64 in *. pose proof (Z.pow_pos_nonneg 2 (z + s) ltac:(lia) ltac:(lia)).
  set (P := 2 ^ (z + s)) in *. set (R := 2 ^ (64 - (z + s))) in *.
  assert (0 < k - q * R) by nia. nia.
Qed.

Lemma shl64_exact x s :
  0 ≤ s < 64 → 0 < x → x * 2 ^ s < 2 ^ 63 → shl64 x s = Some (x * 2 ^ s).
Proof.
  intros Hs Hx Hlt. unfold shl64. rewrite (proj2 (Z.ltb_ge _ _)) by lia.
  rewrite (proj2 (Z.leb_gt _ _)) by lia. rewrite Z.shiftl_mul_pow2 by lia.
  rewrite wrap64_small; [done|]. pose proof (Z.pow_pos_nonneg 2 s ltac:(lia) ltac:(lia)). nia.
Qed.

Lemma shl64_vanish x s z d :
  0 ≤ s → 0 ≤ z → 64 ≤ z + s → (2 ^ z | x) → shl64 x s = Some d → d = 0.
Proof.
  intros Hs Hz Hzs [k ->] Hd. pose proof (shl64_range _ _ _ Hd).
  destruct (shl64_mod (k * 2 ^ z) s Hs) as [q Hq]. rewrite Hd in Hq. injection Hq as Hq.
  assert (k * 2 ^ z * 2 ^ s = k * 2 ^ (z + s - 64) * 2 ^ 64) as Hk.
  { rewrite <-!Z.mul_assoc, <-!Z.pow_add_r by lia. do 2 f_equal. lia. }
  rewrite Hk in Hq. set (m := k * 2 ^ (z + s - 64)) in *. lia.
Qed.

(** ** Properties *)

(** C34. For every configuration [NewPostgres] accepts, every attempt count a claim
    can produce and every source of jitter, the delay exists (the shift does not
    panic) and lies between half of the capped delay and the capped delay; so it
    never exceeds [MaxBackoff]. *)
Theorem backoff_bounds cfg rnd attempts :
  jitter_ok rnd → 1 ≤ attempts →
  ∃ d b, backoff_ceiling (NewPostgres cfg) attempts = Some d ∧
         backoff (NewPostgres cfg) rnd attempts = Some b ∧
         0 < d ≤ MaxBackoff (NewPostgres cfg) ∧ d / 2 ≤ b ≤ d.
Proof.
  intros Hr Ha. destruct (NewPostgres_positive cfg) as (_ & _ & _ & Hm & _).
  destruct (backoff_ceiling_some (NewPostgres cfg) attempts Ha) as [d Hd].
  pose proof (backoff_ceiling_range _ _ _ Hm Hd) as Hrange.
  exists d. eexists. split; [done|]. split.
  - unfold backoff. rewrite Hd. reflexivity.
  - split; [done|]. apply jitter_range; [done|lia].
Qed.

(** The overflow guard is enough whenever the product of base and cap, less the
    powers of two in the base, fits 63 bits: then the delay before jitter is
    exactly [min(BaseBackoff * 2^(attempts-1), MaxBackoff)] in unbounded
    arithmetic, for every attempt. *)
Theorem backoff_ceiling_ideal cfg z attempts :
  1 ≤ attempts → 0 < BaseBackoff cfg → 0 < MaxBackoff cfg < 2 ^ 63 →
  0 ≤ z → (2 ^ z | BaseBackoff cfg) →
  BaseBackoff cfg * MaxBackoff cfg < 2 ^ (63 + z) →
  backoff_ceiling cfg attempts = Some (ideal_ceiling cfg attempts).
Proof.
  intros Ha Hb Hm Hz Hdiv Hprod. set (s := attempts - 1) in *.
  unfold backoff_ceiling, ideal_ceiling. fold s.
  pose proof (Z.pow_pos_nonneg 2 s ltac:(lia) ltac:(lia)).
  destruct (Z.lt_ge_cases (BaseBackoff cfg * 2 ^ s) (2 ^ 63)) as [Hfit|Hover].
  - assert (2 ^ s < 2 ^ 63) as Hs by nia.
    apply Z.pow_lt_mono_r_iff in Hs; [|lia..].
    rewrite shl64_exact by (try done; lia). cbn. f_equal. case_match; lia.
  - destruct (shl64 (BaseBackoff cfg) s) as [d|] eqn:Hd.
    2:{ destruct (shl64_mod (BaseBackoff cfg) s ltac:(lia)) as [q Hq]. congruence. }
    cbn. f_equal. rewrite Z.min_r by lia.
    destruct (Z.leb_spec d 0); [done|]. cbn.
    destruct (Z.lt_ge_cases 64 (z + s)) as [Hzs|Hzs].
    { pose proof (shl64_vanish (BaseBackoff cfg) s z d ltac:(lia) Hz ltac:(lia) Hdiv Hd). lia. }
    pose proof (shl64_overflow_large (BaseBackoff cfg) s z d ltac:(lia) Hz Hzs Hdiv Hd ltac:(lia)).
    assert (MaxBackoff cfg < 2 ^ (z + s)) as Hlt.
    { assert (2 ^ (63 + z) * 2 ^ s = 2 ^ (z + s) * 2 ^ 63) as He.
      { rewrite <-!Z.pow_add_r by lia. f_equal. lia. }
      pose proof (Z.pow_pos_nonneg 2 (z + s) ltac:(lia) ltac:(lia)).
      assert (2 ^ 63 * MaxBackoff cfg < 2 ^ (z + s) * 2 ^ 63); [|nia].
      rewrite <-He. nia. }
    by rewrite (proj2 (Z.ltb_lt _ _)) by lia.
Qed.

(** Without that condition the guard is not enough: a base of 18m19.5s under a
    cap of one hour wraps around to a positive delay of 16.8ms at the 25th
    attempt, which the test for a non-positive value lets through. *)
Theorem backoff_overflow_missed :
  let cfg := NewPostgres (mkConfig 30 0 (2 ^ 40 + 1) (60 * Minute) 0) in
  backoff_ceiling cfg 25 = Some (2 ^ 24) ∧ ideal_ceiling cfg 25 = 60 * Minute.
Proof. vm_compute. done. Qed.

Definition default_config : Config :=
  mkConfig 5 (30 * Second) (2 * Second) (5 * Minute) Second.

Lemma backoff_bounds_witness :
  ∃ d b, backoff_ceiling (NewPostgres default_config) 3 = Some d ∧
         backoff (NewPostgres default_config) (λ _, 0) 3 = Some b ∧
         0 < d ≤ MaxBackoff (NewPostgres default_config) ∧ d / 2 ≤ b ≤ d.
Proof. apply (backoff_bounds default_config (λ _, 0) 3); [intros n Hn; lia|lia]. Defined.

Lemma backoff_ceiling_ideal_witness :
  backoff_ceiling default_config 70 = Some (ideal_ceiling default_config 70).
Proof.
  apply (backoff_ceiling_ideal default_config 10 70); try (vm_compute; intuition discriminate).
  exists 1953125. reflexivity.
Defined.
