(* ===== verification/Worker.v ===== *)
(** * The consumer (internal/worker/worker.go)

    A worker claims jobs and routes the outcome of the handler to the queue. It
    is written against the [Queue] and [Handler] interfaces alone. *)

From S2P Require Import Prelude GoErrors Queue.
Local Open Scope Z_scope.

(** The interface [Handler]. *)
Class Handler (S : Type) : Type := Handle : Job.t → eff S error unit.

(** [NewPool]: at least one consumer. *)
Definition NewPool (concurrency : Z) : Z := if concurrency <? 1 then 1 else concurrency.

(** What one turn of the loop does next. *)
Inductive turn : Type := Continue | Return.

Section worker.
Context {S : Type} `{!Queue S, !Handler S}.
(** [ctx.Err() != nil], and whether [ctx.Done()] wins the [select] of the pause. *)
Context (ctx_err : eff S error bool).

Definition dispatch (job : Job.t) : eff S error unit :=
  r ← attempt (Handle job);
  match r with
  | Ok _ => attempt (Ack (Job.ID job));; mret ()
  | Err err =>
    if IsPermanent err
    then attempt (Fail (Job.ID job) (Error err));; mret ()
    else attempt (Retry (Job.ID job) (Job.Attempts job) (Error err));; mret ()
  end.

(** The body of the [for] loop. *)
Definition worker_turn : eff S error turn :=
  r ← attempt Claim;
  match r with
  | Err _ =>
    cancelled ← ctx_err;
    if (cancelled : bool) then mret Return else
    done ← ctx_err;    (* the pause of one second *)
    mret (if (done : bool) then Return else Continue)
  | Ok None => mret Continue
  | Ok (Some job) => dispatch job;; mret Continue
  end.

(** [n] turns of the loop; [true] when it returned. *)
Fixpoint worker (n : nat) : eff S error bool :=
  match n with
  | O => mret false
  | Datatypes.S n' =>
    t ← worker_turn;
    match t with
    | Return => mret true
    | Continue => worker n'
    end
  end.
End worker.
