(* ===== verification/Processor.v ===== *)
(** * The domain pipeline (internal/processor/processor.go)

    LLM, validation gate, fact, projection, in that order, each error turned into
    the kind of failure the consumer acts on. *)

From S2P Require Import Prelude GoErrors Utf8 GoStrings Model Llm Normalize Database.
From S2P Require Import StoreRaw StoreFacts Queue Worker.
Local Open Scope Z_scope.

Section processor.
Context `{UnicodeTables, Postgres, Oracle, Client}.
Context (norm : Normalizer).

(** [p.llm.Normalize(ctx, job.Payload)] *)
Definition call_llm (payload : string) : Eff Result.t := λ w,
  (Normalize (w_ticks w) payload, tick w).

Definition project (n : Normalized.t) : Eff unit :=
  if decide (Normalized.Classification n = ClassShipment) then
    ApplyShipment (Normalized.EntityKey n) (Normalized.CanonicalState n)
      (ShipmentRank (Normalized.CanonicalState n)) (Normalized.EventTime n)
  else if decide (Normalized.Classification n = ClassInvoice) then
    ApplyInvoice (Normalized.EntityKey n) (Normalized.CanonicalState n)
      (Normalized.EventTime n) (Normalized.AmountMinor n) (Normalized.Currency n)
  else mret ().

Definition Handle (job : Job.t) : Eff unit :=
  r ← attempt (call_llm (Job.Payload job));
  match r with
  | Err err =>
    if Retryable err then throw (Errorf_w "llm" err)     (* transient: retry *)
    else throw (Permanentf "llm" err)                    (* 4xx: DLQ *)
  | Ok res =>
    match Apply norm (Result.Response res) with
    | Err err => throw (Permanentf "normalize" err)
    | Ok n =>
      r ← attempt (InsertNormalized (Job.ID job) n (Result.Model res) (Result.PromptVer res));
      match r with
      | Err err => throw (Errorf_w "persist fact" err)
      | Ok _ =>
        r ← attempt (project n);
        match r with
        | Err err => throw (Errorf_w "project" err)
        | Ok _ => mret ()
        end
      end
    end
  end.

(** [Processor] is the pool's handler. *)
#[export] Instance processor_handler : Handler World := Handle.
End processor.
