(* ===== verification/System.v ===== *)
(** * The pool and the ingest side as one transition system

    Any number of ingest handlers and workers, in any number of processes, act on
    one database. A state is the database and what each busy worker is doing;
    a step is one SQL statement of internal/store issued by one of them, one call
    of the model, or the death of a worker. Every statement may fail, before or
    after its effect ([ran] of Database.v), and every interleaving is a sequence
    of steps. [step] follows internal/worker and internal/processor; Refinement.v
    proves that a turn of the worker loop is a sequence of these steps. *)

From S2P Require Import Prelude GoErrors Utf8 GoStrings Model Llm Normalize Database.
From S2P Require Import StoreRaw StoreFacts Queue Worker Processor.
Local Open Scope Z_scope.

(** Where a worker is in [dispatch] and [Handle]. *)
Inductive pc : Type :=
  | AtLLM                                               (** about to call the model *)
  | AtFact (n : Normalized.t) (llmModel promptVersion : string)
  | AtProject (n : Normalized.t)
  | AtFinish (outcome : option error).                  (** [Handle] returned *)

Record task : Type := Task { t_job : Job.t; t_pc : pc }.

Record Sys : Type := mkSys { s_db : DB; s_tasks : gmap nat task }.

(** Who takes a step: an HTTP handler, the worker in slot [i], or the worker in slot
    [i] dying. *)
Inductive party : Type := Web | Slot (i : nat) | Loss (i : nat).

(** A generated id is in the canonical form of a UUID. *)
Class OracleLaws `{Postgres} (O : Oracle) : Prop :=
  uuid_canonical t : pg_uuid (gen_random_uuid t) = Some (gen_random_uuid t).

Section system.
Context `{UnicodeTables, Postgres, Client}.
Context (norm : Normalizer) (cfg : PgQueue.Config).

(** [Handle] up to the first write. *)
Definition after_llm (r : result error Result.t) : pc :=
  match r with
  | Err err => AtFinish (Some (if Retryable err then Errorf_w "llm" err
                               else Permanentf "llm" err))
  | Ok res =>
    match Apply norm (Result.Response res) with
    | Err err => AtFinish (Some (Permanentf "normalize" err))
    | Ok n => AtFact n (Result.Model res) (Result.PromptVer res)
    end
  end.
Definition after_fact (n : Normalized.t) (r : result error unit) : pc :=
  match r with
  | Ok _ => AtProject n
  | Err err => AtFinish (Some (Errorf_w "persist fact" err))
  end.
Definition after_project (r : result error unit) : pc :=
  match r with
  | Ok _ => AtFinish None
  | Err err => AtFinish (Some (Errorf_w "project" err))
  end.

(** [project] as one statement. *)
Definition sql_project `{Oracle} (n : Normalized.t) : Statement unit :=
  if decide (Normalized.Classification n = ClassShipment) then
    sql_apply_shipment (Normalized.EntityKey n) (Normalized.CanonicalState n)
      (ShipmentRank (Normalized.CanonicalState n)) (Normalized.EventTime n)
  else if decide (Normalized.Classification n = ClassInvoice) then
    sql_apply_invoice (Normalized.EntityKey n) (Normalized.CanonicalState n)
      (Normalized.EventTime n) (Normalized.AmountMinor n) (Normalized.Currency n)
  else λ t db, Ok ((), db).

(** [dispatch] after the handler returned, with the delay [Retry] drew. *)
Definition sql_finish `{Oracle} (job : Job.t) (outcome : option error) (delay : Z)
    : Statement unit :=
  match outcome with
  | None => sql_mark_processed (Job.ID job)
  | Some err =>
    if IsPermanent err then sql_fail (Job.ID job) (Error err)
    else if PgQueue.MaxAttempts cfg <=? Job.Attempts job
         then sql_fail (Job.ID job) (Error err)
         else sql_reschedule (Job.ID job) (Error err) delay
  end.

Definition claimed (ev : RawEvent.t) : task :=
  Task (Job.mk (RawEvent.ID ev) (RawEvent.Payload ev) (RawEvent.Attempts ev)) AtLLM.

(** The environment [O] of a step is that of the process that takes it. *)
Inductive taken : party → Sys → Sys → Prop :=
  | step_ingest (O : Oracle) hash payload source db tasks r db' :
      OracleLaws O → ran (sql_insert_raw hash payload source) db r db' →
      taken Web (mkSys db tasks) (mkSys db' tasks)
  | step_claim (O : Oracle) i db tasks r db' :
      tasks !! i = None → ran (sql_claim (PgQueue.Lease cfg)) db r db' →
      taken (Slot i) (mkSys db tasks)
            (mkSys db' (match r with
                        | Ok (Some ev) => <[i := claimed ev]> tasks
                        | _ => tasks
                        end))
  | step_llm i job k db tasks :
      tasks !! i = Some (Task job AtLLM) →
      taken (Slot i) (mkSys db tasks)
            (mkSys db (<[i := Task job (after_llm (Normalize k (Job.Payload job)))]> tasks))
  | step_fact (O : Oracle) i job n m v db tasks r db' :
      tasks !! i = Some (Task job (AtFact n m v)) →
      ran (sql_insert_normalized (Job.ID job) n m v) db r db' →
      taken (Slot i) (mkSys db tasks) (mkSys db' (<[i := Task job (after_fact n r)]> tasks))
  | step_project (O : Oracle) i job n db tasks r db' :
      tasks !! i = Some (Task job (AtProject n)) →
      ran (sql_project n) db r db' →
      taken (Slot i) (mkSys db tasks) (mkSys db' (<[i := Task job (after_project r)]> tasks))
  | step_finish (O : Oracle) i job outcome delay db tasks r db' :
      tasks !! i = Some (Task job (AtFinish outcome)) →
      ran (sql_finish job outcome delay) db r db' →
      taken (Slot i) (mkSys db tasks) (mkSys db' (delete i tasks))
  | step_crash i db tasks :
      taken (Loss i) (mkSys db tasks) (mkSys db (delete i tasks)).

Definition step (s s' : Sys) : Prop := ∃ who, taken who s s'.

Lemma taken_step who s s' : taken who s s' → step s s'.
Proof. by exists who. Qed.

Lemma taken_steps who s s' : rtc (taken who) s s' → rtc step s s'.
Proof. apply rtc_subrel. intros ? ?. apply taken_step. Qed.

(** The service starts on an empty database with no worker busy. *)
Definition initial : Sys := mkSys empty_db ∅.
Definition reachable (s : Sys) : Prop := rtc step initial s.
End system.
