(* ===== verification/Refinement.v ===== *)
(** * The worker loop refines the transition system

    [worker_turn] of Worker.v, run over the database queue and the processor, is
    the Go code call by call. Here each of its runs, under any environment, is
    shown to be a sequence of steps of System.v, taken by this worker; so what is proved about the
    reachable states of the system holds between any two operations of any
    number of workers. *)

From S2P Require Import Prelude GoErrors Utf8 GoStrings Model Llm Normalize Database.
From S2P Require Import StoreRaw StoreFacts Queue Worker Processor System Instances.
Local Open Scope Z_scope.

Section refinement.
Context `{U : UnicodeTables, P : Postgres, O : Oracle, C : Client}.
Context (norm : Normalizer) (cfg : PgQueue.Config).
#[local] Instance the_queue : Queue World := PgQueue.pg_queue cfg.
#[local] Instance the_handler : Handler World := processor_handler norm.

Abbreviation steps i := (rtc (taken norm cfg (Slot i))).

(** What a call of the worker in slot [i] came to: its steps, and its death after them
    if the call panicked. *)
Definition turned {A} (i : nat) (r : result error A) (s s' : Sys) : Prop :=
  match r with
  | Ok _ => steps i s s'
  | Err _ => ∃ s1, steps i s s1 ∧ taken norm cfg (Loss i) s1 s'
  end.

Lemma turned_steps {A} i (r : result error A) s s' : turned i r s s' → rtc (step norm cfg) s s'.
Proof.
  destruct r; cbn; [apply taken_steps|]. intros (s1 & Hs & Hl).
  eapply rtc_r; [by eapply taken_steps|by eapply taken_step].
Qed.

Lemma turned_prepend {A} i (r : result error A) s s1 s' :
  steps i s s1 → turned i r s1 s' → turned i r s s'.
Proof.
  intros Hs. destruct r; cbn; [by etrans|]. intros (s2 & H2 & Hl).
  exists s2. split; [by etrans|done].
Qed.

Lemma stmt_runs {A} (f : Statement A) w r w' :
  stmt f w = (r, w') → ran f (w_db w) r (w_db w').
Proof. intros Hs. destruct (stmt_ran f w) as [Hr _]. by rewrite Hs in Hr. Qed.

Definition outcome (r : result error unit) : option error :=
  match r with Ok _ => None | Err e => Some e end.

(** [project] is the statement of the system. *)
Lemma project_runs n w r w' :
  project n w = (r, w') → ran (sql_project n) (w_db w) r (w_db w').
Proof.
  unfold project, sql_project. repeat case_decide.
  - apply stmt_runs.
  - intros Hp. destruct (ApplyInvoice_ran (Normalized.EntityKey n)
      (Normalized.CanonicalState n) (Normalized.EventTime n) (Normalized.AmountMinor n)
      (Normalized.Currency n) w) as [Hr _]. by rewrite Hp in Hr.
  - intros [= <- <-]. by apply (ran_ok _ _ 0%nat).
Qed.

(** It writes entities only. *)
Lemma sql_project_entities n t db a db' :
  sql_project n t db = Ok (a, db') → ∃ m, db' = set_entities m db.
Proof.
  assert (∃ m, db = set_entities m db) as Hid by (exists (entities db); by destruct db).
  unfold sql_project. repeat case_decide; [| |by intros [= _ <-]].
  - unfold sql_apply_shipment. destruct (negb _); [done|]. destruct (_ || _); [done|].
    intros [= _ <-]. by eexists.
  - intros [->|(c & _ & ->)]%sql_apply_invoice_ok; [done|by eexists].
Qed.

(** The steps of a worker that is the only one to move, from a known position. *)
Lemma move_llm i job k db tasks :
  taken norm cfg (Slot i) (mkSys db (<[i := Task job AtLLM]> tasks))
    (mkSys db (<[i := Task job (after_llm norm (Normalize k (Job.Payload job)))]> tasks)).
Proof.
  erewrite <-(insert_insert_eq tasks i (Task job (after_llm _ _)) (Task job AtLLM)).
  apply step_llm, lookup_insert_eq.
Qed.

Lemma move_fact i job n m v db r db' tasks :
  ran (sql_insert_normalized (Job.ID job) n m v) db r db' →
  taken norm cfg (Slot i) (mkSys db (<[i := Task job (AtFact n m v)]> tasks))
    (mkSys db' (<[i := Task job (after_fact n r)]> tasks)).
Proof.
  intros Hr. erewrite <-(insert_insert_eq tasks i (Task job (after_fact _ _)) (Task job (AtFact n m v))).
  by eapply step_fact; [apply lookup_insert_eq|].
Qed.

Lemma move_project i job n db r db' tasks :
  ran (sql_project n) db r db' →
  taken norm cfg (Slot i) (mkSys db (<[i := Task job (AtProject n)]> tasks))
    (mkSys db' (<[i := Task job (after_project r)]> tasks)).
Proof.
  intros Hr. erewrite <-(insert_insert_eq tasks i (Task job (after_project _)) (Task job (AtProject n))).
  by eapply step_project; [apply lookup_insert_eq|].
Qed.

Lemma move_finish i job o delay db r db' tasks :
  tasks !! i = None → ran (sql_finish cfg job o delay) db r db' →
  taken norm cfg (Slot i) (mkSys db (<[i := Task job (AtFinish o)]> tasks)) (mkSys db' tasks).
Proof.
  intros Hi Hr. rewrite <-(delete_insert_id tasks i (Task job (AtFinish o))) at 2 by done.
  by eapply step_finish; [apply lookup_insert_eq|].
Qed.

Lemma move_crash i job p db tasks :
  tasks !! i = None →
  taken norm cfg (Loss i) (mkSys db (<[i := Task job p]> tasks)) (mkSys db tasks).
Proof.
  intros Hi. rewrite <-(delete_insert_id tasks i (Task job p)) at 2 by done.
  apply step_crash.
Qed.

(** An idle worker dies. *)
Lemma idle_crash i db tasks :
  tasks !! i = None → taken norm cfg (Loss i) (mkSys db tasks) (mkSys db tasks).
Proof. intros Hi. rewrite <-(delete_id tasks i) at 2 by done. apply step_crash. Qed.

Lemma idle_turned {A} i (r : result error A) s db tasks :
  tasks !! i = None → steps i s (mkSys db tasks) → turned i r s (mkSys db tasks).
Proof. intros Hi Hs. destruct r; [done|]. eexists. split; [exact Hs|by apply idle_crash]. Qed.

(** [Handle] takes its worker from the call of the model to its outcome, unless
    it panics on the way. *)
Lemma Handle_steps i job tasks w r w' :
  Processor.Handle norm job w = (r, w') →
  (∃ p, steps i (mkSys (w_db w) (<[i := Task job AtLLM]> tasks))
              (mkSys (w_db w') (<[i := Task job p]> tasks)) ∧
        (p = AtFinish (outcome r) ∨ ∃ e, r = Err e ∧ is_panic e = true)).
Proof.
  unfold Processor.Handle. rewrite attempt_bind. unfold call_llm.
  set (ans := Normalize (w_ticks w) (Job.Payload job)).
  assert (steps i (mkSys (w_db w) (<[i := Task job AtLLM]> tasks))
            (mkSys (w_db w) (<[i := Task job (after_llm norm ans)]> tasks))) as Hllm.
  { apply rtc_once, move_llm. }
  destruct ans as [res|err]; cbn [after_llm] in Hllm.
  2:{ destruct (is_panic err) eqn:Hpanic.
      - intros [= <- <-]. eexists. split; [exact Hllm|]. right. by exists err.
      - destruct (Retryable err); intros [= <- <-]; (eexists; split; [exact Hllm|by left]). }
  destruct (Apply norm (Result.Response res)) as [n|err].
  2:{ intros [= <- <-]. eexists. split; [exact Hllm|by left]. }
  rewrite attempt_bind. unfold InsertNormalized.
  destruct (stmt _ (tick w)) as [rf w1] eqn:Hf. apply stmt_runs in Hf. cbn [w_db tick] in Hf.
  assert (steps i (mkSys (w_db w) (<[i := Task job AtLLM]> tasks))
            (mkSys (w_db w1) (<[i := Task job (after_fact n rf)]> tasks))) as Hfact.
  { etrans; [exact Hllm|]. by apply rtc_once, move_fact. }
  destruct rf as [[]|err]; cbn [after_fact] in Hfact.
  2:{ destruct (is_panic err) eqn:Hpanic; intros [= <- <-]; (eexists; split; [exact Hfact|]).
      - right. by exists err.
      - by left. }
  rewrite attempt_bind. destruct (project n w1) as [rp w2] eqn:Hp.
  apply project_runs in Hp.
  assert (steps i (mkSys (w_db w) (<[i := Task job AtLLM]> tasks))
            (mkSys (w_db w2) (<[i := Task job (after_project rp)]> tasks))) as Hproj.
  { etrans; [exact Hfact|]. by apply rtc_once, move_project. }
  destruct rp as [[]|err]; cbn [after_project] in Hproj.
  - intros [= <- <-]. eexists. split; [exact Hproj|by left].
  - destruct (is_panic err) eqn:Hpanic; intros [= <- <-]; (eexists; split; [exact Hproj|]).
    + right. by exists err.
    + by left.
Qed.

(** Whatever [dispatch] calls on the queue at the end, the worker is idle
    again. *)
Lemma dispatch_steps i job tasks w r w' :
  tasks !! i = None → dispatch job w = (r, w') →
  turned i r (mkSys (w_db w) (<[i := Task job AtLLM]> tasks)) (mkSys (w_db w') tasks).
Proof.
  intros Hi. unfold dispatch. rewrite attempt_bind.
  destruct (Worker.Handle job w) as [rh w1] eqn:Hh.
  destruct (Handle_steps i job tasks w rh w1 Hh) as (p & Hsteps & Hp).
  assert (∀ e, turned (A := unit) i (Err e) (mkSys (w_db w) (<[i := Task job AtLLM]> tasks))
                 (mkSys (w_db w1) tasks)) as Hcrash
    by (intros e; eexists; split; [exact Hsteps|by apply move_crash]).
  assert (∀ (r : result error unit) delay rq w2, p = AtFinish (outcome rh) →
    ran (sql_finish cfg job (outcome rh) delay) (w_db w1) rq (w_db w2) →
    turned i r (mkSys (w_db w) (<[i := Task job AtLLM]> tasks)) (mkSys (w_db w2) tasks)) as Hfin.
  { intros r0 delay rq w2 -> Hran. apply idle_turned; [done|].
    eapply rtc_r; [exact Hsteps|by eapply move_finish]. }
  destruct rh as [[]|err].
  - destruct Hp as [Hp|(? & ? & _)]; [|done].
    rewrite attempt_bind. destruct (Queue.Ack _ w1) as [rq w2] eqn:Hq.
    cbn in Hq. apply stmt_runs in Hq.
    intros Hr. specialize (Hfin r 0 _ _ Hp Hq).
    destruct rq as [?|e]; [by injection Hr as <- <-|].
    by destruct (is_panic e); injection Hr as <- <-.
  - destruct (is_panic err) eqn:Hpanic; [intros [= <- <-]; apply Hcrash|].
    destruct Hp as [Hp|(? & [= <-] & ?)]; [|congruence].
    cbn [outcome sql_finish] in Hfin. destruct (IsPermanent err).
    + rewrite attempt_bind. destruct (Queue.Fail _ _ w1) as [rq w2] eqn:Hq.
      cbn in Hq. apply stmt_runs in Hq. intros Hr. specialize (Hfin r 0 _ _ Hp Hq).
      destruct rq as [?|e]; [by injection Hr as <- <-|].
      by destruct (is_panic e); injection Hr as <- <-.
    + rewrite attempt_bind. destruct (Queue.Retry _ _ _ w1) as [rq w2] eqn:Hq. intros Hr.
      cbn in Hq. unfold PgQueue.Retry in Hq. rewrite bind_run in Hq.
      unfold PgQueue.draw_backoff in Hq.
      destruct (PgQueue.backoff _ _ _) as [d|].
      * assert (turned i r (mkSys (w_db w) (<[i := Task job AtLLM]> tasks))
                  (mkSys (w_db w2) tasks)) as Hend.
        { unfold RetryOrFail in Hq. apply (Hfin r d rq); [done|].
          destruct (PgQueue.MaxAttempts cfg <=? Job.Attempts job);
            by apply stmt_runs in Hq. }
        destruct rq as [?|e]; [by injection Hr as <- <-|].
        by destruct (is_panic e); injection Hr as <- <-.
      * injection Hq as <- <-. cbn in Hr. injection Hr as <- <-. apply Hcrash.
Qed.

Lemma worker_turn_turned i tasks w :
  tasks !! i = None →
  turned i (fst (worker_turn ctx_err w))
    (mkSys (w_db w) tasks) (mkSys (w_db (snd (worker_turn ctx_err w))) tasks).
Proof.
  intros Hi. unfold worker_turn. rewrite attempt_bind.
  destruct (Queue.Claim w) as [rc w1] eqn:Hc. cbn in Hc.
  unfold PgQueue.Claim in Hc. rewrite bind_run in Hc.
  destruct (StoreRaw.Claim _ w) as [rs w0] eqn:Hs. apply stmt_runs in Hs.
  pose proof (step_claim norm cfg O i _ tasks _ _ Hi Hs) as Hstep.
  assert (∀ e, steps i (mkSys (w_db w) tasks) (mkSys (w_db w1) tasks) →
    let out := (if is_panic e then (Err e, w1) else
       (cancelled ← ctx_err;
        if (cancelled : bool) then mret Return else
        done ← ctx_err; mret (if (done : bool) then Return else Continue)) w1) in
    turned i (fst out) (mkSys (w_db w) tasks) (mkSys (w_db (snd out)) tasks)) as Herr.
  { intros e Hst. destruct (is_panic e); cbn zeta; [by apply idle_turned|]. rewrite bind_run. cbn.
    by destruct (ctx_cancelled (w_ticks w1)). }
  destruct rs as [[ev|]|e].
  - injection Hc as <- <-. cbn. rewrite bind_run.
    destruct (dispatch _ w0) as [rd w2] eqn:Hd.
    pose proof (dispatch_steps i _ _ _ _ _ Hi Hd) as Hdis.
    destruct rd as [[]|e]; cbn [fst snd mret eff_ret]; (eapply turned_prepend; [by apply rtc_once|done]).
  - assert (w_db w1 = w_db w0) as Hdb.
    { unfold PgQueue.wait in Hc. by destruct (wakeup _); injection Hc as <- <-. }
    rewrite <-Hdb in Hstep.
    destruct rc as [[job|]|e].
    + exfalso. unfold PgQueue.wait in Hc. by destruct (wakeup _).
    + by apply rtc_once.
    + by apply Herr, rtc_once.
  - injection Hc as <- <-. by apply Herr, rtc_once.
Qed.

Lemma worker_turn_steps i tasks w :
  tasks !! i = None →
  rtc (step norm cfg) (mkSys (w_db w) tasks) (mkSys (w_db (snd (worker_turn ctx_err w))) tasks).
Proof. intros Hi. by eapply turned_steps, worker_turn_turned. Qed.
End refinement.

Lemma turn_turned {U : UnicodeTables} {P : Postgres} {O : Oracle} {C : Client}
    norm cfg i tasks w :
  tasks !! i = None →
  let out := @worker_turn World (PgQueue.pg_queue cfg) (processor_handler norm) ctx_err w in
  turned norm cfg i (fst out) (mkSys (w_db w) tasks) (mkSys (w_db (snd out)) tasks).
Proof. apply worker_turn_turned. Qed.

(** ** Property *)

(** C7. Every turn of the worker loop over the database queue and the processor,
    with any model, any configuration and any pattern of failures, is a sequence
    of steps of the transition system, each taken by this worker itself, at the end
    of which it is idle again; if the turn panics, these steps are followed by the
    one that loses the worker. *)
Theorem worker_turn_refines {U : UnicodeTables} {P : Postgres} {O : Oracle} {C : Client}
    norm cfg i tasks w :
  tasks !! i = None →
  let out := @worker_turn World (PgQueue.pg_queue cfg) (processor_handler norm) ctx_err w in
  match fst out with
  | Ok _ => rtc (taken norm cfg (Slot i)) (mkSys (w_db w) tasks) (mkSys (w_db (snd out)) tasks)
  | Err _ => ∃ s, rtc (taken norm cfg (Slot i)) (mkSys (w_db w) tasks) s ∧
                  taken norm cfg (Loss i) s (mkSys (w_db (snd out)) tasks)
  end.
Proof. apply turn_turned. Qed.

Section example.
Local Existing Instances latin1_tables sample_postgres calm.
#[local] Instance one_answer : Client := λ _ _, Ok (Result.mk shipment_answer "mock" "v1").

(** A process with one event waiting. *)
Definition one_waiting : World :=
  snd (InsertRaw "h1" "{}" "acme" boot).
Definition default_cfg : PgQueue.Config :=
  PgQueue.NewPostgres (PgQueue.mkConfig 0 0 0 0 0).

Lemma worker_turn_refines_witness :
  rtc (taken floor_0_6 default_cfg (Slot 0)) (mkSys (w_db one_waiting) ∅)
    (mkSys (w_db (snd (@worker_turn World (PgQueue.pg_queue default_cfg)
                         (processor_handler floor_0_6) ctx_err one_waiting))) ∅).
Proof.
  pose proof (worker_turn_refines floor_0_6 default_cfg 0 ∅ one_waiting eq_refl) as H.
  cbn zeta in H.
  destruct (worker_turn ctx_err one_waiting) as [[s|e] w] eqn:Hrun; [exact H|].
  exfalso. vm_compute in Hrun. discriminate.
Defined.
End example.
