(* ===== verification/Invariants.v ===== *)
(** * Invariants of the whole system

    What holds in every reachable state of System.v, whatever the interleaving and
    the failures: how the tables evolve, what a row, a fact and an entity look
    like, what a busy worker may rely on. The proof goes statement by statement;
    [evolves] is the order along which the tables only grow. *)

From S2P Require Import Prelude GoErrors Utf8 GoStrings Model Llm Normalize Database.
From S2P Require Import StoreRaw RawFacts StoreFacts Queue Worker Processor System.
Local Open Scope Z_scope.

(** ** How the tables may change *)

(** A row keeps what was ingested; its attempts grow and it never becomes PENDING
    again. *)
Definition row_evolves (r r' : RawRow.t) : Prop :=
  RawRow.payload_hash r' = RawRow.payload_hash r ∧
  RawRow.raw_payload r' = RawRow.raw_payload r ∧
  RawRow.source r' = RawRow.source r ∧
  RawRow.received_at r' = RawRow.received_at r ∧
  RawRow.attempts r ≤ RawRow.attempts r' ∧
  (RawRow.status r ≠ StatusPending → RawRow.status r' ≠ StatusPending).

(** One move of a lifecycle: along the invoice table, or up the shipment order. *)
Definition state_move (from to : string) : Prop :=
  InvoiceTransitionAllowed from to = true ∨ ShipmentRank from < ShipmentRank to.

(** An entity keeps its type, its rank never goes down, and its state only moves
    along a lifecycle. *)
Definition entity_evolves (e e' : EntityRow.t) : Prop :=
  EntityRow.type_ e' = EntityRow.type_ e ∧
  EntityRow.created_at e' = EntityRow.created_at e ∧
  EntityRow.current_rank e ≤ EntityRow.current_rank e' ∧
  rtc state_move (EntityRow.current_state e) (EntityRow.current_state e').

(** Nothing is ever deleted, and a fact is never changed. *)
Record evolves (db db' : DB) : Prop := {
  ev_raw id r : raw_events db !! id = Some r →
    ∃ r', raw_events db' !! id = Some r' ∧ row_evolves r r';
  ev_fact id f : normalized_events db !! id = Some f → normalized_events db' !! id = Some f;
  ev_entity k e : entities db !! k = Some e →
    ∃ e', entities db' !! k = Some e' ∧ entity_evolves e e'
}.

#[export] Instance row_evolves_preorder : PreOrder row_evolves.
Proof.
  split.
  - intros r. unfold row_evolves. split_ands; (done || lia).
  - intros r1 r2 r3. unfold row_evolves.
    intros (?&?&?&?&?&?) (?&?&?&?&?&?). split_ands; try congruence; [lia|tauto].
Qed.

#[export] Instance entity_evolves_preorder : PreOrder entity_evolves.
Proof.
  split.
  - intros e. unfold entity_evolves. split_ands; (done || lia).
  - intros e1 e2 e3. unfold entity_evolves. intros (?&?&?&?) (?&?&?&?).
    split_ands; [congruence|congruence|lia|by etrans].
Qed.

#[export] Instance evolves_preorder : PreOrder evolves.
Proof.
  split.
  - intros db. split; eauto.
    + intros id r Hr. exists r. by split.
    + intros k e He. exists e. by split.
  - intros d1 d2 d3 [R1 F1 E1] [R2 F2 E2]. split; eauto.
    + intros id r Hr. destruct (R1 id r Hr) as (r' & Hr' & ?).
      destruct (R2 id r' Hr') as (r'' & Hr'' & ?). exists r''. split; [done|by etrans].
    + intros k e He. destruct (E1 k e He) as (e' & He' & ?).
      destruct (E2 k e' He') as (e'' & He'' & ?). exists e''. split; [done|by etrans].
Qed.

(** ** What holds of the tables *)

Record row_ok (r : RawRow.t) : Prop := {
  ok_range : 0 ≤ RawRow.attempts r ≤ int4_max;
  ok_pending : RawRow.status r = StatusPending →
    RawRow.attempts r = 0 ∧ RawRow.lease_until r = None ∧ RawRow.err r = None;
  ok_claimed : RawRow.status r ≠ StatusPending → 1 ≤ RawRow.attempts r;
  ok_leased : RawRow.status r = StatusProcessing → is_Some (RawRow.lease_until r)
}.

(** The state column is of a lifecycle and the rank column agrees with it; a
    shipment has a shipment state and no money; amount and currency are both set
    or both missing; the key is canonical. *)
Record entity_ok `{UnicodeTables} (k : string) (e : EntityRow.t) : Prop := {
  ok_rank : EntityRow.current_rank e = ShipmentRank (EntityRow.current_state e);
  ok_state : IsShipmentState (EntityRow.current_state e) = true ∨
             IsInvoiceState (EntityRow.current_state e) = true;
  ok_type : EntityRow.type_ e = ClassShipment ∨ EntityRow.type_ e = ClassInvoice;
  ok_shipment : EntityRow.type_ e = ClassShipment →
    IsShipmentState (EntityRow.current_state e) = true ∧
    EntityRow.amount_minor e = None ∧ EntityRow.currency e = None;
  ok_money : is_Some (EntityRow.amount_minor e) ↔ is_Some (EntityRow.currency e);
  ok_key : k ≠ "" ∧ CanonicalKey k = k
}.

Section invariants.
Context {U : UnicodeTables} {P : Postgres} {C : Client}.
Context (norm : Normalizer) (cfg : PgQueue.Config).

(** [n] with its audit data is what the gate made of some answer of the model. *)
Definition answered (payload : string) (n : Normalized.t) (m v : string) : Prop :=
  ∃ k res, Normalize k payload = Ok res ∧ Apply norm (Result.Response res) = Ok n ∧
           Result.Model res = m ∧ Result.PromptVer res = v.

(** An invoice in state [s] has taken an answer of state [st] into account: some state
    on its way to [s] is [st], or one from which the table does not allow [st]. *)
Definition invoice_past (st s : string) : Prop :=
  ∃ s0, rtc state_move s0 s ∧ (s0 = st ∨ InvoiceTransitionAllowed s0 st = false).

(** The projection is at or past what [n] says. *)
Definition applied (db : DB) (n : Normalized.t) : Prop :=
  (Normalized.Classification n = ClassShipment →
     ∃ e, entities db !! Normalized.EntityKey n = Some e ∧
          ShipmentRank (Normalized.CanonicalState n) ≤ EntityRow.current_rank e) ∧
  (Normalized.Classification n = ClassInvoice →
     ∃ e, entities db !! Normalized.EntityKey n = Some e ∧
          invoice_past (Normalized.CanonicalState n) (EntityRow.current_state e)).

(** The state that the answer [n] moves the row of its key to: its own where there is
    no row, or a shipment outranks the row, or the table leads an invoice there; and
    otherwise the one the row is in. *)
Definition next_state (n : Normalized.t) (row : option EntityRow.t) : string :=
  let st := Normalized.CanonicalState n in
  match row with
  | None => st
  | Some e =>
    if decide (Normalized.Classification n = ClassShipment)
    then if EntityRow.current_rank e <? ShipmentRank st then st else EntityRow.current_state e
    else if InvoiceTransitionAllowed (EntityRow.current_state e) st then st
         else EntityRow.current_state e
  end.

(** The row of a shipment or an invoice went where [n] moves it. *)
Definition moved (n : Normalized.t) (db db' : DB) : Prop :=
  Normalized.Classification n = ClassShipment ∨ Normalized.Classification n = ClassInvoice →
  ∃ e, entities db' !! Normalized.EntityKey n = Some e ∧
       EntityRow.current_state e = next_state n (entities db !! Normalized.EntityKey n).

(** An event whose effects are in the tables. *)
Definition effected (db : DB) (id payload : string) : Prop :=
  is_Some (normalized_events db !! id) ∧
  ∃ n m v, answered payload n m v ∧ applied db n.

Record db_inv (db : DB) : Prop := {
  inv_id id r : raw_events db !! id = Some r → pg_uuid id = Some id;
  inv_row id r : raw_events db !! id = Some r → row_ok r;
  inv_hash : hash_unique db;
  inv_fact id f : normalized_events db !! id = Some f →
    ∃ r n m v c now, raw_events db !! id = Some r ∧
      answered (RawRow.raw_payload r) n m v ∧
      char3_param (Normalized.Currency n) = Ok c ∧ f = fact_row n c m v now;
  inv_done id r : raw_events db !! id = Some r → RawRow.status r = StatusProcessed →
    effected db id (RawRow.raw_payload r);
  inv_entity k e : entities db !! k = Some e → entity_ok k e
}.

Definition pc_ok (db : DB) (id payload : string) (p : pc) : Prop :=
  match p with
  | AtLLM => True
  | AtFact n m v => answered payload n m v
  | AtProject n => is_Some (normalized_events db !! id) ∧ ∃ m v, answered payload n m v
  | AtFinish None => effected db id payload
  | AtFinish (Some _) => True
  end.

(** What a busy worker may rely on. *)
Definition task_ok (db : DB) (t : task) : Prop :=
  ∃ r, raw_events db !! Job.ID (t_job t) = Some r ∧ RawRow.status r ≠ StatusPending ∧
    1 ≤ Job.Attempts (t_job t) ≤ RawRow.attempts r ∧
    Job.Payload (t_job t) = RawRow.raw_payload r ∧
    pc_ok db (Job.ID (t_job t)) (Job.Payload (t_job t)) (t_pc t).

(** No two workers hold one event under the same attempt number. *)
Definition fenced (tasks : gmap nat task) : Prop :=
  ∀ i j ti tj, tasks !! i = Some ti → tasks !! j = Some tj →
    Job.ID (t_job ti) = Job.ID (t_job tj) →
    Job.Attempts (t_job ti) = Job.Attempts (t_job tj) → i = j.

Record sys_inv (s : Sys) : Prop := {
  inv_db : db_inv (s_db s);
  inv_task i t : s_tasks s !! i = Some t → task_ok (s_db s) t;
  inv_fenced : fenced (s_tasks s)
}.

(** ** Growing tables keep what was relied on *)

Lemma sql_apply_invoice_past `{Oracle} key st et amt cur t db r db' :
  sql_apply_invoice key st et amt cur t db = Ok (r, db') →
  ∃ e, entities db' !! key = Some e ∧ invoice_past st (EntityRow.current_state e).
Proof.
  intros (e & He & Hcase)%sql_apply_invoice_state. exists e. split; [done|].
  eexists. split; [apply rtc_refl|exact Hcase].
Qed.

Lemma sql_project_moved `{Oracle} n t db a db' :
  sql_project n t db = Ok (a, db') → moved n db db'.
Proof.
  unfold moved, sql_project, next_state. intros Hsql Hkind.
  destruct (decide (Normalized.Classification n = ClassShipment)) as [Hc|Hc].
  - unfold sql_apply_shipment in Hsql. destruct (negb _); [done|]. destruct (_ || _); [done|].
    injection Hsql as _ <-. cbn -[ShipmentRank]. rewrite lookup_insert_eq. eexists. split; [done|].
    unfold shipment_upsert. destruct (entities db !! _) as [e|]; [|done]. by case_match.
  - destruct Hkind as [Hk|Hk]; [done|]. rewrite decide_True in Hsql by done.
    by eapply sql_apply_invoice_next.
Qed.

Lemma applied_evolves db db' n : evolves db db' → applied db n → applied db' n.
Proof.
  intros [_ _ E] [Hs Hi]. split.
  - intros Hc. destruct (Hs Hc) as (e & He & ?). destruct (E _ _ He) as (e' & He' & _ & _ & ? & _).
    exists e'. split; [done|lia].
  - intros Hc. destruct (Hi Hc) as (e & He & s0 & Hs0 & Hcase).
    destruct (E _ _ He) as (e' & He' & _ & _ & _ & Hm).
    exists e'. split; [done|]. exists s0. split; [by etrans|done].
Qed.

Lemma effected_evolves db db' id p : evolves db db' → effected db id p → effected db' id p.
Proof.
  intros Hev ([f Hf] & n & m & v & Ha & Happ). split.
  - exists f. by apply (ev_fact _ _ Hev).
  - exists n, m, v. split; [done|]. by eapply applied_evolves.
Qed.

Lemma pc_ok_evolves db db' id p x : evolves db db' → pc_ok db id p x → pc_ok db' id p x.
Proof.
  intros Hev. destruct x as [|n m v|n|[e|]]; try done; cbn.
  - intros [[f Hf] ?]. split; [|done]. exists f. by apply (ev_fact _ _ Hev).
  - by apply effected_evolves.
Qed.

Lemma task_ok_evolves db db' t : evolves db db' → task_ok db t → task_ok db' t.
Proof.
  intros Hev (r & Hr & Hst & Ha & Hp & Hpc).
  destruct (ev_raw _ _ Hev _ _ Hr) as (r' & Hr' & _ & Hpay & _ & _ & Hatt & Hst').
  exists r'. split_ands; [done|by apply Hst'|lia|lia|congruence|].
  by eapply pc_ok_evolves.
Qed.
End invariants.

(** ** One row of the log *)

Definition raw_put (id : string) (r : RawRow.t) (db : DB) : DB :=
  set_raw (<[id := r]> (raw_events db)) db.

Section raw_rows.
Context {U : UnicodeTables} {P : Postgres} {C : Client}.
Context (norm : Normalizer).

Lemma raw_put_evolves id r r' db :
  raw_events db !! id = Some r → row_evolves r r' → evolves db (raw_put id r' db).
Proof.
  intros Hr Hev. split; cbn; eauto.
  - intros i ri Hi. destruct (decide (i = id)) as [->|Hne].
    + rewrite lookup_insert_eq. exists r'. split; [done|]. by simplify_eq.
    + rewrite lookup_insert_ne by done. exists ri. by split.
  - intros k e He. exists e. by split.
Qed.

Lemma raw_new_evolves id r db :
  raw_events db !! id = None → evolves db (raw_put id r db).
Proof.
  intros Hn. split; cbn; eauto.
  - intros i ri Hi. exists ri. split; [|done]. rewrite lookup_insert_ne; [done|congruence].
  - intros k e He. exists e. by split.
Qed.

(** Rewriting a row in place keeps the invariant, if a row that becomes PROCESSED
    has had its effect. *)
Lemma raw_put_inv id r r' db :
  db_inv norm db → raw_events db !! id = Some r → row_evolves r r' → row_ok r' →
  (RawRow.status r' = StatusProcessed → effected norm db id (RawRow.raw_payload r)) →
  db_inv norm (raw_put id r' db).
Proof.
  intros Hinv Hr Hrow Hok Hdone.
  pose proof (raw_put_evolves _ _ _ _ Hr Hrow) as Hev.
  destruct Hrow as (Hhash & Hpay & _).
  split; cbn.
  - intros i ri. rewrite lookup_insert_Some.
    intros [[<- <-]|[_ Hi]]; by eapply (inv_id _ _ Hinv).
  - intros i ri. rewrite lookup_insert_Some.
    intros [[<- <-]|[_ Hi]]; [done|by eapply (inv_row _ _ Hinv)].
  - intros i j ri rj. cbn. rewrite !lookup_insert_Some.
    intros [[<- <-]|[? Hi]] [[<- <-]|[? Hj]]; [done|..];
      rewrite ?Hhash; by eapply (inv_hash _ _ Hinv).
  - intros i f Hf. destruct (inv_fact _ _ Hinv i f Hf) as (ri & n & m & v & c & now & Hi & H).
    destruct (ev_raw _ _ Hev _ _ Hi) as (ri' & Hi' & _ & Hp & _).
    exists ri', n, m, v, c, now. split; [exact Hi'|]. by rewrite Hp.
  - intros i ri. rewrite lookup_insert_Some. intros [[<- <-]|[_ Hi]] Hst.
    + rewrite Hpay. eapply effected_evolves; [exact Hev|]. by apply Hdone.
    + eapply effected_evolves; [exact Hev|]. by eapply (inv_done _ _ Hinv).
  - intros k e. apply (inv_entity _ _ Hinv).
Qed.

Lemma raw_new_inv id hash json source now db :
  db_inv norm db → raw_events db !! id = None → find_by_hash hash db = None →
  pg_uuid id = Some id →
  db_inv norm (raw_put id (RawRow.mk hash json source StatusPending 0 None None now) db).
Proof.
  intros Hinv Hn Hf Hid. pose proof (raw_new_evolves id
    (RawRow.mk hash json source StatusPending 0 None None now) db Hn) as Hev.
  rewrite find_by_hash_None in Hf. split; cbn.
  - intros i ri. rewrite lookup_insert_Some.
    intros [[<- <-]|[_ Hi]]; [done|by eapply (inv_id _ _ Hinv)].
  - intros i ri. rewrite lookup_insert_Some.
    intros [[<- <-]|[_ Hi]]; [|by eapply (inv_row _ _ Hinv)].
    by split.
  - intros i j ri rj. cbn. rewrite !lookup_insert_Some.
    intros [[<- <-]|[? Hi]] [[<- <-]|[? Hj]]; cbn; intros Heq; [done|..].
    + by destruct (Hf _ _ Hj).
    + by destruct (Hf _ _ Hi).
    + by eapply (inv_hash _ _ Hinv).
  - intros i f Hfa. destruct (inv_fact _ _ Hinv i f Hfa) as (ri & n & m & v & c & t & Hi & H).
    exists ri, n, m, v, c, t. split; [|done]. rewrite lookup_insert_ne; [done|congruence].
  - intros i ri. rewrite lookup_insert_Some. intros [[<- <-]|[_ Hi]] Hst; [done|].
    eapply effected_evolves; [exact Hev|]. by eapply (inv_done _ _ Hinv).
  - intros k e. apply (inv_entity _ _ Hinv).
Qed.

(** [UPDATE ... WHERE id=$1] on an existing row is [raw_put]. *)
Lemma update_raw_put id f db a db' r :
  db_inv norm db → raw_events db !! id = Some r → update_raw id f db = Ok (a, db') →
  db' = raw_put id (f r) db.
Proof.
  intros Hinv Hr. unfold update_raw. rewrite (inv_id _ _ Hinv _ _ Hr).
  intros [= _ <-]. unfold raw_put. f_equal. apply map_eq. intros k.
  destruct (decide (k = id)) as [->|Hk].
  - by rewrite lookup_alter_eq, lookup_insert_eq, Hr.
  - by rewrite lookup_alter_ne, lookup_insert_ne by done.
Qed.

Lemma set_status_evolves st e l r :
  (RawRow.status r ≠ StatusPending → st ≠ StatusPending) →
  row_evolves r (set_status st e l r).
Proof. intros Hst. unfold row_evolves. cbn. split_ands; (done || lia). Qed.

Lemma set_status_ok st e l r :
  row_ok r → RawRow.status r ≠ StatusPending → st ≠ StatusPending →
  (st = StatusProcessing → is_Some l) → row_ok (set_status st e l r).
Proof.
  intros [Hr _ Hc _] Hne Hst Hl. split; cbn; try done. by intros _; apply Hc.
Qed.

Context `{Oracle}.

Lemma claim_evolves lease t db ev db' :
  db_inv norm db → sql_claim lease t db = Ok (Some ev, db') →
  evolves db db' ∧ db_inv norm db' ∧
  ∃ r', raw_events db' !! RawEvent.ID ev = Some r' ∧ RawRow.status r' ≠ StatusPending ∧
    1 ≤ RawEvent.Attempts ev ∧ RawEvent.Attempts ev = RawRow.attempts r' ∧
    RawEvent.Payload ev = RawRow.raw_payload r' ∧
    (∀ r, raw_events db !! RawEvent.ID ev = Some r → RawRow.attempts r < RawEvent.Attempts ev).
Proof.
  intros Hinv. unfold sql_claim. destruct (pick _ _) as [[id r]|] eqn:Hp; [|done].
  apply pick_elem, oldest_spec in Hp as [(Hcl & _ & Hr)%candidates_spec _].
  destruct (Z.ltb_spec int4_max (RawRow.attempts r + 1)); [done|]. intros [= <- <-]. cbn.
  pose proof (inv_row _ _ Hinv _ _ Hr) as [[Hlo Hhi] _ _ _].
  assert (row_evolves r (lease_row (clock t) lease r)) as Hrow.
  { unfold row_evolves. cbn. split_ands; (done || lia). }
  split; [by eapply raw_put_evolves|]. split.
  - eapply raw_put_inv; [done..| |done]. split; cbn; try done; lia.
  - exists (lease_row (clock t) lease r). rewrite lookup_insert_eq. cbn.
    split_ands; try done; [lia|]. intros r0 Hr0. rewrite Hr in Hr0. simplify_eq. lia.
Qed.

Lemma insert_raw_step {OL : OracleLaws H} hash payload source t db a db' :
  db_inv norm db → sql_insert_raw hash payload source t db = Ok (a, db') →
  evolves db db' ∧ db_inv norm db'.
Proof.
  intros Hinv Hi. apply insert_raw_ok in Hi as [(_ & -> & _)|(json & _ & _ & Hf & Hn & ->)].
  { by split. }
  split; [by apply raw_new_evolves|]. apply raw_new_inv; (done || apply uuid_canonical).
Qed.

(** Ack, Retry and Fail, by a worker that holds the event. *)
Lemma finish_step cfg job o delay t db a db' :
  db_inv norm db → task_ok norm db (Task job (AtFinish o)) →
  sql_finish cfg job o delay t db = Ok (a, db') →
  evolves db db' ∧ db_inv norm db'.
Proof.
  intros Hinv (r & Hr & Hne & _ & Hp & Hpc). cbn in *.
  pose proof (inv_row _ _ Hinv _ _ Hr) as Hok.
  assert (∀ st e l, st ≠ StatusPending → (st = StatusProcessing → is_Some l) →
    (st = StatusProcessed → effected norm db (Job.ID job) (RawRow.raw_payload r)) →
    evolves db (raw_put (Job.ID job) (set_status st e l r) db) ∧
    db_inv norm (raw_put (Job.ID job) (set_status st e l r) db)) as Hput.
  { intros st e l Hst Hl Hd. split.
    - by eapply raw_put_evolves; [|apply set_status_evolves].
    - eapply raw_put_inv; [done|done|by apply set_status_evolves|by apply set_status_ok|done]. }
  unfold sql_finish, sql_mark_processed, sql_fail, sql_reschedule.
  destruct o as [err|].
  - repeat case_match; try done; intros Hu; eapply update_raw_put in Hu as ->; try done;
      apply Hput; try done. by intros Hst; apply (inv_done _ _ Hinv).
  - intros Hu. eapply update_raw_put in Hu as ->; try done. apply Hput; try done.
    intros _. by rewrite <-Hp.
Qed.
End raw_rows.
