(* ===== verification/Trace.v ===== *)
(** * Executable traces of the transition system

    A schedule is a list of moves, each at a time; [play] runs it and skips what
    is not possible. Everything [play] reaches is reachable, so a claim about a
    concrete history (a witness, a counterexample) is a computation. *)

From S2P Require Import Prelude GoErrors Utf8 GoStrings Model Llm Normalize Database.
From S2P Require Import Instances StoreRaw StoreFacts Queue Worker Processor System.
Local Open Scope Z_scope.

Inductive move : Type :=
  | Ingest (hash payload source : string)
  | Claims (worker : nat)
  | Calls (worker : nat)                    (** the model, or the next write *)
  | Crashes (worker : nat).

Section trace.
Context `{UnicodeTables, Postgres, Client} {O : Oracle} {OL : OracleLaws O}.
Context (norm : Normalizer) (cfg : PgQueue.Config).

(** A statement that runs and is reported. *)
Definition reported {A} (f : Statement A) (t : nat) (db : DB) : result error A * DB :=
  match f t db with
  | Ok (a, db') => (Ok a, db')
  | Err e => (Err e, db)
  end.

Lemma reported_ran {A} (f : Statement A) t db :
  ran f db (fst (reported f t db)) (snd (reported f t db)).
Proof.
  unfold reported. destruct (f t db) as [[a db']|e] eqn:Hf; cbn; [by eapply ran_ok|constructor].
Qed.

(** What worker [i] does next. *)
Definition advance (t : nat) (i : nat) (s : Sys) : Sys :=
  match s_tasks s !! i with
  | None => s
  | Some (Task job AtLLM) =>
    mkSys (s_db s) (<[i := Task job (after_llm norm (Normalize t (Job.Payload job)))]> (s_tasks s))
  | Some (Task job (AtFact n m v)) =>
    let '(r, db') := reported (sql_insert_normalized (Job.ID job) n m v) t (s_db s) in
    mkSys db' (<[i := Task job (after_fact n r)]> (s_tasks s))
  | Some (Task job (AtProject n)) =>
    let '(r, db') := reported (sql_project n) t (s_db s) in
    mkSys db' (<[i := Task job (after_project r)]> (s_tasks s))
  | Some (Task job (AtFinish o)) =>
    mkSys (snd (reported (sql_finish cfg job o (PgQueue.BaseBackoff cfg)) t (s_db s)))
          (delete i (s_tasks s))
  end.

Definition play1 (p : nat * move) (s : Sys) : Sys :=
  let t := fst p in
  match snd p with
  | Ingest hash payload source =>
    mkSys (snd (reported (sql_insert_raw hash payload source) t (s_db s))) (s_tasks s)
  | Claims i =>
    match s_tasks s !! i with
    | Some _ => s
    | None =>
      let '(r, db') := reported (sql_claim (PgQueue.Lease cfg)) t (s_db s) in
      mkSys db' (match r with
                 | Ok (Some ev) => <[i := claimed ev]> (s_tasks s)
                 | _ => s_tasks s
                 end)
    end
  | Calls i => advance t i s
  | Crashes i => mkSys (s_db s) (delete i (s_tasks s))
  end.

Definition play (l : list (nat * move)) (s : Sys) : Sys := foldl (λ s p, play1 p s) s l.

Lemma advance_steps t i s : rtc (step norm cfg) s (advance t i s).
Proof using OL.
  unfold advance. destruct s as [db tasks]; cbn.
  destruct (tasks !! i) as [[job p]|] eqn:Hi; [|done].
  destruct p as [|n m v|n|o]; [by apply rtc_once; eapply taken_step, step_llm|..].
  - destruct (reported _ t db) as [r db'] eqn:Hr. apply rtc_once. eapply taken_step, step_fact; [done|].
    pose proof (reported_ran (sql_insert_normalized (Job.ID job) n m v) t db) as Hran.
    by rewrite Hr in Hran.
  - destruct (reported _ t db) as [r db'] eqn:Hr. apply rtc_once. eapply taken_step, step_project; [done|].
    pose proof (reported_ran (sql_project n) t db) as Hran. by rewrite Hr in Hran.
  - apply rtc_once. eapply taken_step, step_finish; [done|apply reported_ran].
Qed.

(** The step a move is. *)
Lemma play1_ingest t hash payload source s :
  taken norm cfg Web s (play1 (t, Ingest hash payload source) s).
Proof using OL.
  destruct s as [db tasks]. eapply step_ingest; [done|apply reported_ran].
Qed.

Lemma play1_claim t i s :
  s_tasks s !! i = None → taken norm cfg (Slot i) s (play1 (t, Claims i) s).
Proof using OL.
  destruct s as [db tasks]; cbn. intros Hi. rewrite Hi.
  destruct (reported _ t db) as [r db'] eqn:Hr. eapply step_claim; [done|].
  pose proof (reported_ran (sql_claim (PgQueue.Lease cfg)) t db) as Hran.
  by rewrite Hr in Hran.
Qed.

Lemma play1_steps p s : rtc (step norm cfg) s (play1 p s).
Proof using OL.
  destruct p as [t [hash payload source|i|i|i]].
  - eapply rtc_once, taken_step, play1_ingest.
  - destruct (s_tasks s !! i) eqn:Hi; [by cbn; rewrite Hi|].
    by eapply rtc_once, taken_step, play1_claim.
  - apply advance_steps.
  - destruct s. eapply rtc_once, taken_step, step_crash.
Qed.

Lemma play_steps l s : rtc (step norm cfg) s (play l s).
Proof using OL.
  revert s. induction l as [|p l IH]; intros s; cbn; [done|].
  etrans; [apply play1_steps|apply IH].
Qed.

Lemma play_reachable l : reachable norm cfg (play l initial).
Proof using OL. apply play_steps. Qed.
End trace.

(** ** A sample service *)

Definition sample_cfg : PgQueue.Config :=
  PgQueue.NewPostgres (PgQueue.mkConfig 0 0 0 0 0).

(** A model that always gives the same answer. *)
Definition sample_client : Client := λ _ _, Ok (Result.mk shipment_answer "mock" "v1").

Lemma calm_laws : @OracleLaws sample_postgres calm.
Proof. by intros t. Qed.

(** One event, from the webhook to PROCESSED. *)
Definition one_event : list (nat * move) :=
  [(0%nat, Ingest "h1" "{}" "acme"); (1%nat, Claims 0); (2%nat, Calls 0);
   (3%nat, Calls 0); (4%nat, Calls 0); (5%nat, Calls 0)].

Definition sample_play (C : Client) : list (nat * move) → Sys → Sys :=
  @play latin1_tables sample_postgres C calm floor_0_6 sample_cfg.

Lemma sample_reachable (C : Client) l :
  @reachable latin1_tables sample_postgres C floor_0_6 sample_cfg (sample_play C l initial).
Proof. apply (@play_reachable latin1_tables sample_postgres C calm calm_laws). Qed.

Example one_event_processed :
  RawRow.status <$> raw_events (s_db (sample_play sample_client one_event initial)) !! "id-0"
  = Some StatusProcessed.
Proof. vm_compute. reflexivity. Qed.
