(* ===== verification/Safety.v ===== *)
(** * Every reachable state satisfies the invariant

    The statements that write facts and entities, then one case per kind of step
    of System.v, then the induction; and what follows for the properties a reader
    of the tables and a worker depend on. *)

From S2P Require Import Prelude GoErrors Utf8 GoStrings Model Llm Normalize Database.
From S2P Require Import Instances StoreRaw RawFacts StoreFacts Queue Worker Processor.
From S2P Require Import System Invariants.
Local Open Scope Z_scope.

Section safety.
Context {U : UnicodeTables} {UL : UnicodeLaws U} {P : Postgres} {C : Client}.
Context (norm : Normalizer) (cfg : PgQueue.Config).

(** ** Facts *)

Lemma fact_new_evolves id f db :
  normalized_events db !! id = None →
  evolves db (set_facts (<[id := f]> (normalized_events db)) db).
Proof.
  intros Hn. split; cbn.
  - intros i r Hr. exists r. by split.
  - intros i g Hg. rewrite lookup_insert_ne; [done|congruence].
  - intros k e He. exists e. by split.
Qed.

Lemma fact_step `{Oracle} job n m v t db a db' :
  db_inv norm db → task_ok norm db (Task job (AtFact n m v)) →
  sql_insert_normalized (Job.ID job) n m v t db = Ok (a, db') →
  evolves db db' ∧ db_inv norm db' ∧ is_Some (normalized_events db' !! Job.ID job).
Proof.
  intros Hinv (r & Hr & _ & _ & Hp & Hans). cbn in Hr, Hp, Hans.
  unfold sql_insert_normalized. rewrite (inv_id _ _ Hinv _ _ Hr).
  destruct (negb _); [done|]. destruct (char3_param _) as [c|] eqn:Hc; cbn; [|done].
  destruct (negb _); [done|]. rewrite Hr.
  destruct (normalized_events db !! Job.ID job) as [f|] eqn:Hf; intros [= _ <-].
  { by split_ands. }
  pose proof (fact_new_evolves _ (fact_row n c m v (clock t)) _ Hf) as Hev.
  split_ands; [done| |cbn; rewrite lookup_insert_eq; by eexists].
  split; cbn; try apply Hinv.
  - intros i g. rewrite lookup_insert_Some. intros [[<- <-]|[_ Hg]].
    + exists r, n, m, v, c, (clock t). by rewrite <-Hp.
    + by apply (inv_fact _ _ Hinv).
  - intros i ri Hi Hst. eapply effected_evolves; [exact Hev|]. by eapply (inv_done _ _ Hinv).
Qed.

(** ** Entities *)

Lemma entity_put k e' db :
  db_inv norm db → entity_ok k e' →
  (∀ e, entities db !! k = Some e → entity_evolves e e') →
  evolves db (set_entities (<[k := e']> (entities db)) db) ∧
  db_inv norm (set_entities (<[k := e']> (entities db)) db).
Proof.
  intros Hinv Hok Hrow.
  assert (evolves db (set_entities (<[k := e']> (entities db)) db)) as Hev.
  { split; cbn.
    - intros i r Hr. exists r. by split.
    - done.
    - intros k2 e He. destruct (decide (k2 = k)) as [->|Hne].
      + exists e'. rewrite lookup_insert_eq. split; [done|by apply Hrow].
      + exists e. rewrite lookup_insert_ne by done. by split. }
  split; [exact Hev|]. split; cbn; try apply Hinv.
  - intros i ri Hi Hst. eapply effected_evolves; [exact Hev|]. by eapply (inv_done _ _ Hinv).
  - intros k2 e. rewrite lookup_insert_Some. intros [[<- <-]|[_ He]]; [done|].
    by apply (inv_entity _ _ Hinv).
Qed.

Lemma shipment_upsert_ok k state et now row :
  IsShipmentState state = true → k ≠ "" → CanonicalKey k = k →
  (∀ e, row = Some e → entity_ok k e) →
  let e' := shipment_upsert state (ShipmentRank state) et now row in
  entity_ok k e' ∧ ShipmentRank state ≤ EntityRow.current_rank e' ∧
  ∀ e, row = Some e → entity_evolves e e'.
Proof.
  intros Hs Hk Hck Hrow. unfold shipment_upsert. destruct row as [e|]; cbn.
  - specialize (Hrow e eq_refl). destruct (Z.ltb_spec (EntityRow.current_rank e) (ShipmentRank state)).
    + split_ands; [|cbn; lia|].
      * destruct Hrow as [_ _ Ht Hsh Hm _]. split; cbn; try done; try (by left).
        intros HT. destruct (Hsh HT) as (_ & ? & ?). by split.
      * intros e0 [= ->]. unfold entity_evolves. cbn -[ShipmentRank].
        split_ands; [done|done|lia|]. apply rtc_once. right.
        destruct Hrow as [<- _ _ _ _ _]. done.
    + split_ands; [done|lia|]. by intros e0 [= ->].
  - split_ands; [|lia|done]. split; cbn; try done; try (by left). 
Qed.

Lemma char3_pair amount currency c :
  money_coherent amount currency → char3_param currency = Ok c →
  (is_Some amount ↔ is_Some c).
Proof.
  unfold char3_param, NULLIF_empty, money_coherent. destruct amount as [a|].
  - intros (_ & Hl & _). rewrite decide_False by (by intros ->).
    destruct (pg_char3 currency); [|done]. intros [= <-]. by split; intros _; eexists.
  - intros ->. intros [= <-]. by split; intros [? ?].
Qed.

Lemma COALESCE_pair {A B} (a a' : option A) (b b' : option B) :
  (is_Some a ↔ is_Some b) → (is_Some a' ↔ is_Some b') →
  (is_Some (COALESCE a a') ↔ is_Some (COALESCE b b')).
Proof. rewrite <-!not_eq_None_Some. destruct a, b; cbn; naive_solver. Qed.

Lemma invoice_state_rank s : IsInvoiceState s = true → ShipmentRank s = 0.
Proof. intros Hs%IsInvoiceState_cases. by destruct Hs as [->|[->|[->| ->]]]. Qed.

Lemma invoice_upsert_ok k state et amount c now row :
  IsInvoiceState state = true → k ≠ "" → CanonicalKey k = k →
  (is_Some amount ↔ is_Some c) → (∀ e, row = Some e → entity_ok k e) →
  let e' := invoice_upsert state et amount c now row in
  entity_ok k e' ∧ ∀ e, row = Some e → entity_evolves e e'.
Proof.
  intros Hs Hk Hck Hmc Hrow. unfold invoice_upsert. destruct row as [e|]; cbn.
  - specialize (Hrow e eq_refl). destruct (InvoiceTransitionAllowed _ _) eqn:Hta.
    + split.
      * destruct Hrow as [Hr Hst Ht Hsh Hm _].
        assert (IsInvoiceState (EntityRow.current_state e) = true) as Hi.
        { apply InvoiceTransitionAllowed_cases in Hta. apply IsInvoiceState_cases. tauto. }
        assert (EntityRow.current_rank e = ShipmentRank state) as Hrk.
        { by rewrite Hr, (invoice_state_rank _ Hi), (invoice_state_rank _ Hs). }
        split; cbn -[ShipmentRank]; try done.
        -- by right.
        -- intros HT. destruct (Hsh HT) as [Hship _]. apply shipment_not_invoice in Hship. congruence.
        -- by apply COALESCE_pair.
      * intros e0 [= ->]. unfold entity_evolves. cbn.
        split_ands; [done..|]. apply rtc_once. by left.
    + split; [done|]. by intros e0 [= ->].
  - split; [|done]. split; cbn -[ShipmentRank]; try done; try (by right).
    by rewrite invoice_state_rank.
Qed.

Lemma answered_coherent payload n m v : answered norm payload n m v → coherent n.
Proof. intros (k & res & _ & Ha & _). by eapply Apply_coherent_aux. Qed.

Lemma project_step `{Oracle} n t db a db' :
  db_inv norm db → coherent n → sql_project n t db = Ok (a, db') →
  evolves db db' ∧ db_inv norm db' ∧ applied db' n.
Proof.
  intros Hinv Hn. unfold sql_project, applied.
  destruct Hn as [Hc _ _ _ _|Hc Hs Hk Hck _ _|Hc Hs Hk Hck Hm]; rewrite Hc.
  - cbn. intros [= _ <-]. by split_ands.
  - rewrite decide_True by done. unfold sql_apply_shipment.
    destruct (negb _); [done|]. destruct (_ || _); [done|]. intros [= _ <-].
    destruct (shipment_upsert_ok (Normalized.EntityKey n) _
      (pg_timestamptz <$> Normalized.EventTime n) (clock t)
      (entities db !! Normalized.EntityKey n) Hs Hk Hck
      (λ e He, inv_entity _ _ Hinv _ _ He)) as (Hok & Hr & Hev).
    destruct (entity_put _ _ _ Hinv Hok Hev) as [? ?]. split_ands; try done.
    intros _. cbn. rewrite lookup_insert_eq. by eexists.
  - rewrite decide_False, decide_True by done.
    intros Hsql. pose proof (sql_apply_invoice_past _ _ _ _ _ _ _ _ _ Hsql) as Hpast.
    apply sql_apply_invoice_ok in Hsql.
    destruct Hsql as [->|(c & Hc3 & ->)].
    + by split_ands.
    + destruct (invoice_upsert_ok (Normalized.EntityKey n) _
        (pg_timestamptz <$> Normalized.EventTime n) (Normalized.AmountMinor n) c (clock t)
        (entities db !! Normalized.EntityKey n) Hs Hk Hck (char3_pair _ _ _ Hm Hc3)
        (λ e He, inv_entity _ _ Hinv _ _ He)) as (Hok & Hev).
      destruct (entity_put _ _ _ Hinv Hok Hev) as [? ?]. by split_ands.
Qed.

(** ** Steps *)

(** What every success of a statement establishes, a run of it establishes. *)
Lemma ran_post {A} (f : Statement A) db r db' (Q : DB → Prop) :
  ran f db r db' → Q db → (∀ t a d, f t db = Ok (a, d) → Q d) → Q db'.
Proof. intros Hrun H0 Hf. destruct Hrun; eauto. Qed.

Lemma ran_Ok {A} (f : Statement A) db a db' :
  ran f db (Ok a) db' → ∃ t, f t db = Ok (a, db').
Proof. inversion 1; eauto. Qed.

Lemma ran_grows {A} (f : Statement A) db r db' :
  db_inv norm db → ran f db r db' →
  (∀ t a d, f t db = Ok (a, d) → evolves db d ∧ db_inv norm d) →
  evolves db db' ∧ db_inv norm db'.
Proof.
  intros Hinv Hrun. apply (ran_post _ _ _ _ (λ d, evolves db d ∧ db_inv norm d) Hrun).
  by split.
Qed.

Lemma fenced_move i job p q tasks :
  fenced tasks → tasks !! i = Some (Task job p) → fenced (<[i := Task job q]> tasks).
Proof.
  intros Hf Hi j k tj tk. rewrite !lookup_insert_Some.
  intros [[<- <-]|[? Hj]] [[<- <-]|[? Hk]] Hid Hatt; cbn in *; try done.
  - by apply (Hf i k (Task job p) tk).
  - by apply (Hf j i tj (Task job p)).
  - by eapply Hf.
Qed.

Lemma fenced_delete i tasks : fenced tasks → fenced (delete i tasks).
Proof.
  intros Hf j k tj tk. rewrite !lookup_delete_Some. intros [_ ?] [_ ?]. by eapply Hf.
Qed.

(** The tables grew and worker [i] went on to [p]. *)
Lemma sys_move i job p q db db' tasks :
  sys_inv norm (mkSys db tasks) → tasks !! i = Some (Task job p) →
  evolves db db' ∧ db_inv norm db' → pc_ok norm db' (Job.ID job) (Job.Payload job) q →
  evolves db db' ∧ sys_inv norm (mkSys db' (<[i := Task job q]> tasks)).
Proof.
  intros [_ Ht Hf] Hi [Hev Hdb] Hpc. split; [done|].
  split; [done| |by eapply fenced_move]. cbn. intros j t.
  rewrite lookup_insert_Some. intros [[<- <-]|[_ Hj]].
  - destruct (task_ok_evolves _ _ _ _ Hev (Ht _ _ Hi)) as (r & ? & ? & ? & ? & _).
    by exists r.
  - eapply task_ok_evolves; [exact Hev|]. by apply (Ht j).
Qed.

(** The tables grew and worker [i] is gone. *)
Lemma sys_done i db db' tasks :
  sys_inv norm (mkSys db tasks) → evolves db db' ∧ db_inv norm db' →
  evolves db db' ∧ sys_inv norm (mkSys db' (delete i tasks)).
Proof.
  intros [_ Ht Hf] [Hev Hdb]. split; [done|].
  split; [done| |by apply fenced_delete]. cbn. intros j t [_ Hj]%lookup_delete_Some.
  eapply task_ok_evolves; [exact Hev|]. by apply (Ht j).
Qed.

Lemma sys_same db db' tasks :
  sys_inv norm (mkSys db tasks) → evolves db db' ∧ db_inv norm db' →
  evolves db db' ∧ sys_inv norm (mkSys db' tasks).
Proof.
  intros [_ Ht Hf] [Hev Hdb]. split; [done|]. split; [done| |done].
  cbn. intros j t Hj. eapply task_ok_evolves; [exact Hev|]. by apply (Ht j).
Qed.

(** A worker that claims gets an attempt number nobody else holds. *)
Lemma sys_claimed `{Oracle} i lease t db ev db' tasks :
  sys_inv norm (mkSys db tasks) → tasks !! i = None →
  sql_claim lease t db = Ok (Some ev, db') →
  evolves db db' ∧ sys_inv norm (mkSys db' (<[i := claimed ev]> tasks)).
Proof.
  intros [Hdb Ht Hf] Hi Hcl.
  destruct (claim_evolves _ _ _ _ _ _ Hdb Hcl)
    as (Hev & Hdb' & r & Hr & Hst & H1 & Hatt & Hpay & Hmax).
  assert (∀ j tj, tasks !! j = Some tj → Job.ID (t_job tj) = RawEvent.ID ev →
            Job.Attempts (t_job tj) < RawEvent.Attempts ev) as Hnew.
  { intros j tj Hj Hid. destruct (Ht j tj Hj) as (r0 & Hr0 & _ & Ha & _). cbn in Hr0.
    rewrite Hid in Hr0. specialize (Hmax _ Hr0). lia. }
  split; [done|]. split; [done| |]; cbn.
  - intros j t'. rewrite lookup_insert_Some. intros [[<- <-]|[_ Hj]].
    + exists r. cbn. split_ands; (done || lia).
    + eapply task_ok_evolves; [exact Hev|]. by apply (Ht j).
  - intros j k tj tk. rewrite !lookup_insert_Some.
    intros [[<- <-]|[? Hj]] [[<- <-]|[? Hk]] Hid Hat; cbn in *; try done.
    + specialize (Hnew _ _ Hk (eq_sym Hid)). lia.
    + specialize (Hnew _ _ Hj Hid). lia.
    + by eapply Hf.
Qed.

Lemma after_llm_ok db id payload k :
  pc_ok norm db id payload (after_llm norm (Normalize k payload)).
Proof.
  unfold after_llm. destruct (Normalize k payload) as [res|err] eqn:Hn; [|done].
  destruct (Apply norm (Result.Response res)) as [n|e] eqn:Ha; [|done]. by exists k, res.
Qed.

Lemma step_sys_inv s s' :
  step norm cfg s s' → sys_inv norm s → evolves (s_db s) (s_db s') ∧ sys_inv norm s'.
Proof.
  intros Hstep Hinv. pose proof (inv_db _ _ Hinv) as Hdb.
  destruct Hstep as [? Hstep]. destruct Hstep as [O hash payload source db tasks r db' OL Hr
    |O i db tasks r db' Hi Hr|i job k db tasks Hi|O i job n m v db tasks r db' Hi Hr
    |O i job n db tasks r db' Hi Hr|O i job o delay db tasks r db' Hi Hr|i db tasks]; cbn in *;
    try pose proof (inv_task _ _ Hinv _ _ Hi) as Hto.
  - apply sys_same; [done|]. eapply ran_grows; [done..|]. intros. by eapply insert_raw_step.
  - assert (evolves db db' ∧ db_inv norm db') as Hgr.
    { eapply ran_grows; [done..|]. intros t [ev|] d Hc; [by edestruct claim_evolves as (?&?&_)|].
      pose proof (claim_spec (PgQueue.Lease cfg) t db) as Hn. rewrite Hc in Hn.
      by destruct Hn as [-> _]. }
    destruct r as [[ev|]|e]; [|by apply sys_same..].
    apply ran_Ok in Hr as [t Ht]. by eapply sys_claimed.
  - eapply sys_move; [done..|]. apply after_llm_ok.
  - assert (evolves db db' ∧ db_inv norm db') as Hgr.
    { eapply ran_grows; [done..|]. intros t [] d Hc. by edestruct fact_step as (?&?&_). }
    eapply sys_move; [done..|]. destruct r as [[]|e]; [|done].
    apply ran_Ok in Hr as [t Hc]. pose proof Hto as (_&_&_&_&_&Hans).
    split; [by edestruct fact_step as (_&_&?)|by exists m, v].
  - destruct Hto as (_&_&_&_&_&Hfact&m&v&Hans). cbn in Hfact, Hans.
    pose proof (answered_coherent _ _ _ _ Hans) as Hco.
    assert (evolves db db' ∧ db_inv norm db') as Hgr.
    { eapply ran_grows; [done..|]. intros t [] d Hc. by edestruct project_step as (?&?&_). }
    eapply sys_move; [done..|]. destruct r as [[]|e]; [|done].
    apply ran_Ok in Hr as [t Hc]. split.
    + destruct Hfact as [f Hf]. exists f. by apply (ev_fact _ _ (proj1 Hgr)).
    + exists n, m, v. split; [done|]. by edestruct project_step as (_&_&?).
  - apply sys_done; [done|]. eapply ran_grows; [done..|]. intros. by eapply finish_step.
  - by apply sys_done.
Qed.

(** ** What makes an event PROCESSED *)

(** A statement that writes a fact or an entity leaves the log alone. *)
Lemma insert_normalized_log `{Oracle} id n m v t db a db' :
  sql_insert_normalized id n m v t db = Ok (a, db') → raw_events db' = raw_events db.
Proof.
  unfold sql_insert_normalized. destruct (pg_uuid id); [|done]. destruct (negb _); [done|].
  destruct (char3_param _); [|done]. cbn. destruct (negb _); [done|].
  destruct (normalized_events db !! _); [by intros [= _ <-]|].
  destruct (raw_events db !! _); [|done]. by intros [= _ <-].
Qed.

Lemma sql_project_log `{Oracle} n t db a db' :
  sql_project n t db = Ok (a, db') → raw_events db' = raw_events db.
Proof.
  unfold sql_project, sql_apply_shipment. destruct (decide _).
  { destruct (negb _); [done|]. destruct (_ || _); [done|]. by intros [= _ <-]. }
  destruct (decide _); [|by intros [= _ <-]].
  by intros [->|(c & _ & ->)]%sql_apply_invoice_ok.
Qed.

Definition is_processed (db : DB) (id : string) : Prop :=
  ∃ r, raw_events db !! id = Some r ∧ RawRow.status r = StatusProcessed.

Lemma ran_processed {A} (f : Statement A) db r db' id :
  ran f db r db' → (∀ t a d, f t db = Ok (a, d) → is_processed d id → is_processed db id) →
  is_processed db' id → is_processed db id.
Proof. destruct 1; naive_solver. Qed.

(** A row that was put there is not the reason, if it is not PROCESSED. *)
Lemma processed_put id0 r0 db id :
  (RawRow.status r0 = StatusProcessed → is_processed db id0) →
  is_processed (raw_put id0 r0 db) id → is_processed db id.
Proof.
  intros Hr0 (r & Hr & Hst). cbn in Hr. apply lookup_insert_Some in Hr as [[<- <-]|[_ Hr]];
    [by apply Hr0|by exists r].
Qed.

Lemma finish_processed `{Oracle} job err delay t db a db' id :
  db_inv norm db → is_Some (raw_events db !! Job.ID job) →
  sql_finish cfg job (Some err) delay t db = Ok (a, db') →
  is_processed db' id → is_processed db id.
Proof.
  intros Hinv [r Hr]. unfold sql_finish, sql_fail, sql_reschedule. intros Hu.
  repeat case_match; try done; eapply update_raw_put in Hu as ->; try done;
    apply processed_put; [done..|]. intros Hst. by exists r.
Qed.

(** An event becomes PROCESSED only by the ack of a worker whose handler succeeded. *)
Lemma step_processed s s' id :
  step norm cfg s s' → sys_inv norm s → is_processed (s_db s') id →
  is_processed (s_db s) id ∨
  ∃ i job, s_tasks s !! i = Some (Task job (AtFinish None)) ∧ Job.ID job = id.
Proof.
  intros [? Hstep] Hinv. pose proof (inv_db _ _ Hinv) as Hdb.
  destruct Hstep as [O hash payload source db tasks r db' OL Hr
    |O i db tasks r db' Hi Hr|i job k db tasks Hi|O i job n m v db tasks r db' Hi Hr
    |O i job n db tasks r db' Hi Hr|O i job o delay db tasks r db' Hi Hr|i db tasks]; cbn in *;
    try (intros; by left).
  - intros Hp. left. revert Hp. eapply ran_processed; [done|].
    intros t a d [(_ & -> & _)|(json & _ & _ & _ & _ & ->)]%insert_raw_ok; [done|].
    by apply processed_put.
  - intros Hp. left. revert Hp. eapply ran_processed; [done|].
    intros t a d Hc. pose proof (claim_spec (PgQueue.Lease cfg) t db) as Hcl. rewrite Hc in Hcl.
    destruct a as [ev|]; [|by destruct Hcl as [-> _]].
    destruct Hcl as (r0 & _ & _ & _ & _ & _ & _ & ->). by apply processed_put.
  - intros Hp. left. revert Hp. eapply ran_processed; [done|].
    intros t a d Hlog%insert_normalized_log. unfold is_processed. by rewrite Hlog.
  - intros Hp. left. revert Hp. eapply ran_processed; [done|].
    intros t a d Hlog%sql_project_log. unfold is_processed. by rewrite Hlog.
  - destruct (inv_task _ _ Hinv _ _ Hi) as (r0 & Hr0 & _). cbn in Hr0.
    destruct o as [err|].
    + intros Hp. left. revert Hp. eapply ran_processed; [done|].
      intros t a d. by apply finish_processed.
    + intros Hp. destruct (decide (Job.ID job = id)) as [He|Hne]; [right; by exists i, job|].
      left. revert Hp. eapply ran_processed; [done|].
      intros t a d Hu. eapply update_raw_put in Hu as ->; [|done..].
      intros (r1 & Hr1 & Hst). cbn in Hr1. rewrite lookup_insert_ne in Hr1 by done. by exists r1.
Qed.

(** A handler succeeds only by a run of its projection that moves the row. *)
Lemma step_handled s s' i job :
  step norm cfg s s' → sys_inv norm s → s_tasks s' !! i = Some (Task job (AtFinish None)) →
  s_tasks s !! i = Some (Task job (AtFinish None)) ∨
  ∃ n, s_tasks s !! i = Some (Task job (AtProject n)) ∧ taken norm cfg (Slot i) s s' ∧
       moved n (s_db s) (s_db s') ∧ applied (s_db s') n.
Proof.
  intros [who Hstep] Hinv. pose proof Hstep as Htaken.
  destruct Hstep as [O hash payload source db tasks r db' OL Hr
    |O j db tasks r db' Hi Hr|j job' k db tasks Hi|O j job' n m v db tasks r db' Hi Hr
    |O j job' n db tasks r db' Hi Hr|O j job' o delay db tasks r db' Hi Hr|j db tasks]; cbn in *;
    try (intros; by left).
  - destruct r as [[ev|]|e]; [|by left..]. rewrite lookup_insert_Some. intros [[_ ?]|[_ ?]]; [done|by left].
  - rewrite lookup_insert_Some. intros [[_ Ht]|[_ ?]]; [|by left]. exfalso. injection Ht as _ Ht.
    unfold after_llm in Ht. repeat case_match; done.
  - rewrite lookup_insert_Some. intros [[_ Ht]|[_ ?]]; [|by left]. exfalso. injection Ht as _ Ht.
    unfold after_fact in Ht. by case_match.
  - rewrite lookup_insert_Some. intros [[<- Ht]|[_ ?]]; [|by left]. right. injection Ht as -> Ht.
    exists n. split; [done|]. split; [done|]. destruct r as [[]|e]; [|done].
    apply ran_Ok in Hr as [t Hc]. split; [by eapply sql_project_moved|].
    destruct (inv_task _ _ Hinv _ _ Hi) as (_ & _ & _ & _ & _ & _ & m & v & Ha%answered_coherent).
    by destruct (project_step _ _ _ _ _ (inv_db _ _ Hinv) Ha Hc) as (_ & _ & ?).
  - rewrite lookup_delete_Some. intros [_ ?]. by left.
  - rewrite lookup_delete_Some. intros [_ ?]. by left.
Qed.

Lemma initial_sys_inv : sys_inv norm initial.
Proof.
  split; [|done..]. by split; cbn; try done; intros i j ri rj Hi.
Qed.

Lemma steps_sys_inv s s' :
  rtc (step norm cfg) s s' → sys_inv norm s → evolves (s_db s) (s_db s') ∧ sys_inv norm s'.
Proof.
  induction 1 as [|x y z Hs _ IH]; [done|]. intros Hx.
  destruct (step_sys_inv _ _ Hs Hx) as [? Hy]. destruct (IH Hy). split; [by etrans|done].
Qed.

Lemma reachable_sys_inv s : reachable norm cfg s → sys_inv norm s.
Proof. intros Hr. apply (steps_sys_inv _ _ Hr), initial_sys_inv. Qed.
End safety.
