(* ===== verification/Guarantees.v ===== *)
(** * What the service guarantees, whatever the interleaving and the failures

    The consequences of the invariant of Invariants.v for the reader of the
    tables: every event that is PROCESSED has its fact and its effect, facts came
    through the gate, nothing is lost or rewritten, an entity only moves along its
    lifecycle, and no attempt at an event is held twice. *)

From S2P Require Import Prelude GoErrors Utf8 GoStrings Model Llm Normalize Database.
From S2P Require Import Instances StoreRaw RawFacts StoreFacts Queue Worker Processor.
From S2P Require Import System Invariants Trace Safety.
Local Open Scope Z_scope.

Section guarantees.
Context {U : UnicodeTables} {UL : UnicodeLaws U} {P : Postgres} {C : Client}.
Context (norm : Normalizer) (cfg : PgQueue.Config).

Lemma answered_deterministic payload n1 m1 v1 n2 m2 v2 :
  (∀ j k p, Normalize j p = Normalize k p) →
  answered norm payload n1 m1 v1 → answered norm payload n2 m2 v2 → n1 = n2.
Proof.
  intros Hdet (j & r1 & Hr1 & Ha1 & _) (k & r2 & Hr2 & Ha2 & _).
  rewrite (Hdet j k) in Hr1. congruence.
Qed.

(** Between [s0] and [s] a worker that held the event [id] ran the projection of [n]
    for it, and this moved the row of its key. *)
Definition took_effect (s0 s : Sys) (id : string) (n : Normalized.t) : Prop :=
  ∃ i job s1 s2, rtc (step norm cfg) s0 s1 ∧ Job.ID job = id ∧
    s_tasks s1 !! i = Some (Task job (AtProject n)) ∧ taken norm cfg (Slot i) s1 s2 ∧
    moved n (s_db s1) (s_db s2) ∧ applied (s_db s2) n ∧ rtc (step norm cfg) s2 s.

Lemma took_effect_step s0 s s' id n :
  took_effect s0 s id n → step norm cfg s s' → took_effect s0 s' id n.
Proof.
  intros (i & job & s1 & s2 & ? & ? & ? & ? & ? & ? & ?) Hs. exists i, job, s1, s2.
  split_ands; try done. by eapply rtc_r.
Qed.

Lemma processed_took_effect s0 s id :
  reachable norm cfg s0 → raw_events (s_db s0) !! id = None → rtc (step norm cfg) s0 s →
  (is_processed (s_db s) id → ∃ n, took_effect s0 s id n) ∧
  (∀ i job, s_tasks s !! i = Some (Task job (AtFinish None)) → Job.ID job = id →
     ∃ n, took_effect s0 s id n).
Proof.
  intros Hs0 Hnew Hrun. revert s Hrun.
  refine (rtc_ind_r (λ s, (is_processed (s_db s) id → _) ∧ ∀ i job, s_tasks s !! i = _ → _ → _)
            s0 _ _); [|intros s s' Hrun Hs [IHdone IHtask]].
  - split; [intros (r & Hr & _); congruence|]. intros i job Hi <-.
    destruct (inv_task _ _ (reachable_sys_inv _ _ _ Hs0) _ _ Hi) as (r & Hr & _). cbn in Hr. congruence.
  - assert (sys_inv norm s) as Hinv by (eapply reachable_sys_inv; unfold reachable in *; by etrans).
    split.
    + intros [H|(i & job & Hi & Hid)]%(step_processed norm cfg s s' id Hs Hinv);
        [destruct (IHdone H) as [n Hn]|destruct (IHtask i job Hi Hid) as [n Hn]];
        exists n; by eapply took_effect_step.
    + intros i job Hi Hid. destruct (step_handled _ _ _ _ _ _ Hs Hinv Hi) as [H|(n & Hat & Ht & Hm & Ha)].
      * destruct (IHtask i job H Hid) as [n Hn]. exists n. by eapply took_effect_step.
      * exists n, i, job, s, s'. by split_ands.
Qed.

Lemma NULLIF_nonempty s : s ≠ "" → NULLIF_empty s = Some s.
Proof. intros. unfold NULLIF_empty. by rewrite decide_False. Qed.

Lemma state_move_delivered s : rtc state_move StateDelivered s → s = StateDelivered.
Proof.
  remember StateDelivered as d eqn:Hd. induction 1 as [|x y z Hm _ IH]; [done|]. subst.
  exfalso. destruct Hm as [[[? _]|[? _]]%InvoiceTransitionAllowed_cases|Hr]; [done..|].
  pose proof (ShipmentRank_range y). change (ShipmentRank StateDelivered) with 4 in Hr. lia.
Qed.

Lemma shipment_nonempty s : IsShipmentState s = true → s ≠ "".
Proof. intros Hs%IsShipmentState_cases. by destruct Hs as [->|[->|[->| ->]]]. Qed.

Lemma invoice_nonempty s : IsInvoiceState s = true → s ≠ "".
Proof. intros Hs%IsInvoiceState_cases. by destruct Hs as [->|[->|[->| ->]]]. Qed.
End guarantees.

(** ** Properties *)

(** C1. No acknowledgement without effect. Take any run of the service, with any
    interleaving of ingest handlers and workers and with statements that fail, lose
    their reports or die half way, from a state in which an event has not arrived to
    one in which it is PROCESSED. Then it has its fact, and in between a worker that
    held it ran the projection of an answer of the model to its payload that passed the
    gate. By this step the row of the key is in the state of the answer, unless there
    was a row that the answer does not move (a shipment of a rank not below the
    answer's, or an invoice in a state from which the transition table does not lead to
    the answer's), whose state stays. At the end of the run the entity is still there: a
    shipment's rank is at least that of the answer's state; an invoice's state is the
    answer's, or one from which the table does not lead to it, or was reached from such
    a state along the lifecycles. An UNCLASSIFIED answer has no entity. *)
Theorem processed_has_effect {U : UnicodeTables} {UL : UnicodeLaws U} {P : Postgres}
    {C : Client} norm cfg s0 s id r :
  reachable norm cfg s0 → raw_events (s_db s0) !! id = None → rtc (step norm cfg) s0 s →
  raw_events (s_db s) !! id = Some r → RawRow.status r = StatusProcessed →
  is_Some (normalized_events (s_db s) !! id) ∧
  ∃ n m v i job s1 s2, answered norm (RawRow.raw_payload r) n m v ∧
    rtc (step norm cfg) s0 s1 ∧ Job.ID job = id ∧
    s_tasks s1 !! i = Some (Task job (AtProject n)) ∧ taken norm cfg (Slot i) s1 s2 ∧
    moved n (s_db s1) (s_db s2) ∧ rtc (step norm cfg) s2 s ∧ applied (s_db s) n.
Proof.
  intros Hs0 Hnew Hrun Hr Hst.
  assert (sys_inv norm s) as Hinv by (eapply reachable_sys_inv; unfold reachable in *; by etrans).
  split; [by destruct (inv_done _ _ (inv_db _ _ Hinv) _ _ Hr Hst)|].
  destruct (proj1 (processed_took_effect norm cfg s0 s id Hs0 Hnew Hrun)) as
    (n & i & job & s1 & s2 & H1 & Hid & Hat & Ht & Hm & Ha & H2); [by exists r|].
  assert (sys_inv norm s1) as Hinv1 by (eapply reachable_sys_inv; unfold reachable in *; by etrans).
  destruct (inv_task _ _ Hinv1 _ _ Hat) as (r1 & Hr1 & _ & _ & Hpay & _ & m & v & Hans).
  cbn in Hr1, Hpay, Hans. rewrite Hid in Hr1.
  assert (rtc (step norm cfg) s1 s) as H12 by (eapply rtc_l; [by eapply taken_step|done]).
  destruct (steps_sys_inv _ _ _ _ H12 Hinv1) as [Hev _].
  destruct (ev_raw _ _ Hev _ _ Hr1) as (r' & Hr' & _ & Hp & _).
  rewrite Hr in Hr'. injection Hr' as <-. exists n, m, v, i, job, s1, s2.
  rewrite Hp, <-Hpay. split_ands; try done. eapply applied_evolves; [|exact Ha].
  eapply steps_sys_inv; [exact H2|]. eapply reachable_sys_inv. unfold reachable in *.
  etrans; [exact Hs0|]. etrans; [exact H1|]. apply rtc_once. by eapply taken_step.
Qed.

(** With a model that answers the same payload the same way, facts and
    projections agree: in every reachable state, a PROCESSED event whose fact is a
    shipment has an entity under the fact's key whose rank is at least the rank of
    the fact's state, and one whose fact is an invoice has an entity under its
    key that is past the fact's state or past one the table does not leave for it. *)
Theorem processed_fact_projected {U : UnicodeTables} {UL : UnicodeLaws U} {P : Postgres}
    {C : Client} norm cfg s id r f :
  (∀ j k p, Normalize j p = Normalize k p) →
  reachable norm cfg s → raw_events (s_db s) !! id = Some r →
  RawRow.status r = StatusProcessed → normalized_events (s_db s) !! id = Some f →
  (FactRow.classification f = ClassShipment →
     ∃ k st e, FactRow.entity_key f = Some k ∧ FactRow.canonical_state f = Some st ∧
       entities (s_db s) !! k = Some e ∧ ShipmentRank st ≤ EntityRow.current_rank e) ∧
  (FactRow.classification f = ClassInvoice →
     ∃ k st e, FactRow.entity_key f = Some k ∧ FactRow.canonical_state f = Some st ∧
       entities (s_db s) !! k = Some e ∧ invoice_past st (EntityRow.current_state e)).
Proof.
  intros Hdet Hs Hr Hst Hf. pose proof (inv_db _ _ (reachable_sys_inv _ _ _ Hs)) as Hdb.
  destruct (inv_fact _ _ Hdb _ _ Hf) as (r1 & n1 & m1 & v1 & c & now & Hr1 & Ha1 & _ & ->).
  destruct (inv_done _ _ Hdb _ _ Hr Hst) as (_ & n2 & m2 & v2 & Ha2 & Hship & Hinv).
  rewrite Hr in Hr1. injection Hr1 as <-.
  pose proof (answered_deterministic norm _ _ _ _ _ _ _ Hdet Ha1 Ha2) as ->.
  pose proof (answered_coherent _ _ _ _ _ Ha2) as Hco. cbn. split; intros Hc.
  - destruct (Hship Hc) as (e & He & Hrank).
    destruct Hco as [Hc'|_ Hs2 Hk|Hc']; [by rewrite Hc in Hc'| |by rewrite Hc in Hc'].
    exists (Normalized.EntityKey n2), (Normalized.CanonicalState n2), e.
    by rewrite !NULLIF_nonempty by (done || by apply shipment_nonempty).
  - destruct (Hinv Hc) as (e & He & Hpast).
    destruct Hco as [Hc'|Hc'|_ Hs2 Hk]; [by rewrite Hc in Hc'..|].
    exists (Normalized.EntityKey n2), (Normalized.CanonicalState n2), e.
    by rewrite !NULLIF_nonempty by (done || by apply invoice_nonempty).
Qed.

(** C11. Every fact in the table, in every reachable state, is what the validation
    gate made of an answer of the model to the payload of its event, and is
    coherent. *)
Theorem facts_are_gated {U : UnicodeTables} {UL : UnicodeLaws U} {P : Postgres}
    {C : Client} norm cfg s id f :
  reachable norm cfg s → normalized_events (s_db s) !! id = Some f →
  ∃ r n k res c now, raw_events (s_db s) !! id = Some r ∧
    Normalize k (RawRow.raw_payload r) = Ok res ∧ Apply norm (Result.Response res) = Ok n ∧
    coherent n ∧ char3_param (Normalized.Currency n) = Ok c ∧
    f = fact_row n c (Result.Model res) (Result.PromptVer res) now.
Proof.
  intros Hs Hf. pose proof (inv_db _ _ (reachable_sys_inv _ _ _ Hs)) as Hdb.
  destruct (inv_fact _ _ Hdb _ _ Hf) as (r & n & m & v & c & now & Hr & Ha & Hc & ->).
  pose proof (answered_coherent _ _ _ _ _ Ha) as Hco.
  destruct Ha as (k & res & ? & ? & <- & <-). by exists r, n, k, res, c, now.
Qed.

(** C10. History is never rewritten: along any run from a reachable state, no event,
    fact or entity disappears; an event keeps its payload, hash, source and arrival
    time, its attempts never go down and it never becomes PENDING again; a fact
    never changes at all; an entity keeps its type, its rank never goes down and
    its state moves only along the invoice table or up the shipment order. *)
Theorem history_preserved {U : UnicodeTables} {UL : UnicodeLaws U} {P : Postgres}
    {C : Client} norm cfg s s' :
  reachable norm cfg s → rtc (step norm cfg) s s' → evolves (s_db s) (s_db s').
Proof. intros Hs Hsteps. by eapply steps_sys_inv, reachable_sys_inv. Qed.

(** C28. DELIVERED is final: once the entity of a key is DELIVERED, no later event,
    duplicate, retry or stale worker takes it anywhere else. *)
Theorem delivered_is_final {U : UnicodeTables} {UL : UnicodeLaws U} {P : Postgres}
    {C : Client} norm cfg s s' k e :
  reachable norm cfg s → rtc (step norm cfg) s s' →
  entities (s_db s) !! k = Some e → EntityRow.current_state e = StateDelivered →
  ∃ e', entities (s_db s') !! k = Some e' ∧ EntityRow.current_state e' = StateDelivered.
Proof.
  intros Hs Hsteps He Hd.
  destruct (steps_sys_inv _ _ _ _ Hsteps (reachable_sys_inv _ _ _ Hs)) as [Hev _].
  destruct (ev_entity _ _ Hev _ _ He) as (e' & He' & _ & _ & _ & Hm).
  exists e'. split; [done|]. rewrite Hd in Hm. by apply state_move_delivered.
Qed.

(** Attempt numbers fence workers: in every reachable state, no two busy
    workers hold the same event under the same attempt number, and the attempt a
    worker holds is one the event has had. *)
Theorem attempts_fence {U : UnicodeTables} {UL : UnicodeLaws U} {P : Postgres}
    {C : Client} norm cfg s i j ti tj :
  reachable norm cfg s → s_tasks s !! i = Some ti → s_tasks s !! j = Some tj →
  Job.ID (t_job ti) = Job.ID (t_job tj) →
  (Job.Attempts (t_job ti) = Job.Attempts (t_job tj) → i = j) ∧
  ∃ r, raw_events (s_db s) !! Job.ID (t_job ti) = Some r ∧
       1 ≤ Job.Attempts (t_job ti) ≤ RawRow.attempts r.
Proof.
  intros Hs Hi Hj Hid. pose proof (reachable_sys_inv _ _ _ Hs) as Hinv. split.
  - by apply (inv_fenced _ _ Hinv).
  - destruct (inv_task _ _ Hinv _ _ Hi) as (r & ? & _ & ? & _). by exists r.
Qed.

(** C29. No event is stranded: in every reachable state, an event that is neither
    PROCESSED nor FAILED is one a worker may claim from some time on; in particular
    a PROCESSING row always has a lease that runs out. *)
Theorem no_event_stranded {U : UnicodeTables} {UL : UnicodeLaws U} {P : Postgres}
    {C : Client} norm cfg s id r :
  reachable norm cfg s → raw_events (s_db s) !! id = Some r →
  RawRow.status r ≠ StatusProcessed → RawRow.status r ≠ StatusFailed →
  ∃ until, ∀ now, until < now → claimable now r = true.
Proof.
  intros Hs Hr Hp Hf. pose proof (inv_db _ _ (reachable_sys_inv _ _ _ Hs)) as Hdb.
  pose proof (ok_leased _ (inv_row _ _ Hdb _ _ Hr)) as Hl. unfold claimable.
  destruct (RawRow.status r); try done; [by exists 0|].
  destruct (Hl eq_refl) as [l ->]. exists l. intros now. by apply Z.ltb_lt.
Qed.

(** C30. The tables are well formed in every reachable state: two events never share
    a payload hash; attempts are int4s, at least one on every claimed row; a
    PENDING row has no lease, attempt or error; an entity's key is canonical and
    not empty, its rank is the rank of its state, a shipment has a shipment state
    and no money, and amount and currency come together. *)
Theorem tables_well_formed {U : UnicodeTables} {UL : UnicodeLaws U} {P : Postgres}
    {C : Client} norm cfg s :
  reachable norm cfg s →
  hash_unique (s_db s) ∧
  (∀ id r, raw_events (s_db s) !! id = Some r → row_ok r) ∧
  (∀ k e, entities (s_db s) !! k = Some e → entity_ok k e).
Proof.
  intros Hs. pose proof (inv_db _ _ (reachable_sys_inv _ _ _ Hs)) as Hdb.
  split_ands; apply Hdb.
Qed.

(** ** Witnesses: one event through the sample service *)

Section witnesses.
Local Existing Instances latin1_tables latin1_laws sample_postgres sample_client.

Definition sample (l : list (nat * move)) : Sys := sample_play sample_client l initial.
Definition sample_reached l : reachable floor_0_6 sample_cfg (sample l) :=
  sample_reachable sample_client l.

(** The event and its fact at the end of [one_event]. *)
Definition the_row : RawRow.t :=
  RawRow.mk "h1" "{}" (Some "acme") StatusProcessed 1 None None 0.
Definition the_fact : FactRow.t :=
  fact_row shipment_fact None "mock" "v1" 180000000000.
Definition the_entity : EntityRow.t :=
  new_shipment StateInTransit 2 (Some 1776782820000000000) 240000000000.

Lemma processed_has_effect_witness :
  ∃ n i job s1 s2, rtc (step floor_0_6 sample_cfg) initial s1 ∧ Job.ID job = "id-0" ∧
    s_tasks s1 !! i = Some (Task job (AtProject n)) ∧
    taken floor_0_6 sample_cfg (Slot i) s1 s2 ∧ moved n (s_db s1) (s_db s2) ∧
    rtc (step floor_0_6 sample_cfg) s2 (sample one_event) ∧ applied (s_db (sample one_event)) n.
Proof.
  destruct (processed_has_effect floor_0_6 sample_cfg initial (sample one_event) "id-0" the_row)
    as (_ & n & _ & _ & i & job & s1 & s2 & _ & H); [apply rtc_refl|done|apply sample_reached|
    vm_compute; reflexivity|reflexivity|].
  exists n, i, job, s1, s2. exact H.
Defined.

Lemma processed_fact_projected_witness :
  ∃ k st e, FactRow.entity_key the_fact = Some k ∧
    FactRow.canonical_state the_fact = Some st ∧
    entities (s_db (sample one_event)) !! k = Some e ∧
    ShipmentRank st ≤ EntityRow.current_rank e.
Proof.
  apply (processed_fact_projected floor_0_6 sample_cfg (sample one_event) "id-0" the_row the_fact).
  - reflexivity.
  - apply sample_reached.
  - vm_compute. reflexivity.
  - reflexivity.
  - vm_compute. reflexivity.
  - reflexivity.
Defined.

Lemma facts_are_gated_witness :
  ∃ r n k res c now, raw_events (s_db (sample one_event)) !! "id-0" = Some r ∧
    Normalize k (RawRow.raw_payload r) = Ok res ∧
    Apply floor_0_6 (Result.Response res) = Ok n ∧
    coherent n ∧ char3_param (Normalized.Currency n) = Ok c ∧
    the_fact = fact_row n c (Result.Model res) (Result.PromptVer res) now.
Proof.
  apply (facts_are_gated floor_0_6 sample_cfg (sample one_event) "id-0" the_fact).
  - apply sample_reached.
  - vm_compute. reflexivity.
Defined.

Lemma history_preserved_witness :
  evolves (s_db (sample (take 2 one_event))) (s_db (sample one_event)).
Proof.
  apply (history_preserved floor_0_6 sample_cfg).
  - apply sample_reached.
  - apply (@play_steps latin1_tables sample_postgres sample_client calm calm_laws floor_0_6
             sample_cfg (drop 2 one_event)).
Defined.

Lemma attempts_fence_witness :
  ∃ r, raw_events (s_db (sample (take 2 one_event))) !! "id-0" = Some r ∧
       1 ≤ 1 ≤ RawRow.attempts r.
Proof.
  apply (attempts_fence floor_0_6 sample_cfg (sample (take 2 one_event)) 0 0
           (Task (Job.mk "id-0" "{}" 1) AtLLM) (Task (Job.mk "id-0" "{}" 1) AtLLM)).
  - apply sample_reached.
  - vm_compute. reflexivity.
  - vm_compute. reflexivity.
  - reflexivity.
Defined.

Lemma no_event_stranded_witness :
  ∃ until, ∀ now, until < now →
    claimable now (RawRow.mk "h1" "{}" (Some "acme") StatusProcessing 1 None
                     (Some 90000000000) 0) = true.
Proof.
  apply (no_event_stranded floor_0_6 sample_cfg (sample (take 2 one_event)) "id-0").
  - apply sample_reached.
  - vm_compute. reflexivity.
  - discriminate.
  - discriminate.
Defined.

Lemma tables_well_formed_witness :
  hash_unique (s_db (sample one_event)) ∧
  (∀ id r, raw_events (s_db (sample one_event)) !! id = Some r → row_ok r) ∧
  (∀ k e, entities (s_db (sample one_event)) !! k = Some e → entity_ok k e).
Proof. apply (tables_well_formed floor_0_6 sample_cfg), sample_reached. Defined.
End witnesses.

Section delivered.
Local Existing Instances latin1_tables latin1_laws sample_postgres.

(** A model that says DELIVERED at first and IN_TRANSIT later. *)
#[local] Instance forgetful_client : Client := λ k _,
  Ok (Result.mk (Response.mk "SHIPMENT" "box1" (if (k <? 5)%nat then "DELIVERED" else "IN_TRANSIT")
                   "" None "" "" conf_0_95) "mock" "v1").

Definition later_event : list (nat * move) :=
  [(6%nat, Ingest "h2" "[]" ""); (7%nat, Claims 0); (8%nat, Calls 0);
   (9%nat, Calls 0); (10%nat, Calls 0); (11%nat, Calls 0)].

Lemma delivered_is_final_witness :
  ∃ e', entities (s_db (sample_play forgetful_client later_event
                        (sample_play forgetful_client one_event initial)))
          !! "BOX1" = Some e' ∧ EntityRow.current_state e' = StateDelivered.
Proof.
  apply (delivered_is_final floor_0_6 sample_cfg (sample_play forgetful_client one_event initial)
           _ _ (new_shipment StateDelivered 4 None 240000000000)).
  - apply sample_reachable.
  - exact (@play_steps latin1_tables sample_postgres forgetful_client calm calm_laws floor_0_6
             sample_cfg later_event (sample_play forgetful_client one_event initial)).
  - vm_compute. reflexivity.
  - reflexivity.
Defined.
End delivered.
