(* ===== verification/Provenance.v ===== *)
(** * Where an entity comes from

    The projection read against the facts. Nothing in the table of entities is made
    up: the state, the type and the money of a row were each in an answer of the
    model that passed the gate, for an event of that key whose fact is stored. And for
    shipments the projection is a function of the facts: once the events of a key are
    processed, its state is the furthest of the states in its facts, so any two runs
    over the same payloads end alike. *)

From S2P Require Import Prelude GoErrors Utf8 GoStrings Model Llm Normalize Database.
From S2P Require Import Instances StoreRaw RawFacts StoreFacts Queue Worker Processor.
From S2P Require Import System Invariants Trace Safety.
Local Open Scope Z_scope.

Section provenance.
Context {U : UnicodeTables} {UL : UnicodeLaws U} {P : Postgres} {C : Client}.
Context (norm : Normalizer) (cfg : PgQueue.Config).

(** ** Answers behind a row *)

(** [n] is what the gate made of an answer to an event of the log that has its fact,
    and is about the entity of [k]. *)
Definition reported (db : DB) (k : string) (n : Normalized.t) : Prop :=
  ∃ id r m v, raw_events db !! id = Some r ∧ is_Some (normalized_events db !! id) ∧
    answered norm (RawRow.raw_payload r) n m v ∧ Normalized.EntityKey n = k ∧
    (Normalized.Classification n = ClassShipment ∨ Normalized.Classification n = ClassInvoice).

(** The state and the event time are of one answer, the amount and the currency are of
    one answer, and the type is of one. *)
Record row_sourced (db : DB) (k : string) (e : EntityRow.t) : Prop := {
  src_state : ∃ n, reported db k n ∧ Normalized.CanonicalState n = EntityRow.current_state e ∧
    EntityRow.last_event_time e = pg_timestamptz <$> Normalized.EventTime n;
  src_money a : EntityRow.amount_minor e = Some a →
    ∃ n, reported db k n ∧ Normalized.Classification n = ClassInvoice ∧
      Normalized.AmountMinor n = Some a ∧
      char3_param (Normalized.Currency n) = Ok (EntityRow.currency e);
  src_type : ∃ n, reported db k n ∧ Normalized.Classification n = EntityRow.type_ e
}.

Definition sourced (db : DB) : Prop :=
  ∀ k e, entities db !! k = Some e → row_sourced db k e.

Lemma reported_evolves db db' k n : evolves db db' → reported db k n → reported db' k n.
Proof using.
  intros Hev (id & r & m & v & Hr & [f Hf] & Ha & Hk & Hc).
  destruct (ev_raw _ _ Hev _ _ Hr) as (r' & Hr' & _ & Hpay & _).
  exists id, r', m, v. rewrite Hpay. split_ands; try done.
  exists f. by apply (ev_fact _ _ Hev).
Qed.

Lemma row_sourced_evolves db db' k e : evolves db db' → row_sourced db k e → row_sourced db' k e.
Proof using.
  intros Hev [(n & Hn & Hs) Hm (n' & Hn' & Ht)]. pose proof (reported_evolves db db' k) as Hrep.
  split.
  - exists n. split; [by apply Hrep|done].
  - intros a Ha. destruct (Hm a Ha) as (n2 & Hn2 & ?). exists n2. split; [by apply Hrep|done].
  - exists n'. split; [by apply Hrep|done].
Qed.

(** ** What a projection writes *)

Lemma shipment_upsert_sourced db k n now row :
  reported db k n → Normalized.Classification n = ClassShipment →
  (∀ e, row = Some e → row_sourced db k e) →
  row_sourced db k (shipment_upsert (Normalized.CanonicalState n)
    (ShipmentRank (Normalized.CanonicalState n)) (pg_timestamptz <$> Normalized.EventTime n) now row).
Proof using.
  intros Hn Hc Hrow. unfold shipment_upsert. destruct row as [e|].
  - destruct (Hrow e eq_refl) as [Hs Hm Ht].
    destruct (EntityRow.current_rank e <? _); [|by split]. split; [by exists n|exact Hm|exact Ht].
  - split; [by exists n|done|by exists n].
Qed.

Lemma invoice_upsert_sourced db k n c now row :
  reported db k n → Normalized.Classification n = ClassInvoice → coherent n →
  char3_param (Normalized.Currency n) = Ok c → (∀ e, row = Some e → row_sourced db k e) →
  row_sourced db k (invoice_upsert (Normalized.CanonicalState n)
    (pg_timestamptz <$> Normalized.EventTime n) (Normalized.AmountMinor n) c now row).
Proof using.
  intros Hn Hc Hco Hc3 Hrow.
  assert (is_Some (Normalized.AmountMinor n) ↔ is_Some c) as Hpair.
  { destruct Hco as [H|H|_ _ _ _ Hm]; [by rewrite Hc in H..|]. by eapply char3_pair. }
  unfold invoice_upsert. destruct row as [e|].
  - destruct (Hrow e eq_refl) as [Hs Hm Ht]. destruct (InvoiceTransitionAllowed _ _); [|by split].
    split; [by exists n| |exact Ht]. cbn. intros a Ha.
    destruct (Normalized.AmountMinor n) as [a'|] eqn:Hamt; cbn in Ha.
    + injection Ha as ->. destruct (proj1 Hpair ltac:(by eexists)) as [c' ->]. by exists n.
    + destruct c as [c'|]; [by destruct (proj2 Hpair ltac:(by eexists))|]. by apply Hm.
  - split; [by exists n| |by exists n]. cbn. intros a Ha. by exists n.
Qed.

Lemma entity_put_sourced db k e :
  sourced db → row_sourced db k e →
  evolves db (set_entities (<[k := e]> (entities db)) db) →
  sourced (set_entities (<[k := e]> (entities db)) db).
Proof using.
  intros Hs He Hev k2 e2. cbn. rewrite lookup_insert_Some. intros [[<- <-]|[_ Hk2]];
    (eapply row_sourced_evolves; [exact Hev|]); [done|by apply Hs].
Qed.

(** The projection of an event that has its fact. *)
Lemma project_sourced `{Oracle} n t db a db' :
  db_inv norm db → coherent n → sourced db →
  (Normalized.Classification n ≠ ClassUnclassified → reported db (Normalized.EntityKey n) n) →
  sql_project n t db = Ok (a, db') → sourced db'.
Proof using UL.
  intros Hinv Hn Hs Hrep Hsql.
  destruct (project_step norm n t db a db' Hinv Hn Hsql) as (Hev & _).
  unfold sql_project in Hsql. destruct (decide (_ = ClassShipment)) as [Hc|_];
    [|destruct (decide (_ = ClassInvoice)) as [Hc|_]].
  - unfold sql_apply_shipment in Hsql. destruct (negb _); [done|]. destruct (_ || _); [done|].
    injection Hsql as _ <-. apply entity_put_sourced; [done| |done].
    apply shipment_upsert_sourced; [apply Hrep; by rewrite Hc|done|]. intros e He. by apply Hs.
  - apply sql_apply_invoice_ok in Hsql as [->|(c & Hc3 & ->)]; [done|].
    apply entity_put_sourced; [done| |done].
    apply invoice_upsert_sourced; [apply Hrep; by rewrite Hc|done..|]. intros e He. by apply Hs.
  - by injection Hsql as _ <-.
Qed.

(** ** Every step *)

(** The statements that write no entity. *)
Lemma same_entities_sourced db db' :
  evolves db db' → entities db' = entities db → sourced db → sourced db'.
Proof using.
  intros Hev He Hs k e Hk. rewrite He in Hk. eapply row_sourced_evolves; [exact Hev|by apply Hs].
Qed.

Lemma ran_entities {A} (f : Statement A) db r db' :
  ran f db r db' → (∀ t a d, f t db = Ok (a, d) → entities d = entities db) →
  entities db' = entities db.
Proof using. intros Hrun Hf. by apply (ran_post _ _ _ _ (λ d, entities d = entities db) Hrun). Qed.

Lemma finish_entities `{Oracle} job o delay t db a d :
  sql_finish cfg job o delay t db = Ok (a, d) → entities d = entities db.
Proof using.
  unfold sql_finish, sql_mark_processed, sql_fail, sql_reschedule, update_raw.
  intros Hu. repeat case_match; by simplify_eq.
Qed.

Lemma step_sourced s s' :
  sys_inv norm s → sourced (s_db s) → step norm cfg s s' → sourced (s_db s').
Proof using UL.
  intros Hinv Hs Hstep. destruct (step_sys_inv _ _ _ _ Hstep Hinv) as [Hev _].
  destruct Hstep as [? Hstep]. destruct Hstep as [O hash payload source db tasks r db' OL Hr
    |O i db tasks r db' Hi Hr|i job k db tasks Hi|O i job n m v db tasks r db' Hi Hr
    |O i job n db tasks r db' Hi Hr|O i job o delay db tasks r db' Hi Hr|i db tasks]; cbn in *;
    try done.
  - apply (same_entities_sourced db); [done| |done].
    apply (ran_entities _ _ _ _ Hr). intros t a d. unfold sql_insert_raw. intros.
    repeat case_match; by simplify_eq.
  - apply (same_entities_sourced db); [done| |done].
    apply (ran_entities _ _ _ _ Hr). intros t a d. unfold sql_claim. intros.
    repeat case_match; by simplify_eq.
  - apply (same_entities_sourced db); [done| |done].
    apply (ran_entities _ _ _ _ Hr). intros t a d. unfold sql_insert_normalized.
    destruct (pg_uuid _); [|done]. destruct (negb _); [done|]. destruct (char3_param _); cbn; [|done].
    intros. repeat case_match; by simplify_eq.
  - destruct (inv_task _ _ Hinv _ _ Hi) as (row & Hrow & _ & _ & Hp & Hfact & m & v & Hans).
    cbn in Hrow, Hp, Hfact, Hans. pose proof (answered_coherent _ _ _ _ _ Hans) as Hco.
    apply (ran_post _ _ _ _ sourced Hr); [done|]. intros t a d Hsql.
    eapply (project_sourced n); [apply (inv_db _ _ Hinv)|done|done| |exact Hsql].
    intros Hc. exists (Job.ID job), row, m, v. rewrite <-Hp. split_ands; try done.
    destruct Hco as [Hu|Hu _ _ _ _ _|Hu _ _ _ _]; [by rewrite Hu in Hc|by left|by right].
  - apply (same_entities_sourced db); [done| |done].
    apply (ran_entities _ _ _ _ Hr). intros t a d. apply finish_entities.
Qed.

Lemma reachable_sourced s : reachable norm cfg s → sourced (s_db s).
Proof using UL.
  apply (rtc_ind_r (λ s, sourced (s_db s)) initial); [by intros k e|].
  intros s1 s2 Hs1 Hstep IH. eapply step_sourced; [|done|done]. by eapply reachable_sys_inv.
Qed.
End provenance.

(** ** The projection of the facts *)

(** The facts of a key, and the furthest state in them. *)
Definition facts_about (k : string) (db : DB) : list FactRow.t :=
  filter (λ f, FactRow.entity_key f = Some k) (snd <$> map_to_list (normalized_events db)).

Fixpoint furthest (l : list FactRow.t) : option string :=
  match l with
  | [] => None
  | f :: l' =>
    match FactRow.canonical_state f, furthest l' with
    | Some st, Some st' => Some (if ShipmentRank st' <? ShipmentRank st then st else st')
    | Some st, None => Some st
    | None, best => best
    end
  end.

Lemma facts_about_spec k db f :
  f ∈ facts_about k db ↔
  FactRow.entity_key f = Some k ∧ ∃ id, normalized_events db !! id = Some f.
Proof.
  unfold facts_about. rewrite list_elem_of_filter, list_elem_of_fmap. split.
  - intros [Hk ([id g] & -> & Hg%elem_of_map_to_list)]. split; [done|]. by exists id.
  - intros [Hk [id Hf]]. split; [done|]. exists (id, f). split; [done|]. by apply elem_of_map_to_list.
Qed.

Lemma furthest_spec l :
  (∀ f, f ∈ l → is_Some (FactRow.canonical_state f)) →
  match furthest l with
  | None => l = []
  | Some st => (∃ f, f ∈ l ∧ FactRow.canonical_state f = Some st) ∧
      ∀ f st', f ∈ l → FactRow.canonical_state f = Some st' → ShipmentRank st' ≤ ShipmentRank st
  end.
Proof.
  induction l as [|f l IH]; intros Hall; [done|]. cbn -[ShipmentRank].
  destruct (Hall f) as [st Hst]; [by left|]. rewrite Hst.
  specialize (IH ltac:(intros g Hg; apply Hall; by right)).
  destruct (furthest l) as [st'|]; [|subst l].
  - destruct IH as [(g & Hg & Hgs) Hmax]. destruct (Z.ltb_spec (ShipmentRank st') (ShipmentRank st)).
    + split; [exists f; split; [by left|done]|]. intros g' s [->|Hg']%elem_of_cons Hs.
      * simplify_eq. lia.
      * specialize (Hmax g' s Hg' Hs). lia.
    + split; [exists g; split; [by right|done]|]. intros g' s [->|Hg']%elem_of_cons Hs.
      * simplify_eq. lia.
      * by eapply Hmax.
  - split; [exists f; split; [by left|done]|].
    intros g s [->|[]%not_elem_of_nil]%elem_of_cons Hs. simplify_eq. lia.
Qed.

(** With a model that answers alike, what a row was reported from is in a fact. *)
Lemma reported_fact {U : UnicodeTables} {UL : UnicodeLaws U} {P : Postgres} {C : Client}
    norm db k n :
  (∀ i j p, Normalize i p = Normalize j p) → db_inv norm db → reported norm db k n →
  ∃ id r c m v now, raw_events db !! id = Some r ∧ answered norm (RawRow.raw_payload r) n m v ∧
    normalized_events db !! id = Some (fact_row n c m v now).
Proof.
  intros Hdet Hinv (id & r & m & v & Hr & [f Hf] & (i & res & Hn & Hg & _) & _).
  destruct (inv_fact _ _ Hinv _ _ Hf)
    as (r' & n' & m' & v' & c & now & Hr' & (j & res' & Hn' & Hg' & Hm' & Hv') & _ & ->).
  assert (r' = r) as -> by congruence. rewrite (Hdet j i) in Hn'.
  assert (n' = n) as -> by congruence.
  exists id, r, c, m', v', now. split; [done|]. split; [|done]. exists i, res. split_ands; congruence.
Qed.

(** A PROCESSED fact of a shipment under [k] says what its entity is at or past. *)
Lemma fact_below {U : UnicodeTables} {UL : UnicodeLaws U} {P : Postgres} {C : Client}
    norm db k id r f :
  (∀ i j p, Normalize i p = Normalize j p) → db_inv norm db →
  raw_events db !! id = Some r → RawRow.status r = StatusProcessed →
  normalized_events db !! id = Some f → FactRow.entity_key f = Some k →
  FactRow.classification f = ClassShipment →
  ∃ st e, FactRow.canonical_state f = Some st ∧ IsShipmentState st = true ∧
    entities db !! k = Some e ∧ ShipmentRank st ≤ EntityRow.current_rank e.
Proof.
  intros Hdet Hinv Hr Hst Hf Hk Hc.
  destruct (inv_fact _ _ Hinv _ _ Hf) as (r' & n & m & v & c & now & Hr' & Ha & _ & ->).
  assert (r' = r) as -> by congruence.
  destruct (inv_done _ _ Hinv _ _ Hr Hst) as (_ & n2 & m2 & v2 & (j & res2 & Hn2 & Hg2 & _) & Hship & _).
  pose proof (answered_coherent _ _ _ _ _ Ha) as Hco.
  destruct Ha as (i & res & Hn & Hg & _). rewrite (Hdet j i) in Hn2.
  assert (n2 = n) as -> by congruence. cbn in Hc, Hk.
  destruct (Hship Hc) as (e & He & Hrank).
  destruct Hco as [Hu|_ Hs Hne _ _ _|Hu _ _ _ _]; [by rewrite Hu in Hc| |by rewrite Hu in Hc].
  unfold NULLIF_empty in Hk. rewrite decide_False in Hk by done. injection Hk as <-.
  exists (Normalized.CanonicalState n), e. cbn. unfold NULLIF_empty.
  rewrite decide_False by (intros Hz; by rewrite Hz in Hs). done.
Qed.

(** The state of an entity is in one of the facts of its key. *)
Lemma entity_has_fact {U : UnicodeTables} {UL : UnicodeLaws U} {P : Postgres} {C : Client}
    norm db k e :
  (∀ i j p, Normalize i p = Normalize j p) → db_inv norm db → row_sourced norm db k e →
  ∃ f, f ∈ facts_about k db ∧ FactRow.canonical_state f = Some (EntityRow.current_state e).
Proof.
  intros Hdet Hinv [(n & Hn & Hst & _) _ _]. pose proof Hn as (_ & _ & _ & _ & _ & _ & _ & Hnk & Hcl).
  destruct (reported_fact norm db k n Hdet Hinv Hn) as (id & r & c & m & v & now & _ & Ha & Hf).
  assert (Normalized.EntityKey n ≠ "" ∧ Normalized.CanonicalState n ≠ "") as [Hne Hns].
  { destruct (answered_coherent _ _ _ _ _ Ha) as [Hu|_ Hs ? _ _ _|_ Hs ? _ _].
    - rewrite Hu in Hcl. by destruct Hcl.
    - split; [done|]. intros Hz. by rewrite Hz in Hs.
    - split; [done|]. intros Hz. by rewrite Hz in Hs. }
  exists (fact_row n c m v now). rewrite facts_about_spec. cbn. unfold NULLIF_empty.
  rewrite !decide_False, Hnk, Hst by done. split; [|done]. split; [done|by exists id].
Qed.

(** The entity of a key whose facts are processed shipments. *)
Lemma projection_furthest {U : UnicodeTables} {UL : UnicodeLaws U} {P : Postgres}
    {C : Client} norm cfg s k :
  (∀ i j p, Normalize i p = Normalize j p) → reachable norm cfg s →
  (∀ id f, normalized_events (s_db s) !! id = Some f → FactRow.entity_key f = Some k →
     FactRow.classification f = ClassShipment ∧
     ∃ r, raw_events (s_db s) !! id = Some r ∧ RawRow.status r = StatusProcessed) →
  EntityRow.current_state <$> entities (s_db s) !! k = furthest (facts_about k (s_db s)).
Proof.
  intros Hdet Hs Hdone. pose proof (inv_db _ _ (reachable_sys_inv _ _ _ Hs)) as Hinv.
  set (db := s_db s) in *.
  assert (∀ f, f ∈ facts_about k db → ∃ st e, FactRow.canonical_state f = Some st ∧
    IsShipmentState st = true ∧ entities db !! k = Some e ∧
    ShipmentRank st ≤ EntityRow.current_rank e) as Hbelow.
  { intros f [Hk [id Hf]]%facts_about_spec. destruct (Hdone id f Hf Hk) as (Hc & r & Hr & Hst).
    by eapply fact_below. }
  pose proof (furthest_spec (facts_about k db)) as Hbest.
  specialize (Hbest ltac:(intros f Hf; destruct (Hbelow f Hf) as (? & ? & ? & _); by eexists)).
  destruct (entities db !! k) as [e|] eqn:He; cbn.
  - destruct (entity_has_fact norm db k e Hdet Hinv) as (f & Hf & Hfs);
      [by apply (reachable_sourced norm cfg s Hs)|].
    destruct (furthest _) as [best|]; [|rewrite Hbest in Hf; by apply not_elem_of_nil in Hf].
    destruct Hbest as [(g & Hg & Hgs) Hmax]. specialize (Hmax f _ Hf Hfs).
    destruct (Hbelow f Hf) as (st & e' & Hst & Hsh & _). rewrite Hfs in Hst. injection Hst as <-.
    destruct (Hbelow g Hg) as (st' & e2 & Hst' & Hsh' & [= <-] & Hle).
    rewrite Hgs in Hst'. injection Hst' as <-.
    rewrite (ok_rank _ _ (inv_entity _ _ Hinv _ _ He)) in Hle. f_equal.
    apply ShipmentRank_inj; [done..|lia].
  - destruct (furthest _) as [best|]; [|done]. destruct Hbest as [(g & Hg & _) _].
    by destruct (Hbelow g Hg) as (? & ? & _ & _ & ? & _).
Qed.

Definition holds_payload (db : DB) (p : string) : Prop :=
  ∃ id r, raw_events db !! id = Some r ∧ RawRow.raw_payload r = p.
Definition all_processed (db : DB) : Prop :=
  ∀ id r, raw_events db !! id = Some r → RawRow.status r = StatusProcessed.

(** The facts of two logs with the same payloads say the same. *)
Lemma fact_elsewhere {U : UnicodeTables} {UL : UnicodeLaws U} {P : Postgres} {C : Client}
    norm db1 db2 id f :
  (∀ i j p, Normalize i p = Normalize j p) → db_inv norm db1 → db_inv norm db2 →
  all_processed db2 → (∀ p, holds_payload db1 p → holds_payload db2 p) →
  normalized_events db1 !! id = Some f →
  ∃ j g, normalized_events db2 !! j = Some g ∧
    FactRow.classification g = FactRow.classification f ∧
    FactRow.entity_key g = FactRow.entity_key f ∧
    FactRow.canonical_state g = FactRow.canonical_state f.
Proof.
  intros Hdet Hinv1 Hinv2 Hdone Hsame Hf.
  destruct (inv_fact _ _ Hinv1 _ _ Hf) as (r1 & n1 & m1 & v1 & c1 & now1 & Hr1 & (i & res1 & Hn1 & Hg1 & _) & _ & ->).
  destruct (Hsame (RawRow.raw_payload r1)) as (j & r2 & Hr2 & Hpay); [by exists id, r1|].
  destruct (inv_done _ _ Hinv2 _ _ Hr2 (Hdone _ _ Hr2)) as ([g Hg] & _).
  destruct (inv_fact _ _ Hinv2 _ _ Hg) as (r & n2 & m2 & v2 & c2 & now2 & Hr & (k & res2 & Hn2 & Hg2 & _) & _ & ->).
  assert (r = r2) as -> by congruence. rewrite Hpay, (Hdet k i) in Hn2.
  assert (n2 = n1) as -> by congruence. do 2 eexists. by split_ands.
Qed.

Lemma facts_elsewhere {U : UnicodeTables} {UL : UnicodeLaws U} {P : Postgres} {C : Client}
    norm db1 db2 k f :
  (∀ i j p, Normalize i p = Normalize j p) → db_inv norm db1 → db_inv norm db2 →
  all_processed db2 → (∀ p, holds_payload db1 p → holds_payload db2 p) →
  f ∈ facts_about k db1 →
  ∃ g, g ∈ facts_about k db2 ∧ FactRow.canonical_state g = FactRow.canonical_state f.
Proof.
  intros Hdet I1 I2 Hd Hp [Hk [id Hf]]%facts_about_spec.
  destruct (fact_elsewhere norm db1 db2 id f Hdet I1 I2 Hd Hp Hf) as (j & g & Hg & _ & Hgk & Hgs).
  exists g. rewrite facts_about_spec. split; [|done]. split; [congruence|by exists j].
Qed.

(** Every fact is of an event, so of a PROCESSED one. *)
Lemma fact_processed {U : UnicodeTables} {P : Postgres} {C : Client} norm db id f :
  db_inv norm db → all_processed db → normalized_events db !! id = Some f →
  ∃ r, raw_events db !! id = Some r ∧ RawRow.status r = StatusProcessed.
Proof.
  intros Hinv Hd Hf. destruct (inv_fact _ _ Hinv _ _ Hf) as (r & _ & _ & _ & _ & _ & Hr & _).
  exists r. split; [done|by eapply Hd].
Qed.

Lemma facts_shipment {U : UnicodeTables} {UL : UnicodeLaws U} {P : Postgres} {C : Client}
    norm db k f :
  (∀ i j p, Normalize i p = Normalize j p) → db_inv norm db → all_processed db →
  (∀ id f, normalized_events db !! id = Some f → FactRow.entity_key f = Some k →
     FactRow.classification f = ClassShipment) →
  f ∈ facts_about k db →
  ∃ st, FactRow.canonical_state f = Some st ∧ IsShipmentState st = true.
Proof.
  intros Hdet Hinv Hd Hship [Hk [id Hf]]%facts_about_spec.
  destruct (fact_processed norm db id f Hinv Hd Hf) as (r & Hr & Hst).
  destruct (fact_below norm db k id r f Hdet Hinv Hr Hst Hf Hk (Hship id f Hf Hk)) as (st & _ & ? & ? & _).
  by exists st.
Qed.

(** Lists of facts with the same shipment states have the same furthest state. *)
Lemma furthest_same l1 l2 :
  (∀ f, f ∈ l1 ++ l2 → ∃ st, FactRow.canonical_state f = Some st ∧ IsShipmentState st = true) →
  (∀ f, f ∈ l1 → ∃ g, g ∈ l2 ∧ FactRow.canonical_state g = FactRow.canonical_state f) →
  (∀ g, g ∈ l2 → ∃ f, f ∈ l1 ∧ FactRow.canonical_state f = FactRow.canonical_state g) →
  furthest l1 = furthest l2.
Proof.
  intros Hst H12 H21. pose proof (furthest_spec l1) as F1. pose proof (furthest_spec l2) as F2.
  specialize (F1 ltac:(intros f Hf; destruct (Hst f) as (? & ? & _); [apply elem_of_app; by left|by eexists])).
  specialize (F2 ltac:(intros f Hf; destruct (Hst f) as (? & ? & _); [apply elem_of_app; by right|by eexists])).
  destruct (furthest l1) as [s1|], (furthest l2) as [s2|]; [| | |done].
  - destruct F1 as [(f & Hf & Hfs) M1], F2 as [(g & Hg & Hgs) M2]. f_equal.
    destruct (H12 f Hf) as (g' & Hg' & E1), (H21 g Hg) as (f' & Hf' & E2).
    destruct (Hst f) as (st & E & S1); [apply elem_of_app; by left|].
    destruct (Hst g) as (st' & E' & S2); [apply elem_of_app; by right|].
    assert (st = s1) as -> by congruence. assert (st' = s2) as -> by congruence.
    apply ShipmentRank_inj; [done..|]. apply Z.le_antisymm.
    + apply (M2 g'); [done|congruence].
    + apply (M1 f'); [done|congruence].
  - destruct F1 as [(f & Hf & _) _]. destruct (H12 f Hf) as (g & Hg & _). subst l2.
    by apply not_elem_of_nil in Hg.
  - destruct F2 as [(g & Hg & _) _]. destruct (H21 g Hg) as (f & Hf & _). subst l1.
    by apply not_elem_of_nil in Hf.
Qed.

(** ** Properties *)

(** C12. Nothing in the projection is made up: in every reachable state, the state of
    an entity together with its event time, its amount together with its currency,
    and its type are each what the gate made of an answer of the model to the payload
    of an event that is in the log, names this entity, and has its fact. *)
Theorem entities_are_sourced {U : UnicodeTables} {UL : UnicodeLaws U} {P : Postgres}
    {C : Client} norm cfg s k e :
  reachable norm cfg s → entities (s_db s) !! k = Some e → row_sourced norm (s_db s) k e.
Proof. intros Hs He. by apply (reachable_sourced norm cfg s Hs). Qed.

(** C4. The shipment projection is a function of the facts: with a model that answers
    the same payload the same way, in every reachable state in which the events with
    a fact under a key are PROCESSED and those facts are shipments, the state of the
    entity is the furthest of the states in the facts, and there is no entity if
    there is no fact; so the table could be rebuilt from the facts, and the order,
    the duplicates, the failures and the retries of the run leave no trace in it. *)
Theorem projection_of_facts {U : UnicodeTables} {UL : UnicodeLaws U} {P : Postgres}
    {C : Client} norm cfg s k :
  (∀ i j p, Normalize i p = Normalize j p) → reachable norm cfg s →
  (∀ id f, normalized_events (s_db s) !! id = Some f → FactRow.entity_key f = Some k →
     FactRow.classification f = ClassShipment ∧
     ∃ r, raw_events (s_db s) !! id = Some r ∧ RawRow.status r = StatusProcessed) →
  EntityRow.current_state <$> entities (s_db s) !! k = furthest (facts_about k (s_db s)).
Proof. apply projection_furthest. Qed.

(** C3. Convergence: with a model that answers the same payload the same way, any two
    runs of the service that have accepted the same payloads and PROCESSED them all,
    however they were ordered, interleaved, repeated, interrupted and retried, agree
    on the state of every entity whose facts are shipments. *)
Theorem runs_converge {U : UnicodeTables} {UL : UnicodeLaws U} {P : Postgres} {C : Client}
    norm cfg s1 s2 k :
  (∀ i j p, Normalize i p = Normalize j p) →
  reachable norm cfg s1 → reachable norm cfg s2 →
  all_processed (s_db s1) → all_processed (s_db s2) →
  (∀ p, holds_payload (s_db s1) p ↔ holds_payload (s_db s2) p) →
  (∀ id f, normalized_events (s_db s1) !! id = Some f → FactRow.entity_key f = Some k →
     FactRow.classification f = ClassShipment) →
  EntityRow.current_state <$> entities (s_db s1) !! k
  = EntityRow.current_state <$> entities (s_db s2) !! k.
Proof.
  intros Hdet Hs1 Hs2 Hd1 Hd2 Hsame Hship.
  pose proof (inv_db _ _ (reachable_sys_inv _ _ _ Hs1)) as I1.
  pose proof (inv_db _ _ (reachable_sys_inv _ _ _ Hs2)) as I2.
  assert (∀ p, holds_payload (s_db s1) p → holds_payload (s_db s2) p) as H12 by (intros p; apply Hsame).
  assert (∀ p, holds_payload (s_db s2) p → holds_payload (s_db s1) p) as H21 by (intros p; apply Hsame).
  assert (∀ id f, normalized_events (s_db s2) !! id = Some f → FactRow.entity_key f = Some k →
    FactRow.classification f = ClassShipment) as Hship2.
  { intros id f Hf Hk. destruct (fact_elsewhere _ _ _ _ _ Hdet I2 I1 Hd1 H21 Hf)
      as (j & g & Hg & <- & Hgk & _). apply (Hship j g Hg). congruence. }
  rewrite (projection_furthest norm cfg s1 k Hdet Hs1), (projection_furthest norm cfg s2 k Hdet Hs2).
  - apply furthest_same.
    + intros f [Hf|Hf]%elem_of_app; [by apply (facts_shipment norm (s_db s1) k f Hdet)
                                    |by apply (facts_shipment norm (s_db s2) k f Hdet)].
    + intros f. by apply (facts_elsewhere norm (s_db s1) (s_db s2) k f).
    + intros f. by apply (facts_elsewhere norm (s_db s2) (s_db s1) k f).
  - intros id f Hf Hk. split; [by eapply Hship2|]. by apply (fact_processed norm (s_db s2) id f).
  - intros id f Hf Hk. split; [by eapply Hship|]. by apply (fact_processed norm (s_db s1) id f).
Qed.

(** ** Witnesses *)

Section witnesses.
Local Existing Instances latin1_tables latin1_laws sample_postgres.

(** A model that reads the state of the box out of the payload. *)
#[local] Instance box_client : Client := λ _ p,
  Ok (Result.mk (Response.mk "SHIPMENT" "box1" p "" None "" "" conf_0_95) "mock" "v1").

(** Late, then early, then a worker that dies and one that redoes its work. *)
Definition box_events : list (nat * move) :=
  [(0%nat, Ingest "h1" "OUT_FOR_DELIVERY" ""); (1%nat, Ingest "h2" "PICKED_UP" "");
   (2%nat, Claims 0); (3%nat, Calls 0); (4%nat, Calls 0); (5%nat, Calls 0); (6%nat, Crashes 0);
   (7%nat, Claims 1); (8%nat, Calls 1); (9%nat, Calls 1); (10%nat, Calls 1); (11%nat, Calls 1);
   (12%nat, Claims 0); (13%nat, Calls 0); (14%nat, Calls 0); (15%nat, Calls 0); (16%nat, Calls 0)].
Definition boxed : Sys := sample_play box_client box_events initial.

Lemma boxed_facts :
  Forall (λ p, FactRow.classification (snd p) = ClassShipment ∧
               RawRow.status <$> raw_events (s_db boxed) !! fst p = Some StatusProcessed)
    (map_to_list (normalized_events (s_db boxed))).
Proof. vm_compute. repeat constructor. Qed.

Lemma projection_of_facts_witness :
  EntityRow.current_state <$> entities (s_db boxed) !! "BOX1"
    = furthest (facts_about "BOX1" (s_db boxed)) ∧
  furthest (facts_about "BOX1" (s_db boxed)) = Some StateOutForDelivery.
Proof.
  split; [|vm_compute; reflexivity].
  apply (projection_of_facts floor_0_6 sample_cfg boxed "BOX1").
  - reflexivity.
  - apply sample_reachable.
  - intros id f Hf _. pose proof boxed_facts as Hall. rewrite Forall_forall in Hall.
    destruct (Hall (id, f)) as [Hc Hr]; [by apply elem_of_map_to_list|].
    split; [exact Hc|]. cbn [fst] in Hr.
    destruct (raw_events (s_db boxed) !! id) as [r|]; [|discriminate]. exists r.
    split; [reflexivity|]. by injection Hr.
Defined.

Lemma entities_are_sourced_witness :
  ∃ e, entities (s_db boxed) !! "BOX1" = Some e ∧
    row_sourced floor_0_6 (s_db boxed) "BOX1" e.
Proof.
  destruct (entities (s_db boxed) !! "BOX1") as [e|] eqn:He; [|vm_compute in He; discriminate].
  exists e. split; [reflexivity|].
  apply (entities_are_sourced floor_0_6 sample_cfg boxed "BOX1" e); [apply sample_reachable|exact He].
Defined.
(** The same payloads, in order and undisturbed. *)
Definition boxed_in_order : Sys :=
  sample_play box_client
    [(0%nat, Ingest "h2" "PICKED_UP" ""); (1%nat, Claims 0); (2%nat, Calls 0); (3%nat, Calls 0);
     (4%nat, Calls 0); (5%nat, Calls 0); (6%nat, Ingest "h1" "OUT_FOR_DELIVERY" "");
     (7%nat, Claims 0); (8%nat, Calls 0); (9%nat, Calls 0); (10%nat, Calls 0); (11%nat, Calls 0)]
    initial.

Definition finished_with (l : list string) (db : DB) : Prop :=
  Forall (λ r, RawRow.status r = StatusProcessed ∧ RawRow.raw_payload r ∈ l)
    (snd <$> map_to_list (raw_events db)) ∧
  Forall (λ p, Exists (λ r, RawRow.raw_payload r = p) (snd <$> map_to_list (raw_events db))) l.

Lemma finished_with_spec l db :
  finished_with l db → all_processed db ∧ ∀ p, holds_payload db p ↔ p ∈ l.
Proof.
  intros [Hall Hex]. rewrite Forall_forall in Hall. rewrite Forall_forall in Hex.
  assert (∀ id r, raw_events db !! id = Some r → r ∈ (snd <$> map_to_list (raw_events db))) as Hin.
  { intros id r Hr. apply list_elem_of_fmap. exists (id, r). split; [done|]. by apply elem_of_map_to_list. }
  split; [intros id r Hr; by eapply Hall, Hin|]. intros p. split.
  - intros (id & r & Hr & <-). by eapply Hall, Hin.
  - intros Hp. specialize (Hex p Hp). apply Exists_exists in Hex as (r & Hr & <-).
    apply list_elem_of_fmap in Hr as ([id r'] & -> & Hr%elem_of_map_to_list). by exists id, r'.
Qed.

Lemma both_finished :
  finished_with ["PICKED_UP"; "OUT_FOR_DELIVERY"] (s_db boxed) ∧
  finished_with ["PICKED_UP"; "OUT_FOR_DELIVERY"] (s_db boxed_in_order).
Proof. unfold finished_with. apply (bool_decide_unpack _). vm_compute. exact I. Qed.

Lemma runs_converge_witness :
  EntityRow.current_state <$> entities (s_db boxed) !! "BOX1"
    = EntityRow.current_state <$> entities (s_db boxed_in_order) !! "BOX1".
Proof.
  destruct both_finished as [[D1 P1]%finished_with_spec [D2 P2]%finished_with_spec].
  apply (runs_converge floor_0_6 sample_cfg boxed boxed_in_order "BOX1").
  - reflexivity.
  - apply sample_reachable.
  - apply sample_reachable.
  - exact D1.
  - exact D2.
  - intros p. rewrite P1, P2. reflexivity.
  - intros id f Hf _. pose proof boxed_facts as Hall. rewrite Forall_forall in Hall.
    by destruct (Hall (id, f)) as [Hc _]; [by apply elem_of_map_to_list|].
Defined.
End witnesses.
