(* ===== verification/Redelivery.v ===== *)
(** * Handling an event again

    The queue delivers at least once: a worker dies after its work, a report is lost,
    a lease runs out. What makes that harmless is that [Processor.Handle] does
    nothing new the second time, which is proved here of the whole handler, whatever
    fails while it runs again. *)

From S2P Require Import Prelude GoErrors Utf8 GoStrings Model Llm Normalize Database.
From S2P Require Import Instances StoreRaw StoreFacts Queue Worker Processor System.
From S2P Require Import Refinement Invariants Trace Safety.
Local Open Scope Z_scope.

(** ** Statements that have nothing to do *)

(** A statement that, if it runs, leaves the tables as they are. *)
Definition idle_on {A} (f : Statement A) (db : DB) : Prop :=
  ∀ t a db', f t db = Ok (a, db') → db' = db.

Lemma ran_idle {A} (f : Statement A) db r db' : idle_on f db → ran f db r db' → db' = db.
Proof. intros Hf Hr. destruct Hr; by eauto. Qed.

Lemma set_entities_id db : set_entities (entities db) db = db.
Proof. by destruct db. Qed.

(** No invoice state may follow itself. *)
Lemma invoice_no_loop st : InvoiceTransitionAllowed st st = false.
Proof.
  destruct (InvoiceTransitionAllowed st st) eqn:H; [|done].
  apply InvoiceTransitionAllowed_cases in H as [[-> [|]]|[-> ?]]; done.
Qed.

Section again.
Context {U : UnicodeTables} {UL : UnicodeLaws U} {P : Postgres} {C : Client}.

(** The fact of an event is inserted once. *)
Lemma fact_again `{Oracle} id n m v db :
  pg_uuid id = Some id → is_Some (normalized_events db !! id) →
  idle_on (sql_insert_normalized id n m v) db.
Proof using.
  intros Hid [f Hf] t a db'. unfold sql_insert_normalized. rewrite Hid.
  destruct (negb _); [done|]. destruct (char3_param _); cbn; [|done].
  destruct (negb _); [done|]. rewrite Hf. by intros [= _ <-].
Qed.

(** A shipment whose entity is at or past it. *)
Lemma shipment_again `{Oracle} n db e :
  Normalized.Classification n = ClassShipment →
  entities db !! Normalized.EntityKey n = Some e →
  ShipmentRank (Normalized.CanonicalState n) ≤ EntityRow.current_rank e →
  idle_on (sql_project n) db.
Proof using.
  intros Hc He Hr t a db'. unfold sql_project. rewrite decide_True by done.
  unfold sql_apply_shipment. destruct (negb _); [done|]. destruct (_ || _); [done|].
  intros [= _ <-]. rewrite He. unfold shipment_upsert.
  destruct (Z.ltb_spec (EntityRow.current_rank e) (ShipmentRank (Normalized.CanonicalState n))); [lia|].
  by rewrite insert_id, set_entities_id.
Qed.

Lemma shipment_upsert_rank st et now row :
  ShipmentRank st ≤ EntityRow.current_rank (shipment_upsert st (ShipmentRank st) et now row).
Proof using.
  unfold shipment_upsert. destruct row as [e|]; [|cbn -[ShipmentRank]; lia].
  destruct (Z.ltb_spec (EntityRow.current_rank e) (ShipmentRank st)); cbn -[ShipmentRank]; lia.
Qed.

(** What an invoice event leaves in the row of its key does not let it in again. *)
Lemma invoice_done `{Oracle} n t db db1 :
  Normalized.Classification n = ClassInvoice → sql_project n t db = Ok ((), db1) →
  ∃ e, entities db1 !! Normalized.EntityKey n = Some e ∧
    InvoiceTransitionAllowed (EntityRow.current_state e) (Normalized.CanonicalState n) = false.
Proof using.
  intros Hc. unfold sql_project. rewrite Hc, decide_False, decide_True by done.
  unfold sql_apply_invoice, sql_insert_invoice, sql_update_invoice.
  destruct (entities db !! Normalized.EntityKey n) as [e|] eqn:He.
  - destruct (InvoiceTransitionAllowed _ _) eqn:Hal; [|intros [= <-]; by exists e].
    destruct (negb _); [done|]. destruct (char3_param _); [|done]. cbn. intros [= <-].
    cbn. rewrite lookup_alter_eq, He. eexists. split; [done|]. cbn. apply invoice_no_loop.
  - destruct (negb _); [done|]. destruct (char3_param _); [|done]. cbn. intros [= <-].
    cbn. rewrite lookup_insert_eq. eexists. split; [done|]. cbn. apply invoice_no_loop.
Qed.

Lemma invoice_again `{Oracle} n db e :
  Normalized.Classification n = ClassInvoice →
  entities db !! Normalized.EntityKey n = Some e →
  InvoiceTransitionAllowed (EntityRow.current_state e) (Normalized.CanonicalState n) = false →
  idle_on (sql_project n) db.
Proof using.
  intros Hc He Hal t a db'. unfold sql_project. rewrite Hc, decide_False, decide_True by done.
  unfold sql_apply_invoice. rewrite He, Hal. by intros [= _ <-].
Qed.

(** ** The handler *)

(** What a successful run has left in the tables. *)
Lemma Handle_done `{Oracle} norm job w w1 :
  pg_uuid (Job.ID job) = Some (Job.ID job) → Processor.Handle norm job w = (Ok (), w1) →
  ∃ res n t db, Normalize (w_ticks w) (Job.Payload job) = Ok res ∧
    Apply norm (Result.Response res) = Ok n ∧
    is_Some (normalized_events (w_db w1) !! Job.ID job) ∧
    sql_project n t db = Ok ((), w_db w1).
Proof using.
  intros Hid. unfold Processor.Handle. rewrite attempt_bind. unfold call_llm.
  destruct (Normalize _ _) as [res|err] eqn:Hn; [|by destruct (is_panic err), (Retryable err)].
  destruct (Apply norm _) as [n|err] eqn:Ha; [|done]. rewrite attempt_bind. unfold InsertNormalized.
  destruct (stmt _ (tick w)) as [[[]|e] w2] eqn:Hf; [|by destruct (is_panic e)].
  rewrite attempt_bind. destruct (project n w2) as [[[]|e] w3] eqn:Hp; [|by destruct (is_panic e)].
  intros [= <-]. apply stmt_runs, ran_Ok in Hf as [t1 Hf]. apply project_runs, ran_Ok in Hp as [t Hp].
  exists res, n, t, (w_db w2). split_ands; try done.
  assert (is_Some (normalized_events (w_db w2) !! Job.ID job)) as Hfact.
  { unfold sql_insert_normalized in Hf. rewrite Hid in Hf. destruct (negb _); [done|].
    destruct (char3_param _); cbn in Hf; [|done]. destruct (negb _); [done|].
    destruct (normalized_events (w_db w) !! Job.ID job) as [f|] eqn:Hg.
    - injection Hf as <-. by exists f.
    - destruct (raw_events _ !! _); [|done]. injection Hf as <-. cbn. rewrite lookup_insert_eq. by eexists. }
  by apply sql_project_entities in Hp as [m ->].
Qed.
(** The handler on tables where its two statements have nothing to do. *)
Lemma Handle_idle `{Oracle} norm job w res n :
  (∀ i, Normalize i (Job.Payload job) = Ok res) → Apply norm (Result.Response res) = Ok n →
  (∀ m v, idle_on (sql_insert_normalized (Job.ID job) n m v) (w_db w)) →
  idle_on (sql_project n) (w_db w) →
  w_db (snd (Processor.Handle norm job w)) = w_db w.
Proof using.
  intros Hn Ha Hfact Hproj. unfold Processor.Handle. rewrite attempt_bind. unfold call_llm.
  rewrite Hn, Ha, attempt_bind. unfold InsertNormalized.
  destruct (stmt _ (tick w)) as [r w2] eqn:Hf.
  apply stmt_runs, (ran_idle _ _ _ _ (Hfact _ _)) in Hf. rewrite <-Hf in Hproj.
  destruct r as [[]|e]; [|by destruct (is_panic e)].
  rewrite attempt_bind. destruct (project n w2) as [r w3] eqn:Hp.
  apply project_runs, (ran_idle _ _ _ _ Hproj) in Hp.
  destruct r as [[]|e]; [|destruct (is_panic e)]; cbn; congruence.
Qed.
End again.

(** ** Properties *)

(** C17. Handling is idempotent, for a payload to which the model always gives the same
    answer: once a worker has handled a job (of an id in canonical form, as every id of
    the log is) with success, another run of the whole handler on it, on the tables as
    they are or as they have grown since, changes nothing, whatever fails while it
    runs; for an invoice as long as the row of its key is still the same. *)
Theorem Handle_idempotent {U : UnicodeTables} {UL : UnicodeLaws U} {P : Postgres} {C : Client}
    (O1 O2 : Oracle) norm job w w1 w2 :
  (∀ i j, Normalize i (Job.Payload job) = Normalize j (Job.Payload job)) →
  pg_uuid (Job.ID job) = Some (Job.ID job) →
  @Processor.Handle U P O1 C norm job w = (Ok (), w1) →
  evolves (w_db w1) (w_db w2) →
  (∀ res n, Normalize 0 (Job.Payload job) = Ok res → Apply norm (Result.Response res) = Ok n →
     Normalized.Classification n = ClassInvoice →
     entities (w_db w2) !! Normalized.EntityKey n = entities (w_db w1) !! Normalized.EntityKey n) →
  w_db (snd (@Processor.Handle U P O2 C norm job w2)) = w_db w2.
Proof.
  intros Hdet Hid Hrun Hev Hsame.
  destruct (Handle_done norm job w w1 Hid Hrun) as (res & n & t & db & Hn & Ha & [f Hf] & Hp).
  assert (∀ i, Normalize i (Job.Payload job) = Ok res) as Hall by (intros i; by rewrite (Hdet i (w_ticks w))).
  apply (Handle_idle norm job w2 res n Hall Ha).
  { intros m v. apply fact_again; [done|]. exists f. by apply (ev_fact _ _ Hev). }
  destruct (Apply_coherent_aux _ _ _ Ha) as [Hc _ _ _ _|Hc _ _ _ _ _|Hc _ _ _ _].
  - intros t2 a db'. unfold sql_project. rewrite Hc. by intros [= _ <-].
  - unfold sql_project in Hp. rewrite decide_True in Hp by done. unfold sql_apply_shipment in Hp.
    destruct (negb _); [done|]. destruct (_ || _); [done|]. injection Hp as Hp.
    pose proof (shipment_upsert_rank (Normalized.CanonicalState n)
      (pg_timestamptz <$> Normalized.EventTime n) (@clock O1 t) (entities db !! Normalized.EntityKey n)).
    destruct (ev_entity _ _ Hev (Normalized.EntityKey n) (shipment_upsert (Normalized.CanonicalState n)
      (ShipmentRank (Normalized.CanonicalState n)) (pg_timestamptz <$> Normalized.EventTime n)
      (@clock O1 t) (entities db !! Normalized.EntityKey n))) as (e & He & _ & _ & Hle & _).
    { rewrite <-Hp. cbn -[ShipmentRank]. apply lookup_insert_eq. }
    apply (shipment_again n (w_db w2) e Hc He). lia.
  - destruct (invoice_done n t db (w_db w1) Hc Hp) as (e & He & Hal).
    rewrite <-(Hsame res n (Hall 0%nat) Ha Hc) in He. by apply (invoice_again n (w_db w2) e).
Qed.

(** ** Witnesses *)

Section witnesses.
Local Existing Instances latin1_tables latin1_laws sample_postgres.

#[local] Instance issuing : Client := λ _ _,
  Ok (Result.mk (Response.mk "INVOICE" "inv-7" "ISSUED" "" (Some 125000) "eur" "" conf_0_95) "mock" "v1").

(** A worker has handled the event; another one handles it again and loses the report
    of its first statement. *)
Definition handled : World :=
  mkWorld (s_db (sample_play issuing [(0%nat, Ingest "h1" "{}" ""); (1%nat, Claims 0)] initial))
    None false 2.
Definition the_job : Job.t := Job.mk "id-0" "{}" 1.
Definition once : World := snd (@Processor.Handle _ _ calm issuing floor_0_6 the_job handled).
#[local] Definition losing : Oracle := {|
  fault t := if (t =? 0)%nat then NoFault else FailAfter (errorString "connection reset");
  clock := @clock calm; gen_random_uuid := @gen_random_uuid calm; locked _ := ∅;
  choose _ := 0%nat; wakeup _ := PollTimeout; ctx_cancelled _ := false; rand_Int64N _ _ := 0
|}.

Lemma Handle_idempotent_witness :
  w_db (snd (@Processor.Handle _ _ losing issuing floor_0_6 the_job (set_db (w_db once) boot)))
    = w_db once ∧
  EntityRow.amount_minor <$> entities (w_db once) !! "INV-7" = Some (Some 125000).
Proof.
  split; [|vm_compute; reflexivity].
  apply (@Handle_idempotent latin1_tables latin1_laws sample_postgres issuing calm losing floor_0_6
           the_job handled once (set_db (w_db once) boot)).
  - reflexivity.
  - reflexivity.
  - vm_compute. reflexivity.
  - reflexivity.
  - reflexivity.
Defined.
End witnesses.
