(* ===== verification/Anomalies.v ===== *)
(** * Histories the lifecycle does not exclude

    Reachable states, each found by running a schedule on the model, that show
    where the guarantees of Guarantees.v end: what an expired lease, a model that
    changes its mind, and a worker that dies can do. *)

From S2P Require Import Prelude GoErrors Utf8 GoStrings Model Llm Normalize Database.
From S2P Require Import Instances StoreRaw StoreFacts Queue Worker Processor System Trace.
Local Open Scope Z_scope.

Section anomalies.
Local Existing Instances latin1_tables sample_postgres.

(** The minutes [n], [n+1], ... of a schedule; the lease of the sample
    configuration is half a minute. *)
Fixpoint timed (n : nat) (l : list move) : list (nat * move) :=
  match l with
  | [] => []
  | m :: l' => (n, m) :: timed (S n) l'
  end.

(** [n] times: a worker claims the event and dies. *)
Definition poison (n : nat) : list move :=
  Ingest "h1" "{}" "acme" :: mjoin (replicate n [Claims 0; Crashes 0]).

(** A slow worker is overtaken: worker 1 reclaims the event and finishes it, then
    worker 0, whose model call fails, reports its failure. *)
Definition overtaken : list move :=
  [Ingest "h1" "{}" "acme"; Claims 0; Claims 1; Calls 1; Calls 1; Calls 1; Calls 1;
   Calls 0; Calls 0].
#[local] Definition late_failure : Client := λ k _,
  if (k <? 7)%nat then Ok (Result.mk shipment_answer "mock" "v1")
  else Err (APIError 400 false "bad request").

(** The projection is written, the report is lost with the worker, and the model
    answers differently the second time. *)
Definition second_thoughts : list move :=
  [Ingest "h1" "{}" "acme"; Claims 0; Calls 0; Calls 0; Crashes 0;
   Claims 0; Calls 0; Calls 0; Calls 0; Calls 0].
#[local] Definition wavering : Client := λ k _,
  Ok (Result.mk (Response.mk "SHIPMENT" (if (k <? 5)%nat then "A1" else "B2")
                   "IN_TRANSIT" "" None "" "" conf_0_95) "mock" "v1").

(** Three events of one invoice, out of order. In the second history the worker of
    REFUNDED, whose projection came too early and was ignored, dies before its ack, and
    PAID is handled meanwhile. *)
#[local] Definition ledger : Client := λ _ p,
  Ok (Result.mk (Response.mk "INVOICE" "inv-1" p "" None "" "" conf_0_95) "mock" "v1").
Definition three_events : list (nat * move) :=
  [(0%nat, Ingest "h1" "ISSUED" ""); (1%nat, Ingest "h2" "REFUNDED" "");
   (2%nat, Ingest "h3" "PAID" "")].
Definition handle_with (i t : nat) : list (nat * move) :=
  [(t, Claims i); (t, Calls i); (t, Calls i); (t, Calls i); (t, Calls i)].
Definition in_turn : list (nat * move) :=
  three_events ++ handle_with 0 3 ++ handle_with 0 4 ++ handle_with 0 5.
Definition report_lost : list (nat * move) :=
  three_events ++ handle_with 0 3 ++
  [(4%nat, Claims 0); (4%nat, Calls 0); (4%nat, Calls 0); (4%nat, Calls 0); (4%nat, Crashes 0)]
  ++ handle_with 1 4 ++ handle_with 1 5.

Definition replay (C : Client) (l : list move) : Sys := sample_play C (timed 0 l) initial.
End anomalies.

(** ** Properties *)

(** The attempt cap does not stop an event that kills its worker: the retry
    policy counts attempts only when a worker lives to call [Retry], and [Claim]
    has no cap of its own; under the default configuration, with [MaxAttempts] at
    5, a state is reachable in which such an event has been claimed 40 times, is
    still PROCESSING and may be claimed once more. *)
Theorem poison_never_caps :
  ∃ s r, @reachable latin1_tables sample_postgres sample_client floor_0_6 sample_cfg s ∧
    PgQueue.MaxAttempts sample_cfg = 5 ∧
    raw_events (s_db s) !! "id-0" = Some r ∧ RawRow.status r = StatusProcessing ∧
    RawRow.attempts r = 40 ∧ claimable (60000000000 * 100) r = true.
Proof.
  exists (replay sample_client (poison 40)). eexists.
  split; [apply sample_reachable|]. split; [reflexivity|].
  split; [vm_compute; reflexivity|]. by split.
Qed.

(** Updates at the end of a job are not fenced by the lease: a worker whose
    lease ran out, and whose own call of the model is refused, dead-letters an
    event another worker has already finished, so a reachable state has a FAILED
    event with its fact and its effect in the tables. *)
Theorem stale_worker_overwrites :
  ∃ s r, @reachable latin1_tables sample_postgres late_failure floor_0_6 sample_cfg s ∧
    raw_events (s_db s) !! "id-0" = Some r ∧ RawRow.status r = StatusFailed ∧
    is_Some (normalized_events (s_db s) !! "id-0") ∧
    is_Some (entities (s_db s) !! "MAEU240498712") ∧ s_tasks s = ∅.
Proof.
  exists (replay late_failure overtaken). eexists.
  split; [apply sample_reachable|]. split; [vm_compute; reflexivity|].
  split; [reflexivity|]. split; [vm_compute; by eexists|].
  split; [vm_compute; by eexists|vm_compute; reflexivity].
Qed.

(** A lease is shorter than the clients let a call of the model take: half a minute
    against one minute (openai.go) or two (ollama.go). In a reachable state two workers
    call the model for the same event at the same time, the first under a lease that ran
    out and the second under one that has not. *)
Theorem slow_model_called_twice :
  ∃ s job job' r, @reachable latin1_tables sample_postgres sample_client floor_0_6 sample_cfg s ∧
    PgQueue.Lease sample_cfg = 30000000000 ∧
    s_tasks s !! 0%nat = Some (Task job AtLLM) ∧ s_tasks s !! 1%nat = Some (Task job' AtLLM) ∧
    Job.ID job = Job.ID job' ∧ Job.Attempts job = 1 ∧ Job.Attempts job' = 2 ∧
    raw_events (s_db s) !! Job.ID job = Some r ∧
    claimable (2 * 60000000000 + 30000000000) r = false.
Proof.
  exists (replay sample_client [Ingest "h1" "{}" "acme"; Claims 0; Claims 1]). do 3 eexists.
  split; [apply sample_reachable|]. split; [reflexivity|].
  split; [vm_compute; reflexivity|]. split; [vm_compute; reflexivity|].
  do 3 (split; [reflexivity|]). split; [vm_compute; reflexivity|]. reflexivity.
Qed.

(** Facts and projections may disagree when the model does not repeat itself:
    the first fact is kept, the second answer is projected, and a reachable state
    has a PROCESSED event whose fact names an entity that does not exist, while
    the entity that does is named by no fact. *)
Theorem fact_and_projection_diverge :
  ∃ s r f, @reachable latin1_tables sample_postgres wavering floor_0_6 sample_cfg s ∧
    raw_events (s_db s) !! "id-0" = Some r ∧ RawRow.status r = StatusProcessed ∧
    normalized_events (s_db s) !! "id-0" = Some f ∧ FactRow.entity_key f = Some "A1" ∧
    entities (s_db s) !! "A1" = None ∧ is_Some (entities (s_db s) !! "B2").
Proof.
  exists (replay wavering second_thoughts). do 2 eexists.
  split; [apply sample_reachable|]. split; [vm_compute; reflexivity|].
  split; [reflexivity|]. split; [vm_compute; reflexivity|].
  split; [reflexivity|]. split; [vm_compute; reflexivity|vm_compute; by eexists].
Qed.

(** Delivery at least once shows in invoices: two histories of the same three events,
    in the same order of arrival and with the same answers, both with every event
    PROCESSED and no worker busy, end with different states of the invoice; they differ
    in one ack that was lost, which gave an event that had come too early, and had been
    ignored, a second chance. *)
Theorem lost_ack_changes_invoice :
  ∃ s1 s2, @reachable latin1_tables sample_postgres ledger floor_0_6 sample_cfg s1 ∧
    @reachable latin1_tables sample_postgres ledger floor_0_6 sample_cfg s2 ∧
    s_tasks s1 = ∅ ∧ s_tasks s2 = ∅ ∧
    (λ r, (RawRow.raw_payload r, RawRow.status r)) <$> raw_events (s_db s1)
      = (λ r, (RawRow.raw_payload r, RawRow.status r)) <$> raw_events (s_db s2) ∧
    map_Forall (λ _ r, RawRow.status r = StatusProcessed) (raw_events (s_db s1)) ∧
    EntityRow.current_state <$> entities (s_db s1) !! "INV-1" = Some StatePaid ∧
    EntityRow.current_state <$> entities (s_db s2) !! "INV-1" = Some StateRefunded.
Proof.
  exists (sample_play ledger in_turn initial), (sample_play ledger report_lost initial).
  split; [apply sample_reachable|]. split; [apply sample_reachable|].
  split; [vm_compute; reflexivity|]. split; [vm_compute; reflexivity|].
  split; [vm_compute; reflexivity|]. split; [|split; vm_compute; reflexivity].
  apply map_Forall_to_list. vm_compute. repeat constructor.
Qed.
