(* ===== verification/Lifecycle.v ===== *)
(** * What one operation, and one turn of a worker, achieves

    The functional side of the queue and the consumer: a lease keeps others away,
    the retry policy dead-letters exactly at the cap, the consumer routes every
    outcome to one call of its queue, the invoice transaction is atomic, and a
    turn in which nothing fails takes an event to PROCESSED with its fact and its
    projection. *)

From S2P Require Import Prelude GoErrors Utf8 GoStrings Model Llm Normalize Database.
From S2P Require Import Instances StoreRaw RawFacts StoreFacts Queue Worker Processor.
From S2P Require Import System Invariants Safety.
Local Open Scope Z_scope.

(** ** Leases and caps *)

(** C22. A lease excludes: as long as the row a worker claimed is as the claim left it
    and its lease has not run out, no other claim returns it. *)
Theorem lease_excludes `{Postgres, Oracle} lease lease' t t' db db1 db2 db3 ev ev' :
  sql_claim lease t db = Ok (Some ev, db1) →
  raw_events db2 !! RawEvent.ID ev = raw_events db1 !! RawEvent.ID ev →
  clock t' ≤ clock t + pg_interval lease →
  sql_claim lease' t' db2 = Ok (Some ev', db3) →
  RawEvent.ID ev' ≠ RawEvent.ID ev.
Proof.
  intros H1 Hsame Hclock H2 Heq.
  pose proof (claim_spec lease t db) as P1. rewrite H1 in P1.
  pose proof (claim_spec lease' t' db2) as P2. rewrite H2 in P2.
  destruct P1 as (r & _ & _ & _ & _ & _ & _ & ->).
  destruct P2 as (r' & Hr' & Hcl & _).
  rewrite Heq, Hsame in Hr'. cbn in Hr'. rewrite lookup_insert_eq in Hr'.
  injection Hr' as <-. cbn in Hcl. apply Z.ltb_lt in Hcl. lia.
Qed.

(** C31. The retry policy, when no statement fails, on a row of the log of a canonical
    id, for a reason the database stores as text and an attempt that has a backoff: at
    or past the cap the row is FAILED without a lease; below it the status stays and
    the lease is moved by the backoff; in both cases the reason is recorded and nothing
    else in the tables changes. *)
Theorem Retry_policy `{Postgres, Oracle} cfg id attempts reason r w d :
  (∀ t, fault t = NoFault) → raw_events (w_db w) !! id = Some r → pg_uuid id = Some id →
  pg_text reason = true →
  PgQueue.backoff cfg (rand_Int64N (w_ticks w)) attempts = Some d →
  fst (PgQueue.Retry cfg id attempts reason w) = Ok () ∧
  w_db (snd (PgQueue.Retry cfg id attempts reason w)) =
    raw_put id
      (if PgQueue.MaxAttempts cfg <=? attempts
       then set_status StatusFailed (Some reason) None r
       else set_status (RawRow.status r) (Some reason)
              (Some (clock (S (w_ticks w)) + pg_interval d)) r) (w_db w).
Proof.
  intros Hnf Hr Hid Htext Hd. unfold PgQueue.Retry. rewrite bind_run.
  unfold PgQueue.draw_backoff. rewrite Hd. unfold RetryOrFail.
  assert (∀ f, alter f id (raw_events (w_db w)) = <[id := f r]> (raw_events (w_db w))) as Halt.
  { intros f. by apply alter_alt_Some. }
  destruct (PgQueue.MaxAttempts cfg <=? attempts).
  - erewrite stmt_no_fault; [by split| by apply Hnf|].
    unfold sql_fail, update_raw. rewrite Htext, Hid. cbn. by rewrite Halt.
  - erewrite stmt_no_fault; [by split| by apply Hnf|].
    unfold sql_reschedule, update_raw. rewrite Htext, Hid. cbn. by rewrite Halt.
Qed.

(** C25. The invoice transaction is atomic under every pattern of failures: it has the
    effect of one statement that locks, compares and writes, or none; it reports
    success only if that statement ran; and it never leaves a transaction open. *)
Theorem ApplyInvoice_atomic `{Postgres, Oracle} key state et amt cur w :
  ran (sql_apply_invoice key state et amt cur) (w_db w)
    (fst (ApplyInvoice key state et amt cur w))
    (w_db (snd (ApplyInvoice key state et amt cur w))) ∧
  (w_tx w = None → w_tx (snd (ApplyInvoice key state et amt cur w)) = None).
Proof. apply ApplyInvoice_ran. Qed.

(** ** Which failures are permanent *)

(** An error of the infrastructure: not permanent, and no panic. *)
Definition transient (e : error) : Prop := IsPermanent e = false ∧ is_panic e = false.

Section transient.
Context `{U : UnicodeTables, P : Postgres, O : Oracle}.
(** Connections fail with transient errors: no driver builds a [Permanent]. *)
Context (faults_transient : ∀ t e, fault t = FailBefore e ∨ fault t = FailAfter e → transient e).

Definition stmt_transient {A} (f : Statement A) : Prop :=
  ∀ t db e, f t db = Err e → transient e.

Lemma throws_stmt {A} (f : Statement A) : stmt_transient f → throws transient (stmt f).
Proof using faults_transient.
  intros Hf w e w'. unfold stmt. destruct (fault (w_ticks w)) as [|e0|e0] eqn:Hw.
  - destruct (f _ _) as [[? ?]|e1] eqn:He; [done|]. intros [= <- _]. by eapply Hf.
  - intros [= <- _]. eapply faults_transient. by left.
  - destruct (f _ _) as [[? ?]|e1] eqn:He; intros [= <- _];
      [eapply faults_transient; by right|by eapply Hf].
Qed.

Lemma throws_tx_stmt {A} (f : Statement A) : stmt_transient f → throws transient (tx_stmt f).
Proof using faults_transient.
  intros Hf w e w'. unfold tx_stmt. destruct (w_tx w) as [[t db]|]; [|by intros [= <- _]].
  destruct (fault (w_ticks w)) as [|e0|e0] eqn:Hw.
  - destruct (f _ _) as [[? ?]|e1] eqn:He; [done|]. intros [= <- _]. by eapply Hf.
  - intros [= <- _]. eapply faults_transient. by left.
  - intros [= <- _]. eapply faults_transient. by right.
Qed.

Lemma throws_tx_begin : throws transient tx_begin.
Proof using faults_transient.
  intros w e w'. unfold tx_begin. destruct (fault (w_ticks w)) eqn:Hw; [done|..];
    intros [= <- _]; eapply faults_transient; eauto.
Qed.

Lemma throws_tx_commit : throws transient tx_commit.
Proof using faults_transient.
  intros w e w'. unfold tx_commit. destruct (w_tx w) as [[t db]|]; [|by intros [= <- _]].
  destruct (fault (w_ticks w)) eqn:Hw; [done|..];
    intros [= <- _]; eapply faults_transient; eauto.
Qed.

Lemma transient_pg e : transient (pg_error e).
Proof. done. Qed.

Lemma char3_transient s e : char3_param s = Err e → transient e.
Proof. unfold char3_param. repeat case_match; by intros [= <-]. Qed.

Lemma insert_normalized_transient id n m v : stmt_transient (sql_insert_normalized id n m v).
Proof.
  intros t db e. unfold sql_insert_normalized. destruct (pg_uuid id); [|by intros [= <-]].
  destruct (negb _); [by intros [= <-]|]. destruct (char3_param _) eqn:Hc; cbn;
    [|intros [= <-]; by eapply char3_transient].
  repeat case_match; by intros [= <-].
Qed.

Lemma throws_project n : throws transient (project n).
Proof using faults_transient.
  unfold project. repeat case_decide; [|unfold ApplyInvoice|auto with ingest].
  - apply throws_stmt. intros t db e. unfold sql_apply_shipment. repeat case_match; by intros [= <-].
  - apply throws_bind; [apply throws_tx_begin|]. intros _. apply throws_deferred, throws_bind.
    { apply throws_tx_stmt. intros t db e. unfold sql_lock_entity. case_match; by intros [= <-]. }
    pose proof throws_tx_commit. intros [cur|].
    + case_match; [done|]. apply throws_bind; [|done]. apply throws_tx_stmt. intros t db e.
      unfold sql_update_invoice. case_match; [by intros [= <-]|].
      destruct (char3_param _) eqn:Hc; [done|]. intros [= <-]. by eapply char3_transient.
    + apply throws_bind; [|done]. apply throws_tx_stmt. intros t db e.
      unfold sql_insert_invoice. case_match; [by intros [= <-]|].
      destruct (char3_param _) eqn:Hc; cbn; [case_match; by intros [= <-]|].
      intros [= <-]. by eapply char3_transient.
Qed.
End transient.

(** C19. Only deterministic failures are dead-lettered at once, and they leave no
    trace: an error of the pipeline is permanent exactly when the model refused the
    payload with an error that is not retryable or the gate rejected its answer;
    then nothing was written to the tables. Every failure of the database is left
    to the retry policy. *)
Theorem Handle_permanent_iff {U : UnicodeTables} {P : Postgres} {O : Oracle} {C : Client}
    norm job w e w' :
  (∀ t e, fault t = FailBefore e ∨ fault t = FailAfter e → transient e) →
  (∀ k p e, Normalize k p = Err e → IsPermanent e = false) →
  Processor.Handle norm job w = (Err e, w') →
  (IsPermanent e = true ↔
     (∃ err, Normalize (w_ticks w) (Job.Payload job) = Err err ∧ Retryable err = false) ∨
     (∃ res err, Normalize (w_ticks w) (Job.Payload job) = Ok res ∧
                 Apply norm (Result.Response res) = Err err)) ∧
  (IsPermanent e = true → w_db w' = w_db w).
Proof.
  intros Hfaults Hclient. unfold Processor.Handle. rewrite attempt_bind. unfold call_llm.
  destruct (Normalize _ _) as [res|err] eqn:Hn.
  2:{ specialize (Hclient _ _ _ Hn). destruct (is_panic err) eqn:Hp.
      - intros [= <- <-]. destruct err; try done. split; [|done].
        split; [done|]. by intros [(? & [= <-] & ?)|(? & ? & ? & _)].
      - destruct (Retryable err) eqn:Hret; intros [= <- <-].
        + autorewrite with ingest. rewrite Hclient. split; [|done]. split; [done|].
          intros [(? & [= <-] & ?)|(? & ? & ? & _)]; congruence.
        + autorewrite with ingest. split; [|done]. split; [|done]. intros _. left. by exists err. }
  destruct (Apply norm _) as [n|err] eqn:Ha.
  2:{ intros [= <- <-]. split; [|done]. split; [|done]. intros _. right. by exists res, err. }
  intros Hrun. assert (IsPermanent e = false) as He.
  { assert (∀ (x : error) p, transient x → IsPermanent (Errorf_w p x) = false) as Hw by
      (intros x p [Hx _]; done).
    pose proof (throws_stmt Hfaults _ (insert_normalized_transient (Job.ID job) n
                  (Result.Model res) (Result.PromptVer res))) as T1.
    pose proof (throws_project Hfaults n) as T2.
    rewrite attempt_bind in Hrun. unfold InsertNormalized in Hrun.
    destruct (stmt _ (tick w)) as [[[]|e1] w1] eqn:H1.
    - rewrite attempt_bind in Hrun. destruct (project n w1) as [[[]|e2] w2] eqn:H2; [done|].
      specialize (T2 _ _ _ H2). destruct T2 as [? Hp2]. rewrite Hp2 in Hrun.
      by injection Hrun as <- _.
    - specialize (T1 _ _ _ H1). destruct T1 as [? Hp1]. rewrite Hp1 in Hrun.
      by injection Hrun as <- _. }
  rewrite He. split; [|done]. split; [done|].
  intros [(? & ? & _)|(? & ? & [= <-] & ?)]; congruence.
Qed.

(** ** A turn in which nothing fails *)

Section healthy.
Context {U : UnicodeTables} {UL : UnicodeLaws U} {P : Postgres} {O : Oracle} {C : Client}.
Context (no_fault : ∀ t, fault t = NoFault).

Lemma stmt_healthy {A} (f : Statement A) w a db' :
  f (w_ticks w) (w_db w) = Ok (a, db') → stmt f w = (Ok a, set_db db' (tick w)).
Proof using no_fault. intros Hf. by apply stmt_no_fault. Qed.

Lemma shipment_succeeds key state et t db :
  pg_text key = true → pg_text state = true →
  sql_apply_shipment key state (ShipmentRank state) et t db
  = Ok ((), set_entities
              (<[key := shipment_upsert state (ShipmentRank state) (pg_timestamptz <$> et)
                          (clock t) (entities db !! key)]> (entities db)) db).
Proof using.
  intros H1 H2. unfold sql_apply_shipment. rewrite H1, H2. cbn -[ShipmentRank].
  pose proof (ShipmentRank_range state) as Hr.
  destruct (Z.ltb_spec int4_max (ShipmentRank state)); [unfold int4_max in *; lia|].
  destruct (Z.ltb_spec (ShipmentRank state) (- int4_max - 1)); [unfold int4_max in *; lia|done].
Qed.

Lemma project_healthy n c w :
  coherent n → pg_text (Normalized.EntityKey n) = true →
  pg_text (Normalized.CanonicalState n) = true → pg_text (Normalized.Currency n) = true →
  char3_param (Normalized.Currency n) = Ok c →
  ∃ w' m, project n w = (Ok (), w') ∧ w_db w' = set_entities m (w_db w) ∧
          applied (w_db w') n ∧ moved n (w_db w) (w_db w').
Proof using no_fault.
  intros Hn H1 H2 H3 Hc.
  assert (∀ db', sql_project n (w_ticks w) (w_db w) = Ok ((), db') → moved n (w_db w) db') as Hmoved
    by (intros ?; apply sql_project_moved).
  unfold sql_project in Hmoved. unfold project, applied.
  destruct Hn as [Hcl _ _ _ _|Hcl Hs Hk Hck _ _|Hcl Hs Hk Hck Hm];
    unfold moved in *; rewrite Hcl in *.
  - exists w, (entities (w_db w)). split; [done|]. split; [by destruct w as [[] ? ? ?]|]. split; [done|].
    by intros [?|?].
  - rewrite decide_True in * by done. unfold ApplyShipment.
    rewrite (stmt_healthy _ _ _ _ (shipment_succeeds _ _ _ _ _ H1 H2)).
    do 2 eexists. split; [done|]. split; [done|].
    split; [|apply Hmoved, (shipment_succeeds _ _ _ _ _ H1 H2)]. split; [|done]. intros _. cbn -[ShipmentRank].
    rewrite lookup_insert_eq. eexists. split; [done|]. unfold shipment_upsert.
    destruct (entities (w_db w) !! _) as [e|]; [|cbn -[ShipmentRank]; lia].
    destruct (Z.ltb_spec (EntityRow.current_rank e) (ShipmentRank (Normalized.CanonicalState n)));
      cbn -[ShipmentRank]; lia.
  - rewrite decide_False, decide_True in * by done.
    pose proof (apply_invoice_succeeds (Normalized.EntityKey n) (Normalized.CanonicalState n)
      (Normalized.EventTime n) (Normalized.AmountMinor n) _ c (w_ticks w) (w_db w) H1 H2 H3 Hc) as Hsql.
    destruct (ApplyInvoice_healthy no_fault _ _ _ _ _ _ _ H1 Hsql) as (w' & Hrun & Hdb).
    eexists w', _. split; [done|]. split; [done|]. rewrite Hdb.
    split; [|by apply Hmoved]. split; [done|]. intros _. by eapply sql_apply_invoice_past.
Qed.

Lemma coherent_check n : coherent n → classification_check (Normalized.Classification n) = true.
Proof. by intros [-> _ _ _ _| -> _ _ _ _ _| -> _ _ _ _]. Qed.

(** The fact is inserted, or was there. *)
Lemma insert_fact_succeeds id n m v c r t db :
  coherent n → raw_events db !! id = Some r → pg_uuid id = Some id →
  forallb pg_text (fact_texts n m v) = true → char3_param (Normalized.Currency n) = Ok c →
  ∃ fs, sql_insert_normalized id n m v t db = Ok ((), set_facts fs db) ∧ is_Some (fs !! id).
Proof using.
  intros Hn Hr Hid Ht Hc. unfold sql_insert_normalized. rewrite Hid, Ht, Hc. cbn.
  rewrite coherent_check by done. cbn. rewrite Hr.
  destruct (normalized_events db !! id) as [f|] eqn:Hf; eexists.
  - split; [|by exists f]. by destruct db.
  - split; [done|]. rewrite lookup_insert_eq. by eexists.
Qed.

Lemma insert_fact_healthy id n m v c w r :
  coherent n → raw_events (w_db w) !! id = Some r → pg_uuid id = Some id →
  forallb pg_text (fact_texts n m v) = true → char3_param (Normalized.Currency n) = Ok c →
  ∃ fs, InsertNormalized id n m v w = (Ok (), set_db (set_facts fs (w_db w)) (tick w)) ∧
        is_Some (fs !! id).
Proof using no_fault.
  intros Hn Hr Hid Ht Hc. unfold InsertNormalized.
  destruct (insert_fact_succeeds id n m v c r (w_ticks w) (w_db w)) as (fs & Hst & Hfs); try done.
  exists fs. by rewrite (stmt_healthy _ _ _ _ Hst).
Qed.

(** The handler, from a claimed row to the projection. *)
Lemma Handle_healthy norm job w r res n c :
  raw_events (w_db w) !! Job.ID job = Some r → pg_uuid (Job.ID job) = Some (Job.ID job) →
  Normalize (w_ticks w) (Job.Payload job) = Ok res → Apply norm (Result.Response res) = Ok n →
  forallb pg_text (fact_texts n (Result.Model res) (Result.PromptVer res)) = true →
  char3_param (Normalized.Currency n) = Ok c →
  ∃ w', Processor.Handle norm job w = (Ok (), w') ∧
    raw_events (w_db w') = raw_events (w_db w) ∧
    is_Some (normalized_events (w_db w') !! Job.ID job) ∧ applied (w_db w') n ∧
    moved n (w_db w) (w_db w').
Proof using no_fault UL.
  intros Hr Hid Hans Happly Htext Hc3. pose proof (Apply_coherent_aux _ _ _ Happly) as Hco.
  destruct (insert_fact_healthy (Job.ID job) n (Result.Model res) (Result.PromptVer res) c
              (tick w) _ Hco Hr Hid Htext Hc3) as (fs & Hfact & Hfs).
  cbn in Htext. repeat (apply andb_true_iff in Htext as [? Htext]).
  destruct (project_healthy n c (set_db (set_facts fs (w_db (tick w))) (tick (tick w))))
    as (w3 & m & Hproj & Hdb3 & Happ & Hmv); [done..|].
  exists w3. rewrite Hdb3 in *. split_ands; try done.
  unfold Processor.Handle. rewrite attempt_bind. unfold call_llm.
  by rewrite Hans, Happly, attempt_bind, Hfact, attempt_bind, Hproj.
Qed.
End healthy.

(** [UPDATE ... WHERE id=$1] on a row that is there. *)
Lemma update_raw_runs `{Postgres} id f r db :
  pg_uuid id = Some id → raw_events db !! id = Some r →
  update_raw id f db = Ok ((), raw_put id (f r) db).
Proof.
  intros Hid Hr. unfold update_raw, raw_put. rewrite Hid. do 3 f_equal. by apply alter_alt_Some.
Qed.

(** What a worker is given of a claimed event. *)
Definition job_of_event (ev : RawEvent.t) : Job.t :=
  Job.mk (RawEvent.ID ev) (RawEvent.Payload ev) (RawEvent.Attempts ev).

(** A turn whose claim gets through. *)
Lemma turn_claims {U : UnicodeTables} {P : Postgres} {O : Oracle} {C : Client} norm cfg w ev db1 :
  fault (w_ticks w) = NoFault →
  sql_claim (PgQueue.Lease cfg) (w_ticks w) (w_db w) = Ok (Some ev, db1) →
  @worker_turn World (PgQueue.pg_queue cfg) (processor_handler norm) ctx_err w
  = (@dispatch World (PgQueue.pg_queue cfg) (processor_handler norm) (job_of_event ev);;
     mret Continue) (set_db db1 (tick w)).
Proof.
  intros Hf Hclaim. unfold worker_turn. rewrite attempt_bind. cbn [Queue.Claim PgQueue.pg_queue].
  unfold PgQueue.Claim. rewrite bind_run. unfold StoreRaw.Claim.
  by rewrite (stmt_no_fault _ _ _ _ Hf Hclaim).
Qed.

(** A turn in which nothing fails does the whole job: if a claim finds an event, the
    model answers, the answer passes the gate and its texts are ones the database
    stores, then after one turn of the loop the event is PROCESSED with its error and
    lease cleared and its attempt counted, the others are as they were, it has its
    fact, the projection is at or past the answer, and the row of its key went where
    the answer moves it. *)
Lemma turn_healthy {U : UnicodeTables} {UL : UnicodeLaws U} {P : Postgres} {O : Oracle}
    {C : Client} norm cfg w ev db1 res n c :
  (∀ t, fault t = NoFault) →
  sql_claim (PgQueue.Lease cfg) (w_ticks w) (w_db w) = Ok (Some ev, db1) →
  pg_uuid (RawEvent.ID ev) = Some (RawEvent.ID ev) →
  Normalize (S (w_ticks w)) (RawEvent.Payload ev) = Ok res →
  Apply norm (Result.Response res) = Ok n →
  forallb pg_text (fact_texts n (Result.Model res) (Result.PromptVer res)) = true →
  char3_param (Normalized.Currency n) = Ok c →
  ∃ w' r, @worker_turn World (PgQueue.pg_queue cfg) (processor_handler norm) ctx_err w
            = (Ok Continue, w') ∧
    raw_events (w_db w') = <[RawEvent.ID ev := r]> (raw_events (w_db w)) ∧
    RawRow.status r = StatusProcessed ∧ RawRow.err r = None ∧ RawRow.lease_until r = None ∧
    RawRow.attempts r = RawEvent.Attempts ev ∧
    is_Some (normalized_events (w_db w') !! RawEvent.ID ev) ∧ applied (w_db w') n ∧
    moved n (w_db w) (w_db w').
Proof.
  intros Hnf Hclaim Hid Hans Happly Htext Hc3.
  pose proof (claim_spec (PgQueue.Lease cfg) (w_ticks w) (w_db w)) as Hcl.
  rewrite Hclaim in Hcl. destruct Hcl as (r0 & _ & _ & _ & _ & _ & Hatt & Hdb1).
  set (r1 := lease_row (clock (w_ticks w)) (PgQueue.Lease cfg) r0) in *.
  assert (raw_events db1 !! RawEvent.ID ev = Some r1) as Hr1.
  { rewrite Hdb1. cbn. by rewrite lookup_insert_eq. }
  destruct (Handle_healthy Hnf norm
      (job_of_event ev)
      (set_db db1 (tick w)) r1 res n c Hr1 Hid Hans Happly Htext Hc3)
    as (w3 & Hhandle & Hraw & Hfact & Happ & Hmv). cbn in Hraw.
  assert (sql_mark_processed (RawEvent.ID ev) (w_ticks w3) (w_db w3) =
    Ok ((), raw_put (RawEvent.ID ev) (set_status StatusProcessed None None r1) (w_db w3))) as Hmark.
  { apply update_raw_runs; [done|]. by rewrite Hraw. }
  eexists. exists (set_status StatusProcessed None None r1). split.
  - rewrite (turn_claims norm cfg w ev db1 (Hnf _) Hclaim).
    rewrite bind_run. unfold dispatch. rewrite attempt_bind.
    change (Worker.Handle ?j) with (Processor.Handle norm j). rewrite Hhandle.
    rewrite attempt_bind. cbn [Queue.Ack PgQueue.pg_queue]. unfold PgQueue.Ack, MarkProcessed.
    cbn [Job.ID job_of_event]. rewrite (stmt_healthy Hnf _ _ _ _ Hmark). reflexivity.
  - unfold moved in *. cbn. rewrite Hraw, Hdb1. cbn. rewrite insert_insert_eq.
    rewrite Hdb1 in Hmv. cbn in Hmv. by split_ands.
Qed.

(** ** Witnesses *)

Section witnesses.
Local Existing Instances latin1_tables latin1_laws sample_postgres calm.

Definition queued : DB := w_db (snd (InsertRaw "h1" "{}" "acme" boot)).
Definition fast : PgQueue.Config :=
  PgQueue.NewPostgres (PgQueue.mkConfig 0 0 0 0 0).
Definition claimed_db (t : nat) (db : DB) : DB :=
  match sql_claim (PgQueue.Lease fast) t db with Ok (_, db') => db' | Err _ => db end.

(** Two rows: the second is claimed while the lease on the first lasts. *)
Definition two : DB := w_db (snd (InsertRaw "h2" "[]" "" (set_db queued (tick boot)))).
Lemma lease_excludes_witness : "id-1" ≠ "id-0".
Proof.
  apply (lease_excludes (PgQueue.Lease fast) (PgQueue.Lease fast) 2 2 two
           (claimed_db 2 two) (claimed_db 2 two) (claimed_db 2 (claimed_db 2 two))
           (RawEvent.mk "id-0" "{}" 1) (RawEvent.mk "id-1" "[]" 1)).
  - vm_compute. reflexivity.
  - reflexivity.
  - vm_compute. discriminate.
  - vm_compute. reflexivity.
Defined.

Lemma Retry_policy_witness :
  fst (PgQueue.Retry fast "id-0" 5 "boom" (set_db queued boot)) = Ok () ∧
  w_db (snd (PgQueue.Retry fast "id-0" 5 "boom" (set_db queued boot))) =
    raw_put "id-0" (RawRow.mk "h1" "{}" (Some "acme") StatusFailed 0 (Some "boom") None 0) queued.
Proof.
  apply (Retry_policy fast "id-0" 5 "boom"
           (RawRow.mk "h1" "{}" (Some "acme") StatusPending 0 None None 0)
           (set_db queued boot) 16000000000).
  - reflexivity.
  - vm_compute. reflexivity.
  - reflexivity.
  - vm_compute. reflexivity.
  - vm_compute. reflexivity.
Defined.

Lemma ApplyInvoice_atomic_witness :
  w_tx (snd (ApplyInvoice "INV-1" StatePaid None None "" boot)) = None.
Proof. apply (ApplyInvoice_atomic "INV-1" StatePaid None None "" boot). reflexivity. Defined.

(** A model that refuses every payload. *)
Definition refusing : Client := λ _ _, Err (APIError 400 false "bad request").
Lemma Handle_permanent_iff_witness :
  ∃ w', @Processor.Handle latin1_tables sample_postgres calm refusing floor_0_6
          (Job.mk "id-0" "{}" 1) boot
        = (Err (Permanentf "llm" (APIError 400 false "bad request")), w') ∧ w_db w' = w_db boot.
Proof.
  eexists. split; [reflexivity|].
  apply (@Handle_permanent_iff latin1_tables sample_postgres calm refusing floor_0_6
           (Job.mk "id-0" "{}" 1) boot
           (Permanentf "llm" (APIError 400 false "bad request")) (tick boot)).
  - by intros t e [|].
  - by intros k p e [= <-].
  - reflexivity.
  - reflexivity.
Defined.
End witnesses.
