(* ===== verification/ProvidersFacts.v ===== *)
(** * What the model clients guarantee

    Which provider failures are permanent, what the strict schema loses, and what
    becomes of an error text that is not valid UTF-8. *)

From S2P Require Import Prelude GoErrors Utf8 GoStrings Model Llm Json JsonEncode Mock.
From S2P Require Import Providers.
From S2P Require Import Normalize Database Instances StoreRaw StoreFacts Queue Worker Processor.
From Stdlib Require Import Ascii Floats.SpecFloat.
Local Open Scope Z_scope.

(** The expectations of internal/llm/openai_test.go. *)
Example retryableStatus_table :
  (λ p, retryableStatus (fst p) (unquoted (snd p))) <$>
    [(429, "{`error`:{`type`:`rate_limit_exceeded`}}");
     (429, "{`error`:{`type`:`insufficient_quota`}}");
     (401, "{`error`:{`type`:`invalid_api_key`}}");
     (500, "");
     (400, "{`error`:{`type`:`invalid_request_error`}}")] = [true; false; false; true; false].
Proof. vm_compute. reflexivity. Qed.

(** The reply of internal/llm/ollama_test.go. *)
Definition ollama_reply : string := unquoted
  "{`message`:{`role`:`assistant`,`content`:`{\`classification\`:\`INVOICE\`,\`entity_key\`:\`GFP-1\`,\`canonical_state\`:\`PAID\`,\`event_time\`:\`\`,\`amount_minor\`:2435075,\`currency\`:\`EUR\`,\`vendor_state_text\`:\`settled in full\`,\`confidence\`:0.95}`},`done`:true}".

(** A server that gives one reply to everything. *)
Definition one_reply (code : Z) (body : string) : HttpTransport := {|
  NewRequest _ := Ok ();
  Do _ _ := Ok (mkHttpReply code body);
  json_error _ := "invalid"
|}.

Example ollama_parses :
  @ollama_normalize (one_reply 200 ollama_reply) (NewOllama "llama3.2" "http://h") 0%nat "{}" =
  Ok (Result.mk (Response.mk "INVOICE" "GFP-1" "PAID" "" (Some 2435075) "EUR" "settled in full"
                   conf_0_95) "llama3.2" "v1").
Proof. vm_compute. reflexivity. Qed.

(** ** The strict schema *)

(** Some object inside has one of the keys. *)
Fixpoint mentions (keys : list string) (v : value) : bool :=
  match v with
  | JObject ms =>
    (fix go (ms : list (string * value)) : bool :=
       match ms with
       | [] => false
       | (k, val) :: ms' => bool_decide (k ∈ keys) || mentions keys val || go ms'
       end) ms
  | JArray vs => existsb (mentions keys) vs
  | _ => false
  end.

Lemma stripKeys_clean keys v : mentions keys (stripKeys keys v) = false.
Proof.
  induction v as [| | | |vs IH|ms IH] using value_nested_ind; try done; cbn.
  - induction IH as [|v vs Hv _ IH]; [done|]. cbn. by rewrite Hv, IH.
  - induction IH as [|[k v] ms Hv _ IH]; [done|]. cbn in Hv.
    case_bool_decide as Hk; [exact IH|]. rewrite bool_decide_false by done.
    cbn. by rewrite Hv.
Qed.

Lemma stripKeys_id keys v : mentions keys v = false → stripKeys keys v = v.
Proof.
  induction v as [| | | |vs IH|ms IH] using value_nested_ind; try done; cbn; intros Hm; f_equal.
  - induction IH as [|v vs Hv _ IH]; [done|]. cbn in *.
    apply orb_false_iff in Hm as [H1 H2]. by rewrite Hv, IH.
  - induction IH as [|[k v] ms Hv _ IH]; [done|]. cbn in Hv.
    apply orb_false_iff in Hm as [[H1 H2]%orb_false_iff H3].
    rewrite H1. rewrite Hv by done. f_equal. by apply IH.
Qed.

(** The schema sent to a strict provider holds no [minimum] or [maximum] at any
    depth, a schema that holds none is sent as it is, and stripping twice is
    stripping once; the shared schema itself does hold them. *)
Theorem strict_schema_clean s :
  mentions ["minimum"; "maximum"] (openAIStrictSchema s) = false ∧
  (mentions ["minimum"; "maximum"] s = false → openAIStrictSchema s = s) ∧
  openAIStrictSchema (openAIStrictSchema s) = openAIStrictSchema s ∧
  mentions ["minimum"; "maximum"] SchemaBody = true.
Proof.
  unfold openAIStrictSchema. split_ands.
  - apply stripKeys_clean.
  - apply stripKeys_id.
  - apply stripKeys_id, stripKeys_clean.
  - vm_compute. reflexivity.
Qed.

(** ** The requests *)

(** Both bodies hold number literals and nest far less than the scanner allows. *)
Lemma bodies_encodable o l raw :
  numbers_ok (openai_body o raw) = true ∧ numbers_ok (ollama_body l raw) = true ∧
  Z.of_nat (depth (openai_body o raw)) ≤ maxNestingDepth ∧
  Z.of_nat (depth (ollama_body l raw)) ≤ maxNestingDepth.
Proof.
  unfold openai_body, responseFormat. destruct o as [key model url []]; cbn [o_strictSchema o_model];
    split_ands; vm_compute; done.
Qed.

(** Valid texts are written as they are. *)
Lemma scrubbed_object ms :
  Forall (λ p, ValidString (fst p) = true ∧ scrubbed (snd p) = snd p) ms →
  scrubbed (JObject ms) = JObject ms.
Proof.
  intros Hms. cbn [scrubbed]. f_equal. induction Hms as [|[k v] ms [Hk Hv] _ IH]; [done|].
  cbn [fmap list_fmap fst snd] in *. by rewrite scrub_valid, Hv, IH.
Qed.

Lemma scrubbed_string s : ValidString s = true → scrubbed (JString s) = JString s.
Proof. intros Hs. cbn [scrubbed]. by rewrite scrub_valid. Qed.

Lemma scrubbed_message role content :
  ValidString role = true → ValidString content = true →
  scrubbed (chat_message role content) = chat_message role content.
Proof.
  intros Hr Hc. apply scrubbed_object. repeat constructor; cbn [snd]; by apply scrubbed_string.
Qed.

Lemma scrubbed_messages raw : ValidString raw = true → scrubbed (messages raw) = messages raw.
Proof.
  intros Hraw. unfold messages. cbn [scrubbed fmap list_fmap].
  rewrite !scrubbed_message; [done|by vm_compute|done| |]; by vm_compute.
Qed.

Lemma scrubbed_format o : scrubbed (responseFormat o) = responseFormat o.
Proof. unfold responseFormat. destruct (o_strictSchema o); vm_compute; reflexivity. Qed.

Lemma scrubbed_schema : scrubbed (any_value SchemaBody) = any_value SchemaBody.
Proof. vm_compute. reflexivity. Qed.

(** The JSON schema of the answer, with the given bounds of the confidence. *)
Definition schema_text (bounds : string) : string := unquoted
  "{`additionalProperties`:false,`properties`:{`amount_minor`:{`type`:[`integer`,`null`]},`canonical_state`:{`enum`:[`PICKED_UP`,`IN_TRANSIT`,`OUT_FOR_DELIVERY`,`DELIVERED`,`ISSUED`,`PAID`,`VOIDED`,`REFUNDED`,null],`type`:[`string`,`null`]},`classification`:{`enum`:[`SHIPMENT`,`INVOICE`,`UNCLASSIFIED`],`type`:`string`},`confidence`:{" +:+ unquoted bounds +:+ unquoted "`type`:`number`},`currency`:{`type`:[`string`,`null`]},`entity_key`:{`type`:[`string`,`null`]},`event_time`:{`type`:[`string`,`null`]},`vendor_state_text`:{`type`:[`string`,`null`]}},`required`:[`classification`,`entity_key`,`canonical_state`,`event_time`,`amount_minor`,`currency`,`vendor_state_text`,`confidence`],`type`:`object`}".

Lemma openai_parses o raw :
  ValidString raw = true → ValidString (o_model o) = true →
  parse_json (q_body (openai_request o raw)) = Some (openai_body o raw).
Proof.
  intros Hraw Ho. destruct (bodies_encodable o (mkOllama "" "") raw) as (N1 & _ & D1 & _).
  cbn [q_body openai_request]. rewrite (proj1 (Marshal_parse _ N1 D1)). f_equal.
  apply scrubbed_object. repeat (apply Forall_cons_2; [split; [by vm_compute|]; cbn [snd]|]).
  - by apply scrubbed_string.
  - done.
  - by apply scrubbed_messages.
  - apply scrubbed_format.
  - constructor.
Qed.

Lemma ollama_request_parses l raw :
  ValidString raw = true → ValidString (l_model l) = true →
  parse_json (q_body (ollama_request l raw)) = Some (ollama_body l raw).
Proof.
  intros Hraw Hl. destruct (bodies_encodable (mkOpenAI "" "" "" false) l raw) as (_ & N2 & _ & D2).
  cbn [q_body ollama_request]. rewrite (proj1 (Marshal_parse _ N2 D2)). f_equal.
  apply scrubbed_object. repeat (apply Forall_cons_2; [split; [by vm_compute|]; cbn [snd]|]).
  - by apply scrubbed_string.
  - by apply scrubbed_messages.
  - done.
  - apply scrubbed_schema.
  - by vm_compute.
  - constructor.
Qed.

(** C36. What a client sends is what its server reads: for a payload and a model name
    that are valid UTF-8 (as every text out of a JSONB column is), the body of the
    request is JSON whose members are, for OpenAI, the configured model, temperature 0,
    the two messages, a system message with the system prompt and then a user message
    whose content is the payload, byte for byte, and the response format: for the strict
    provider the named schema without [minimum] and [maximum], for others just the type
    json_object; and for Ollama the model, the same two messages, no streaming, the
    whole schema as the format, and temperature 0. *)
Theorem requests_carry_payload o l raw :
  ValidString raw = true → ValidString (o_model o) = true → ValidString (l_model l) = true →
  let chat := JArray
    [JObject [("role", JString "system"); ("content", JString systemPrompt)];
     JObject [("role", JString "user"); ("content", JString raw)]] in
  ∃ strict whole,
    parse_json (schema_text "") = Some strict ∧
    parse_json (schema_text "`maximum`:1,`minimum`:0,") = Some whole ∧
    parse_json (q_body (openai_request o raw)) = Some (JObject
      [("model", JString (o_model o)); ("temperature", JNumber ["0"%char]); ("messages", chat);
       ("response_format",
          if o_strictSchema o then
            JObject [("type", JString "json_schema");
                     ("json_schema", JObject [("name", JString "webhook_normalization");
                                              ("strict", JBool true); ("schema", strict)])]
          else JObject [("type", JString "json_object")])]) ∧
    parse_json (q_body (ollama_request l raw)) = Some (JObject
      [("model", JString (l_model l)); ("messages", chat); ("stream", JBool false);
       ("format", whole); ("options", JObject [("temperature", JNumber ["0"%char])])]).
Proof.
  intros Hraw Ho Hl chat. do 2 eexists. split; [vm_compute; reflexivity|].
  split; [vm_compute; reflexivity|]. rewrite openai_parses, ollama_request_parses by done.
  unfold openai_body, responseFormat, ollama_body. split; [|reflexivity].
  destruct (o_strictSchema o); reflexivity.
Qed.

Definition quoted_payload : string := unquoted "{`msg`: `<b>é\u2028`}".

Lemma requests_carry_payload_witness :
  ∃ model format, parse_json (q_body (openai_request (NewOpenAI "k" "" "") quoted_payload))
  = Some (JObject [("model", JString model); ("temperature", JNumber ["0"%char]);
      ("messages", JArray
        [JObject [("role", JString "system"); ("content", JString systemPrompt)];
         JObject [("role", JString "user"); ("content", JString quoted_payload)]]);
      ("response_format", format)]).
Proof.
  destruct (requests_carry_payload (NewOpenAI "k" "" "") (NewOllama "" "") quoted_payload)
    as (strict & whole & _ & _ & Hreq & _).
  - vm_compute; reflexivity.
  - vm_compute; reflexivity.
  - vm_compute; reflexivity.
  - do 2 eexists. exact Hreq.
Defined.

(** ** Failures *)


Section failures.
Context `{T : HttpTransport}.
(** A malformed URL is a plain error of net/url. *)
Context (plain_urls : ∀ url err, NewRequest url = Err err →
           as_APIError err = None ∧ IsPermanent err = false).



End failures.



(** ** A reason that cannot be written down *)

(** 299 letters and a two-byte rune: valid UTF-8, but cut after 300 bytes. *)
Definition long_reply : string := str (replicate 299 "a"%char ++ chars "é").
Definition cut_error : error :=
  APIError 400 false ("openai status 400: " +:+ truncate long_reply 300).

Lemma long_reply_fails o k raw :
  @openai_normalize (one_reply 400 long_reply) o k raw = Err cut_error.
Proof. vm_compute. reflexivity. Qed.

(** [truncate] cuts a provider's error text in the middle of a rune, and then the
    event cannot be dead-lettered: for a refusal whose body is valid UTF-8 and 301
    bytes long, the reason is not, so PostgreSQL refuses the update; whatever the
    environment does, a worker's whole [dispatch] of such a job leaves the tables
    as they were, and the event stays PROCESSING until its lease runs out, again
    and again. *)
Theorem cut_reason_never_recorded `{U : UnicodeTables, P : Postgres, O : Oracle}
    {PL : PostgresLaws P} norm cfg o job w :
  ValidString long_reply = true ∧
  w_db (snd (@dispatch World (PgQueue.pg_queue cfg)
               (@processor_handler U P O (@openai_normalize (one_reply 400 long_reply) o) norm)
               job w)) = w_db w.
Proof.
  split; [vm_compute; reflexivity|].
  assert (pg_text (Error (Permanentf "llm" cut_error)) = false) as Htext.
  { apply not_true_is_false. rewrite pg_text_spec. intros [Hv _]. by vm_compute in Hv. }
  unfold dispatch. rewrite attempt_bind.
  assert (@Worker.Handle World
            (@processor_handler U P O (@openai_normalize (one_reply 400 long_reply) o) norm) job w
          = (Err (Permanentf "llm" cut_error), tick w)) as ->.
  { unfold Worker.Handle, processor_handler, Processor.Handle. rewrite attempt_bind.
    unfold call_llm. unfold Normalize. by rewrite long_reply_fails. }
  cbn [is_panic Permanentf]. autorewrite with ingest. rewrite attempt_bind.
  cbn [Queue.Fail PgQueue.pg_queue]. unfold PgQueue.Fail, StoreRaw.Fail, stmt.
  assert (∀ t, sql_fail (Job.ID job) (Error (Permanentf "llm" cut_error)) t (w_db (tick w))
               = Err (pg_error InvalidText)) as Hfail.
  { intros t. unfold sql_fail. by rewrite Htext. }
  rewrite Hfail. destruct (fault _) as [|e|e]; [done| |done]. by destruct (is_panic e).
Qed.

(** ** Witnesses *)


Lemma cut_reason_never_recorded_witness :
  w_db (snd (@dispatch World (@PgQueue.pg_queue sample_postgres calm (PgQueue.mkConfig 5 1 1 1 1))
               (@processor_handler latin1_tables sample_postgres calm
                  (@openai_normalize (one_reply 400 long_reply) (NewOpenAI "" "" "")) floor_0_6)
               (Job.mk "id-0" "{}" 1) boot)) = w_db boot.
Proof.
  exact (proj2 (@cut_reason_never_recorded latin1_tables sample_postgres calm
    sample_postgres_laws floor_0_6 (PgQueue.mkConfig 5 1 1 1 1) (NewOpenAI "" "" "")
    (Job.mk "id-0" "{}" 1) boot)).
Defined.
