(* ===== verification/Ingest.v ===== *)
(** * The HTTP boundary (internal/ingest/ingest.go)

    The routes, their handlers and the debug logging around them, written against
    the interfaces [Store] and [Notifier] as the Go package is, and the instances
    the service wires in: the repositories of internal/store and the database
    queue. A request carries what net/http hands to a handler; a response carries
    the Go value that is encoded; its JSON text is in Responses.v. *)

From S2P Require Import Prelude GoErrors Utf8 GoStrings Model Llm Json Sha256.
From S2P Require Import Normalize Database StoreRaw StoreFacts Queue.
From Stdlib Require Import Ascii.
Local Open Scope Z_scope.

Definition maxBodyBytes : Z := 1048576.

(** ** Requests and responses *)

(** Reading the body yields its bytes and then ends, or fails. *)
Record Body : Type := mkBody { b_bytes : string; b_err : option error }.

(** The cleaned path as the mux splits it, each segment decoded and a slash at the end
    as a segment of its own, and the one header the handlers read. *)
Record Request : Type := mkRequest {
  r_method : string;
  r_path : list string;
  r_source : string;
  r_body : Body
}.

Inductive Payload : Type :=
  | ErrorBody (msg : string)
  | AcceptedBody (id : string) (duplicate : bool)
  | EventBody (ev : EventView.t)
  | EntityBody (ent : Entity.t)
  | HealthBody (status : string)
  | MuxText.                       (** what the mux answers by itself *)

Record Response : Type := mkResponse { status : Z; payload : Payload }.

Definition StatusOK : Z := 200.
Definition StatusAccepted : Z := 202.
Definition StatusBadRequest : Z := 400.
Definition StatusNotFound : Z := 404.
Definition StatusMethodNotAllowed : Z := 405.
Definition StatusRequestEntityTooLarge : Z := 413.
Definition StatusInternalServerError : Z := 500.
Definition StatusServiceUnavailable : Z := 503.

(** ** The interfaces *)

Class Store (S : Type) : Type := {
  InsertRaw : string → string → string → eff S error (string * bool);
  GetEvent : string → eff S error (option EventView.t);
  GetEntity : string → eff S error (option Entity.t);
  Ping : eff S error unit
}.

Class Notifier (S : Type) : Type := Notify : S → S.

(** ** Helpers *)

(** [io.ReadAll(http.MaxBytesReader(w, body, n))] *)
Definition read_max (n : Z) (b : Body) : option string :=
  if n <? Z.of_nat (len (b_bytes b)) then None
  else match b_err b with
       | None => Some (b_bytes b)
       | Some _ => None
       end.

(** [io.ReadAll(io.LimitReader(body, n))], the error dropped, put back as a body. *)
Definition read_limit (n : Z) (b : Body) : Body :=
  mkBody (str (take (Z.to_nat n) (chars (b_bytes b)))) None.

(** [uuidPattern]: hexadecimal digits in groups of 8, 4, 4, 4 and 12. *)
Definition uuid_shape : list bool :=
  replicate 8 true ++ false :: replicate 4 true ++ false :: replicate 4 true
  ++ false :: replicate 4 true ++ false :: replicate 12 true.
Definition shape_ok (hex : bool) (c : ascii) : bool :=
  if hex then isHexJson c else Ascii.eqb c "-".
Fixpoint match_shape (shape : list bool) (l : list ascii) : bool :=
  match shape, l with
  | [], [] => true
  | h :: shape', c :: l' => shape_ok h c && match_shape shape' l'
  | _, _ => false
  end.
Definition uuidPattern (s : string) : bool := match_shape uuid_shape (chars s).

(** The key of the log. *)
Definition payload_key (body : string) : string := EncodeToString (Sum256 body).

Section handlers.
Context {S : Type} `{!Store S, !Notifier S, UnicodeTables}.

Definition Handler : Type := Request → eff S error Response.

Definition writeJSON (status : Z) (v : Payload) : eff S error Response :=
  mret (mkResponse status v).
Definition writeError (status : Z) (msg : string) : eff S error Response :=
  writeJSON status (ErrorBody msg).

(** [a.notifier.Notify()] *)
Definition notify : eff S error unit := λ s, (Ok (), Notify s).

Definition ingest : Handler := λ r,
  match read_max maxBodyBytes (r_body r) with
  | None => writeError StatusRequestEntityTooLarge "request body too large or unreadable"
  | Some body =>
    if negb (Valid body)
    then writeError StatusBadRequest "request body is not valid JSON" else
    res ← attempt (InsertRaw (payload_key body) body (TrimSpace (r_source r)));
    match res with
    | Err _ => writeError StatusInternalServerError "could not accept webhook"
    | Ok (id, isNew) =>
      (if isNew : bool then notify else mret ());;
      writeJSON StatusAccepted (AcceptedBody id (negb isNew))
    end
  end.

Definition getEvent (id : string) : Handler := λ r,
  if negb (uuidPattern id) then writeError StatusBadRequest "invalid event id" else
  res ← attempt (GetEvent id);
  match res with
  | Err _ => writeError StatusInternalServerError "lookup failed"
  | Ok None => writeError StatusNotFound "event not found"
  | Ok (Some ev) => writeJSON StatusOK (EventBody ev)
  end.

Definition getEntity (key : string) : Handler := λ r,
  res ← attempt (GetEntity (CanonicalKey key));
  match res with
  | Err _ => writeError StatusInternalServerError "lookup failed"
  | Ok None => writeError StatusNotFound "entity not found"
  | Ok (Some ent) => writeJSON StatusOK (EntityBody ent)
  end.

Definition health : Handler := λ r,
  res ← attempt Ping;
  match res with
  | Err _ => writeJSON StatusServiceUnavailable (HealthBody "unavailable")
  | Ok _ => writeJSON StatusOK (HealthBody "ok")
  end.

(** The four patterns of the mux; a GET pattern also takes HEAD requests, a
    wildcard takes one segment, but not a slash. *)
Definition is_get (m : string) : bool := bool_decide (m = "GET" ∨ m = "HEAD").
Definition wildcard (segment : string) : bool := bool_decide (segment ≠ "/").
Definition mux : Handler := λ r,
  let on (allowed : bool) (h : Handler) :=
    if allowed then h r else writeJSON StatusMethodNotAllowed MuxText in
  match r_path r with
  | ["webhooks"] => on (bool_decide (r_method r = "POST")) ingest
  | ["events"; id] =>
    if wildcard id then on (is_get (r_method r)) (getEvent id)
    else writeJSON StatusNotFound MuxText
  | ["entities"; key] =>
    if wildcard key then on (is_get (r_method r)) (getEntity key)
    else writeJSON StatusNotFound MuxText
  | ["healthz"] => on (is_get (r_method r)) health
  | _ => writeJSON StatusNotFound MuxText
  end.

(** The recorder passes status and body through; the body it reads for the log it
    puts back. *)
Definition withLogging (debug : bool) (next : Handler) : Handler := λ r,
  if negb debug then next r
  else next (mkRequest (r_method r) (r_path r) (r_source r)
               (read_limit maxBodyBytes (r_body r))).

Definition Routes (debug : bool) : Handler := withLogging debug mux.
End handlers.

(** ** The service's instances *)

(** [s.Pool.Ping] *)
Definition sql_ping : Statement unit := λ t db, Ok ((), db).
Definition Store_Ping `{Oracle} : Eff unit := stmt sql_ping.

#[export] Instance pg_store `{Postgres, Oracle} : Store World := {|
  InsertRaw := StoreRaw.InsertRaw;
  GetEvent := StoreRaw.GetEvent;
  GetEntity := StoreFacts.GetEntity;
  Ping := Store_Ping
|}.

#[export] Instance pg_notifier : Notifier World := PgQueue.Notify.
