(* ===== verification/Responses.v ===== *)
(** * What a client reads (writeJSON in internal/ingest/ingest.go)

    [writeJSON] hands a Go value to a [json.Encoder] after the status line is out.
    This file gives the JSON of every value the handlers pass, by the tags of the
    structs (store.EventView, model.Entity) and the sorted keys of the maps, the
    bytes on the wire, and a client that decodes them; the theorems say what the
    client gets. *)

From S2P Require Import Prelude GoErrors Utf8 GoStrings Model Strconv GoTime TimeFormat.
From S2P Require Import Llm Json JsonEncode FloatText Normalize Database Instances StoreRaw StoreFacts.
From S2P Require Import Queue Ingest.
From Stdlib Require Import Ascii Floats.SpecFloat.
Local Open Scope Z_scope.

(** ** Encoding *)

Section encoding.
Context `{L : Local}.

Definition j_int (n : Z) : value := JNumber (FormatInt n).
Definition j_time (t : Time) : option value := (λ l, JString (str l)) <$> MarshalTime t.
(** A nil pointer is [null], or left out with [omitempty]. *)
Definition j_pointer {A} (f : A → option value) (x : option A) : option value :=
  match x with None => Some JNull | Some a => f a end.
Definition j_omitempty {A} (k : string) (f : A → option value) (x : option A)
    : option (list (string * value)) :=
  match x with None => Some [] | Some a => v ← f a; Some [(k, v)] end.

Definition json_event (ev : EventView.t) : option value :=
  conf ← j_omitempty "confidence" (λ f, JNumber <$> FormatFloat f) (EventView.Confidence ev);
  received ← j_time (EventView.ReceivedAt ev);
  processed ← j_omitempty "processed_at" j_time (EventView.ProcessedAt ev);
  let text k x := default [] (j_omitempty k (Some ∘ JString) x) in
  Some (JObject
    ([("id", JString (EventView.ID ev)); ("status", JString (EventView.Status ev));
      ("attempts", j_int (EventView.Attempts ev))]
     ++ text "error" (EventView.Error ev)
     ++ text "classification" (EventView.Classification ev)
     ++ text "entity_key" (EventView.EntityKey ev)
     ++ text "canonical_state" (EventView.CanonicalState ev)
     ++ conf ++ [("received_at", received)] ++ processed)).

Definition json_entity (e : Entity.t) : option value :=
  last ← j_pointer j_time (Entity.LastEventTime e);
  amount ← j_pointer (Some ∘ j_int) (Entity.AmountMinor e);
  currency ← j_pointer (Some ∘ JString) (Entity.Currency e);
  updated ← j_time (Entity.UpdatedAt e);
  Some (JObject
    [("entity_key", JString (Entity.EntityKey e)); ("type", JString (Entity.Type_ e));
     ("current_state", JString (Entity.CurrentState e));
     ("current_rank", j_int (Entity.CurrentRank e)); ("last_event_time", last);
     ("amount_minor", amount); ("currency", currency); ("updated_at", updated)]).

(** What [Encode] is given; [None] where it fails. The mux writes plain text. *)
Definition json_payload (p : Payload) : option value :=
  match p with
  | ErrorBody msg => Some (JObject [("error", JString msg)])
  | AcceptedBody id duplicate =>
    Some (JObject [("duplicate", JBool duplicate); ("id", JString id);
                   ("status", JString "accepted")])
  | EventBody ev => json_event ev
  | EntityBody ent => json_entity ent
  | HealthBody status => Some (JObject [("status", JString status)])
  | MuxText => None
  end.

(** The body [writeJSON] sends: its status is sent before, and an error of [Encode],
    which then has written nothing, is dropped. *)
Definition wire (p : Payload) : string :=
  match json_payload p with Some v => Encode v | None => "" end.
End encoding.

(** ** A client *)

Definition client_string (v : value) : option string :=
  match v with JString s => Some s | _ => None end.
Definition client_int (v : value) : option Z :=
  match v with JNumber l => ParseInt64 l | _ => None end.
Definition client_time (v : value) : option Time :=
  match v with JString s => Parse RFC3339 s | _ => None end.
Definition client_float (v : value) : option float64 :=
  match v with JNumber l => ParseFloat l | _ => None end.
Definition client_bool (v : value) : option bool :=
  match v with JBool b => Some b | _ => None end.

(** A field that may be absent or null. *)
Definition client_option {A} (f : value → option A) (v : option value) : option (option A) :=
  match v with
  | None | Some JNull => Some None
  | Some v => Some <$> f v
  end.

Definition client_object (body : string) : option (list (string * value)) :=
  match parse_json body with Some (JObject ms) => Some ms | _ => None end.

Definition client_entity (body : string) : option Entity.t :=
  ms ← client_object body;
  key ← lookup_member ms "entity_key" ≫= client_string;
  ty ← lookup_member ms "type" ≫= client_string;
  state ← lookup_member ms "current_state" ≫= client_string;
  rank ← lookup_member ms "current_rank" ≫= client_int;
  last ← client_option client_time (lookup_member ms "last_event_time");
  amount ← client_option client_int (lookup_member ms "amount_minor");
  currency ← client_option client_string (lookup_member ms "currency");
  updated ← lookup_member ms "updated_at" ≫= client_time;
  Some (Entity.mk key ty state rank last amount currency updated).

Definition client_event (body : string) : option EventView.t :=
  ms ← client_object body;
  id ← lookup_member ms "id" ≫= client_string;
  st ← lookup_member ms "status" ≫= client_string;
  attempts ← lookup_member ms "attempts" ≫= client_int;
  err ← client_option client_string (lookup_member ms "error");
  class ← client_option client_string (lookup_member ms "classification");
  key ← client_option client_string (lookup_member ms "entity_key");
  state ← client_option client_string (lookup_member ms "canonical_state");
  conf ← client_option client_float (lookup_member ms "confidence");
  received ← lookup_member ms "received_at" ≫= client_time;
  processed ← client_option client_time (lookup_member ms "processed_at");
  Some (EventView.mk id st attempts err class key state conf received processed).

Definition client_ack (body : string) : option (string * bool) :=
  ms ← client_object body;
  id ← lookup_member ms "id" ≫= client_string;
  dup ← lookup_member ms "duplicate" ≫= client_bool;
  Some (id, dup).

(** ** Lemmas *)

Lemma j_time_spec `{L : Local, !LocalLaws L} t v :
  j_time t = Some v →
  numbers_ok v = true ∧ depth v = 0%nat ∧ scrubbed v = v ∧ client_time v = Some t.
Proof.
  unfold j_time. destruct (MarshalTime t) as [l|] eqn:Hm; [|done]. intros [= <-].
  destruct (MarshalTime_spec t l Hm) as [Hp Ha]. split_ands; [done|done| |done].
  cbn. f_equal. apply scrub_valid, ascii_ValidString. by rewrite chars_str.
Qed.

Lemma lookup_member_app ms1 ms2 k :
  lookup_member (ms1 ++ ms2) k
  = match lookup_member ms2 k with Some v => Some v | None => lookup_member ms1 k end.
Proof.
  induction ms1 as [|[k' v] ms1 IH]; cbn; [by destruct (lookup_member ms2 k)|].
  rewrite IH. by destruct (lookup_member ms2 k).
Qed.

Lemma lookup_member_cons k v ms k' :
  lookup_member ((k, v) :: ms) k'
  = match lookup_member ms k' with
    | Some v' => Some v'
    | None => if decide (k = k') then Some v else None
    end.
Proof. done. Qed.

(** A member under its key, and nothing under another. *)
Lemma lookup_one k k' v : lookup_member [(k, v)] k' = if decide (k = k') then Some v else None.
Proof. done. Qed.

(** The field of an optional member as the client reads it. *)
Lemma omitempty_spec {A} k (f : A → option value) (g : value → option A) (x : option A) ms :
  (∀ a v, x = Some a → f a = Some v →
     numbers_ok v = true ∧ depth v = 0%nat ∧ g (scrubbed v) = Some a ∧ scrubbed v ≠ JNull) →
  ValidString k = true → j_omitempty k f x = Some ms →
  forallb (λ p, numbers_ok (snd p)) ms = true ∧
  Forall (λ p, depth (snd p) = 0%nat) ms ∧
  client_option g (lookup_member (scrubbed_member <$> ms) k) = Some x ∧
  ∀ k', k ≠ k' → lookup_member (scrubbed_member <$> ms) k' = None.
Proof.
  intros Hf Hk Hms. destruct x as [a|]; cbn in Hms; [|injection Hms as <-; by split_ands].
  destruct (f a) as [v|] eqn:Hfa; [|done]. injection Hms as <-.
  destruct (Hf a v eq_refl Hfa) as (Hn & Hd & Hg & Hnull). cbn [forallb snd]. rewrite Hn.
  split_ands; [done|by repeat constructor| |].
  - cbn [fmap list_fmap]. unfold scrubbed_member. cbn [fst snd].
    rewrite scrub_valid, lookup_one, decide_True by done. cbn.
    destruct (scrubbed v); [done|by rewrite Hg..].
  - intros k' Hk'. cbn [fmap list_fmap]. unfold scrubbed_member. cbn [fst snd].
    by rewrite scrub_valid, lookup_one, decide_False.
Qed.

Lemma client_object_Encode ms :
  forallb (λ p, numbers_ok (snd p)) ms = true → Forall (λ p, depth (snd p) = 0%nat) ms →
  client_object (Encode (JObject ms)) = Some (scrubbed_member <$> ms).
Proof.
  intros Hn Hd. unfold client_object.
  destruct (Marshal_parse (JObject ms)) as (_ & -> & _); [done| |done].
  assert (foldr (λ p n, depth (snd p) `max` n)%nat 0%nat ms = 0%nat) as H0.
  { induction Hd as [|p ms' Hp _ IH]; [done|]. cbn in *. apply andb_true_iff in Hn as [_ Hn].
    rewrite Hp, IH by done. done. }
  cbn [depth]. by rewrite H0.
Qed.

(** ** Properties *)

Definition text_ok (x : option string) : Prop := from_option (λ s, ValidString s = true) True x.
Definition int_ok (n : Z) : Prop := - 2 ^ 63 ≤ n < 2 ^ 63.

(** Texts of TEXT columns are UTF-8, integers are int64s. *)
Record entity_fits (e : Entity.t) : Prop := {
  fit_key : ValidString (Entity.EntityKey e) = true;
  fit_type : ValidString (Entity.Type_ e) = true;
  fit_state : ValidString (Entity.CurrentState e) = true;
  fit_rank : int_ok (Entity.CurrentRank e);
  fit_amount : from_option int_ok True (Entity.AmountMinor e);
  fit_currency : text_ok (Entity.Currency e)
}.

(** The confidence of an event is any binary64, NaN and the infinities included. *)
Record event_fits (ev : EventView.t) : Prop := {
  fit_id : ValidString (EventView.ID ev) = true;
  fit_status : ValidString (EventView.Status ev) = true;
  fit_attempts : int_ok (EventView.Attempts ev);
  fit_error : text_ok (EventView.Error ev);
  fit_class : text_ok (EventView.Classification ev);
  fit_entity : text_ok (EventView.EntityKey ev);
  fit_canonical : text_ok (EventView.CanonicalState ev);
  fit_confidence : from_option (λ f, valid_binary 53 1024 f = true) True (EventView.Confidence ev)
}.

(** Decides the comparisons of literal keys. *)
Ltac decide_keys :=
  repeat match goal with
         | |- context [decide (?a = ?b :> string)] =>
           first [rewrite (decide_True (P := a = b)) by reflexivity
                 |rewrite (decide_False (P := a = b)) by discriminate]
         end.

Section readable.
Context `{L : Local, !LocalLaws L}.

Lemma pointer_spec {A} (f : A → option value) (g : value → option A) (x : option A) v :
  (∀ a v, x = Some a → f a = Some v →
     numbers_ok v = true ∧ depth v = 0%nat ∧ g (scrubbed v) = Some a ∧ scrubbed v ≠ JNull) →
  j_pointer f x = Some v →
  numbers_ok v = true ∧ depth v = 0%nat ∧ client_option g (Some (scrubbed v)) = Some x.
Proof.
  intros Hf Hv. destruct x as [a|]; cbn in Hv; [|by injection Hv as <-].
  destruct (Hf a v eq_refl Hv) as (Hn & Hd & Hg & Hnull). split_ands; [done..|].
  cbn. destruct (scrubbed v); [done|by rewrite Hg..].
Qed.

Lemma time_field a v :
  j_time a = Some v →
  numbers_ok v = true ∧ depth v = 0%nat ∧ client_time (scrubbed v) = Some a ∧ scrubbed v ≠ JNull.
Proof.
  intros Hv. destruct (j_time_spec a v Hv) as (Hn & Hd & Hs & Hc). rewrite Hs.
  split_ands; [done..|]. by intros ->.
Qed.

Lemma string_field s :
  ValidString s = true →
  numbers_ok (JString s) = true ∧ depth (JString s) = 0%nat ∧
  client_string (scrubbed (JString s)) = Some s ∧ scrubbed (JString s) ≠ JNull.
Proof. intros Hs. cbn. by rewrite scrub_valid. Qed.

Lemma int_field n :
  int_ok n →
  numbers_ok (j_int n) = true ∧ depth (j_int n) = 0%nat ∧
  client_int (scrubbed (j_int n)) = Some n ∧ scrubbed (j_int n) ≠ JNull.
Proof.
  intros Hn. split_ands; [apply FormatInt_number|done| |done]. by apply ParseInt64_FormatInt.
Qed.

Lemma client_entity_wire e v :
  entity_fits e → json_entity e = Some v → client_entity (Encode v) = Some e.
Proof.
  intros [Hkey Hty Hst Hrank Ham Hcur] Hv. unfold json_entity in Hv.
  destruct (j_pointer j_time (Entity.LastEventTime e)) as [last|] eqn:El; [|done].
  destruct (j_pointer (Some ∘ j_int) (Entity.AmountMinor e)) as [amount|] eqn:Ea; [|done].
  destruct (j_pointer (Some ∘ JString) (Entity.Currency e)) as [currency|] eqn:Ec; [|done].
  destruct (j_time (Entity.UpdatedAt e)) as [updated|] eqn:Eu; [|done].
  apply (pointer_spec _ client_time) in El as (Ln & Ld & Lg); [|intros; by apply time_field].
  apply (pointer_spec _ client_int) in Ea as (An & Ad & Ag).
  2:{ intros a v' Hx [= <-]. rewrite Hx in Ham. by apply int_field. }
  apply (pointer_spec _ client_string) in Ec as (Cn & Cd & Cg).
  2:{ intros a v' Hx [= <-]. rewrite Hx in Hcur. by apply string_field. }
  destruct (time_field _ _ Eu) as (Un & Ud & Ug & _).
  destruct (int_field _ Hrank) as (Rn & Rd & Rg & _).
  injection Hv as <-. unfold client_entity.
  rewrite client_object_Encode; [| |by repeat constructor].
  2:{ cbn [forallb snd]. by rewrite Rn, Ln, An, Cn, Un. }
  cbn [mbind option_bind fmap list_fmap]. unfold scrubbed_member. cbn [fst snd].
  rewrite !(scrub_valid "entity_key"), !(scrub_valid "type"), !(scrub_valid "current_state"),
    !(scrub_valid "current_rank"), !(scrub_valid "last_event_time"), !(scrub_valid "amount_minor"),
    !(scrub_valid "currency"), !(scrub_valid "updated_at") by done.
  cbn -[client_option client_time client_int client_string scrubbed j_int].
  decide_keys. cbn -[client_option client_time client_int client_string scrubbed j_int].
  rewrite Rg, Lg, Ag, Cg, Ug. cbn. rewrite !scrub_valid by done. by destruct e.
Qed.

Lemma text_pieces k x :
  text_ok x → ValidString k = true →
  let ms := default [] (j_omitempty k (Some ∘ JString) x) in
  forallb (λ p, numbers_ok (snd p)) ms = true ∧ Forall (λ p, depth (snd p) = 0%nat) ms ∧
  client_option client_string (lookup_member (scrubbed_member <$> ms) k) = Some x ∧
  ∀ k', k ≠ k' → lookup_member (scrubbed_member <$> ms) k' = None.
Proof.
  intros Hx Hk. assert (∃ ms, j_omitempty k (Some ∘ JString) x = Some ms) as [ms Hms]
    by (destruct x; by eexists).
  cbn zeta. rewrite Hms. eapply omitempty_spec; [|done|exact Hms].
  intros a v -> [= <-]. by apply string_field.
Qed.

Lemma option_eta {A} (x : option A) : match x with Some v => Some v | None => None end = x.
Proof. by destruct x. Qed.

(** The members of an event, with what may be left out as lists. *)
Definition event_members (id st : string) (at_ : value) (le lc lk ls cf : list (string * value))
    (rc : value) (pr : list (string * value)) : list (string * value) :=
  [("id", JString id); ("status", JString st); ("attempts", at_)]
  ++ le ++ lc ++ lk ++ ls ++ cf ++ [("received_at", rc)] ++ pr.

Lemma event_members_lookup id st at_ le lc lk ls cf rc pr k :
  ValidString id = true → ValidString st = true →
  lookup_member (scrubbed_member <$> event_members id st at_ le lc lk ls cf rc pr) k =
  match lookup_member (scrubbed_member <$> pr) k with Some v => Some v | None =>
  if decide ("received_at" = k) then Some (scrubbed rc) else
  match lookup_member (scrubbed_member <$> cf) k with Some v => Some v | None =>
  match lookup_member (scrubbed_member <$> ls) k with Some v => Some v | None =>
  match lookup_member (scrubbed_member <$> lk) k with Some v => Some v | None =>
  match lookup_member (scrubbed_member <$> lc) k with Some v => Some v | None =>
  match lookup_member (scrubbed_member <$> le) k with Some v => Some v | None =>
  if decide ("attempts" = k) then Some (scrubbed at_) else
  if decide ("status" = k) then Some (JString st) else
  if decide ("id" = k) then Some (JString id) else None
  end end end end end end.
Proof.
  intros Hid Hst. unfold event_members. rewrite !fmap_app. cbn [fmap list_fmap].
  unfold scrubbed_member at 1 2 3 9. cbn [fst snd scrubbed]. rewrite !scrub_valid by done.
  cbn [app]. repeat (rewrite lookup_member_app || rewrite lookup_member_cons).
  destruct (lookup_member (scrubbed_member <$> pr) k); [done|]. cbn [lookup_member].
  destruct (decide ("received_at" = k)); [done|].
  destruct (lookup_member (scrubbed_member <$> cf) k); [done|].
  destruct (lookup_member (scrubbed_member <$> ls) k); [done|].
  destruct (lookup_member (scrubbed_member <$> lk) k); [done|].
  destruct (lookup_member (scrubbed_member <$> lc) k); [done|].
  destruct (lookup_member (scrubbed_member <$> le) k); [done|].
  destruct (decide ("attempts" = k)); [done|]. by destruct (decide ("status" = k)).
Qed.

(** The value under a literal key, by [event_members_lookup] and what is absent. *)
Ltac event_key :=
  match goal with H : ∀ k, lookup_member _ k = _ |- _ => rewrite H end;
  repeat match goal with
         | H : ∀ k', _ ≠ k' → lookup_member ?l k' = None |- context [lookup_member ?l ?k] =>
           rewrite (H k) by discriminate
         end;
  decide_keys; rewrite ?option_eta; reflexivity.

Lemma client_event_wire ev v :
  event_fits ev → json_event ev = Some v → client_event (Encode v) = Some ev.
Proof.
  intros [Hid Hst Hat Her Hcl Hke Hca Hco] Hv. unfold json_event in Hv.
  destruct (j_omitempty "confidence" _ _) as [cf|] eqn:Ef; [|done].
  destruct (j_time (EventView.ReceivedAt ev)) as [rc|] eqn:Er; [|done].
  destruct (j_omitempty "processed_at" _ _) as [pr|] eqn:Ep; [|done].
  cbn [mbind option_bind] in Hv.
  apply (omitempty_spec _ _ client_float) in Ef as (Fn & Fd & Fg & Fo); [|intros f w Hx Hf|done].
  2:{ rewrite Hx in Hco. cbn [from_option] in Hco. pose proof (float_read_back f Hco) as Hread.
      destruct (FormatFloat f) as [l|] eqn:Hl; [|done]. injection Hf as <-.
      split_ands; [by eapply FormatFloat_number|done|done|done]. }
  apply (omitempty_spec _ _ client_time) in Ep as (Pn & Pd & Pg & Po);
    [|intros; by apply time_field|done].
  destruct (time_field _ _ Er) as (Rn & Rd & Rg & _).
  destruct (int_field _ Hat) as (An & Ad & Ag & _).
  destruct (text_pieces "error" _ Her) as (En & Ed & Eg & Eo); [done|].
  destruct (text_pieces "classification" _ Hcl) as (Cn & Cd & Cg & Co); [done|].
  destruct (text_pieces "entity_key" _ Hke) as (Kn & Kd & Kg & Ko); [done|].
  destruct (text_pieces "canonical_state" _ Hca) as (Sn & Sd & Sg & So); [done|].
  set (le := default [] (j_omitempty "error" _ _)) in *.
  set (lc := default [] (j_omitempty "classification" _ _)) in *.
  set (lk := default [] (j_omitempty "entity_key" _ _)) in *.
  set (ls := default [] (j_omitempty "canonical_state" _ _)) in *.
  apply (f_equal (from_option id JNull)) in Hv. cbn [from_option id] in Hv. rewrite <-Hv.
  fold (event_members (EventView.ID ev) (EventView.Status ev) (j_int (EventView.Attempts ev))
          le lc lk ls cf rc pr).
  unfold client_event. rewrite client_object_Encode.
  2:{ unfold event_members. rewrite !forallb_app. cbn [forallb snd].
      by rewrite An, En, Cn, Kn, Sn, Fn, Rn, Pn. }
  2:{ unfold event_members. rewrite !Forall_app. split_ands; try done; by repeat constructor. }
  cbn [mbind option_bind]. clearbody le lc lk ls.
  pose proof (λ k, event_members_lookup (EventView.ID ev) (EventView.Status ev)
    (j_int (EventView.Attempts ev)) le lc lk ls cf rc pr k Hid Hst) as Hms.
  set (ms := scrubbed_member <$> event_members _ _ _ _ _ _ _ _ _ _) in *. clearbody ms.
  assert (lookup_member ms "id" = Some (JString (EventView.ID ev))) as -> by event_key.
  assert (lookup_member ms "status" = Some (JString (EventView.Status ev))) as -> by event_key.
  assert (lookup_member ms "attempts" = Some (scrubbed (j_int (EventView.Attempts ev)))) as ->
    by event_key.
  assert (lookup_member ms "received_at" = Some (scrubbed rc)) as -> by event_key.
  assert (∀ k l, lookup_member ms k = lookup_member (scrubbed_member <$> l) k →
    lookup_member ms k = lookup_member (scrubbed_member <$> l) k) as Hopt by done.
  rewrite (Hopt "error" le), (Hopt "classification" lc), (Hopt "entity_key" lk),
    (Hopt "canonical_state" ls), (Hopt "confidence" cf), (Hopt "processed_at" pr) by event_key.
  rewrite Eg, Cg, Kg, Sg, Fg, Pg. cbn [mbind option_bind client_string]. rewrite Ag, Rg.
  by destruct ev.
Qed.
(** ** What has a JSON text *)

Definition finite (f : float64) : Prop :=
  match f with S754_nan | S754_infinity _ => False | _ => True end.

Lemma FormatFloat_iff f : is_Some (FormatFloat f) ↔ finite f.
Proof.
  destruct f as [neg|neg| |neg m e]; cbn.
  - split; [done|by eexists].
  - by split; [intros [? ?]|].
  - by split; [intros [? ?]|].
  - destruct (fraction m e). split; [done|by eexists].
Qed.

Definition entity_writable (e : Entity.t) : Prop :=
  from_option has_text True (Entity.LastEventTime e) ∧ has_text (Entity.UpdatedAt e).
Definition event_writable (ev : EventView.t) : Prop :=
  from_option finite True (EventView.Confidence ev) ∧ has_text (EventView.ReceivedAt ev) ∧
  from_option has_text True (EventView.ProcessedAt ev).

Lemma j_time_iff t : is_Some (j_time t) ↔ has_text t.
Proof. unfold j_time. by rewrite fmap_is_Some, MarshalTime_iff. Qed.

Lemma j_pointer_iff {A} (f : A → option value) (Q : A → Prop) x :
  (∀ a, is_Some (f a) ↔ Q a) → is_Some (j_pointer f x) ↔ from_option Q True x.
Proof. intros Hf. destruct x; cbn; [apply Hf|]. split; [done|by eexists]. Qed.

Lemma j_omitempty_iff {A} k (f : A → option value) (Q : A → Prop) x :
  (∀ a, is_Some (f a) ↔ Q a) → is_Some (j_omitempty k f x) ↔ from_option Q True x.
Proof.
  intros Hf. destruct x as [a|]; cbn; [|split; [done|by eexists]]. rewrite <-Hf.
  destruct (f a); cbn; [split; by eexists|]. by split; intros [? ?].
Qed.

Lemma json_entity_iff e : is_Some (json_entity e) ↔ entity_writable e.
Proof.
  unfold json_entity, entity_writable.
  rewrite <-j_time_iff, <-(j_pointer_iff j_time has_text _ j_time_iff).
  destruct (j_pointer j_time _) as [last|]; [|by split; [intros [? ?]|intros [[? ?] _]]].
  destruct (Entity.AmountMinor e), (Entity.Currency e); cbn [j_pointer mbind option_bind compose];
    (destruct (j_time (Entity.UpdatedAt e)); [split; [intros _; split; by eexists|by eexists]|
     by split; [intros [? ?]|intros [_ [? ?]]]]).
Qed.

Lemma json_event_iff ev : is_Some (json_event ev) ↔ event_writable ev.
Proof.
  unfold json_event, event_writable. rewrite <-j_time_iff.
  rewrite <-(j_omitempty_iff "processed_at" j_time has_text _ j_time_iff).
  rewrite <-(j_omitempty_iff "confidence" (λ f, JNumber <$> FormatFloat f) finite).
  2:{ intros f. by rewrite fmap_is_Some, FormatFloat_iff. }
  destruct (j_omitempty "confidence" _ _); [|by split; [intros [? ?]|intros [[? ?] _]]].
  destruct (j_time _); [|by split; [intros [? ?]|intros (_ & [? ?] & _)]].
  destruct (j_omitempty "processed_at" _ _); [|by split; [intros [? ?]|intros (_ & _ & [? ?])]].
  split; [intros _; split_ands; by eexists|by eexists].
Qed.
End readable.
