(* ===== verification/IngestFacts.v ===== *)
(** * What the HTTP boundary guarantees

    The contract of each handler over the service's instances, what a request with a
    known body does, and what the debug logging may change. *)

From S2P Require Import Prelude GoErrors Utf8 GoStrings Model Llm Json Sha256.
From S2P Require Import Normalize Database Instances StoreRaw RawFacts StoreFacts Queue.
From S2P Require Import Worker Processor System Invariants Trace Safety Ingest.
From Stdlib Require Import Ascii.
Local Open Scope Z_scope.

Section ingest_facts.
Context `{U : UnicodeTables, P : Postgres, O : Oracle}.

Lemma notify_db w : w_db (Notify w) = w_db w.
Proof. unfold Notify, pg_notifier, PgQueue.Notify. cbn. by destruct (w_notify w). Qed.

Lemma notify_on w : w_notify (Notify w) = true.
Proof. unfold Notify, pg_notifier, PgQueue.Notify. cbn. by destruct (w_notify w) eqn:Hn. Qed.

(** The endpoint after the body was read and checked. *)
Lemma ingest_valid r w body :
  read_max maxBodyBytes (r_body r) = Some body → Valid body = true →
  ingest r w =
  match StoreRaw.InsertRaw (payload_key body) body (TrimSpace (r_source r)) w with
  | (Ok (id, isNew), w') =>
    (Ok (mkResponse StatusAccepted (AcceptedBody id (negb isNew))),
     if (isNew : bool) then Notify w' else w')
  | (Err e, w') =>
    if is_panic e then (Err e, w') else
    (Ok (mkResponse StatusInternalServerError (ErrorBody "could not accept webhook")), w')
  end.
Proof.
  intros Hb Hv. unfold ingest. rewrite Hb, Hv. cbn [negb]. rewrite attempt_bind.
  cbn [Ingest.InsertRaw pg_store].
  destruct (StoreRaw.InsertRaw _ _ _ w) as [[[id [|]]|e] w']; try done; by destruct (is_panic e).
Qed.

Lemma ingest_refused r w :
  (∀ body, read_max maxBodyBytes (r_body r) = Some body → Valid body = false) →
  snd (ingest r w) = w ∧
  match read_max maxBodyBytes (r_body r) with
  | None => fst (ingest r w) = Ok (mkResponse StatusRequestEntityTooLarge
              (ErrorBody "request body too large or unreadable"))
  | Some _ => fst (ingest r w) = Ok (mkResponse StatusBadRequest
                (ErrorBody "request body is not valid JSON"))
  end.
Proof.
  unfold ingest. destruct (read_max _ _) as [body|]; [|done].
  intros Hb. by rewrite (Hb body eq_refl).
Qed.
End ingest_facts.

(** ** Properties *)

(** C13. An acknowledgement means durably received, and a refusal changes nothing:
    when the endpoint answers 202 with an id, the body was read in full and is
    JSON, and the log holds a row of that id keyed by the SHA-256 of the body; if
    it is not a duplicate, the hash was new and a worker has been signalled, and if
    it is, the tables are as they were. The endpoint answers 413 exactly when the
    body is too large or unreadable and 400 exactly when it is not JSON, and then
    it has touched nothing. *)
Theorem ingest_contract `{U : UnicodeTables, P : Postgres, O : Oracle} r w resp w' :
  hash_unique (w_db w) → ingest r w = (Ok resp, w') →
  (status resp = StatusAccepted →
     ∃ body id dup row, read_max maxBodyBytes (r_body r) = Some body ∧ Valid body = true ∧
       payload resp = AcceptedBody id dup ∧ raw_events (w_db w') !! id = Some row ∧
       RawRow.payload_hash row = payload_key body ∧
       (dup = false → find_by_hash (payload_key body) (w_db w) = None ∧ w_notify w' = true) ∧
       (dup = true → w_db w' = w_db w)) ∧
  (status resp = StatusRequestEntityTooLarge ↔ read_max maxBodyBytes (r_body r) = None) ∧
  (status resp = StatusBadRequest ↔
     ∃ body, read_max maxBodyBytes (r_body r) = Some body ∧ Valid body = false) ∧
  (status resp ≠ StatusAccepted → status resp ≠ StatusInternalServerError → w' = w).
Proof.
  intros Hu Hrun. destruct (read_max maxBodyBytes (r_body r)) as [body|] eqn:Hb.
  2:{ destruct (ingest_refused r w) as [Hw Hr]; [by rewrite Hb|]. rewrite Hb, Hrun in Hr.
      rewrite Hrun in Hw. cbn in Hr, Hw. injection Hr as ->. split_ands; try done.
      split; [done|]. by intros (? & ? & _). }
  destruct (Valid body) eqn:Hv.
  2:{ destruct (ingest_refused r w) as [Hw Hr]; [rewrite Hb; by intros ? [= <-]|].
      rewrite Hb, Hrun in Hr. rewrite Hrun in Hw. cbn in Hr, Hw. injection Hr as ->.
      split_ands; try done. split; [|done]. intros _. by exists body. }
  rewrite (ingest_valid r w body Hb Hv) in Hrun.
  assert (∀ b, Some body = Some b → Valid b ≠ false) as Hnv by (intros ? [= <-]; congruence).
  destruct (StoreRaw.InsertRaw _ _ _ w) as [[[id isNew]|e] w1] eqn:Hins.
  - injection Hrun as <- <-. cbn [status payload].
    destruct (InsertRaw_finds _ _ _ _ _ _ _ Hu Hins) as (_ & Hf & Hnew & Hdup).
    apply find_by_hash_Some in Hf as (row & Hrow & Hhash). split_ands; try done.
    + intros _. exists body, id, (negb isNew), row. split_ands; try done.
      * destruct isNew; [by rewrite notify_db|done].
      * destruct isNew; [|done]. intros _. split; [by apply Hnew|apply notify_on].
      * destruct isNew; [done|]. intros _. by apply Hdup.
    + split; [done|]. intros (b & Heq & Hf). by destruct (Hnv b Heq).
  - destruct (is_panic e); [done|]. injection Hrun as <- <-. cbn. split_ands; try done.
    split; [done|]. intros (b & Heq & Hf). by destruct (Hnv b Heq).
Qed.

(** A 202 answer leaves the log with the row of its body. *)
Lemma ingest_acked `{U : UnicodeTables, P : Postgres, O : Oracle} r w w1 id dup :
  hash_unique (w_db w) →
  ingest r w = (Ok (mkResponse StatusAccepted (AcceptedBody id dup)), w1) →
  ∃ body, read_max maxBodyBytes (r_body r) = Some body ∧ Valid body = true ∧
    find_by_hash (payload_key body) (w_db w1) = Some id.
Proof.
  intros Hu Hrun. destruct (read_max maxBodyBytes (r_body r)) as [body|] eqn:Hb.
  2:{ destruct (ingest_refused r w) as [_ Hr]; [by rewrite Hb|]. by rewrite Hb, Hrun in Hr. }
  destruct (Valid body) eqn:Hv.
  2:{ destruct (ingest_refused r w) as [_ Hr]; [rewrite Hb; by intros ? [= <-]|].
      by rewrite Hb, Hrun in Hr. }
  exists body. split_ands; try done. rewrite (ingest_valid r w body Hb Hv) in Hrun.
  destruct (StoreRaw.InsertRaw _ _ _ w) as [[[id1 isNew]|e] wi] eqn:Hins;
    [|by destruct (is_panic e)].
  injection Hrun as -> _ Hw1.
  destruct (InsertRaw_finds _ _ _ _ _ _ _ Hu Hins) as (_ & Hf & _).
  destruct isNew; subst w1; [by rewrite notify_db|done].
Qed.

Lemma InsertRaw_notify `{Postgres, Oracle} hash payload source w :
  w_notify (snd (StoreRaw.InsertRaw hash payload source w)) = w_notify w.
Proof.
  assert (∀ A (f : Statement A) w, w_notify (snd (stmt f w)) = w_notify w) as Hstmt.
  { intros A f w'. unfold stmt. destruct (fault _); [|done|]; by destruct (f _ _) as [[]|]. }
  unfold StoreRaw.InsertRaw. rewrite attempt_bind.
  pose proof (Hstmt _ (sql_insert_raw hash payload source) w) as H1.
  destruct (stmt _ w) as [[[id|]|e] w1]; cbn in *; [done| |by destruct (is_panic e)].
  pose proof (Hstmt _ (sql_raw_id hash) w1) as H2. rewrite bind_run.
  destruct (stmt _ w1) as [[id|e] w2]; cbn in *; congruence.
Qed.

(** A request whose body is in the log: the same id as a duplicate, or a failure;
    nothing is stored and no worker is woken. *)
Lemma ingest_known `{U : UnicodeTables, P : Postgres, O : Oracle} r w body id :
  read_max maxBodyBytes (r_body r) = Some body → Valid body = true →
  find_by_hash (payload_key body) (w_db w) = Some id →
  w_db (snd (ingest r w)) = w_db w ∧ w_notify (snd (ingest r w)) = w_notify w ∧
  match fst (ingest r w) with
  | Ok resp => resp = mkResponse StatusAccepted (AcceptedBody id true) ∨
               status resp = StatusInternalServerError
  | Err e => is_panic e = true
  end.
Proof.
  intros Hb Hv Hf. rewrite (ingest_valid r w body Hb Hv).
  destruct (InsertRaw_dup _ body (TrimSpace (r_source r)) _ _ Hf) as [Hd Hr].
  pose proof (InsertRaw_notify (payload_key body) body (TrimSpace (r_source r)) w) as Hn.
  destruct (StoreRaw.InsertRaw _ _ _ w) as [[[id2 isNew2]|e] w2]; cbn in *.
  - injection Hr as -> ->. split_ands; [done..|by left].
  - destruct (is_panic e) eqn:Hp; cbn; split_ands; try done. by right.
Qed.

(** Not every JSON body is taken: one that JSONB refuses (an escaped U+0000, a number
    out of its range) is answered 500 on every delivery, whatever the tables and the
    environment, and leaves nothing behind. *)
Theorem unstorable_json `{U : UnicodeTables, P : Postgres, O : Oracle} r w body :
  (∀ t e, fault t = FailBefore e ∨ fault t = FailAfter e → is_panic e = false) →
  read_max maxBodyBytes (r_body r) = Some body → Valid body = true → pg_jsonb body = None →
  fst (ingest r w) = Ok (mkResponse StatusInternalServerError
                           (ErrorBody "could not accept webhook")) ∧
  w_db (snd (ingest r w)) = w_db w.
Proof.
  intros Hpanic Hb Hv Hj. rewrite (ingest_valid r w body Hb Hv).
  unfold StoreRaw.InsertRaw. rewrite attempt_bind.
  assert (∀ t db, ∃ e, sql_insert_raw (payload_key body) body (TrimSpace (r_source r)) t db = Err e
            ∧ is_panic e = false) as Hst.
  { intros t db. unfold sql_insert_raw. destruct (negb _); [by eexists|]. rewrite Hj. by eexists. }
  destruct (Hst (w_ticks w) (w_db w)) as (e & He & Hp). unfold stmt. rewrite He.
  destruct (fault (w_ticks w)) as [|e0|e0] eqn:Hf; cbn.
  - by rewrite Hp; cbn; rewrite Hp.
  - pose proof (Hpanic _ e0 (or_introl Hf)) as Hp0. by rewrite Hp0; cbn; rewrite Hp0.
  - by rewrite Hp; cbn; rewrite Hp.
Qed.

(** Looking up an event: a malformed id is refused without touching the
    database; for a well-formed one, when the statement runs and the database reads
    it as a UUID, the answer is 404 if the log has no such row, and otherwise 200
    with the status, the attempts and the error of the row, and the class of the
    fact when there is one. *)
Theorem getEvent_contract `{U : UnicodeTables, P : Postgres, O : Oracle} id u r w :
  (uuidPattern id = false →
     getEvent id r w = (Ok (mkResponse StatusBadRequest (ErrorBody "invalid event id")), w)) ∧
  (uuidPattern id = true → fault (w_ticks w) = NoFault → pg_uuid id = Some u →
     w_db (snd (getEvent id r w)) = w_db w ∧
     match raw_events (w_db w) !! u with
     | None => fst (getEvent id r w) =
                 Ok (mkResponse StatusNotFound (ErrorBody "event not found"))
     | Some row =>
       ∃ ev, fst (getEvent id r w) = Ok (mkResponse StatusOK (EventBody ev)) ∧
         EventView.Status ev = RawStatus_string (RawRow.status row) ∧
         EventView.Attempts ev = RawRow.attempts row ∧ EventView.Error ev = RawRow.err row ∧
         EventView.Classification ev =
           FactRow.classification <$> normalized_events (w_db w) !! u
     end).
Proof.
  split; unfold getEvent; intros Hid; rewrite Hid; [done|]. intros Hf Hu. cbn [negb].
  rewrite attempt_bind. cbn [Ingest.GetEvent pg_store]. unfold StoreRaw.GetEvent.
  destruct (raw_events (w_db w) !! u) as [row|] eqn:Hrow.
  - erewrite stmt_no_fault; [|done|unfold sql_get_event; by rewrite Hu, Hrow].
    split; [done|]. by eexists.
  - erewrite stmt_no_fault; [|done|unfold sql_get_event; by rewrite Hu, Hrow]. by split.
Qed.

Lemma getEntity_found {U : UnicodeTables} {UL : UnicodeLaws U} {P : Postgres}
    {O : Oracle} {C : Client} norm cfg s k e spelling r w :
  reachable norm cfg s → entities (s_db s) !! k = Some e →
  w_db w = s_db s → fault (w_ticks w) = NoFault → pg_text k = true →
  CanonicalKey spelling = CanonicalKey k →
  getEntity spelling r w = (Ok (mkResponse StatusOK (EntityBody (entity_view k e))),
                            set_db (w_db w) (tick w)).
Proof.
  intros Hs He Hw Hf Ht Hk.
  pose proof (inv_entity _ _ (inv_db _ _ (reachable_sys_inv _ _ _ Hs)) _ _ He) as [_ _ _ _ _ [_ Hck]].
  unfold getEntity. rewrite Hk, Hck, attempt_bind.
  cbn [Ingest.GetEntity pg_store]. unfold StoreFacts.GetEntity.
  erewrite stmt_no_fault; [|done|].
  2:{ unfold sql_get_entity. rewrite Ht, Hw, He. reflexivity. }
  cbn. by rewrite Hw.
Qed.

(** What was written can be read under any spelling: in every reachable state of
    the service, an entity is answered to every request whose key canonicalises to
    the entity's, when the statement runs and the key is one the database takes. *)
Theorem getEntity_any_spelling {U : UnicodeTables} {UL : UnicodeLaws U} {P : Postgres}
    {O : Oracle} {C : Client} norm cfg s k e spelling r w :
  reachable norm cfg s → entities (s_db s) !! k = Some e →
  w_db w = s_db s → fault (w_ticks w) = NoFault → pg_text k = true →
  CanonicalKey spelling = CanonicalKey k →
  getEntity spelling r w = (Ok (mkResponse StatusOK (EntityBody (entity_view k e))),
                            set_db (w_db w) (tick w)).
Proof. apply getEntity_found. Qed.

(** ** The debug log *)

Lemma read_max_limit n b :
  0 ≤ n → read_max n (read_limit n b) = Some (str (take (Z.to_nat n) (chars (b_bytes b)))).
Proof.
  intros Hn. unfold read_max, read_limit. cbn [b_bytes b_err]. unfold len.
  assert (String.length (str (take (Z.to_nat n) (chars (b_bytes b)))) ≤ Z.to_nat n)%nat.
  { rewrite <-length_chars, chars_str, length_take. lia. }
  destruct (Z.ltb_spec n (Z.of_nat (String.length (str (take (Z.to_nat n) (chars (b_bytes b)))))));
    [lia|done].
Qed.

(** Logging at level debug changes nothing for a request whose body can be read
    and fits the limit: every handler sees the request as it is. *)
Theorem logging_transparent {S : Type} (next : @Handler S) r :
  read_max maxBodyBytes (r_body r) ≠ None → withLogging true next r = next r.
Proof.
  intros Hb. unfold withLogging. cbn [negb]. f_equal. destruct r as [m p src [bytes err]].
  unfold read_max in Hb. cbn in *. unfold len in Hb. rewrite <-length_chars in Hb.
  destruct (Z.ltb_spec maxBodyBytes (Z.of_nat (length (chars bytes)))); [done|].
  destruct err; [done|]. unfold read_limit. cbn [b_bytes].
  rewrite take_ge by (unfold maxBodyBytes in *; lia). by rewrite str_chars.
Qed.

(** For every other webhook it does: the logging drops the read error and cuts the
    body at the limit, so a body that is too large or breaks off, refused with 413
    at every other level, is treated at level debug like a request that sent just
    the bytes read so far, and these are accepted if they happen to be JSON. *)
Theorem logging_accepts_truncated `{U : UnicodeTables, P : Postgres, O : Oracle} r w :
  r_method r = "POST" → r_path r = ["webhooks"] →
  read_max maxBodyBytes (r_body r) = None →
  let prefix := str (take (Z.to_nat maxBodyBytes) (chars (b_bytes (r_body r)))) in
  Routes false r w = (Ok (mkResponse StatusRequestEntityTooLarge
                        (ErrorBody "request body too large or unreadable")), w) ∧
  Routes true r w =
    Routes false (mkRequest "POST" ["webhooks"] (r_source r) (mkBody prefix None)) w ∧
  read_max maxBodyBytes (mkBody prefix None) = Some prefix.
Proof.
  intros Hm Hp Hb prefix. destruct r as [m p src b]. cbn in Hm, Hp, Hb, prefix. subst m p.
  split; [|split].
  - unfold Routes, withLogging, mux, ingest. cbn [negb r_path r_method r_body].
    rewrite bool_decide_true by done. by rewrite Hb.
  - unfold Routes, withLogging. cbn [negb r_path r_method r_source r_body]. reflexivity.
  - apply (read_max_limit maxBodyBytes b). unfold maxBodyBytes. lia.
Qed.

(** ** Witnesses *)

Section witnesses.
Local Existing Instances latin1_tables latin1_laws sample_postgres calm sample_client.

Definition webhook : Request := mkRequest "POST" ["webhooks"] " acme " (mkBody "{}" None).
Definition broken : Request :=
  mkRequest "POST" ["webhooks"] "" (mkBody "12" (Some (errorString "unexpected EOF"))).
Definition first_ack : Response := mkResponse StatusAccepted (AcceptedBody "id-0" false).
Definition after_ack : World := snd (ingest webhook boot).

Lemma no_rows : hash_unique (w_db boot).
Proof. intros i j ri rj Hi. by vm_compute in Hi. Qed.

Lemma ingest_contract_witness :
  ∃ body id dup row, read_max maxBodyBytes (r_body webhook) = Some body ∧ Valid body = true ∧
    payload first_ack = AcceptedBody id dup ∧ raw_events (w_db after_ack) !! id = Some row ∧
    RawRow.payload_hash row = payload_key body ∧
    (dup = false → find_by_hash (payload_key body) (w_db boot) = None ∧
                   w_notify after_ack = true) ∧
    (dup = true → w_db after_ack = w_db boot).
Proof.
  refine (proj1 (ingest_contract webhook boot first_ack after_ack no_rows _) _).
  - vm_compute. reflexivity.
  - reflexivity.
Defined.

Definition some_uuid : string := "0b1e52c4-9f6a-4c39-8d7e-2f1a3b4c5d6e".
Lemma getEvent_contract_witness :
  getEvent "42" webhook boot =
    (Ok (mkResponse StatusBadRequest (ErrorBody "invalid event id")), boot) ∧
  w_db (snd (getEvent some_uuid webhook boot)) = w_db boot.
Proof.
  split.
  - refine (proj1 (getEvent_contract "42" "42" webhook boot) _). reflexivity.
  - refine (proj1 (proj2 (getEvent_contract some_uuid some_uuid webhook boot) _ _ _)); reflexivity.
Defined.

Definition processed : Sys := sample_play sample_client one_event initial.
Definition reader : World := mkWorld (s_db processed) None false 9.
Definition the_entity : EntityRow.t :=
  EntityRow.mk ClassShipment StateInTransit 2 (Some 1776782820000000000) None None
    240000000000 240000000000.
Lemma getEntity_any_spelling_witness :
  getEntity " maeu240498712" webhook reader =
    (Ok (mkResponse StatusOK (EntityBody (entity_view "MAEU240498712" the_entity))),
     set_db (w_db reader) (tick reader)).
Proof.
  apply (getEntity_any_spelling floor_0_6 sample_cfg processed "MAEU240498712" the_entity
           " maeu240498712" webhook reader).
  - apply sample_reachable.
  - vm_compute. reflexivity.
  - reflexivity.
  - reflexivity.
  - vm_compute. reflexivity.
  - vm_compute. reflexivity.
Defined.

Lemma logging_transparent_witness :
  withLogging true (mux (S := World)) webhook = mux webhook.
Proof. apply (logging_transparent (mux (S := World)) webhook). by vm_compute. Defined.

Lemma logging_accepts_truncated_witness :
  Routes false broken boot = (Ok (mkResponse StatusRequestEntityTooLarge
                                (ErrorBody "request body too large or unreadable")), boot) ∧
  fst (Routes true broken boot) =
    Ok (mkResponse StatusAccepted (AcceptedBody "id-0" false)).
Proof.
  destruct (logging_accepts_truncated broken boot) as (H1 & H2 & _);
    [reflexivity|reflexivity|reflexivity|].
  split; [exact H1|]. rewrite H2. vm_compute. reflexivity.
Defined.
End witnesses.
