(* ===== verification/ResponsesFacts.v ===== *)
(** * What the responses tell a client

    The decoded responses of Responses.v, on their own and for the reachable states
    of the service, and where a response says nothing. *)

From S2P Require Import Prelude GoErrors Utf8 GoStrings Model Strconv GoTime TimeFormat.
From S2P Require Import Llm Json JsonEncode FloatText Normalize Database Instances StoreRaw StoreFacts.
From S2P Require Import Queue Worker Processor System Invariants Trace Safety Ingest Responses.
From S2P Require Import IngestFacts.
From Stdlib Require Import Ascii Floats.SpecFloat.
Local Open Scope Z_scope.

(** ** Every body *)

Lemma ack_spec `{Local} id duplicate :
  ValidString id = true → client_ack (wire (AcceptedBody id duplicate)) = Some (id, duplicate).
Proof.
  intros Hid. unfold wire, client_ack. cbn [json_payload].
  rewrite client_object_Encode by (done || by repeat constructor).
  cbn [mbind option_bind fmap list_fmap]. unfold scrubbed_member. cbn [fst snd scrubbed].
  rewrite !(scrub_valid "duplicate"), !(scrub_valid "id"), !(scrub_valid "status"),
    !(scrub_valid "accepted"), !scrub_valid by done.
  by cbv [lookup_member]; decide_keys.
Qed.

(** C35. A client reads back what the service knows. For texts that are UTF-8, integers
    that are int64s, a confidence that is any binary64, and a local zone of whole
    minutes, the body of an acknowledgement decodes to its id and duplicate flag; the
    body of GET /entities decodes to the entity and the body of GET /events to the event
    view, field by field, times to the nanosecond and the confidence to the same
    number, exactly when every time lies, by the local clock, in the years 0 to 9999 and
    the confidence is neither NaN nor infinite; otherwise the body is empty. *)
Theorem responses_readable `{L : Local, !LocalLaws L} :
  (∀ id duplicate, ValidString id = true →
     client_ack (wire (AcceptedBody id duplicate)) = Some (id, duplicate)) ∧
  (∀ e, entity_fits e →
     (entity_writable e → client_entity (wire (EntityBody e)) = Some e) ∧
     (¬ entity_writable e → wire (EntityBody e) = "")) ∧
  (∀ ev, event_fits ev →
     (event_writable ev → client_event (wire (EventBody ev)) = Some ev) ∧
     (¬ event_writable ev → wire (EventBody ev) = "")).
Proof.
  split_ands; [apply ack_spec|intros e He|intros ev Hev]; unfold wire; cbn [json_payload].
  - rewrite <-json_entity_iff. destruct (json_entity e) eqn:Hj; [|by split; [intros [? ?]|]].
    split; [by intros _; apply client_entity_wire|by intros []; eexists].
  - rewrite <-json_event_iff. destruct (json_event ev) eqn:Hj; [|by split; [intros [? ?]|]].
    split; [by intros _; apply client_event_wire|by intros []; eexists].
Qed.

(** ** Entities of the database *)

Lemma state_valid s :
  IsShipmentState s = true ∨ IsInvoiceState s = true → ValidString s = true.
Proof.
  rewrite IsShipmentState_cases, IsInvoiceState_cases.
  by intros [[->|[->|[->| ->]]]|[->|[->|[->| ->]]]].
Qed.

Lemma view_fits `{UnicodeTables} k e :
  entity_ok k e → ValidString k = true → text_ok (EntityRow.currency e) →
  from_option int_ok True (EntityRow.amount_minor e) → entity_fits (entity_view k e).
Proof.
  intros [Hr Hs Ht _ _ _] Hk Hc Ha. split; cbn; [done| | | |done|done].
  - by destruct Ht as [-> | ->].
  - by apply state_valid.
  - rewrite Hr. pose proof (ShipmentRank_range (EntityRow.current_state e)). unfold int_ok. lia.
Qed.

(** From the pipeline to the client: in every reachable state of the service, a
    request for an entity under any spelling of its key that the database answers
    gets status 200 and a body that decodes to exactly the row of the entity, when
    its times have an RFC 3339 text. *)
Theorem getEntity_readable {U : UnicodeTables} {UL : UnicodeLaws U} {P : Postgres}
    {PL : PostgresLaws P} {O : Oracle} {C : Client} {L : Local} {LL : LocalLaws L}
    norm cfg s k e spelling r w :
  reachable norm cfg s → entities (s_db s) !! k = Some e →
  w_db w = s_db s → fault (w_ticks w) = NoFault → pg_text k = true →
  CanonicalKey spelling = CanonicalKey k →
  text_ok (EntityRow.currency e) → from_option int_ok True (EntityRow.amount_minor e) →
  is_Some (json_entity (entity_view k e)) →
  ∃ resp w', getEntity spelling r w = (Ok resp, w') ∧ status resp = StatusOK ∧
    client_entity (wire (payload resp)) = Some (entity_view k e).
Proof.
  intros Hs He Hw Hf Ht Hk Hcur Ham [v Hv]. eexists _, _. split; [by eapply getEntity_found|].
  split; [done|]. unfold wire. cbn [payload json_payload]. rewrite Hv.
  apply client_entity_wire; [|done]. apply view_fits; [|by apply pg_text_spec|done|done].
  exact (inv_entity _ _ (inv_db _ _ (reachable_sys_inv _ _ _ Hs)) _ _ He).
Qed.

(** ** Events of the database *)

(** What the view of an event with its fact, if there is one, is made of. *)
Definition event_view (id : string) (r : RawRow.t) (f : option FactRow.t) : EventView.t :=
  EventView.mk id (RawStatus_string (RawRow.status r)) (RawRow.attempts r) (RawRow.err r)
    (FactRow.classification <$> f) (f ≫= FactRow.entity_key) (f ≫= FactRow.canonical_state)
    (FactRow.confidence <$> f) (RawRow.received_at r) (FactRow.created_at <$> f).

Lemma shape_ascii shape l : match_shape shape l = true → forallb is_ascii l = true.
Proof.
  revert shape. induction l as [|c l IH]; intros [|h shape]; cbn; try done.
  intros [Hc Hl]%andb_true_iff. rewrite (IH _ Hl), andb_true_r.
  assert (N_of_ascii c < 128)%N as Ha; [|unfold is_ascii, RuneSelf; lia].
  unfold shape_ok in Hc. destruct h; [|by apply Ascii.eqb_eq in Hc as ->].
  unfold isHexJson, hex_digit, between in Hc. repeat case_match; try done; lia.
Qed.

Lemma NULLIF_text s : ValidString s = true → text_ok (NULLIF_empty s).
Proof. unfold NULLIF_empty. by case_decide. Qed.

Lemma canonical_valid `{UnicodeTables} k : CanonicalKey k = k → ValidString k = true.
Proof. intros <-. apply ValidString_map_runes. Qed.

(** The texts of a fact are those of a coherent one. *)
Lemma fact_valid `{UnicodeTables, Postgres} n c m v now :
  coherent n → let f := fact_row n c m v now in
  ValidString (FactRow.classification f) = true ∧ text_ok (FactRow.entity_key f) ∧
  text_ok (FactRow.canonical_state f).
Proof.
  intros [Hc Hk Hs _ _|Hc Hs _ Hk _ _|Hc Hs _ Hk _]; cbn -[ValidString]; rewrite Hc;
    (split; [done|]); split; apply NULLIF_text; rewrite ?Hs, ?Hk; try done;
    first [by apply canonical_valid|by apply state_valid; auto].
Qed.

Lemma event_view_fits {U : UnicodeTables} {UL : UnicodeLaws U} {P : Postgres} {C : Client} norm db id r :
  db_inv norm db → raw_events db !! id = Some r → uuidPattern id = true →
  text_ok (RawRow.err r) →
  from_option (λ f, valid_binary 53 1024 f = true) True (FactRow.confidence <$> normalized_events db !! id) →
  event_fits (event_view id r (normalized_events db !! id)).
Proof.
  intros Hinv Hr Hid Herr Hconf. pose proof (ok_range _ (inv_row _ _ Hinv _ _ Hr)) as Hat.
  unfold int4_max in Hat.
  destruct (normalized_events db !! id) as [f|] eqn:Hf; cbn in Hconf.
  - destruct (inv_fact _ _ Hinv id f Hf) as (r0 & n & m & v & c & now & _ & Ha & _ & ->).
    destruct (fact_valid n c m v now) as (H1 & H2 & H3); [by eapply answered_coherent|].
    split; try done; [by eapply ascii_ValidString, shape_ascii|by cbn; destruct (RawRow.status r)|].
    cbn. unfold int_ok. lia.
  - split; try done; [by eapply ascii_ValidString, shape_ascii|by cbn; destruct (RawRow.status r)|].
    cbn. unfold int_ok. lia.
Qed.

(** The same for an event: in every reachable state a request for an event that the
    database answers gets status 200 and a body that decodes to exactly its row joined
    with its fact, when its error text is UTF-8, its confidence is a binary64 and not NaN
    or infinite, and its times have an RFC 3339 text. *)
Theorem getEvent_readable {U : UnicodeTables} {UL : UnicodeLaws U} {P : Postgres}
    {O : Oracle} {C : Client} {L : Local} {LL : LocalLaws L} norm cfg s id e r w :
  reachable norm cfg s → raw_events (s_db s) !! id = Some e →
  w_db w = s_db s → fault (w_ticks w) = NoFault → uuidPattern id = true →
  text_ok (RawRow.err e) →
  from_option (λ f, valid_binary 53 1024 f = true) True (FactRow.confidence <$> normalized_events (s_db s) !! id) →
  let view := event_view id e (normalized_events (s_db s) !! id) in
  is_Some (json_event view) →
  ∃ resp w', getEvent id r w = (Ok resp, w') ∧ status resp = StatusOK ∧
    client_event (wire (payload resp)) = Some view.
Proof.
  intros Hs He Hw Hf Hid Herr Hconf view [v Hv].
  pose proof (inv_db _ _ (reachable_sys_inv _ _ _ Hs)) as Hinv.
  exists (mkResponse StatusOK (EventBody view)), (set_db (w_db w) (tick w)). split.
  - unfold getEvent. rewrite Hid. cbn [negb]. rewrite attempt_bind.
    cbn [Ingest.GetEvent pg_store]. unfold StoreRaw.GetEvent. erewrite stmt_no_fault; [|done|].
    2:{ unfold sql_get_event. rewrite (inv_id _ _ Hinv _ _ He), Hw, He. reflexivity. }
    cbn. by rewrite Hw.
  - split; [done|]. unfold wire. cbn [payload json_payload]. rewrite Hv.
    apply client_event_wire; [|done]. by eapply event_view_fits.
Qed.

(** ** A body that says nothing *)

(** A model that dates an event in the year 0, east of UTC. *)
Definition ancient : Client := λ _ _,
  Ok (Result.mk (Response.mk "SHIPMENT" "A1" "IN_TRANSIT" "0000-01-01T00:00:00+14:00" None "" ""
                   conf_0_95) "mock" "v1").

(** A date can make an entity unreadable: the gate accepts an event time such as
    0000-01-01T00:00:00+14:00, which is before year 0 in UTC, and from then on GET
    /entities answers 200 with an empty body, because [Encode] fails after the
    status is out and its error is dropped. *)
Theorem ancient_time_empty_body :
  ∃ s resp w', @reachable latin1_tables sample_postgres ancient floor_0_6 sample_cfg s ∧
    @getEntity World (@pg_store sample_postgres calm) latin1_tables "a1"
      (mkRequest "GET" ["entities"; "a1"] "" (mkBody "" None)) (set_db (s_db s) boot)
    = (Ok resp, w') ∧
    status resp = StatusOK ∧ @wire utc (payload resp) = "".
Proof.
  exists (sample_play ancient one_event initial). eexists _, _.
  split; [apply sample_reachable|]. split; [vm_compute; reflexivity|]. by vm_compute.
Qed.

(** ** Witnesses *)

Definition sample_entity : Entity.t :=
  Entity.mk "INV-7" ClassInvoice StatePaid 0 (Some 1777183200250000000) (Some 2435075)
    (Some "EUR") 1777183201000000000.

Lemma sample_entity_fits : entity_fits sample_entity.
Proof. split; vm_compute; (done || by split). Qed.

(** An event with the least normal confidence, and one without a text for it. *)
Definition sample_event (conf : float64) : EventView.t :=
  EventView.mk "a3bb189e-8bf9-4888-9912-ace4e6543002" "PROCESSED" 1 None (Some ClassShipment)
    (Some "MAEU240498712") (Some StateInTransit) (Some conf) 1777183200250000000
    (Some 1777183201000000000).

Lemma responses_readable_witness :
  client_entity (@wire utc (EntityBody sample_entity)) = Some sample_entity ∧
  (let ev := sample_event (S754_finite false 4503599627370496 (-1074)) in
   client_event (@wire utc (EventBody ev)) = Some ev) ∧
  @wire utc (EventBody (sample_event S754_nan)) = "".
Proof.
  destruct (responses_readable (L := utc)) as (_ & Hent & Hev). split; [|split].
  - apply (proj1 (Hent sample_entity sample_entity_fits)). split; vm_compute; by split.
  - apply Hev; [split; vm_compute; (done || by split)|]. split_ands; vm_compute; (done || by split).
  - apply (proj2 (Hev (sample_event S754_nan) ltac:(split; vm_compute; (done || by split)))).
    by intros [? _].
Defined.

Section witness.
Local Existing Instances latin1_tables latin1_laws sample_postgres sample_postgres_laws calm.
Local Existing Instances sample_client utc.

Lemma getEntity_readable_witness :
  ∃ resp w', getEntity " maeu240498712" webhook reader = (Ok resp, w') ∧ status resp = StatusOK ∧
    client_entity (wire (payload resp)) = Some (entity_view "MAEU240498712" the_entity).
Proof.
  apply (getEntity_readable floor_0_6 sample_cfg processed "MAEU240498712" the_entity
           " maeu240498712" webhook reader).
  - apply sample_reachable.
  - vm_compute. reflexivity.
  - reflexivity.
  - reflexivity.
  - vm_compute. reflexivity.
  - vm_compute. reflexivity.
  - exact I.
  - exact I.
  - vm_compute. by eexists.
Defined.

Definition event_id : string := "a3bb189e-8bf9-4888-9912-ace4e6543002".
(** A database whose first id is that of a real event. *)
#[local] Definition issuing : Oracle := {|
  fault _ := NoFault; clock := @clock calm; gen_random_uuid _ := event_id; locked _ := ∅;
  choose _ := 0%nat; wakeup _ := PollTimeout; ctx_cancelled _ := false; rand_Int64N _ _ := 0 |}.
Lemma issuing_laws : OracleLaws issuing.
Proof. by intros t. Qed.

Definition seen : Sys := play (O := issuing) floor_0_6 sample_cfg one_event initial.
Definition seen_row : RawRow.t :=
  RawRow.mk "h1" "{}" (Some "acme") StatusProcessed 1 None None 0.

Lemma getEvent_readable_witness :
  ∃ resp w', getEvent event_id webhook (mkWorld (s_db seen) None false 9) = (Ok resp, w') ∧
    status resp = StatusOK ∧
    client_event (wire (payload resp))
    = Some (event_view event_id seen_row (normalized_events (s_db seen) !! event_id)).
Proof.
  apply (getEvent_readable floor_0_6 sample_cfg seen event_id seen_row webhook).
  - apply (play_reachable (OL := issuing_laws)).
  - vm_compute. reflexivity.
  - reflexivity.
  - reflexivity.
  - vm_compute. reflexivity.
  - exact I.
  - assert (FactRow.confidence <$> normalized_events (s_db seen) !! event_id = Some conf_0_95)
      as -> by (vm_compute; reflexivity).
    vm_compute. reflexivity.
  - vm_compute. by eexists.
Defined.
End witness.
