(* ===== verification/Service.v ===== *)
(** * The whole service

    The HTTP side and the worker loop together. A fleet is the database and the
    local state of any number of processes; in an operation one of them serves a
    request through [Routes] or makes one turn of its worker loop, under an
    environment of its own. Every run of a fleet is a run of the transition
    system of System.v, and a webhook that nothing disturbs is followed from its
    POST to what the two GET endpoints answer. A body that was acknowledged is known
    from then on, wherever the service goes. *)

From S2P Require Import Prelude GoErrors Utf8 GoStrings Model Llm Json Sha256.
From S2P Require Import Normalize Database Instances StoreRaw RawFacts StoreFacts Queue.
From S2P Require Import Worker Processor System Refinement Invariants Trace Safety Lifecycle.
From S2P Require Import Ingest IngestFacts Mock Samples.
From stdpp Require Import functions.
From Stdlib Require Import Ascii.
Local Open Scope Z_scope.

(** ** Fleets *)

Inductive operation : Type :=
  | Serve (debug : bool) (r : Request)     (** [a.api.Routes()] handles a request *)
  | Turn.                                  (** one round of [Pool.worker] *)

Record Fleet : Type := mkFleet { f_db : DB; f_local : nat → World }.

Section fleet.
Context `{U : UnicodeTables, P : Postgres, C : Client}.
Context (norm : Normalizer) (cfg : PgQueue.Config).

Definition perform (O : Oracle) (op : operation) (w : World) : World :=
  match op with
  | Serve debug r => snd (Routes debug r w)
  | Turn => snd (@worker_turn World (PgQueue.pg_queue cfg) (processor_handler norm) ctx_err w)
  end.

(** Process [i] acts on the database as the others left it. *)
Definition operate (O : Oracle) (i : nat) (op : operation) (fl : Fleet) : Fleet :=
  let w := perform O op (set_db (f_db fl) (f_local fl i)) in
  mkFleet (w_db w) (<[i := w]> (f_local fl)).

Inductive operates (fl : Fleet) : Fleet → Prop :=
  | operates_in (O : Oracle) i op : OracleLaws O → operates fl (operate O i op fl).

(** Every process starts on an empty migrated database. *)
Definition launched : Fleet := mkFleet empty_db (λ _, boot).

(** ** The HTTP side in the transition system *)

Section requests.
Context {O : Oracle} {OL : OracleLaws O}.
Abbreviation steps := (rtc (taken norm cfg Web)).

Lemma stmt_reads {A} (f : Statement A) w :
  (∀ t db a db', f t db = Ok (a, db') → db' = db) → w_db (snd (stmt f w)) = w_db w.
Proof using.
  intros Hf. unfold stmt. destruct (fault (w_ticks w)) as [|e0|e0]; [|done|];
    by destruct (f _ _) as [[a db']|e] eqn:E; [apply Hf in E as ->|].
Qed.

Lemma InsertRaw_steps hash body source tasks w :
  steps (mkSys (w_db w) tasks)
        (mkSys (w_db (snd (StoreRaw.InsertRaw hash body source w))) tasks).
Proof using OL.
  unfold StoreRaw.InsertRaw. rewrite attempt_bind.
  destruct (stmt (sql_insert_raw hash body source) w) as [r w1] eqn:Hs. apply stmt_runs in Hs.
  pose proof (step_ingest norm cfg O _ _ _ _ tasks _ _ OL Hs) as Hstep.
  destruct r as [[id|]|e]; [by apply rtc_once| |by destruct (is_panic e); apply rtc_once].
  rewrite bind_run. assert (w_db (snd (stmt (sql_raw_id hash) w1)) = w_db w1) as Hdb.
  { apply stmt_reads. unfold sql_raw_id. intros t db a db'.
    destruct (negb _); [done|]. by destruct (find_by_hash _ _); [intros [= _ <-]|]. }
  destruct (stmt (sql_raw_id hash) w1) as [[id|e] w2]; cbn in *; rewrite Hdb; by apply rtc_once.
Qed.

Lemma ingest_steps r tasks w :
  steps (mkSys (w_db w) tasks) (mkSys (w_db (snd (ingest r w))) tasks).
Proof using OL.
  unfold ingest. destruct (read_max _ _) as [body|]; [|done].
  destruct (negb (Valid body)); [done|]. rewrite attempt_bind. cbn [Ingest.InsertRaw pg_store].
  pose proof (InsertRaw_steps (payload_key body) body (TrimSpace (r_source r)) tasks w) as Hins.
  destruct (StoreRaw.InsertRaw _ _ _ w) as [[[id isNew]|e] w1]; cbn in *.
  - rewrite bind_run. destruct isNew; cbn; [by rewrite notify_db|done].
  - by destruct (is_panic e).
Qed.

(** A handler that runs the one statement [f], which only reads, and answers. *)
Ltac reads_only f w :=
  let Hr := fresh in
  rewrite attempt_bind; pose proof (stmt_reads f w) as Hr;
  destruct (stmt f w) as [[?|?] ?]; cbn in *; repeat case_match; cbn; apply Hr;
  unfold sql_get_event, sql_get_entity, sql_ping; intros; repeat case_match; congruence.

Lemma getEvent_reads id r w : w_db (snd (getEvent id r w)) = w_db w.
Proof using.
  unfold getEvent. destruct (negb _); [done|].
  cbn [Ingest.GetEvent pg_store]. unfold StoreRaw.GetEvent.
  reads_only (sql_get_event id) w.
Qed.

Lemma getEntity_reads key r w : w_db (snd (getEntity key r w)) = w_db w.
Proof using.
  unfold getEntity. cbn [Ingest.GetEntity pg_store]. unfold StoreFacts.GetEntity.
  reads_only (sql_get_entity (CanonicalKey key)) w.
Qed.

Lemma health_reads r w : w_db (snd (health r w)) = w_db w.
Proof using.
  unfold health. cbn [Ingest.Ping pg_store]. unfold Store_Ping. reads_only sql_ping w.
Qed.

Lemma Routes_steps debug r tasks w :
  steps (mkSys (w_db w) tasks) (mkSys (w_db (snd (Routes debug r w))) tasks).
Proof using OL.
  assert (∀ r, steps (mkSys (w_db w) tasks) (mkSys (w_db (snd (mux r w))) tasks)) as Hmux.
  { intros r'. unfold mux. repeat case_match; try done; cbn [snd];
      first [apply ingest_steps|rewrite getEvent_reads|rewrite getEntity_reads|rewrite health_reads];
      done. }
  unfold Routes, withLogging. destruct debug; apply Hmux.
Qed.
End requests.

(** A turn, in a slot no task is in. *)
Lemma perform_turn_steps (O : Oracle) tasks w :
  rtc (step norm cfg) (mkSys (w_db w) tasks) (mkSys (w_db (perform O Turn w)) tasks).
Proof.
  apply (worker_turn_steps norm cfg (fresh (dom tasks))). apply not_elem_of_dom, is_fresh.
Qed.

(** One operation, beside any tasks other workers have in flight. *)
Lemma operate_steps (O : Oracle) (OL : OracleLaws O) i op fl tasks :
  rtc (step norm cfg) (mkSys (f_db fl) tasks) (mkSys (f_db (operate O i op fl)) tasks).
Proof.
  unfold operate. cbn [f_db]. change (f_db fl) with (w_db (set_db (f_db fl) (f_local fl i))) at 1.
  destruct op as [debug r|]; [by eapply taken_steps, Routes_steps|apply perform_turn_steps].
Qed.
End fleet.

(** ** From a webhook to its entity *)

Definition POST (source body : string) : Request :=
  mkRequest "POST" ["webhooks"] source (mkBody body None).
Definition GET (path : list string) : Request := mkRequest "GET" path "" (mkBody "" None).

(** Every event of the log is finished. *)
Definition drained (db : DB) : Prop :=
  ∀ id r, raw_events db !! id = Some r →
    RawRow.status r = StatusProcessed ∨ RawRow.status r = StatusFailed.

(** Nothing fails, no row is locked, ids are new UUIDs in the usual form. *)
Record undisturbed `{P : Postgres} (O : Oracle) (w : World) : Prop := {
  und_fault t : fault t = NoFault;
  und_locked t : locked t = ∅;
  und_uuid t : pg_uuid (gen_random_uuid t) = Some (gen_random_uuid t) ∧
               uuidPattern (gen_random_uuid t) = true;
  und_new : raw_events (w_db w) !! gen_random_uuid (w_ticks w) = None
}.

(** The body is a new JSON document of at most 1 MiB, stored as [json]. *)
Record acceptable `{P : Postgres} (source body json : string) (db : DB) : Prop := {
  acc_size : Z.of_nat (len body) ≤ maxBodyBytes;
  acc_valid : Valid body = true;
  acc_json : pg_jsonb body = Some json;
  acc_source : pg_text (TrimSpace source) = true;
  acc_new : find_by_hash (payload_key body) db = None
}.

(** The model answers [json] with what the gate makes [n], which the database takes. *)
Record answers `{U : UnicodeTables, P : Postgres, C : Client} (norm : Normalizer)
    (json : string) (res : Result.t) (n : Normalized.t) : Prop := {
  ans_model k : Normalize k json = Ok res;
  ans_gate : Apply norm (Result.Response res) = Ok n;
  ans_texts : forallb pg_text (fact_texts n (Result.Model res) (Result.PromptVer res)) = true;
  ans_currency : is_ok (char3_param (Normalized.Currency n)) = true
}.

Lemma payload_key_text `{P : Postgres} {PL : PostgresLaws P} body :
  pg_text (payload_key body) = true.
Proof.
  pose proof (EncodeToString_ascii _ (proj2 (Sum256_range body))) as H.
  rewrite Forall_forall in H. apply pg_text_spec. split.
  - apply ascii_ValidString, forallb_forall. intros c Hc. exact (proj1 (H c Hc)).
  - intros Hin%list_elem_of_In. exact (proj2 (H _ Hin) eq_refl).
Qed.

Section journey.
Context {U : UnicodeTables} {UL : UnicodeLaws U} {P : Postgres} {PL : PostgresLaws P}.
Context {O : Oracle} {C : Client}.

(** The row an accepted body becomes. *)
Definition waiting (source body json : string) (t : nat) : RawRow.t :=
  RawRow.mk (payload_key body) json (NULLIF_empty (TrimSpace source)) StatusPending 0 None None
    (clock t).

Lemma POST_accepted debug source body json w :
  undisturbed O w → acceptable source body json (w_db w) →
  let id := gen_random_uuid (w_ticks w) in
  ∃ w1, Routes debug (POST source body) w
        = (Ok (mkResponse StatusAccepted (AcceptedBody id false)), w1) ∧
    w_db w1 = set_raw (<[id := waiting source body json (w_ticks w)]> (raw_events (w_db w)))
                      (w_db w).
Proof using PL.
  intros [Hf _ _ Hnew] [Hlen Hval Hjson Hsrc Hhash] id.
  assert (read_max maxBodyBytes (mkBody body None) = Some body) as Hread.
  { unfold read_max. cbn [b_bytes b_err]. by destruct (Z.ltb_spec maxBodyBytes (Z.of_nat (len body))); [lia|]. }
  assert (Routes debug (POST source body) w = ingest (POST source body) w) as ->.
  { destruct debug; [|done]. unfold Routes. rewrite logging_transparent; [done|]. unfold POST. cbn [r_body]. by rewrite Hread. }
  rewrite (ingest_valid (POST source body) w body Hread Hval). cbn [r_source POST].
  unfold StoreRaw.InsertRaw. rewrite attempt_bind. erewrite stmt_no_fault; [|done|].
  2:{ unfold sql_insert_raw. rewrite payload_key_text, Hsrc. cbn [negb andb].
      by rewrite Hjson, Hhash, Hnew. }
  cbn [mret eff_ret negb]. eexists. split; [done|]. by rewrite notify_db.
Qed.

(** In a log that is otherwise finished, the claim takes the one waiting event. *)
Lemma claim_waiting lease t db id r :
  drained db → raw_events db !! id = None → locked t = ∅ →
  RawRow.status r = StatusPending → RawRow.attempts r = 0 →
  ∃ db', sql_claim lease t (set_raw (<[id := r]> (raw_events db)) db)
         = Ok (Some (RawEvent.mk id (RawRow.raw_payload r) 1), db').
Proof using.
  intros Hdr Hid Hlk Hst Hat. unfold sql_claim.
  destruct (pick _ _) as [[i r']|] eqn:Hp.
  - apply pick_elem, oldest_spec in Hp as [(Hcl & _ & Hr)%candidates_spec _]. cbn in Hr.
    apply lookup_insert_Some in Hr as [[<- <-]|[_ Hr]].
    + rewrite Hat. change (int4_max <? 0 + 1) with false. cbn. rewrite Hat. by eexists.
    + unfold claimable in Hcl. by destruct (Hdr _ _ Hr) as [Hs|Hs]; rewrite Hs in Hcl.
  - apply pick_None, oldest_nil in Hp. exfalso.
    assert ((id, r) ∈ candidates (clock t) (locked t)
              (set_raw (<[id := r]> (raw_events db)) db)) as Hin.
    { apply candidates_spec. unfold claimable. rewrite Hst, Hlk. split_ands; [done|apply not_elem_of_empty|].
      cbn. by rewrite lookup_insert_eq. }
    rewrite Hp in Hin. by apply not_elem_of_nil in Hin.
Qed.

(** A finished event as GET /events shows it. *)
Lemma GET_event debug id r w :
  fault (w_ticks w) = NoFault → uuidPattern id = true → pg_uuid id = Some id →
  raw_events (w_db w) !! id = Some r →
  ∃ ev w', Routes debug (GET ["events"; id]) w = (Ok (mkResponse StatusOK (EventBody ev)), w') ∧
    EventView.Status ev = RawStatus_string (RawRow.status r) ∧
    EventView.Attempts ev = RawRow.attempts r ∧ EventView.Error ev = RawRow.err r ∧
    EventView.Classification ev = FactRow.classification <$> normalized_events (w_db w) !! id.
Proof using.
  intros Hf Hpat Hid Hr.
  assert (Routes debug (GET ["events"; id]) w = getEvent id (GET []) w) as ->.
  { assert (wildcard id = true) as Hw by (apply bool_decide_eq_true; by intros ->).
    destruct debug; unfold Routes, withLogging, mux; cbn [GET r_path negb]; by rewrite Hw. }
  destruct (proj2 (getEvent_contract id id (GET []) w) Hpat Hf Hid) as [_ Hget]. rewrite Hr in Hget.
  destruct Hget as (ev & Hev & ? & ? & ? & ?). exists ev.
  destruct (getEvent id (GET []) w) as [res w'] eqn:Hrun. cbn in Hev. rewrite Hev. by exists w'.
Qed.

(** An entity as GET /entities shows it, under any spelling of its key. *)
Lemma GET_entity norm cfg debug tasks spelling k e w :
  reachable norm cfg (mkSys (w_db w) tasks) → fault (w_ticks w) = NoFault →
  entities (w_db w) !! k = Some e → pg_text k = true → CanonicalKey spelling = CanonicalKey k →
  spelling ≠ "/" →
  ∃ w', Routes debug (GET ["entities"; spelling]) w
        = (Ok (mkResponse StatusOK (EntityBody (entity_view k e))), w').
Proof using UL.
  intros Hs Hf He Ht Hk Hsl.
  assert (Routes debug (GET ["entities"; spelling]) w = getEntity spelling (GET []) w) as ->.
  { assert (wildcard spelling = true) as Hw by (by apply bool_decide_eq_true).
    destruct debug; unfold Routes, withLogging, mux; cbn [GET r_path negb]; by rewrite Hw. }
  eexists. by eapply (getEntity_found norm cfg (mkSys (w_db w) tasks) k e).
Qed.
End journey.

(** ** Properties *)

(** The service is its transition system: whatever processes serve requests and
    turn their workers, on one database, in any order and each under any
    environment, the tables go through steps of the system of System.v, beside any
    tasks that other workers have in flight; so the tables of a fleet launched on an
    empty database are always those of a reachable state, and what is proved of
    these holds of the service as it is wired. *)
Theorem service_refines {U : UnicodeTables} {P : Postgres} {C : Client} norm cfg fl fl' :
  rtc (operates norm cfg) fl fl' →
  (∀ tasks, rtc (step norm cfg) (mkSys (f_db fl) tasks) (mkSys (f_db fl') tasks)) ∧
  (fl = launched → reachable norm cfg (mkSys (f_db fl') ∅)).
Proof.
  intros Hrun.
  assert (∀ tasks, rtc (step norm cfg) (mkSys (f_db fl) tasks) (mkSys (f_db fl') tasks)) as Hsteps.
  { induction Hrun as [|x y z [O i op OL] _ IH]; intros tasks; [done|].
    etrans; [by apply operate_steps|apply IH]. }
  split; [exact Hsteps|]. intros ->. exact (Hsteps ∅).
Qed.

(** C14. The endpoint is idempotent: once a body was acknowledged with an id in some
    reachable state, then however the service goes on from there (any interleaving of
    ingest handlers and workers, failures and deaths included), a request with the
    same body, from any source, to any process and under any failures, is answered
    202 as a duplicate with that id, or 500, or its handler panics because a database
    call did; and it neither changes the tables nor signals a worker. *)
Theorem ingest_idempotent {U : UnicodeTables} {UL : UnicodeLaws U} {P : Postgres}
    {C : Client} norm cfg (O O' : Oracle) r1 r2 tasks tasks' w w1 w2 id dup :
  OracleLaws O → reachable norm cfg (mkSys (w_db w) tasks) →
  @ingest World (@pg_store P O) pg_notifier r1 w
    = (Ok (mkResponse StatusAccepted (AcceptedBody id dup)), w1) →
  rtc (step norm cfg) (mkSys (w_db w1) tasks) (mkSys (w_db w2) tasks') →
  read_max maxBodyBytes (r_body r2) = read_max maxBodyBytes (r_body r1) →
  let out := @ingest World (@pg_store P O') pg_notifier r2 w2 in
  w_db (snd out) = w_db w2 ∧ w_notify (snd out) = w_notify w2 ∧
  match fst out with
  | Ok resp => resp = mkResponse StatusAccepted (AcceptedBody id true) ∨
               status resp = StatusInternalServerError
  | Err e => is_panic e = true
  end.
Proof.
  intros OL Hs Hrun Hsteps Hsame.
  pose proof (ingest_steps norm cfg r1 tasks w) as Hs1%taken_steps. rewrite Hrun in Hs1.
  pose proof (reachable_sys_inv _ _ _ Hs) as Hinv.
  destruct (ingest_acked _ _ _ _ _ (inv_hash _ _ (inv_db _ _ Hinv)) Hrun)
    as (body & Hb & Hv & Hf).
  destruct (steps_sys_inv _ _ _ _ Hs1 Hinv) as [_ Hinv1].
  destruct (steps_sys_inv _ _ _ _ Hsteps Hinv1) as [Hev Hinv2].
  apply find_by_hash_Some in Hf as (row & Hrow & Hhash).
  destruct (ev_raw _ _ Hev _ _ Hrow) as (row' & Hrow' & Hh & _).
  apply (ingest_known _ _ body); [congruence|done|].
  apply (find_by_hash_unique _ _ _ row'); [apply Hinv2|done|congruence].
Qed.

(** The answer of the model to a stored payload is the only one. *)
Lemma answered_once {U : UnicodeTables} {P : Postgres} {C : Client} norm json res n n' m v :
  answers norm json res n → answered norm json n' m v → n' = n.
Proof.
  intros [Hm Hg _ _] (k & res' & Hr & Ha & _). rewrite Hm in Hr. injection Hr as <-. congruence.
Qed.

(** The POST and the turn, and the tables they leave. *)
Lemma webhook_processed {U : UnicodeTables} {UL : UnicodeLaws U} {P : Postgres}
    {PL : PostgresLaws P} {O : Oracle} {C : Client} norm cfg debug tasks source body json res n w :
  reachable norm cfg (mkSys (w_db w) tasks) → drained (w_db w) →
  undisturbed O w → acceptable source body json (w_db w) → answers norm json res n →
  let id := gen_random_uuid (w_ticks w) in
  ∃ w1 w2 r f, Routes debug (POST source body) w
      = (Ok (mkResponse StatusAccepted (AcceptedBody id false)), w1) ∧
    @worker_turn World (PgQueue.pg_queue cfg) (processor_handler norm) ctx_err w1
      = (Ok Continue, w2) ∧
    reachable norm cfg (mkSys (w_db w2) tasks) ∧
    raw_events (w_db w2) !! id = Some r ∧ RawRow.status r = StatusProcessed ∧
    RawRow.attempts r = 1 ∧ RawRow.err r = None ∧
    normalized_events (w_db w2) !! id = Some f ∧
    FactRow.classification f = Normalized.Classification n ∧ moved n (w_db w) (w_db w2).
Proof.
  intros Hs Hdr Hu Hacc Hans id. pose proof Hu as [Hf Hlk Huuid Hnew].
  pose proof Hans as [Hm Hg Ht Hc]. destruct (char3_param _) as [c|] eqn:Hc3; [|done].
  assert (OracleLaws O) as OL by (intros t; apply Huuid).
  destruct (POST_accepted debug source body json w Hu Hacc) as (w1 & Hpost & Hdb1).
  fold id in Hpost, Hdb1.
  destruct (claim_waiting (PgQueue.Lease cfg) (w_ticks w1) (w_db w) id
              (waiting source body json (w_ticks w)) Hdr Hnew (Hlk _) eq_refl eq_refl)
    as [db2 Hclaim].
  rewrite <-Hdb1 in Hclaim.
  destruct (turn_healthy norm cfg w1 _ db2 res n c Hf Hclaim (proj1 (Huuid _)) (Hm _) Hg Ht Hc3)
    as (w2 & r & Hturn & Hraw & Hst & Herr & _ & Hatt & [f Hfact] & _ & Hmv).
  cbn in Hatt, Hfact. rewrite Hdb1 in Hmv.
  assert (raw_events (w_db w2) !! id = Some r) as Hr by (rewrite Hraw; apply lookup_insert_eq).
  assert (rtc (step norm cfg) (mkSys (w_db w1) tasks) (mkSys (w_db w2) tasks)) as Hsteps.
  { pose proof (perform_turn_steps norm cfg O tasks w1) as H. unfold perform in H.
    by rewrite Hturn in H. }
  pose proof (taken_steps _ _ _ _ _ (Routes_steps norm cfg debug (POST source body) tasks w)) as Hsteps1.
  rewrite Hpost in Hsteps1. cbn [snd] in Hsteps1.
  assert (reachable norm cfg (mkSys (w_db w1) tasks)) as Hs1 by (unfold reachable in *; by etrans).
  assert (reachable norm cfg (mkSys (w_db w2) tasks)) as Hs2 by (unfold reachable in *; by etrans).
  exists w1, w2, r, f. split_ands; try done.
  destruct (inv_fact _ _ (inv_db _ _ (reachable_sys_inv _ _ _ Hs2)) _ _ Hfact)
    as (r' & n' & m & v & c' & now & Hr' & Ha & _ & ->).
  assert (r' = r) as -> by (cbn in Hr'; congruence).
  destruct (steps_sys_inv _ _ _ _ Hsteps (reachable_sys_inv _ _ _ Hs1)) as [[Hev _ _] _].
  destruct (Hev id (waiting source body json (w_ticks w))) as (r1 & Hr1 & _ & Hpay & _).
  { cbn [s_db]. by rewrite Hdb1; cbn; rewrite lookup_insert_eq. }
  cbn [s_db] in Hr1. rewrite Hr in Hr1. injection Hr1 as <-. rewrite Hpay in Ha. cbn in Ha.
  cbn. by rewrite (answered_once _ _ _ _ _ _ _ Hans Ha).
Qed.

(** C2. A webhook travels the whole way. Suppose every earlier event is PROCESSED or
    FAILED, nothing disturbs the process (no statement fails, no row is locked by
    others, fresh ids), the body POSTed is new JSON of at most 1 MiB that the database
    stores, and the model answers it with an answer that the gate accepts and whose
    texts the database stores. Then the POST is answered 202 with a fresh id; the next
    turn of a worker takes the event, and then GET /events/{id} answers 200 with the
    event PROCESSED at its first attempt, without error and with the class the gate
    gave it. If that class is SHIPMENT or INVOICE, GET /entities, under every spelling
    of the key but a bare slash, answers 200 with the entity, and its state is the
    answer's, unless there was an entity before that the answer does not move (a
    shipment of a rank not below the answer's, or an invoice in a state from which the
    transition table does not lead to the answer's): then it is what it was. *)
Theorem webhook_to_entity {U : UnicodeTables} {UL : UnicodeLaws U} {P : Postgres}
    {PL : PostgresLaws P} {O : Oracle} {C : Client} norm cfg debug tasks source body json res n w :
  reachable norm cfg (mkSys (w_db w) tasks) → drained (w_db w) →
  undisturbed O w → acceptable source body json (w_db w) → answers norm json res n →
  ∃ id w1 w2, Routes debug (POST source body) w
      = (Ok (mkResponse StatusAccepted (AcceptedBody id false)), w1) ∧
    @worker_turn World (PgQueue.pg_queue cfg) (processor_handler norm) ctx_err w1
      = (Ok Continue, w2) ∧
    (∃ ev w3, Routes debug (GET ["events"; id]) w2
        = (Ok (mkResponse StatusOK (EventBody ev)), w3) ∧
       EventView.Status ev = "PROCESSED" ∧ EventView.Attempts ev = 1 ∧
       EventView.Error ev = None ∧
       EventView.Classification ev = Some (Normalized.Classification n)) ∧
    (Normalized.Classification n = ClassShipment ∨ Normalized.Classification n = ClassInvoice →
     ∀ spelling, CanonicalKey spelling = Normalized.EntityKey n → spelling ≠ "/" →
       ∃ e w3, Routes debug (GET ["entities"; spelling]) w2
           = (Ok (mkResponse StatusOK (EntityBody (entity_view (Normalized.EntityKey n) e))), w3) ∧
         EntityRow.current_state e = next_state n (entities (w_db w) !! Normalized.EntityKey n)).
Proof.
  intros Hs Hdr Hu Hacc Hans.
  destruct (webhook_processed norm cfg debug tasks source body json res n w)
    as (w1 & w2 & r & f & Hpost & Hturn & Hs2 & Hr & Hst & Hatt & Herr & Hfact & Hcl & Happ);
    [done..|].
  eexists _, w1, w2. split; [exact Hpost|]. split; [exact Hturn|]. split.
  - destruct (und_uuid _ _ Hu (w_ticks w)) as [Hid Hpat].
    destruct (GET_event debug _ r w2 (und_fault _ _ Hu _) Hpat Hid Hr)
      as (ev & w3 & Hget & H1 & H2 & H3 & H4).
    exists ev, w3. rewrite H1, H2, H3, H4, Hst, Hfact. cbn. by rewrite Hcl.
  - intros Hkind spelling Hsp Hsl. set (k := Normalized.EntityKey n) in *.
    destruct (Happ Hkind) as (e & He & Hstate).
    assert (CanonicalKey k = k ∧ pg_text k = true) as [Hck Htext].
    { split.
      - destruct (Apply_coherent_aux _ _ _ (ans_gate _ _ _ _ Hans)) as [Hc ? ? ? ?|? ? ? ? ? ?|];
          [by rewrite Hc in Hkind; destruct Hkind|done..].
      - pose proof (ans_texts _ _ _ _ Hans) as Ht. unfold fact_texts in Ht. cbn in Ht.
        by repeat apply andb_true_iff in Ht as [? Ht]. }
    destruct (GET_entity norm cfg debug tasks spelling k e w2 Hs2 (und_fault _ _ Hu _) He Htext)
      as [w3 Hget]; [by rewrite Hck|done|]. by exists e, w3.
Qed.

(** ** Witnesses *)

Section witnesses.
Local Existing Instances latin1_tables latin1_laws sample_postgres sample_postgres_laws.

(** The calm environment with ids in the usual form, and the model of offline runs. *)
#[local] Instance undisturbing : Oracle := {|
  fault _ := NoFault; clock := @clock calm; gen_random_uuid _ := some_uuid; locked _ := ∅;
  choose _ := 0%nat; wakeup _ := PollTimeout; ctx_cancelled _ := false; rand_Int64N _ _ := 0
|}.
#[local] Instance offline : Client := mock_client.

Definition two_operations : Fleet :=
  operate floor_0_6 default_cfg undisturbing 1 Turn
    (operate floor_0_6 default_cfg undisturbing 0 (Serve true (POST "maersk" maersk_in_transit))
       launched).

Lemma service_refines_witness :
  reachable floor_0_6 default_cfg (mkSys (f_db two_operations) ∅) ∧
  RawRow.status <$> raw_events (f_db two_operations) !! some_uuid = Some StatusProcessed.
Proof.
  split; [|vm_compute; reflexivity].
  apply (service_refines floor_0_6 default_cfg launched two_operations); [|reflexivity].
  eapply rtc_l; [apply (operates_in _ _ _ undisturbing 0); by intros t|].
  eapply rtc_l; [apply (operates_in _ _ _ undisturbing 1); by intros t|]. apply rtc_refl.
Defined.

(** The fixture is delivered, handled by a worker of the same process, and delivered
    again to one whose connections all fail. *)
Definition failing : Oracle := {|
  fault _ := FailBefore (errorString "connection reset"); clock := @clock calm;
  gen_random_uuid _ := some_uuid; locked _ := ∅; choose _ := 0%nat;
  wakeup _ := PollTimeout; ctx_cancelled _ := false; rand_Int64N _ _ := 0
|}.
Definition delivered_once : World :=
  snd (@ingest World (@pg_store sample_postgres undisturbing) pg_notifier
         (POST "maersk" maersk_in_transit) boot).
Definition handled_once : World := perform floor_0_6 default_cfg undisturbing Turn delivered_once.
Definition redelivered (O : Oracle) : result error Response * World :=
  @ingest World (@pg_store sample_postgres O) pg_notifier (POST "retry" maersk_in_transit)
    handled_once.

Lemma ingest_idempotent_witness :
  (w_db (snd (redelivered failing)) = w_db handled_once ∧
   w_notify (snd (redelivered failing)) = w_notify handled_once) ∧
  fst (redelivered undisturbing)
    = Ok (mkResponse StatusAccepted (AcceptedBody some_uuid true)) ∧
  fst (redelivered failing)
    = Ok (mkResponse StatusInternalServerError (ErrorBody "could not accept webhook")).
Proof.
  split; [|by vm_compute].
  assert (rtc (step floor_0_6 default_cfg) (mkSys (w_db delivered_once) ∅)
            (mkSys (w_db handled_once) ∅)) as Hsteps by apply perform_turn_steps.
  destruct (ingest_idempotent floor_0_6 default_cfg undisturbing failing
              (POST "maersk" maersk_in_transit) (POST "retry" maersk_in_transit) ∅ ∅
              boot delivered_once handled_once some_uuid false) as (H1 & H2 & _).
  - by intros t.
  - apply rtc_refl.
  - vm_compute. reflexivity.
  - exact Hsteps.
  - reflexivity.
  - split; [exact H1|exact H2].
Defined.

(** What the gate makes of the answer to the fixture. *)
Definition sailed : Normalized.t :=
  match Apply floor_0_6 (mock_response maersk_in_transit) with
  | Ok n => n
  | Err _ => Normalized.zero
  end.

Lemma webhook_to_entity_witness :
  ∃ id w1 w2 e w3, Routes true (POST "maersk" maersk_in_transit) boot
      = (Ok (mkResponse StatusAccepted (AcceptedBody id false)), w1) ∧
    @worker_turn World (PgQueue.pg_queue default_cfg) (processor_handler floor_0_6) ctx_err w1
      = (Ok Continue, w2) ∧
    Routes true (GET ["entities"; " maeu240498712"]) w2
      = (Ok (mkResponse StatusOK (EntityBody (entity_view "MAEU240498712" e))), w3) ∧
    EntityRow.current_state e = StateInTransit.
Proof.
  destruct (webhook_to_entity floor_0_6 default_cfg true ∅ "maersk" maersk_in_transit
              maersk_in_transit (Result.mk (mock_response maersk_in_transit) "mock" PromptVersion)
              sailed boot) as (id & w1 & w2 & Hpost & Hturn & _ & Hent).
  - apply rtc_refl.
  - intros id r Hr. by vm_compute in Hr.
  - by split.
  - split; vm_compute; (done || reflexivity).
  - split; [reflexivity|vm_compute; reflexivity..].
  - destruct (Hent ltac:(left; vm_compute; reflexivity) " maeu240498712"
                ltac:(vm_compute; reflexivity) ltac:(discriminate)) as (e & w3 & Hget & Hstate).
    exists id, w1, w2, e, w3. split; [exact Hpost|]. split; [exact Hturn|].
    split; [exact Hget|]. rewrite Hstate. vm_compute. reflexivity.
Defined.
End witnesses.
