(* ===== verification/Drain.v ===== *)
(** * A worker by itself: an emptied queue, and a shutdown in mid job

    What many turns of [Pool.worker] add up to. Undisturbed, and once the leases are
    over, one turn per waiting event decides every event of the log that the model and
    the gate decide; and a turn that the cancelled context of a
    shutdown cuts short after its claim leaves the event to whoever comes next. *)

From S2P Require Import Prelude GoErrors Utf8 GoStrings Model Llm Normalize Database.
From S2P Require Import Instances StoreRaw RawFacts StoreFacts Queue Worker Processor System.
From S2P Require Import Refinement Invariants Trace Safety Lifecycle Mock Samples Ingest Service.
Local Open Scope Z_scope.

(** ** Waiting events *)

Definition settled (r : RawRow.t) : bool :=
  match RawRow.status r with
  | StatusProcessed | StatusFailed => true
  | StatusPending | StatusProcessing => false
  end.

(** The part of the log that is not finished. *)
Definition unfinished (db : DB) : gmap string RawRow.t :=
  filter (λ p, settled (snd p) = false) (raw_events db).

Lemma unfinished_Some db id r :
  unfinished db !! id = Some r ↔ raw_events db !! id = Some r ∧ settled r = false.
Proof. unfold unfinished. by rewrite map_lookup_filter_Some. Qed.

Lemma claimable_unsettled now r : claimable now r = true → settled r = false.
Proof. unfold claimable, settled. by destruct (RawRow.status r). Qed.

(** Finishing an event takes it off. *)
Lemma unfinished_settle db db' id r :
  raw_events db' = <[id := r]> (raw_events db) → settled r = true →
  unfinished db' = delete id (unfinished db).
Proof.
  intros Hdb Hr. unfold unfinished. rewrite Hdb, map_filter_insert_False by (cbn; congruence).
  by rewrite map_filter_delete.
Qed.

(** ** What becomes of an event *)

Section drain.
Context {U : UnicodeTables} {UL : UnicodeLaws U} {P : Postgres} {O : Oracle} {C : Client}.
Context (norm : Normalizer) (cfg : PgQueue.Config).

(** What the model and the gate make of a payload: something to process, or a
    deterministic failure whose reason the database takes. *)
Inductive verdict (payload : string) : RawStatus → Prop :=
  | accepted res n : answers norm payload res n → verdict payload StatusProcessed
  | refused err :
      (∀ k, Normalize k payload = Err err) → Retryable err = false →
      pg_text (Error (Permanentf "llm" err)) = true → verdict payload StatusFailed
  | ungated res err :
      (∀ k, Normalize k payload = Ok res) → Apply norm (Result.Response res) = Err err →
      pg_text (Error (Permanentf "normalize" err)) = true → verdict payload StatusFailed.

Abbreviation turn_of := (@worker_turn World (PgQueue.pg_queue cfg) (processor_handler norm) ctx_err).
Abbreviation worker_of := (@worker World (PgQueue.pg_queue cfg) (processor_handler norm) ctx_err).

Context (no_fault : ∀ t, fault t = NoFault).

(** A job whose handler fails for good, without touching the tables. *)
Lemma turn_dead_letters w ev db1 e w1 :
  sql_claim (PgQueue.Lease cfg) (w_ticks w) (w_db w) = Ok (Some ev, db1) →
  pg_uuid (RawEvent.ID ev) = Some (RawEvent.ID ev) →
  Processor.Handle norm (job_of_event ev) (set_db db1 (tick w)) = (Err (Permanent e), w1) → w_db w1 = db1 →
  pg_text (Error e) = true →
  ∃ w' r, turn_of w = (Ok Continue, w') ∧
    raw_events (w_db w') = <[RawEvent.ID ev := r]> (raw_events (w_db w)) ∧
    RawRow.status r = StatusFailed ∧ RawRow.lease_until r = None ∧
    RawRow.attempts r = RawEvent.Attempts ev.
Proof using no_fault.
  intros Hclaim Hid Hhandle Hdb Htext.
  pose proof (claim_spec (PgQueue.Lease cfg) (w_ticks w) (w_db w)) as Hcl.
  rewrite Hclaim in Hcl. destruct Hcl as (r0 & _ & _ & _ & _ & _ & Hatt & Hdb1).
  set (r1 := lease_row (clock (w_ticks w)) (PgQueue.Lease cfg) r0) in *.
  set (r2 := set_status StatusFailed (Some (Error e)) None r1).
  assert (sql_fail (RawEvent.ID ev) (Error e) (w_ticks w1) (w_db w1)
          = Ok ((), raw_put (RawEvent.ID ev) r2 (w_db w1))) as Hfail.
  { unfold sql_fail. rewrite Htext. apply update_raw_runs; [done|].
    rewrite Hdb, Hdb1. cbn. by rewrite lookup_insert_eq. }
  eexists. exists r2. split.
  - rewrite (turn_claims norm cfg w ev db1 (no_fault _) Hclaim).
    rewrite bind_run. unfold dispatch. rewrite attempt_bind.
    change (Worker.Handle ?j) with (Processor.Handle norm j). rewrite Hhandle. cbn [is_panic].
    change (IsPermanent (Permanent e)) with true. cbv beta iota.
    rewrite attempt_bind. cbn [Queue.Fail PgQueue.pg_queue Job.ID job_of_event]. unfold PgQueue.Fail, StoreRaw.Fail.
    change (Error (Permanent e)) with (Error e).
    rewrite (stmt_healthy no_fault _ _ _ _ Hfail). reflexivity.
  - cbn. rewrite Hdb, Hdb1. cbn. by rewrite insert_insert_eq.
Qed.

(** One turn decides the event it claims. *)
Lemma turn_decides w ev db1 st :
  sql_claim (PgQueue.Lease cfg) (w_ticks w) (w_db w) = Ok (Some ev, db1) →
  pg_uuid (RawEvent.ID ev) = Some (RawEvent.ID ev) → verdict (RawEvent.Payload ev) st →
  ∃ w' r, turn_of w = (Ok Continue, w') ∧
    raw_events (w_db w') = <[RawEvent.ID ev := r]> (raw_events (w_db w)) ∧
    RawRow.status r = st ∧ RawRow.lease_until r = None ∧
    RawRow.attempts r = RawEvent.Attempts ev.
Proof using no_fault UL.
  intros Hclaim Hid [res n [Hm Hg Ht Hc]|err Hm Hret Htext|res err Hm Hg Htext].
  - destruct (char3_param _) as [c|] eqn:Hc3; [|done].
    destruct (turn_healthy norm cfg w ev db1 res n c) as (w' & r & Hrun & Hraw & Hst & _ & Hl & Ha & _);
      try done. by exists w', r.
  - apply (turn_dead_letters w ev db1 (errorString ("llm" +:+ ": " +:+ Error err))
             (tick (set_db db1 (tick w)))); [done|done| |done|exact Htext].
    unfold Processor.Handle. rewrite attempt_bind. unfold call_llm. cbn [Job.Payload]. rewrite Hm.
    assert (is_panic err = false) as -> by (by destruct err). rewrite Hret. reflexivity.
  - apply (turn_dead_letters w ev db1 (errorString ("normalize" +:+ ": " +:+ Error err))
             (tick (set_db db1 (tick w)))); [done|done| |done|exact Htext].
    unfold Processor.Handle. rewrite attempt_bind. unfold call_llm. cbn [Job.Payload].
    rewrite Hm, Hg. reflexivity.
Qed.

(** ** Until nothing waits *)

Context (no_lock : ∀ t, locked t = ∅).

(** An event a worker can take now and at any time, and decide. *)
Record ready (id : string) (r : RawRow.t) : Prop := {
  ready_id : pg_uuid id = Some id;
  ready_now t : claimable (clock t) r = true;
  ready_count : RawRow.attempts r < int4_max;
  ready_verdict : ∃ st, verdict (RawRow.raw_payload r) st
}.

(** What [r] has become when the queue is empty. *)
Definition decided (r r' : RawRow.t) : Prop :=
  if settled r then r' = r
  else verdict (RawRow.raw_payload r) (RawRow.status r') ∧
       RawRow.attempts r' = RawRow.attempts r + 1 ∧ RawRow.lease_until r' = None.

Lemma verdict_settled payload r : verdict payload (RawRow.status r) → settled r = true.
Proof using. unfold settled. by inversion 1. Qed.

(** While something is ready a claim finds something. *)
Lemma claim_ready lease t db :
  (∀ id r, unfinished db !! id = Some r → ready id r) → unfinished db ≠ ∅ →
  ∃ ev db1 r, sql_claim lease t db = Ok (Some ev, db1) ∧
    unfinished db !! RawEvent.ID ev = Some r ∧ RawEvent.Payload ev = RawRow.raw_payload r ∧
    RawEvent.Attempts ev = RawRow.attempts r + 1.
Proof using no_lock.
  intros Hready Hne. pose proof (claim_spec lease t db) as Hspec.
  apply map_choose in Hne as (id & r & Hr). pose proof (ready_now _ _ (Hready _ _ Hr) t) as Hcl.
  destruct (sql_claim lease t db) as [[[ev|] db1]|e] eqn:Hclaim.
  - destruct Hspec as (r' & Hr' & Hcl' & _ & _ & Hpay & Hatt & _).
    exists ev, db1, r'. split; [done|]. split; [|done].
    apply unfinished_Some. split; [done|]. by eapply claimable_unsettled.
  - destruct Hspec as [_ Hall]. apply unfinished_Some in Hr as [Hr _].
    specialize (Hall id r Hr Hcl). rewrite no_lock in Hall. by apply not_elem_of_empty in Hall.
  - exfalso. unfold sql_claim in Hclaim. destruct (pick _ _) as [[id' r']|] eqn:Hp; [|done].
    apply pick_elem, oldest_spec in Hp as [(Hcl' & _ & Hr')%candidates_spec _].
    assert (unfinished db !! id' = Some r') as Hpend
      by (apply unfinished_Some; split; [done|by eapply claimable_unsettled]).
    pose proof (ready_count _ _ (Hready _ _ Hpend)).
    destruct (Z.ltb_spec int4_max (RawRow.attempts r' + 1)); [lia|done].
Qed.

Lemma worker_drains k tasks n w :
  tasks !! k = None →
  size (unfinished (w_db w)) = n →
  (∀ id r, unfinished (w_db w) !! id = Some r → ready id r) →
  ∃ w', worker_of n w = (Ok false, w') ∧
    rtc (taken norm cfg (Slot k)) (mkSys (w_db w) tasks) (mkSys (w_db w') tasks) ∧
    map_relation (λ _, decided) (λ _ _, False) (λ _ _, False)
      (raw_events (w_db w)) (raw_events (w_db w')).
Proof using no_fault no_lock UL.
  intros Hk. revert w. induction n as [|n IH]; intros w Hsize Hready.
  - exists w. split; [done|]. split; [done|]. intros id.
    destruct (raw_events (w_db w) !! id) as [r|] eqn:Hr; [|done]. cbn. unfold decided.
    destruct (settled r) eqn:Hf; [done|].
    assert (unfinished (w_db w) !! id = Some r) as Hp by (by apply unfinished_Some).
    apply map_size_empty_inv in Hsize. by rewrite Hsize, lookup_empty in Hp.
  - destruct (claim_ready (PgQueue.Lease cfg) (w_ticks w) (w_db w) Hready)
      as (ev & db1 & r & Hclaim & Hr & Hpay & Hatt); [by intros He; rewrite He in Hsize|].
    destruct (Hready _ _ Hr) as [Hid _ _ [st Hst]]. rewrite <-Hpay in Hst.
    destruct (turn_decides w ev db1 st Hclaim Hid Hst) as (w1 & r1 & Hturn & Hraw & Hst1 & Hl1 & Ha1).
    rewrite <-Hst1 in Hst. pose proof (verdict_settled _ _ Hst) as Hfin.
    pose proof (unfinished_settle _ _ _ _ Hraw Hfin) as Hpend.
    destruct (IH w1) as (w2 & Hrun & Hsteps & Hrel).
    { rewrite Hpend, map_size_delete, Hr. cbn. lia. }
    { intros id r' Hr'. rewrite Hpend in Hr'. apply lookup_delete_Some in Hr' as [_ Hr']. by apply Hready. }
    exists w2. split; [cbn [worker]; rewrite bind_run; by rewrite Hturn|]. split.
    { pose proof (turn_turned norm cfg k tasks w Hk) as H. cbv zeta in H.
      rewrite Hturn in H. cbn [fst snd turned] in H. by etrans. }
    intros id. specialize (Hrel id). rewrite Hraw in Hrel.
    destruct (decide (id = RawEvent.ID ev)) as [->|Hne]; [|by rewrite lookup_insert_ne in Hrel by done].
    rewrite lookup_insert_eq in Hrel. apply unfinished_Some in Hr as [Hr Hunf]. rewrite Hr.
    destruct (raw_events (w_db w2) !! _) as [r2|]; [|done]. cbn in Hrel |- *.
    unfold decided in *. rewrite Hfin in Hrel. subst r2. rewrite Hunf, <-Hpay. by split_ands; [|lia|].
Qed.
End drain.

(** ** The context of a shutdown *)

(** The context is cancelled at operation [t0]: a statement in flight is broken off,
    with its effect or without; every later call of the database is refused before it
    is sent, with the error of the context; nothing failed before. *)
Record cancelled_at {O : Oracle} (t0 : nat) : Prop := {
  before_cancel t : (t < t0)%nat → fault t = NoFault;
  at_cancel : ∃ e, transient e ∧ (fault t0 = FailBefore e ∨ fault t0 = FailAfter e);
  after_cancel t : (t0 < t)%nat →
    ctx_cancelled t = true ∧ ∃ e, transient e ∧ fault t = FailBefore e
}.

(** The model answers [json] with what the gate makes [n] and the database takes, or,
    once the context is cancelled, may fail for the time being. *)
Record answers_until `{U : UnicodeTables, P : Postgres, C : Client} (norm : Normalizer) (t0 : nat)
    (json : string) (res : Result.t) (n : Normalized.t) : Prop := {
  until_model k : Normalize k json = Ok res ∨
    (t0 ≤ k)%nat ∧ ∃ e, Normalize k json = Err e ∧ Retryable e = true ∧ transient e;
  until_gate : Apply norm (Result.Response res) = Ok n;
  until_texts : forallb pg_text (fact_texts n (Result.Model res) (Result.PromptVer res)) = true;
  until_currency : is_ok (char3_param (Normalized.Currency n)) = true
}.

Section shutdown.
Context {U : UnicodeTables} {UL : UnicodeLaws U} {P : Postgres} {O : Oracle} {C : Client}.
Context (norm : Normalizer) (cfg : PgQueue.Config) (t0 : nat) (Hcut : cancelled_at t0).

Definition late (w : World) : Prop := (t0 < w_ticks w)%nat.

Lemma transient_wrap p e : transient e → transient (Errorf_w p e).
Proof using. by intros [? _]. Qed.

(** The operation succeeded, or the context was cancelled. *)
Definition cut {A} (r : result error A) (w : World) : Prop :=
  match r with Ok _ => True | Err e => late w ∧ transient e end.

Lemma fault_cut t :
  fault t = NoFault ∨
  (t0 ≤ t)%nat ∧ ∃ e, transient e ∧ (fault t = FailBefore e ∨ fault t = FailAfter e).
Proof using Hcut.
  destruct (Nat.lt_trichotomy t t0) as [Ht|[->|Ht]].
  - left. by apply (before_cancel _ Hcut).
  - right. split; [done|]. apply (at_cancel _ Hcut).
  - right. destruct (after_cancel _ Hcut t Ht) as (_ & e & He & Hf). split; [lia|].
    exists e. split; [done|by left].
Qed.

(** The fault of the operation that comes next: none, or the cancelled context, after
    which the goal is at its end. *)
Ltac next_operation t :=
  let Hle := fresh in let e := fresh "e" in let He := fresh in
  destruct (fault_cut t) as [->|(Hle & e & He & [-> | ->])];
  [cbn|cbn; intros [= <- <-]; cbn; split; [unfold late; cbn; lia|done]..].

Lemma stmt_cut {A} (f : Statement A) w a db' :
  f (w_ticks w) (w_db w) = Ok (a, db') →
  stmt f w = (Ok a, set_db db' (tick w)) ∨
  ∃ e w1, stmt f w = (Err e, w1) ∧ late w1 ∧ transient e ∧
    (w_db w1 = w_db w ∨ w_db w1 = db').
Proof using Hcut.
  intros Hf. unfold stmt.
  destruct (fault_cut (w_ticks w)) as [->|(Hle & e & He & [-> | ->])]; rewrite ?Hf; [by left|right..];
    (do 2 eexists; split; [reflexivity|]; split; [unfold late; cbn; lia|]; tauto).
Qed.

Lemma stmt_late {A} (f : Statement A) w :
  late w → ∃ e, stmt f w = (Err e, tick w) ∧ transient e.
Proof using Hcut.
  intros Hw. destruct (after_cancel _ Hcut (w_ticks w) Hw) as (_ & e & Ht & He).
  exists e. unfold stmt. by rewrite He.
Qed.

Lemma ApplyInvoice_cut key state et amt cur c w r w' :
  pg_text key = true → pg_text state = true → pg_text cur = true → char3_param cur = Ok c →
  ApplyInvoice key state et amt cur w = (r, w') → cut r w'.
Proof using Hcut.
  intros H1 H2 H3 Hc. unfold ApplyInvoice, tx_begin, mbind, eff_bind.
  next_operation (w_ticks w). unfold deferred, tx_stmt. cbn.
  next_operation (S (w_ticks w)). unfold sql_lock_entity. rewrite H1. cbn.
  unfold tx_commit. destruct (entities (w_db w) !! key) as [e|] eqn:He; cbn.
  - destruct (InvoiceTransitionAllowed _ _); cbn; next_operation (S (S (w_ticks w)));
      [|by intros [= <- <-]].
    unfold sql_update_invoice. rewrite H1, H2, H3, Hc. cbn.
    next_operation (S (S (S (w_ticks w)))). by intros [= <- <-].
  - next_operation (S (S (w_ticks w))). unfold sql_insert_invoice. rewrite H1, H2, H3, Hc, He. cbn.
    next_operation (S (S (S (w_ticks w)))). by intros [= <- <-].
Qed.

Lemma project_cut n c w r w' :
  coherent n → pg_text (Normalized.EntityKey n) = true →
  pg_text (Normalized.CanonicalState n) = true → pg_text (Normalized.Currency n) = true →
  char3_param (Normalized.Currency n) = Ok c → project n w = (r, w') → cut r w'.
Proof using Hcut.
  intros Hn H1 H2 H3 Hc. unfold project.
  destruct Hn as [Hcl _ _ _ _|Hcl _ _ _ _ _|Hcl _ _ _ _]; rewrite Hcl; repeat case_decide; try done.
  - by intros [= <- <-].
  - unfold ApplyShipment.
    destruct (stmt_cut _ w _ _ (shipment_succeeds _ _ (Normalized.EventTime n) (w_ticks w) (w_db w) H1 H2))
      as [->|(e & w1 & -> & Hl & He & _)]; by intros [= <- <-].
  - by apply (ApplyInvoice_cut _ _ _ _ _ c).
Qed.

Lemma project_raw n w r w' :
  project n w = (r, w') → raw_events (w_db w') = raw_events (w_db w).
Proof using.
  intros Hrun%project_runs.
  destruct Hrun as [t a db' Hp| |t a db' e Hp]; [|done|];
    by apply sql_project_entities in Hp as [m ->].
Qed.

Context (json : string) (res : Result.t) (n : Normalized.t).
Context (Hans : answers_until norm t0 json res n).

Lemma Handle_cut job r0 w r w' :
  raw_events (w_db w) !! Job.ID job = Some r0 → pg_uuid (Job.ID job) = Some (Job.ID job) →
  Job.Payload job = json → Processor.Handle norm job w = (r, w') →
  cut r w' ∧ raw_events (w_db w') = raw_events (w_db w).
Proof using Hcut UL Hans.
  destruct Hans as [Hmodel Hgate Htexts Hcur]. intros Hr0 Hid Hpay. destruct (char3_param _) as [c|] eqn:Hc; [|done].
  pose proof (Apply_coherent_aux _ _ _ Hgate) as Hco.
  unfold Processor.Handle. rewrite attempt_bind. unfold call_llm. rewrite Hpay.
  destruct (Hmodel (w_ticks w)) as [->|(Hle & e & -> & Hret & Ht)].
  2:{ rewrite (proj2 Ht), Hret. intros [= <- <-]. split; [|done].
      split; [unfold late; cbn; lia|by apply transient_wrap]. }
  rewrite Hgate, attempt_bind. unfold InsertNormalized.
  destruct (insert_fact_succeeds (Job.ID job) n (Result.Model res) (Result.PromptVer res) c r0
              (w_ticks (tick w)) (w_db (tick w))) as (fs & Hst & _); try done.
  destruct (stmt_cut _ _ _ _ Hst) as [->|(e & w1 & -> & Hl & Ht & Hdb)].
  2:{ rewrite (proj2 Ht). intros [= <- <-]. split; [split; [done|by apply transient_wrap]|].
      by destruct Hdb as [-> | ->]. }
  rewrite attempt_bind. cbn in Htexts. repeat (apply andb_true_iff in Htexts as [? Htexts]).
  destruct (project n _) as [rp w2] eqn:Hp. pose proof (project_raw _ _ _ _ Hp) as Hraw.
  eapply project_cut in Hp; [|done..].
  destruct rp as [[]|e]; [intros [= <- <-]; by rewrite Hraw|].
  destruct Hp as [Hl Ht]. rewrite (proj2 Ht). intros [= <- <-]. rewrite Hraw. split; [|done].
  split; [done|by apply transient_wrap].
Qed.
Abbreviation turn_of := (@worker_turn World (PgQueue.pg_queue cfg) (processor_handler norm) ctx_err).

(** The report of an error does not get through any more. *)
Lemma Retry_late id attempts reason w :
  late w → 1 ≤ attempts →
  ∃ e w', PgQueue.Retry cfg id attempts reason w = (Err e, w') ∧ w_db w' = w_db w ∧
    transient e ∧ late w'.
Proof using Hcut.
  intros Hw Ha. unfold PgQueue.Retry. rewrite bind_run. unfold PgQueue.draw_backoff.
  unfold PgQueue.backoff, PgQueue.backoff_ceiling, shl64.
  destruct (Z.ltb_spec (attempts - 1) 0) as [|_]; [lia|]. cbn [mbind option_bind].
  assert (late (tick w)) as Hw1 by (unfold late in *; cbn; lia).
  unfold RetryOrFail. destruct (_ <=? _).
  - destruct (stmt_late (sql_fail id reason) _ Hw1) as (e & -> & He).
    exists e, (tick (tick w)). split_ands; try done. unfold late in *; cbn in *; lia.
  - match goal with |- context [stmt ?f (tick w)] =>
      destruct (stmt_late f _ Hw1) as (e & -> & He) end.
    exists e, (tick (tick w)). split_ands; try done. unfold late in *; cbn in *; lia.
Qed.

(** The turn whose claim was the last thing to get through, or that got further. *)
Lemma turn_cut w ev db1 :
  sql_claim (PgQueue.Lease cfg) (w_ticks w) (w_db w) = Ok (Some ev, db1) → (w_ticks w < t0)%nat →
  pg_uuid (RawEvent.ID ev) = Some (RawEvent.ID ev) → RawEvent.Payload ev = json →
  1 ≤ RawEvent.Attempts ev →
  ∃ w' r r', turn_of w = (Ok Continue, w') ∧ raw_events (w_db w) !! RawEvent.ID ev = Some r ∧
    raw_events (w_db w') = <[RawEvent.ID ev := r']> (raw_events (w_db w)) ∧
    (late w' ∧ r' = lease_row (clock (w_ticks w)) (PgQueue.Lease cfg) r ∨
     RawRow.status r' = StatusProcessed ∧ RawRow.lease_until r' = None ∧
     RawRow.raw_payload r' = RawRow.raw_payload r).
Proof using Hcut UL Hans.
  intros Hclaim Ht Hid Hpay Hatt.
  pose proof (claim_spec (PgQueue.Lease cfg) (w_ticks w) (w_db w)) as Hcl.
  rewrite Hclaim in Hcl. destruct Hcl as (r0 & Hr0 & _ & _ & _ & _ & _ & Hdb1).
  set (r1 := lease_row (clock (w_ticks w)) (PgQueue.Lease cfg) r0) in *.
  assert (raw_events db1 !! RawEvent.ID ev = Some r1) as Hr1.
  { rewrite Hdb1. cbn. by rewrite lookup_insert_eq. }
  destruct (Processor.Handle norm (job_of_event ev) (set_db db1 (tick w))) as [r w2] eqn:Hhandle.
  destruct (Handle_cut (job_of_event ev) r1 (set_db db1 (tick w)) r w2 Hr1 Hid Hpay Hhandle)
    as [Hr Hraw]. cbn in Hraw.
  rewrite (turn_claims norm cfg w ev db1 (before_cancel _ Hcut _ Ht) Hclaim).
  rewrite bind_run. unfold dispatch. rewrite attempt_bind.
  change (Worker.Handle ?j) with (Processor.Handle norm j). rewrite Hhandle.
  destruct r as [[]|e].
  - rewrite attempt_bind. cbn [Queue.Ack PgQueue.pg_queue Job.ID job_of_event]. unfold PgQueue.Ack, MarkProcessed.
    assert (sql_mark_processed (RawEvent.ID ev) (w_ticks w2) (w_db w2) =
      Ok ((), raw_put (RawEvent.ID ev) (set_status StatusProcessed None None r1) (w_db w2))) as Hmark.
    { apply update_raw_runs; [done|]. by rewrite Hraw. }
    assert (raw_events (raw_put (RawEvent.ID ev) (set_status StatusProcessed None None r1) (w_db w2))
            = <[RawEvent.ID ev := set_status StatusProcessed None None r1]> (raw_events (w_db w))) as Hdone.
    { cbn. rewrite Hraw, Hdb1. cbn. by rewrite insert_insert_eq. }
    destruct (stmt_cut _ _ _ _ Hmark) as [->|(e & w3 & -> & Hl & He & Hdb)]; [|rewrite (proj2 He)].
    + do 2 eexists. exists (set_status StatusProcessed None None r1). split; [reflexivity|].
      split; [done|]. split; [done|by right].
    + destruct Hdb as [Hdb|Hdb].
      * do 2 eexists. exists r1. split; [reflexivity|]. split; [done|].
        cbn [fst snd mret eff_ret]. rewrite Hdb, Hraw, Hdb1. split; [done|by left].
      * do 2 eexists. exists (set_status StatusProcessed None None r1). split; [reflexivity|].
        split; [done|]. cbn [fst snd mret eff_ret]. rewrite Hdb. split; [done|by right].
  - destruct Hr as [Hl [He Hp]]. rewrite Hp, He, attempt_bind.
    destruct (Retry_late (RawEvent.ID ev) (RawEvent.Attempts ev) (Error e) w2 Hl Hatt)
      as (e' & w3 & Hrun & Hdb3 & He' & Hl3).
    cbn [Queue.Retry PgQueue.pg_queue Job.ID Job.Attempts job_of_event]. rewrite Hrun, (proj2 He').
    do 2 eexists. exists r1. split; [reflexivity|]. split; [done|]. cbn [fst snd mret eff_ret].
    rewrite Hdb3, Hraw, Hdb1. split; [done|by left].
Qed.

(** The next round of the loop is the last. *)
Lemma turn_late w :
  late w → ∃ w', turn_of w = (Ok Return, w') ∧ w_db w' = w_db w.
Proof using Hcut.
  intros Hw. unfold worker_turn. rewrite attempt_bind. cbn [Queue.Claim PgQueue.pg_queue].
  unfold PgQueue.Claim. rewrite bind_run. unfold StoreRaw.Claim.
  destruct (stmt_late (sql_claim (PgQueue.Lease cfg)) w Hw) as (e & -> & He).
  rewrite (proj2 He), bind_run. unfold ctx_err.
  assert (late (tick w)) as Hw1 by (unfold late in *; cbn; lia).
  rewrite (proj1 (after_cancel _ Hcut _ Hw1)). by eexists.
Qed.
End shutdown.

(** ** Properties *)

(** Every waiting event has attempts left in the column, and is decided by the model or
    the gate. *)
Definition decidable_log {U : UnicodeTables} {P : Postgres} {C : Client}
    (norm : Normalizer) (db : DB) : Prop :=
  ∀ id r, unfinished db !! id = Some r →
    RawRow.attempts r < int4_max ∧ ∃ st, verdict norm (RawRow.raw_payload r) st.

(** No lease of [db] runs past [until]. *)
Definition leases_end (db : DB) (until : Time) : Prop :=
  ∀ id r l, raw_events db !! id = Some r → RawRow.lease_until r = Some l → l ≤ until.

Lemma leases_end_ex db : ∃ until, leases_end db until.
Proof.
  unfold leases_end. induction (raw_events db) as [|id r m _ [u IH]] using map_ind.
  { exists 0. intros id r l. by rewrite lookup_empty. }
  exists (Z.max u (default 0 (RawRow.lease_until r))). intros id' r' l.
  rewrite lookup_insert_Some. intros [[<- <-]|[_ Hr]] Hl; [rewrite Hl; cbn; lia|].
  specialize (IH _ _ _ Hr Hl). lia.
Qed.

Lemma lease_over r u now :
  row_ok r → settled r = false → (∀ l, RawRow.lease_until r = Some l → l ≤ u) → u < now →
  claimable now r = true.
Proof.
  intros [_ _ _ Hl] Hs Hu Hnow. unfold settled in Hs. unfold claimable.
  destruct (RawRow.status r); try done. destruct (Hl eq_refl) as [l Hle].
  rewrite Hle. specialize (Hu l Hle). apply Z.ltb_lt. lia.
Qed.

(** Every event of [db] is decided in [db'], and there is no other. *)
Record emptied {U : UnicodeTables} {P : Postgres} {C : Client} (norm : Normalizer)
    (db db' : DB) : Prop := {
  emptied_none : unfinished db' = ∅;
  emptied_dom id : is_Some (raw_events db' !! id) ↔ is_Some (raw_events db !! id);
  emptied_row id r : raw_events db !! id = Some r →
    ∃ r', raw_events db' !! id = Some r' ∧ decided norm r r' ∧
      (RawRow.status r' = StatusProcessed → effected norm db' id (RawRow.raw_payload r))
}.

(** With the steps, taken in slot [k], to which the turns come. *)
Lemma pool_drained {U : UnicodeTables} {UL : UnicodeLaws U} {P : Postgres} {O : Oracle}
    {C : Client} norm cfg k tasks until w :
  reachable norm cfg (mkSys (w_db w) tasks) → tasks !! k = None →
  (∀ t, fault t = NoFault) → (∀ t, locked t = ∅) →
  leases_end (w_db w) until → (∀ t, until < clock t) → decidable_log norm (w_db w) →
  ∃ w', @worker World (PgQueue.pg_queue cfg) (processor_handler norm) ctx_err
          (size (unfinished (w_db w))) w = (Ok false, w') ∧
    rtc (taken norm cfg (Slot k)) (mkSys (w_db w) tasks) (mkSys (w_db w') tasks) ∧
    emptied norm (w_db w) (w_db w').
Proof.
  intros Hs Hk Hnf Hnl Huntil Hclock Hready. pose proof (reachable_sys_inv _ _ _ Hs) as [Hinv _ _].
  destruct (worker_drains norm cfg Hnf Hnl k tasks (size (unfinished (w_db w))) w)
    as (w' & Hrun & Hsteps & Hrel); [done|done| |].
  { intros id r Hr. destruct (Hready id r Hr) as (? & ?).
    apply unfinished_Some in Hr as [Hr Hunf]. split; [by apply (inv_id _ _ Hinv id r)| |done..].
    intros t. apply (lease_over r until); [by apply (inv_row _ _ Hinv id)|done| |done].
    intros l. exact (Huntil id r l Hr). }
  destruct (steps_sys_inv norm cfg _ _ (taken_steps _ _ _ _ _ Hsteps) (reachable_sys_inv _ _ _ Hs))
    as [Hev [Hinv' _ _]].
  exists w'. split; [done|]. split; [done|]. split.
  - apply map_eq. intros id. rewrite lookup_empty. apply eq_None_not_Some.
    intros [r' [Hr' Hf]%unfinished_Some]. specialize (Hrel id). rewrite Hr' in Hrel.
    destruct (raw_events (w_db w) !! id) as [r|]; [|done]. cbn in Hrel. unfold decided in Hrel.
    destruct (settled r) eqn:Hfr; [congruence|]. destruct Hrel as [Hv _].
    pose proof (verdict_settled _ _ _ Hv). congruence.
  - intros id. specialize (Hrel id). unfold is_Some.
    destruct (raw_events (w_db w) !! id), (raw_events (w_db w') !! id); cbn in Hrel; naive_solver.
  - intros id r Hr. pose proof (Hrel id) as Hid. rewrite Hr in Hid.
    destruct (raw_events (w_db w') !! id) as [r'|] eqn:Hr'; [|done]. exists r'.
    split; [done|]. split; [done|]. intros Hst.
    destruct (ev_raw _ _ Hev id r Hr) as (r2 & Hr2 & _ & Hpay & _). cbn in Hr2.
    assert (r2 = r') as -> by congruence. rewrite <-Hpay. by apply (inv_done _ _ Hinv').
Qed.

(** C15. The queue empties. Take any reachable tables in which every unfinished event
    has been attempted less often than its int4 column can count and is decided by the
    model and the gate: the model answers its payload with what the gate accepts and
    the database stores, or refuses it for good, or answers what the gate rejects, with
    a reason the database stores. Then there is a time, the end of the last lease, such
    that a worker whose statements do not fail, for which no row is locked by others,
    and whose clock is past that time, leaves no unfinished event after as many turns as
    there are such events: each has become PROCESSED, with its fact and its effect in
    the tables ([effected]: a shipment at a rank at least that of the answer; an invoice
    in the state of the answer, in one the table does not lead from to it, or in one
    reached from such a state), or FAILED if its payload is refused, at one attempt more and without a
    lease; one bad payload does not hold up the others; finished events and the set of
    events are as they were. *)
Theorem pool_drains {U : UnicodeTables} {UL : UnicodeLaws U} {P : Postgres}
    {C : Client} norm cfg tasks db :
  reachable norm cfg (mkSys db tasks) →
  (∀ id r, unfinished db !! id = Some r →
     RawRow.attempts r < int4_max ∧ ∃ st, verdict norm (RawRow.raw_payload r) st) →
  ∃ until, ∀ (O : Oracle) w, w_db w = db →
  (∀ t, fault t = NoFault) → (∀ t, locked t = ∅) → (∀ t, until < clock t) →
  ∃ w', @worker World (PgQueue.pg_queue cfg) (processor_handler norm) ctx_err
          (size (unfinished db)) w = (Ok false, w') ∧
    unfinished (w_db w') = ∅ ∧
    (∀ id, is_Some (raw_events (w_db w') !! id) ↔ is_Some (raw_events db !! id)) ∧
    ∀ id r, raw_events db !! id = Some r →
      ∃ r', raw_events (w_db w') !! id = Some r' ∧ decided norm r r' ∧
        (RawRow.status r' = StatusProcessed →
         effected norm (w_db w') id (RawRow.raw_payload r)).
Proof.
  intros Hs Hready. destruct (leases_end_ex db) as [until Hu]. exists until.
  intros O w <- Hnf Hnl Hclock.
  destruct (pool_drained norm cfg (fresh (dom tasks)) tasks until w)
    as (w' & Hrun & _ & [? ? ?]); [done|apply not_elem_of_dom, is_fresh|done..|].
  by exists w'.
Qed.

(** C18. A job interrupted by a shutdown is not lost. Suppose a worker has claimed an
    event; nothing fails before the context is cancelled, and the database calls after
    that fail without effect, the one in flight with or without; the model answers the
    payload with what the gate accepts and the database stores, or, once the context is
    cancelled, may fail with a retryable error. Then, at whatever operation after the
    claim the context is cancelled, the turn ends without a panic and with every other
    event untouched, and the event is PROCESSED with its effect ([effected], as above), or it is exactly as the
    claim left it, whatever part of the work was done, and any worker may claim it once
    its lease has run out; it is not dead-lettered or rescheduled. Once the context is
    cancelled the next round of the loop returns, and changes nothing. *)
Theorem shutdown_keeps_event {U : UnicodeTables} {UL : UnicodeLaws U} {P : Postgres}
    {O : Oracle} {C : Client} norm cfg t0 tasks w ev db1 res n :
  cancelled_at t0 → reachable norm cfg (mkSys (w_db w) tasks) → (w_ticks w < t0)%nat →
  sql_claim (PgQueue.Lease cfg) (w_ticks w) (w_db w) = Ok (Some ev, db1) →
  answers_until norm t0 (RawEvent.Payload ev) res n →
  ∃ w' r r', @worker_turn World (PgQueue.pg_queue cfg) (processor_handler norm) ctx_err w
      = (Ok Continue, w') ∧
    raw_events (w_db w) !! RawEvent.ID ev = Some r ∧
    raw_events (w_db w') = <[RawEvent.ID ev := r']> (raw_events (w_db w)) ∧
    (RawRow.status r' = StatusProcessed ∧ RawRow.lease_until r' = None ∧
       effected norm (w_db w') (RawEvent.ID ev) (RawRow.raw_payload r) ∨
     (t0 < w_ticks w')%nat ∧ r' = lease_row (clock (w_ticks w)) (PgQueue.Lease cfg) r ∧
       ∀ now, clock (w_ticks w) + pg_interval (PgQueue.Lease cfg) < now →
         claimable now r' = true) ∧
    ((t0 < w_ticks w')%nat →
     ∃ w'', @worker_turn World (PgQueue.pg_queue cfg) (processor_handler norm) ctx_err w'
         = (Ok Return, w'') ∧ w_db w'' = w_db w').
Proof.
  intros Hcut Hs Ht Hclaim Hans. pose proof (reachable_sys_inv _ _ _ Hs) as [Hinv _ _].
  pose proof (claim_spec (PgQueue.Lease cfg) (w_ticks w) (w_db w)) as Hcl.
  rewrite Hclaim in Hcl. destruct Hcl as (r0 & Hr0 & _ & _ & _ & _ & Hatt & _).
  pose proof (ok_range _ (inv_row _ _ Hinv _ _ Hr0)) as Hrange.
  destruct (turn_cut norm cfg t0 Hcut _ res n Hans w ev db1 Hclaim Ht)
    as (w' & r & r' & Hturn & Hr & Hraw & Hcase); [by apply (inv_id _ _ Hinv _ r0)|done|lia|].
  exists w', r, r'. split; [done|]. split; [done|]. split; [done|].
  split; [|intros Hl; by apply (turn_late norm cfg t0 Hcut)].
  destruct Hcase as [[Hl Hr']|(Hst & Hlease & Hpay)]; [right|left].
  - split; [exact Hl|]. split; [done|]. intros now Hnow. subst r'. cbn. by apply Z.ltb_lt.
  - split; [done|]. split; [done|]. rewrite <-Hpay.
    pose proof (perform_turn_steps norm cfg O tasks w) as Hsteps. unfold perform in Hsteps.
    rewrite Hturn in Hsteps.
    destruct (steps_sys_inv _ _ _ _ Hsteps (reachable_sys_inv _ _ _ Hs)) as [_ [Hinv' _ _]].
    apply (inv_done _ _ Hinv'); [|done]. cbn. rewrite Hraw. apply lookup_insert_eq.
Qed.

(** ** Witnesses *)

Section witnesses.
Local Existing Instances latin1_tables latin1_laws sample_postgres.

(** A model that answers objects and refuses arrays. *)
#[local] Instance picky : Client := λ _ p,
  if bool_decide (p = "[]") then Err (APIError 400 false "bad request")
  else Ok (Result.mk shipment_answer "mock" "v1").

Definition good_and_bad : Sys :=
  sample_play picky [(0%nat, Ingest "h1" "[]" ""); (1%nat, Ingest "h2" "{}" "")] initial.
Definition two_waiting : World := mkWorld (s_db good_and_bad) None false 2.

Lemma waiting_rows id r :
  unfinished (w_db two_waiting) !! id = Some r →
  r = RawRow.mk "h1" "[]" None StatusPending 0 None None 0 ∨
  r = RawRow.mk "h2" "{}" None StatusPending 0 None None 60000000000.
Proof.
  intros [Hr _]%unfinished_Some.
  assert (map_to_list (raw_events (w_db two_waiting)) =
    [("id-0", RawRow.mk "h1" "[]" None StatusPending 0 None None 0);
     ("id-1", RawRow.mk "h2" "{}" None StatusPending 0 None None 60000000000)]
    ∨ map_to_list (raw_events (w_db two_waiting)) =
    [("id-1", RawRow.mk "h2" "{}" None StatusPending 0 None None 60000000000);
     ("id-0", RawRow.mk "h1" "[]" None StatusPending 0 None None 0)]) as Hl
    by (first [left; vm_compute; reflexivity|right; vm_compute; reflexivity]).
  apply elem_of_map_to_list in Hr.
  destruct Hl as [Hl|Hl]; rewrite Hl in Hr; rewrite !elem_of_cons in Hr;
    destruct Hr as [[= _ ->]|[[= _ ->]|[]%not_elem_of_nil]]; tauto.
Qed.

Lemma two_waiting_log : @decidable_log _ _ picky floor_0_6 (w_db two_waiting).
Proof.
  intros id r [-> | ->]%waiting_rows; (split; [reflexivity|]).
  - exists StatusFailed. eapply refused; [intros k; reflexivity|reflexivity|vm_compute; reflexivity].
  - exists StatusProcessed. apply (accepted _ _ (Result.mk shipment_answer "mock" "v1") shipment_fact).
    split; [reflexivity|vm_compute; reflexivity..].
Qed.

(** The calm environment at a later time. *)
Definition later (t0 : Time) : Oracle := {|
  fault _ := NoFault; clock t := t0 + 60000000000 * Z.of_nat t + 1;
  gen_random_uuid := @gen_random_uuid calm; locked _ := ∅; choose _ := 0%nat;
  wakeup _ := PollTimeout; ctx_cancelled _ := false; rand_Int64N _ _ := 0
|}.

Lemma pool_drains_witness :
  ∃ t0 w', @worker World (@PgQueue.pg_queue _ (later t0) sample_cfg)
          (@processor_handler _ _ (later t0) picky floor_0_6) (@ctx_err (later t0)) 2 two_waiting
        = (Ok false, w') ∧ unfinished (w_db w') = ∅.
Proof.
  destruct (@pool_drains latin1_tables latin1_laws sample_postgres picky floor_0_6 sample_cfg
              ∅ (w_db two_waiting)) as (until & Hdrains).
  - assert (mkSys (w_db two_waiting) ∅ = good_and_bad) as -> by (vm_compute; reflexivity).
    apply (sample_reachable picky).
  - apply two_waiting_log.
  - destruct (Hdrains (later until) two_waiting eq_refl) as (w' & Hrun & Hempty & _).
    + reflexivity.
    + reflexivity.
    + intros t. cbn [clock later]. lia.
    + exists until, w'. split; [exact Hrun|exact Hempty].
Defined.

(** The context is cancelled before the third operation: the fact cannot be stored. *)
#[local] Instance closing : Oracle := {|
  fault t := if (t <? 2)%nat then NoFault else FailBefore (errorString "context canceled");
  clock := @clock calm; gen_random_uuid := @gen_random_uuid calm; locked _ := ∅;
  choose _ := 0%nat; wakeup _ := PollTimeout; ctx_cancelled t := (2 <=? t)%nat;
  rand_Int64N _ _ := 0
|}.
#[local] Instance ready_client : Client := λ _ _, Ok (Result.mk shipment_answer "mock" "v1").

Definition one_waiting : Sys := sample_play ready_client [(0%nat, Ingest "h1" "{}" "")] initial.
Definition leased_db : DB :=
  match sql_claim (PgQueue.Lease sample_cfg) 0%nat (s_db one_waiting) with
  | Ok (_, db) => db
  | Err _ => s_db one_waiting
  end.

Lemma shutdown_keeps_event_witness :
  ∃ w' r', @worker_turn World (PgQueue.pg_queue sample_cfg) (processor_handler floor_0_6) ctx_err
      (mkWorld (s_db one_waiting) None false 0) = (Ok Continue, w') ∧
    raw_events (w_db w') !! "id-0" = Some r' ∧ claimable 60000000000 r' = true.
Proof.
  destruct (@shutdown_keeps_event latin1_tables latin1_laws sample_postgres closing ready_client
              floor_0_6 sample_cfg 2 ∅ (mkWorld (s_db one_waiting) None false 0)
              (RawEvent.mk "id-0" "{}" 1) leased_db
              (Result.mk shipment_answer "mock" "v1") shipment_fact)
    as (w' & r & r' & Hturn & _ & Hraw & Hcase & _).
  - split.
    + intros t Ht. cbn -[Nat.ltb]. by destruct (Nat.ltb_spec t 2); [|lia].
    + exists (errorString "context canceled"). split; [by split|by left].
    + intros t Ht. cbn -[Nat.ltb Nat.leb]. destruct (Nat.leb_spec 2 t); [|lia]. split; [reflexivity|].
      destruct (Nat.ltb_spec t 2); [lia|]. eexists. split; [|reflexivity]. by split.
  - assert (mkSys (s_db one_waiting) ∅ = one_waiting) as Hone by (vm_compute; reflexivity).
    cbn [w_db]. rewrite Hone. apply (sample_reachable ready_client).
  - cbn. lia.
  - vm_compute. reflexivity.
  - split; [intros k; left; reflexivity|vm_compute; reflexivity..].
  - exists w', r'. split; [exact Hturn|]. rewrite Hraw. split; [apply lookup_insert_eq|].
    destruct Hcase as [(Hst & _)|(_ & _ & Hcl)]; [exfalso|by apply Hcl].
    assert (RawRow.status <$> raw_events (w_db w') !! "id-0" = Some StatusProcessing) as Hrow.
    { apply (f_equal snd) in Hturn. cbn [snd] in Hturn. rewrite <-Hturn. vm_compute. reflexivity. }
    rewrite Hraw in Hrow. cbn in Hrow. rewrite lookup_insert_eq in Hrow. cbn in Hrow. congruence.
Defined.
End witnesses.
