(* ===== verification/Locking.v ===== *)
(** * Invoice transactions side by side (the row lock of internal/store/entity.go)

    System.v takes the transaction of [ApplyInvoice] as one step. Here it is taken
    apart: BEGIN, SELECT ... FOR UPDATE, INSERT or UPDATE, COMMIT, each a step, with
    the steps of any number of other workers and ingest handlers in between. What
    PostgreSQL does is modelled as its documentation has it at READ COMMITTED: a
    statement sees the rows committed before it; FOR UPDATE waits for the holder of
    the row lock and then sees the latest row, and locks nothing when there is no
    row; an INSERT holds the key of its row until the transaction ends, and waits
    for another that holds it; what a transaction wrote appears at its COMMIT, and
    locks are released when it ends, with its session if the worker dies. An UPSERT
    or INSERT on its own waits like the others. [now()] is the start of the
    transaction. *)

From S2P Require Import Prelude GoErrors Utf8 GoStrings Model Llm Normalize Database.
From S2P Require Import Instances StoreRaw StoreFacts Queue Worker Processor System Refinement.
From S2P Require Import Invariants Trace Safety Lifecycle.
Local Open Scope Z_scope.

(** ** States *)

(** After BEGIN; after the SELECT, with what it found; after the INSERT or the
    UPDATE, with the row that COMMIT will make visible. *)
Inductive tx_pc : Type :=
  | Begun
  | Seen (current : option string)
  | Written (row : EntityRow.t).

Record tx : Type := mkTx { tx_env : Oracle; tx_start : nat; tx_at : tx_pc }.

(** The committed tables and the busy workers, the open transaction of a worker, and
    the worker whose transaction holds the key of an entity. *)
Record LSys : Type := mkLSys {
  l_sys : Sys;
  l_txs : gmap nat tx;
  l_locks : gmap string nat
}.

#[local] Abbreviation l_db s := (s_db (l_sys s)).
#[local] Abbreviation l_tasks s := (s_tasks (l_sys s)).

(** ** Steps *)

(** Worker [i] is about to project the invoice event [n]. *)
Definition projects (s : LSys) (i : nat) (job : Job.t) (n : Normalized.t) : Prop :=
  l_tasks s !! i = Some (Task job (AtProject n)) ∧
  Normalized.Classification n = ClassInvoice.

(** The transaction of [i] is at [p] now, with the locks [lk]. *)
Definition moved (i : nat) (x : tx) (lk : gmap string nat) (s : LSys) : LSys :=
  mkLSys (l_sys s) (<[i := x]> (l_txs s)) lk.

Definition unlock (i : nat) (lk : gmap string nat) : gmap string nat :=
  filter (λ p, snd p ≠ i) lk.

(** The transaction of [i] has ended, the tables are [db] and [ApplyInvoice] has
    returned [r]. *)
Definition ended (i : nat) (job : Job.t) (r : result error unit) (db : DB) (s : LSys) : LSys :=
  mkLSys (mkSys db (<[i := Task job (after_project r)]> (l_tasks s)))
    (delete i (l_txs s)) (unlock i (l_locks s)).

(** What the SELECT locks. *)
Definition locked_by (i : nat) (key : string) (current : option string)
    (lk : gmap string nat) : gmap string nat :=
  match current with Some _ => <[key := i]> lk | None => lk end.

Section locking.
Context {U : UnicodeTables} {P : Postgres} {C : Client}.
Context (norm : Normalizer) (cfg : PgQueue.Config).

Definition insert_of (O : Oracle) (n : Normalized.t) : Statement unit :=
  sql_insert_invoice (Normalized.EntityKey n) (Normalized.CanonicalState n)
    (Normalized.EventTime n) (Normalized.AmountMinor n) (Normalized.Currency n).
Definition update_of (O : Oracle) (n : Normalized.t) : Statement unit :=
  sql_update_invoice (Normalized.EntityKey n) (Normalized.CanonicalState n)
    (Normalized.EventTime n) (Normalized.AmountMinor n) (Normalized.Currency n).

(** A statement of the open transaction of worker [i] runs. *)
Inductive tx_step (i : nat) (s : LSys) : LSys → Prop :=
  | l_select O t job n current db' :
      projects s i job n → l_txs s !! i = Some (mkTx O t Begun) →
      sql_lock_entity (Normalized.EntityKey n) t (l_db s) = Ok (current, db') →
      (current = None ∨ l_locks s !! Normalized.EntityKey n = None) →
      tx_step i s (moved i (mkTx O t (Seen current))
                     (locked_by i (Normalized.EntityKey n) current (l_locks s)) s)
  | l_insert O t job n db' row :
      projects s i job n → l_txs s !! i = Some (mkTx O t (Seen None)) →
      l_locks s !! Normalized.EntityKey n = None →
      insert_of O n t (l_db s) = Ok ((), db') →
      entities db' !! Normalized.EntityKey n = Some row →
      tx_step i s (moved i (mkTx O t (Written row)) (<[Normalized.EntityKey n := i]> (l_locks s)) s)
  (** The INSERT finds the key taken by now; the deferred ROLLBACK runs. *)
  | l_refused O t job n e :
      projects s i job n → l_txs s !! i = Some (mkTx O t (Seen None)) →
      l_locks s !! Normalized.EntityKey n = None →
      insert_of O n t (l_db s) = Err e →
      tx_step i s (ended i job (Err e) (l_db s) s)
  | l_update O t job n current db' row :
      projects s i job n → l_txs s !! i = Some (mkTx O t (Seen (Some current))) →
      InvoiceTransitionAllowed current (Normalized.CanonicalState n) = true →
      update_of O n t (l_db s) = Ok ((), db') →
      entities db' !! Normalized.EntityKey n = Some row →
      tx_step i s (moved i (mkTx O t (Written row)) (l_locks s) s)
  (** COMMIT without a transition, and of the row; its report may be lost. *)
  | l_commit_kept O t job n current r :
      projects s i job n → l_txs s !! i = Some (mkTx O t (Seen (Some current))) →
      InvoiceTransitionAllowed current (Normalized.CanonicalState n) = false →
      tx_step i s (ended i job r (l_db s) s)
  | l_commit O t job n row r :
      projects s i job n → l_txs s !! i = Some (mkTx O t (Written row)) →
      tx_step i s (ended i job r (set_entities (<[Normalized.EntityKey n := row]>
                                                  (entities (l_db s))) (l_db s)) s).

Inductive lstep (s : LSys) : LSys → Prop :=
  (** Anything that writes no entity, by a worker without a transaction. *)
  | l_elsewhere s' :
      step norm cfg (l_sys s) s' → entities (s_db s') = entities (l_db s) →
      (∀ j, is_Some (l_txs s !! j) → s_tasks s' !! j = l_tasks s !! j) →
      lstep s (mkLSys s' (l_txs s) (l_locks s))
  | l_shipment (O : Oracle) i job n r db' :
      l_tasks s !! i = Some (Task job (AtProject n)) →
      Normalized.Classification n = ClassShipment →
      l_locks s !! Normalized.EntityKey n = None →
      ran (sql_project n) (l_db s) r db' →
      lstep s (mkLSys (mkSys db' (<[i := Task job (after_project r)]> (l_tasks s)))
                 (l_txs s) (l_locks s))
  | l_begin (O : Oracle) t i job n :
      projects s i job n → l_txs s !! i = None →
      lstep s (moved i (mkTx O t Begun) (l_locks s) s)
  | l_statement i s' : tx_step i s s' → lstep s s'
  (** A statement fails, and the deferred ROLLBACK runs. *)
  | l_abort x i job n e :
      projects s i job n → l_txs s !! i = Some x →
      lstep s (ended i job (Err e) (l_db s) s)
  | l_die i :
      lstep s (mkLSys (mkSys (l_db s) (delete i (l_tasks s)))
                 (delete i (l_txs s)) (unlock i (l_locks s))).

Definition l_initial : LSys := mkLSys initial ∅ ∅.

(** ** What a write amounts to *)

(** [row] is what the transaction makes of the row [old] of its key. *)
Definition writes (O : Oracle) (t : nat) (n : Normalized.t) (old : option EntityRow.t)
    (row : EntityRow.t) : Prop :=
  pg_text (Normalized.EntityKey n) && pg_text (Normalized.CanonicalState n)
    && pg_text (Normalized.Currency n) = true ∧
  (∀ e, old = Some e →
     InvoiceTransitionAllowed (EntityRow.current_state e) (Normalized.CanonicalState n) = true) ∧
  ∃ c, char3_param (Normalized.Currency n) = Ok c ∧
       row = invoice_upsert (Normalized.CanonicalState n) (pg_timestamptz <$> Normalized.EventTime n)
               (Normalized.AmountMinor n) c (clock t) old.

(** So it is what the one statement of System.v writes. *)
Lemma writes_project (O : Oracle) t n db row :
  Normalized.Classification n = ClassInvoice →
  writes O t n (entities db !! Normalized.EntityKey n) row →
  sql_project n t db
  = Ok ((), set_entities (<[Normalized.EntityKey n := row]> (entities db)) db).
Proof.
  intros Hc (Ht & Hal & c & Hc3 & ->). unfold sql_project. rewrite Hc.
  rewrite decide_False, decide_True by done.
  unfold sql_apply_invoice, sql_insert_invoice, sql_update_invoice. rewrite Ht, Hc3. cbn.
  destruct (entities db !! _) as [e|] eqn:He; [|done].
  rewrite (Hal e eq_refl). unfold invoice_upsert. rewrite (Hal e eq_refl).
  do 3 f_equal. apply map_eq. intros k.
  destruct (decide (k = Normalized.EntityKey n)) as [->|Hk].
  - by rewrite lookup_alter_eq, lookup_insert_eq, He.
  - by rewrite lookup_alter_ne, lookup_insert_ne by done.
Qed.

Lemma kept_project (O : Oracle) t n db e :
  Normalized.Classification n = ClassInvoice →
  entities db !! Normalized.EntityKey n = Some e →
  InvoiceTransitionAllowed (EntityRow.current_state e) (Normalized.CanonicalState n) = false →
  sql_project n t db = Ok ((), db).
Proof.
  intros Hc He Hal. unfold sql_project. rewrite Hc, decide_False, decide_True by done.
  unfold sql_apply_invoice. by rewrite He, Hal.
Qed.

Lemma insert_writes (O : Oracle) t n db db' row :
  insert_of O n t db = Ok ((), db') → entities db' !! Normalized.EntityKey n = Some row →
  entities db !! Normalized.EntityKey n = None ∧ writes O t n None row.
Proof.
  unfold insert_of, sql_insert_invoice. destruct (_ && _) eqn:Ht; [|done]. cbn [negb].
  destruct (char3_param _) as [c|] eqn:Hc; [|done]. cbn.
  destruct (entities db !! _); [done|]. intros [= <-] Hrow. cbn in Hrow.
  rewrite lookup_insert_eq in Hrow. injection Hrow as <-. split; [done|].
  split; [done|]. split; [done|]. by exists c.
Qed.

Lemma update_writes (O : Oracle) t n db db' e row :
  update_of O n t db = Ok ((), db') → entities db !! Normalized.EntityKey n = Some e →
  InvoiceTransitionAllowed (EntityRow.current_state e) (Normalized.CanonicalState n) = true →
  entities db' !! Normalized.EntityKey n = Some row → writes O t n (Some e) row.
Proof.
  unfold update_of, sql_update_invoice. destruct (_ && _) eqn:Ht; [|done]. cbn [negb].
  destruct (char3_param _) as [c|] eqn:Hc; [|done]. cbn. intros [= <-] He Hal Hrow. cbn in Hrow.
  rewrite lookup_alter_eq, He in Hrow. injection Hrow as <-. split; [done|].
  split; [by intros ? [= <-]|]. exists c. split; [done|]. unfold invoice_upsert. by rewrite Hal.
Qed.

(** ** The invariant *)

Definition holds (x : tx) : bool :=
  match tx_at x with Begun | Seen None => false | _ => true end.

(** What a transaction knows, under its lock, of the row of its key. *)
Definition tx_ok (db : DB) (n : Normalized.t) (x : tx) : Prop :=
  match tx_at x with
  | Begun | Seen None => True
  | Seen (Some current) =>
    EntityRow.current_state <$> entities db !! Normalized.EntityKey n = Some current
  | Written row =>
    writes (tx_env x) (tx_start x) n (entities db !! Normalized.EntityKey n) row
  end.

(** A transaction belongs to a worker that projects an invoice, holds the key from
    the moment it knows something, and nothing else is locked. *)
Record own (s : LSys) (i : nat) : Prop := {
  own_tx x : l_txs s !! i = Some x → ∃ job n, projects s i job n ∧ tx_ok (l_db s) n x ∧
    (holds x = true → l_locks s !! Normalized.EntityKey n = Some i);
  own_lock k : l_locks s !! k = Some i → ∃ x job n, l_txs s !! i = Some x ∧
    holds x = true ∧ projects s i job n ∧ Normalized.EntityKey n = k
}.

Definition linv (s : LSys) : Prop := ∀ i, own s i.

(** Who is left alone keeps what it owns. *)
Lemma own_frame s s' j :
  own s j → l_txs s' !! j = l_txs s !! j →
  (is_Some (l_txs s !! j) → l_tasks s' !! j = l_tasks s !! j) →
  (∀ k, l_locks s' !! k = Some j ↔ l_locks s !! k = Some j) →
  (∀ k, l_locks s !! k = Some j → entities (l_db s') !! k = entities (l_db s) !! k) →
  own s' j.
Proof.
  intros [Htx Hlk] Et Etask Elk Eent. split.
  - rewrite Et. intros x Hx. destruct (Htx x Hx) as (job & n & [Hp Hc] & Hok & Hh).
    exists job, n. split_ands.
    + split; [by rewrite Etask by by exists x|done].
    + unfold tx_ok, holds in *. destruct (tx_at x) as [|[c|]|row]; try done;
        by rewrite Eent by by apply Hh.
    + intros Hx'. by apply Elk, Hh.
  - intros k Hk. apply Elk in Hk. destruct (Hlk k Hk) as (x & job & n & Hx & Hh & [Hp Hc] & Hn).
    exists x, job, n. rewrite Et. split_ands; try done. split; [by rewrite Etask by by exists x|done].
Qed.

Lemma unlock_Some i lk k j : unlock i lk !! k = Some j ↔ lk !! k = Some j ∧ j ≠ i.
Proof. unfold unlock. by rewrite map_lookup_filter_Some. Qed.

(** A worker that has ended its transaction owns nothing. *)
Lemma own_nothing s i :
  l_txs s !! i = None → (∀ k, l_locks s !! k ≠ Some i) → own s i.
Proof. intros Ht Hl. split; [by rewrite Ht|]. intros k Hk. by destruct (Hl k). Qed.

Lemma ended_linv s i job r db :
  linv s → (∀ j k, j ≠ i → l_locks s !! k = Some j → entities db !! k = entities (l_db s) !! k) →
  linv (ended i job r db s).
Proof.
  intros Hinv Hent j. destruct (decide (j = i)) as [->|Hj].
  - apply own_nothing; cbn; [apply lookup_delete_eq|]. by intros k [_ ?]%unlock_Some.
  - apply (own_frame s); [apply Hinv|..]; cbn.
    + by rewrite lookup_delete_ne.
    + intros _. by rewrite lookup_insert_ne.
    + intros k. rewrite unlock_Some. tauto.
    + intros k. by apply Hent.
Qed.

Lemma moved_linv s i x lk :
  linv s → own (moved i x lk s) i →
  (∀ j k, j ≠ i → lk !! k = Some j ↔ l_locks s !! k = Some j) → linv (moved i x lk s).
Proof.
  intros Hinv Hown Hlk j. destruct (decide (j = i)) as [->|Hj]; [done|].
  apply (own_frame s); [apply Hinv|..]; cbn; try done.
  - by rewrite lookup_insert_ne.
  - intros k. by apply Hlk.
Qed.

(** A transaction that holds its key, and only that. *)
Lemma own_moved s i job n x lk :
  projects s i job n → tx_ok (l_db s) n x →
  (holds x = true ∧ (∀ k, lk !! k = Some i ↔ k = Normalized.EntityKey n)) ∨
  (holds x = false ∧ ∀ k, lk !! k ≠ Some i) →
  own (moved i x lk s) i.
Proof.
  intros Hp Hok Hlk. split; cbn.
  - intros y [= <-]%lookup_insert_rev. exists job, n. split_ands; try done.
    intros Hh. destruct Hlk as [[_ Hlk]|[Hn _]]; [by apply Hlk|congruence].
  - intros k Hk. destruct Hlk as [[Hh Hlk]|[_ Hlk]]; [|by destruct (Hlk k)].
    apply Hlk in Hk as ->. exists x, job, n. by rewrite lookup_insert_eq.
Qed.

(** What a worker holds follows from where its transaction is. *)
Lemma locks_of s i x job n k :
  linv s → l_txs s !! i = Some x → projects s i job n →
  (l_locks s !! k = Some i ↔ holds x = true ∧ k = Normalized.EntityKey n).
Proof.
  intros Hinv Hx Hp. destruct (Hinv i) as [Htx Hlk]. split.
  - intros Hk. destruct (Hlk k Hk) as (x' & job' & n' & Hx' & Hh & Hp' & Hn').
    destruct Hp as [Hp _], Hp' as [Hp' _]. by simplify_eq.
  - intros [Hh ->]. destruct (Htx x Hx) as (job' & n' & Hp' & _ & Hh').
    destruct Hp as [Hp _], Hp' as [Hp' _]. simplify_eq. by apply Hh'.
Qed.

Lemma tx_known s i x job n :
  linv s → l_txs s !! i = Some x → projects s i job n → tx_ok (l_db s) n x.
Proof.
  intros Hinv Hx [Hp _]. destruct (own_tx _ _ (Hinv i) x Hx) as (job' & n' & [Hp' _] & Hok & _).
  by simplify_eq.
Qed.

Lemma idle_locks s i k : linv s → l_txs s !! i = None → l_locks s !! k ≠ Some i.
Proof.
  intros Hinv Hx Hk. destruct (own_lock _ _ (Hinv i) k Hk) as (x & _ & _ & Hx' & _). congruence.
Qed.

(** Taking a free key touches no other lock. *)
Lemma lock_others (lk : gmap string nat) key i j k :
  lk !! key = None → j ≠ i → <[key := i]> lk !! k = Some j ↔ lk !! k = Some j.
Proof.
  intros Hf Hj. destruct (decide (k = key)) as [->|Hk].
  - rewrite lookup_insert_eq, Hf. naive_solver.
  - by rewrite lookup_insert_ne.
Qed.

Lemma lock_own (lk : gmap string nat) key i k :
  (∀ k, lk !! k ≠ Some i) → <[key := i]> lk !! k = Some i ↔ k = key.
Proof.
  intros Hf. destruct (decide (k = key)) as [->|Hk]; [by rewrite lookup_insert_eq|].
  rewrite lookup_insert_ne by done. split; [|done]. intros H. by destruct (Hf k).
Qed.

(** A shipment touches the row of its key only. *)
Lemma shipment_elsewhere (O : Oracle) n db r db' k :
  Normalized.Classification n = ClassShipment → ran (sql_project n) db r db' →
  k ≠ Normalized.EntityKey n → entities db' !! k = entities db !! k.
Proof.
  intros Hc Hran Hk.
  assert (∀ t a db1, sql_project n t db = Ok (a, db1) → entities db1 !! k = entities db !! k) as Hok.
  { intros t a db1. unfold sql_project. rewrite decide_True by done. unfold sql_apply_shipment.
    destruct (negb _); [done|]. destruct (_ || _); [done|]. intros [= _ <-]. cbn -[ShipmentRank].
    by rewrite lookup_insert_ne. }
  destruct Hran; [by eapply Hok|done|by eapply Hok].
Qed.

Lemma outside_linv s i db job p :
  linv s → l_txs s !! i = None →
  (∀ k, is_Some (l_locks s !! k) → entities db !! k = entities (l_db s) !! k) →
  linv (mkLSys (mkSys db (<[i := Task job p]> (l_tasks s))) (l_txs s) (l_locks s)).
Proof.
  intros Hinv Hx Hent j. destruct (decide (j = i)) as [->|Hj].
  - apply own_nothing; [done|]. intros k. cbn. by apply idle_locks.
  - apply (own_frame s); [apply Hinv|..]; cbn; try done.
    + intros _. by rewrite lookup_insert_ne.
    + intros k Hk. apply Hent. by eexists.
Qed.

(** What the invariant is for: up to COMMIT nothing is to be seen, and COMMIT is the
    one step of System.v. *)
Lemma commit_step (O : Oracle) t i job n r db' s :
  projects s i job n → sql_project n t (l_db s) = Ok ((), db') →
  rtc (step norm cfg) (l_sys s) (l_sys (ended i job r db' s)).
Proof.
  intros [Hi _] Hsql. destruct s as [[db tasks] txs lk]. cbn in *. apply rtc_once.
  eapply taken_step; apply (step_project norm cfg O i job n); [done|].
  destruct r as [[]|e]; by econstructor.
Qed.

Lemma begin_linv s (O : Oracle) t i job n :
  linv s → projects s i job n → l_txs s !! i = None →
  linv (moved i (mkTx O t Begun) (l_locks s) s).
Proof.
  intros Hinv Hp Hx. apply moved_linv; [done| |done]. apply (own_moved _ _ job n); [done|done|].
  right. split; [done|]. intros k. by apply idle_locks.
Qed.

Lemma select_linv s O t i job n current db' :
  linv s → projects s i job n → l_txs s !! i = Some (mkTx O t Begun) →
  sql_lock_entity (Normalized.EntityKey n) t (l_db s) = Ok (current, db') →
  current = None ∨ l_locks s !! Normalized.EntityKey n = None →
  linv (moved i (mkTx O t (Seen current)) (locked_by i (Normalized.EntityKey n) current (l_locks s)) s).
Proof.
  intros Hinv Hp Hx Hsel Hfree.
  assert (∀ k, l_locks s !! k ≠ Some i) as Hnone
    by (intros k Hk; by apply (locks_of _ _ _ _ _ _ Hinv Hx Hp) in Hk as [? _]).
  unfold sql_lock_entity in Hsel. destruct (negb _); [done|]. injection Hsel as Hcur _.
  destruct current as [c|]; cbn [locked_by].
  - destruct Hfree as [|Hfree]; [done|]. apply moved_linv; [done| |intros j k ?; by apply lock_others].
    apply (own_moved _ _ job n); [done|done|]. left. split; [done|]. intros k. by apply lock_own.
  - apply moved_linv; [done| |done]. apply (own_moved _ _ job n); [done|done|]. by right.
Qed.

Lemma insert_linv s (O : Oracle) t i job n db' row :
  linv s → projects s i job n → l_txs s !! i = Some (mkTx O t (Seen None)) →
  l_locks s !! Normalized.EntityKey n = None → insert_of O n t (l_db s) = Ok ((), db') →
  entities db' !! Normalized.EntityKey n = Some row →
  linv (moved i (mkTx O t (Written row)) (<[Normalized.EntityKey n := i]> (l_locks s)) s).
Proof.
  intros Hinv Hp Hx Hfree Hins Hrow. destruct (insert_writes _ _ _ _ _ _ Hins Hrow) as [He Hw].
  assert (∀ k, l_locks s !! k ≠ Some i) as Hnone
    by (intros k Hk; by apply (locks_of _ _ _ _ _ _ Hinv Hx Hp) in Hk as [? _]).
  apply moved_linv; [done| |intros j k ?; by apply lock_others].
  apply (own_moved _ _ job n); [done| |].
  - unfold tx_ok. cbn. by rewrite He.
  - left. split; [done|]. intros k. by apply lock_own.
Qed.

(** The row the SELECT found is still what it was. *)
Lemma seen_row s O t i job n current :
  linv s → projects s i job n → l_txs s !! i = Some (mkTx O t (Seen (Some current))) →
  ∃ e, entities (l_db s) !! Normalized.EntityKey n = Some e ∧ EntityRow.current_state e = current.
Proof.
  intros Hinv Hp Hx. pose proof (tx_known _ _ _ _ _ Hinv Hx Hp) as Hok. unfold tx_ok in Hok.
  cbn in Hok. destruct (entities (l_db s) !! _) as [e|]; [|done]. injection Hok as Hok. by exists e.
Qed.

Lemma update_linv s (O : Oracle) t i job n current db' row :
  linv s → projects s i job n → l_txs s !! i = Some (mkTx O t (Seen (Some current))) →
  InvoiceTransitionAllowed current (Normalized.CanonicalState n) = true →
  update_of O n t (l_db s) = Ok ((), db') → entities db' !! Normalized.EntityKey n = Some row →
  linv (moved i (mkTx O t (Written row)) (l_locks s) s).
Proof.
  intros Hinv Hp Hx Hal Hupd Hrow.
  destruct (seen_row _ _ _ _ _ _ _ Hinv Hp Hx) as (e & He & <-).
  apply moved_linv; [done| |done]. apply (own_moved _ _ job n); [done| |].
  - unfold tx_ok. cbn. rewrite He. by eapply update_writes.
  - left. split; [done|]. intros k. rewrite (locks_of _ _ _ _ _ _ Hinv Hx Hp). naive_solver.
Qed.

Lemma commit_linv s O t i job n row r :
  linv s → projects s i job n → l_txs s !! i = Some (mkTx O t (Written row)) →
  linv (ended i job r (set_entities (<[Normalized.EntityKey n := row]> (entities (l_db s))) (l_db s)) s).
Proof.
  intros Hinv Hp Hx. apply ended_linv; [done|]. intros j k Hj Hk. cbn.
  apply lookup_insert_ne. intros <-.
  assert (l_locks s !! Normalized.EntityKey n = Some i) as Hi by (by eapply locks_of). congruence.
Qed.

Lemma die_linv s i :
  linv s → linv (mkLSys (mkSys (l_db s) (delete i (l_tasks s))) (delete i (l_txs s))
                   (unlock i (l_locks s))).
Proof.
  intros Hinv j. destruct (decide (j = i)) as [->|Hj].
  - apply own_nothing; cbn; [apply lookup_delete_eq|]. by intros k [_ ?]%unlock_Some.
  - apply (own_frame s); [apply Hinv|..]; cbn; try done.
    + by rewrite lookup_delete_ne.
    + intros _. by rewrite lookup_delete_ne.
    + intros k. rewrite unlock_Some. tauto.
Qed.

Lemma abort_refines s x i job n e :
  linv s → projects s i job n → l_txs s !! i = Some x →
  let s' := ended i job (Err e) (l_db s) s in
  linv s' ∧ rtc (step norm cfg) (l_sys s) (l_sys s').
Proof.
  intros Hinv [Hi _] _. split; [by apply ended_linv|]. destruct s as [[db tasks] txs lk].
  cbn in *. apply rtc_once.
  eapply taken_step; apply (step_project norm cfg (tx_env x) i job n _ _ (Err e)); [done|constructor].
Qed.

Lemma tx_step_refines i s s' :
  linv s → tx_step i s s' → linv s' ∧ rtc (step norm cfg) (l_sys s) (l_sys s').
Proof.
  intros Hinv Hstep.
  destruct Hstep as [O t job n cur db' Hp Hx Hsel Hfree|O t job n db' row Hp Hx Hfree Hins Hrow
    |O t job n e Hp Hx _ _|O t job n cur db' row Hp Hx Hal Hupd Hrow|O t job n cur r Hp Hx Hal
    |O t job n row r Hp Hx].
  - split; [by eapply select_linv|done].
  - split; [by eapply insert_linv|done].
  - by eapply abort_refines.
  - split; [by eapply update_linv|done].
  - split; [by apply ended_linv|]. destruct (seen_row _ _ _ _ _ _ _ Hinv Hp Hx) as (e & He & <-).
    apply (commit_step O t i job n); [done|]. destruct Hp. by eapply kept_project.
  - split; [by eapply commit_linv|]. pose proof (tx_known _ _ _ _ _ Hinv Hx Hp) as Hw.
    apply (commit_step O t i job n); [done|]. destruct Hp. by apply writes_project.
Qed.

Lemma lstep_refines s s' :
  linv s → lstep s s' → linv s' ∧ rtc (step norm cfg) (l_sys s) (l_sys s').
Proof.
  intros Hinv Hstep.
  destruct Hstep as [s' Hst Hent Htasks|O i job n r db' Hi Hc Hfree Hran|O t i job n Hp Hx
    |i s' Hst|x i job n e Hp Hx|i].
  - split; [|by apply rtc_once]. intros j. apply (own_frame s); [apply Hinv|done|apply Htasks|done|].
    intros k _. cbn. by rewrite Hent.
  - split.
    + apply outside_linv; [done| |].
      * destruct (l_txs s !! i) as [x|] eqn:Hx; [|done]. exfalso.
        destruct (own_tx _ _ (Hinv i) x Hx) as (job' & n' & [Hi' Hc'] & _). simplify_eq.
        by rewrite Hc in Hc'.
      * intros k [j Hk]. eapply shipment_elsewhere; [done..|]. congruence.
    + destruct s as [[db tasks] txs lk]. cbn in *. apply rtc_once. by eapply taken_step, step_project.
  - split; [by eapply begin_linv|done].
  - by eapply tx_step_refines.
  - by eapply abort_refines.
  - split; [by apply die_linv|]. destruct s as [[db tasks] txs lk]. apply rtc_once; eapply taken_step, step_crash.
Qed.

Lemma l_initial_inv : linv l_initial.
Proof. intros i. apply own_nothing; [done|]. intros k. cbn. by rewrite lookup_empty. Qed.

Lemma lsteps_refine s s' :
  linv s → rtc lstep s s' → linv s' ∧ rtc (step norm cfg) (l_sys s) (l_sys s').
Proof.
  intros Hinv Hsteps. induction Hsteps as [s|s s1 s2 Hs _ IH]; [done|].
  destruct (lstep_refines _ _ Hinv Hs) as [Hinv1 Hst]. destruct (IH Hinv1) as [? ?].
  split; [done|]. by etrans.
Qed.

(** ** The method [ApplyInvoice] *)

(** What a transaction leaves that wrote its row. *)
Lemma insert_result (O : Oracle) t n db db' :
  insert_of O n t db = Ok ((), db') →
  ∃ row, entities db' !! Normalized.EntityKey n = Some row ∧
         db' = set_entities (<[Normalized.EntityKey n := row]> (entities db)) db.
Proof.
  unfold insert_of, sql_insert_invoice. destruct (negb _); [done|].
  destruct (char3_param _) as [c|]; [|done]. cbn. destruct (entities db !! _); [done|].
  intros [= <-]. eexists. split; [apply lookup_insert_eq|done].
Qed.

Lemma update_result (O : Oracle) t n db db' e :
  update_of O n t db = Ok ((), db') → entities db !! Normalized.EntityKey n = Some e →
  ∃ row, entities db' !! Normalized.EntityKey n = Some row ∧
         db' = set_entities (<[Normalized.EntityKey n := row]> (entities db)) db.
Proof.
  unfold update_of, sql_update_invoice. destruct (negb _); [done|].
  destruct (char3_param _) as [c|]; [|done]. cbn. intros [= <-] He. eexists.
  cbn. rewrite lookup_alter_eq, He. split; [done|]. f_equal. apply map_eq. intros k.
  destruct (decide (k = Normalized.EntityKey n)) as [->|Hk].
  - by rewrite lookup_alter_eq, lookup_insert_eq, He.
  - by rewrite lookup_alter_ne, lookup_insert_ne by done.
Qed.

Lemma unlock_id i lk : (∀ k, lk !! k ≠ Some i) → unlock i lk = lk.
Proof.
  intros Hn. apply map_eq. intros k. apply option_eq. intros j. rewrite unlock_Some.
  split; [by intros [? _]|]. intros Hk. split; [done|]. intros ->. by destruct (Hn k).
Qed.

Lemma unlock_insert i lk key :
  (∀ k, lk !! k ≠ Some i) → lk !! key = None → unlock i (<[key := i]> lk) = lk.
Proof.
  intros Hn Hk. unfold unlock. rewrite map_filter_insert_False by (cbn; tauto).
  rewrite delete_id by done. by apply unlock_id.
Qed.

Section run.
Context {O : Oracle} (s : LSys) (i : nat) (job : Job.t) (n : Normalized.t).
Context (Hp : projects s i job n) (Hx : l_txs s !! i = None).
Context (Hnone : ∀ k, l_locks s !! k ≠ Some i).
Context (Hfree : l_locks s !! Normalized.EntityKey n = None).

(** [ApplyInvoice] has returned [r] and left [db], and nothing open or locked. *)
Definition returned (r : result error unit) (db : DB) : LSys :=
  mkLSys (mkSys db (<[i := Task job (after_project r)]> (l_tasks s))) (l_txs s) (l_locks s).

Lemma ended_returned x lk r db :
  unlock i lk = l_locks s → ended i job r db (moved i x lk s) = returned r db.
Proof using Hx.
  intros Hlk. unfold ended, returned, moved. cbn [l_sys l_txs l_locks]. by rewrite Hlk, delete_insert_id.
Qed.

(** The transaction moves on from [x]. *)
Lemma run_move x lk y lk' :
  rtc lstep s (moved i x lk s) →
  (l_txs (moved i x lk s) !! i = Some x →
   lstep (moved i x lk s) (moved i y lk' (moved i x lk s))) →
  rtc lstep s (moved i y lk' s).
Proof using.
  intros Hs Hstep. eapply rtc_r; [exact Hs|].
  assert (moved i y lk' (moved i x lk s) = moved i y lk' s) as <-
    by (unfold moved; cbn; by rewrite insert_insert_eq).
  apply Hstep. cbn. apply lookup_insert_eq.
Qed.

(** A failure after BEGIN. *)
Lemma abort_returned x lk e :
  rtc lstep s (moved i x lk s) → unlock i lk = l_locks s →
  rtc lstep s (returned (Err e) (l_db s)).
Proof using Hp Hx.
  intros Hs Hlk. eapply rtc_r; [exact Hs|]. rewrite <-(ended_returned x lk) by done.
  apply (l_abort (moved i x lk s) x i job n e); [done|]. cbn. apply lookup_insert_eq.
Qed.

Lemma unlock_locked current :
  unlock i (locked_by i (Normalized.EntityKey n) current (l_locks s)) = l_locks s.
Proof using Hnone Hfree.
  destruct current; cbn; [by apply unlock_insert|by apply unlock_id].
Qed.

Lemma run_begin t : rtc lstep s (moved i (mkTx O t Begun) (l_locks s) s).
Proof using Hp Hx. by eapply rtc_once, l_begin. Qed.

Lemma run_select t current db' :
  sql_lock_entity (Normalized.EntityKey n) t (l_db s) = Ok (current, db') →
  rtc lstep s (moved i (mkTx O t (Seen current))
                 (locked_by i (Normalized.EntityKey n) current (l_locks s)) s).
Proof using Hp Hx Hfree.
  intros Hsel. eapply run_move; [apply (run_begin t)|]. intros Hx1.
  eapply l_statement, (l_select i (moved i (mkTx O t Begun) (l_locks s) s)); [done|done|done|by right].
Qed.

Lemma run_commit t row lk r :
  rtc lstep s (moved i (mkTx O t (Written row)) lk s) → unlock i lk = l_locks s →
  rtc lstep s (returned r (set_entities (<[Normalized.EntityKey n := row]> (entities (l_db s))) (l_db s))).
Proof using Hp Hx.
  intros Hs Hlk. eapply rtc_r; [exact Hs|]. rewrite <-(ended_returned (mkTx O t (Written row)) lk) by done.
  eapply l_statement, (l_commit i (moved i (mkTx O t (Written row)) lk s) O t job n row r); [done|].
  cbn. apply lookup_insert_eq.
Qed.

Lemma run_insert t db' r :
  sql_lock_entity (Normalized.EntityKey n) t (l_db s) = Ok (None, l_db s) →
  insert_of O n t (l_db s) = Ok ((), db') → rtc lstep s (returned r db').
Proof using Hp Hx Hnone Hfree.
  intros Hsel Hins. destruct (insert_result _ _ _ _ _ Hins) as (row & Hrow & Hdb'). rewrite Hdb'.
  apply (run_commit t row (<[Normalized.EntityKey n := i]> (l_locks s))); [|by apply unlock_insert].
  eapply run_move; [by eapply (run_select t)|]. intros Hx1.
  by eapply l_statement, (l_insert i (moved i (mkTx O t (Seen None)) (l_locks s) s) O t job n db' row).
Qed.

Lemma run_update t db' r e :
  sql_lock_entity (Normalized.EntityKey n) t (l_db s)
    = Ok (Some (EntityRow.current_state e), l_db s) →
  entities (l_db s) !! Normalized.EntityKey n = Some e →
  InvoiceTransitionAllowed (EntityRow.current_state e) (Normalized.CanonicalState n) = true →
  update_of O n t (l_db s) = Ok ((), db') → rtc lstep s (returned r db').
Proof using Hp Hx Hnone Hfree.
  intros Hsel He Hal Hupd. destruct (update_result _ _ _ _ _ _ Hupd He) as (row & Hrow & Hdb').
  rewrite Hdb'. apply (run_commit t row (<[Normalized.EntityKey n := i]> (l_locks s)));
    [|by apply unlock_insert].
  eapply run_move; [by eapply (run_select t)|]. intros Hx1. by eapply l_statement, l_update.
Qed.

Lemma run_kept t r e :
  sql_lock_entity (Normalized.EntityKey n) t (l_db s)
    = Ok (Some (EntityRow.current_state e), l_db s) →
  InvoiceTransitionAllowed (EntityRow.current_state e) (Normalized.CanonicalState n) = false →
  rtc lstep s (returned r (l_db s)).
Proof using O Hp Hx Hnone Hfree.
  intros Hsel Hal. eapply rtc_r; [by eapply (run_select t)|].
  set (x := mkTx O t (Seen (Some (EntityRow.current_state e)))). cbn [locked_by].
  rewrite <-(ended_returned x (<[Normalized.EntityKey n := i]> (l_locks s)))
    by (by apply unlock_insert).
  eapply l_statement, (l_commit_kept i (moved i x (<[Normalized.EntityKey n := i]> (l_locks s)) s));
    try done.
  cbn. apply lookup_insert_eq.
Qed.

(** BEGIN itself fails. *)
Lemma run_no_begin e : rtc lstep s (returned (Err e) (l_db s)).
Proof using O Hp Hx Hnone Hfree.
  destruct Hp as [Hi _]. apply rtc_once. unfold returned. apply l_elsewhere; [|done|].
  - destruct s as [[db tasks] txs lk]. cbn in *.
    eapply taken_step; apply (step_project norm cfg O i job n _ _ (Err e)); [done|constructor].
  - intros j [x Hj]. cbn. apply lookup_insert_ne. intros ->. congruence.
Qed.

Lemma project_lsteps w r w' :
  w_db w = l_db s → project n w = (r, w') → rtc lstep s (returned r (w_db w')).
Proof using Hp Hx Hnone Hfree.
  intros Hw. unfold project. rewrite (proj2 Hp), decide_False, decide_True by done.
  unfold ApplyInvoice, tx_begin, mbind, eff_bind.
  destruct (fault (w_ticks w)) eqn:F0; cbn; try (intros [= <- <-]; cbn; rewrite Hw; apply run_no_begin).
  pose proof (run_begin (w_ticks w)) as Hb. pose proof (unlock_id _ _ Hnone) as Hrel.
  unfold deferred, tx_stmt. cbn.
  destruct (fault (S (w_ticks w))) eqn:F1; cbn;
    try (intros [= <- <-]; cbn; rewrite Hw; by eapply abort_returned).
  destruct (sql_lock_entity _ _ _) as [[cur db1]|e] eqn:Hsel; cbn;
    [|intros [= <- <-]; cbn; rewrite Hw; by eapply abort_returned].
  assert (db1 = w_db w ∧ cur = EntityRow.current_state <$> entities (w_db w) !! Normalized.EntityKey n)
    as [-> Hcur].
  { unfold sql_lock_entity in Hsel. destruct (negb _); [done|]. by injection Hsel as <- <-. }
  rewrite Hw in *. pose proof (run_select _ _ _ Hsel) as Hs.
  destruct (entities (l_db s) !! Normalized.EntityKey n) as [e|] eqn:He; cbn in Hcur; subst cur.
  - destruct (InvoiceTransitionAllowed _ _) eqn:Hal; cbn.
    + destruct (fault (S (S (w_ticks w)))); cbn;
        try (intros [= <- <-]; cbn; rewrite Hw; eapply abort_returned; [exact Hs|apply unlock_locked]).
      destruct (sql_update_invoice _ _ _ _ _ _ _) as [[[] db2]|e2] eqn:Hupd; cbn;
        [|intros [= <- <-]; cbn; rewrite Hw; eapply abort_returned; [exact Hs|apply unlock_locked]].
      unfold tx_commit; cbn.
      destruct (fault (S (S (S (w_ticks w))))); cbn; intros [= <- <-]; cbn;
        first [by eapply run_update|rewrite Hw; eapply abort_returned; [exact Hs|apply unlock_locked]].
    + unfold tx_commit; cbn.
      destruct (fault (S (S (w_ticks w)))); cbn; intros [= <- <-]; cbn;
        first [by eapply run_kept|rewrite Hw; by eapply run_kept].
  - unfold tx_commit; cbn. destruct (fault (S (S (w_ticks w)))); cbn;
      try (intros [= <- <-]; cbn; rewrite Hw; eapply abort_returned; [exact Hs|apply unlock_locked]).
    destruct (sql_insert_invoice _ _ _ _ _ _ _) as [[[] db2]|e2] eqn:Hins; cbn;
      [|intros [= <- <-]; cbn; rewrite Hw; eapply abort_returned; [exact Hs|apply unlock_locked]].
    unfold tx_commit; cbn.
    destruct (fault (S (S (S (w_ticks w))))); cbn; intros [= <- <-]; cbn;
      first [by eapply run_insert|rewrite Hw; eapply abort_returned; [exact Hs|apply unlock_locked]].
Qed.
End run.

(** ** Nobody waits for ever *)

(** The texts and the currency of [n] are ones the columns take. *)
Definition storable (n : Normalized.t) : Prop :=
  pg_text (Normalized.EntityKey n) && pg_text (Normalized.CanonicalState n)
    && pg_text (Normalized.Currency n) = true ∧
  ∃ c, char3_param (Normalized.Currency n) = Ok c.

(** A worker projects only what it has stored as a fact. *)
Definition stored_before (s : Sys) : Prop :=
  ∀ i job n, s_tasks s !! i = Some (Task job (AtProject n)) → storable n.

Lemma ran_fact_storable `{Oracle} id n m v db r db' :
  ran (sql_insert_normalized id n m v) db r db' → is_ok r = true → storable n.
Proof.
  intros [t a db1 Hst| |t a db1 e Hst]; try done. intros _. unfold sql_insert_normalized in Hst.
  destruct (pg_uuid id); [|done]. destruct (forallb _ _) eqn:Ht; [|done]. cbn [negb] in Hst.
  destruct (char3_param _) as [c|] eqn:Hc; [|done]. split; [|by exists c].
  unfold fact_texts in Ht. cbn in Ht. repeat apply andb_true_iff in Ht as [? Ht].
  by rewrite !andb_true_iff.
Qed.

Lemma step_stored s s' : stored_before s → step norm cfg s s' → stored_before s'.
Proof.
  intros Hs Hstep i job n.
  destruct Hstep as [? Hstep]. destruct Hstep as [| O j ? tasks r ? ? ?|j job' k db tasks|O j job' n' m v db tasks r db' Ht Hran
    |O j job' n' db tasks r db' Ht|O j job' o d db tasks r db' Ht|j db tasks];
    cbn in *; try (by apply Hs).
  - destruct r as [[ev|]|e]; try (by apply Hs). rewrite lookup_insert_Some.
    intros [[_ [=]]|[_ Hi]]. by eapply Hs.
  - rewrite lookup_insert_Some. intros [[_ [= _ Hp]]|[_ Hi]]; [|by eapply Hs].
    unfold after_llm in Hp. by repeat case_match.
  - rewrite lookup_insert_Some. intros [[_ [= _ Hp]]|[_ Hi]]; [|by eapply Hs].
    destruct r; [|done]. injection Hp as <-. by eapply ran_fact_storable.
  - rewrite lookup_insert_Some. intros [[_ [= _ Hp]]|[_ Hi]]; [by destruct r|by eapply Hs].
  - intros [_ Hi]%lookup_delete_Some. by eapply Hs.
  - intros [_ Hi]%lookup_delete_Some. by eapply Hs.
Qed.

Lemma reachable_stored s : reachable norm cfg s → stored_before s.
Proof.
  apply rtc_ind_r; [|intros ? ? _ ? ?; by eapply step_stored]. intros i job n. cbn. by rewrite lookup_empty.
Qed.

(** The statements that write, when nothing fails. *)
Lemma insert_runs (O : Oracle) t n db :
  storable n → entities db !! Normalized.EntityKey n = None →
  ∃ db', insert_of O n t db = Ok ((), db').
Proof.
  intros [Ht [c Hc]] He. unfold insert_of, sql_insert_invoice. rewrite Ht, Hc, He. by eexists.
Qed.

Lemma update_runs (O : Oracle) t n db : storable n → ∃ db', update_of O n t db = Ok ((), db').
Proof. intros [Ht [c Hc]]. unfold update_of, sql_update_invoice. rewrite Ht, Hc. by eexists. Qed.

Lemma ended_moved s i job r db x lk :
  unlock i lk = unlock i (l_locks s) → ended i job r db (moved i x lk s) = ended i job r db s.
Proof.
  intros Hlk. unfold ended, moved. cbn [l_sys l_txs l_locks]. by rewrite Hlk, delete_insert_eq.
Qed.

(** COMMIT of what is written. *)
Lemma written_ends s i job n O t row lk :
  projects s i job n → unlock i lk = unlock i (l_locks s) →
  ∃ db, tx_step i (moved i (mkTx O t (Written row)) lk s) (ended i job (Ok ()) db s) ∧
    ∀ k, k ≠ Normalized.EntityKey n → entities db !! k = entities (l_db s) !! k.
Proof.
  intros Hp Hlk. eexists. rewrite <-(ended_moved s i job _ _ (mkTx O t (Written row)) lk) by done.
  split.
  - apply (l_commit i _ O t job n row (Ok ())); [done|]. cbn. apply lookup_insert_eq.
  - intros k Hk. cbn. by rewrite lookup_insert_ne.
Qed.

(** Who holds its key waits for nobody: at most two statements end its transaction,
    without an error. *)
Lemma holder_ends s i x job n :
  linv s → storable n → projects s i job n → l_txs s !! i = Some x → holds x = true →
  ∃ db, bsteps (tx_step i) 2 s (ended i job (Ok ()) db s) ∧
    ∀ k, k ≠ Normalized.EntityKey n → entities db !! k = entities (l_db s) !! k.
Proof.
  intros Hinv Hn Hp Hx Hh. destruct x as [O t [|[c|]|row]]; try done.
  - destruct (InvoiceTransitionAllowed c (Normalized.CanonicalState n)) eqn:Hal.
    + destruct (update_runs O t n (l_db s) Hn) as [db' Hupd].
      destruct (seen_row _ _ _ _ _ _ _ Hinv Hp Hx) as (e & He & _).
      destruct (update_result _ _ _ _ _ _ Hupd He) as (row & Hrow & _).
      destruct (written_ends s i job n O t row (l_locks s) Hp eq_refl) as (db & Hend & Hdb).
      exists db. split; [|done].
      eapply bsteps_l; [by eapply l_update|]. by apply bsteps_once.
    + exists (l_db s). split; [|done]. apply bsteps_once.
      by eapply l_commit_kept.
  - destruct (written_ends s i job n O t row (l_locks s) Hp eq_refl) as (db & Hend & Hdb).
    exists db. split; [|done]. apply bsteps_once.
    unfold moved in Hend. rewrite insert_id in Hend by done. by destruct s.
Qed.

(** Nor does a transaction whose key is free; it may only have lost the race of two
    first events, when the row has come since its SELECT. *)
Lemma insert_ends s i job n O t :
  linv s → storable n → projects s i job n → l_txs s !! i = Some (mkTx O t (Seen None)) →
  l_locks s !! Normalized.EntityKey n = None →
  ∃ r db, bsteps (tx_step i) 2 s (ended i job r db s) ∧
    (r = Ok () ∨ db = l_db s ∧ is_Some (entities (l_db s) !! Normalized.EntityKey n)).
Proof.
  intros Hinv Hn Hp Hx Hfree.
  destruct (entities (l_db s) !! Normalized.EntityKey n) as [e|] eqn:He.
  - exists (Err (pg_error UniqueViolation)), (l_db s). split; [|right; split; [done|by eexists]].
    apply bsteps_once. apply (l_refused i s O t job n); [done..|].
    unfold insert_of, sql_insert_invoice. destruct Hn as [Ht [c Hc]]. by rewrite Ht, Hc, He.
  - destruct (insert_runs O t n (l_db s) Hn He) as [db' Hins].
    destruct (insert_result _ _ _ _ _ Hins) as (row & Hrow & _).
    destruct (written_ends s i job n O t row (<[Normalized.EntityKey n := i]> (l_locks s)) Hp)
      as (db & Hend & _).
    { assert (∀ k, l_locks s !! k ≠ Some i) as Hnone
        by (intros k Hk; by apply (locks_of _ _ _ _ _ _ Hinv Hx Hp) in Hk as [? _]).
      rewrite unlock_insert, unlock_id by done. done. }
    exists (Ok ()), db. split; [|by left].
    eapply bsteps_l; [by eapply l_insert|]. by apply bsteps_once.
Qed.

Lemma free_ends s i x job n :
  linv s → storable n → projects s i job n → l_txs s !! i = Some x →
  l_locks s !! Normalized.EntityKey n = None →
  ∃ r db, bsteps (tx_step i) 3 s (ended i job r db s) ∧
    (r = Ok () ∨ tx_at x = Seen None ∧ is_Some (entities db !! Normalized.EntityKey n)).
Proof.
  intros Hinv Hn Hp Hx Hfree. destruct x as [O t p]. destruct (holds (mkTx O t p)) eqn:Hh.
  { destruct (holder_ends s i _ job n Hinv Hn Hp Hx Hh) as (db & Hs & _).
    exists (Ok ()), db. split; [|by left]. apply (bsteps_weaken 2); [lia|exact Hs]. }
  destruct p as [|[c|]|row]; try done.
  2:{ destruct (insert_ends s i job n O t Hinv Hn Hp Hx Hfree) as (r & db & Hs & Hr).
      exists r, db. split; [apply (bsteps_weaken 2); [lia|exact Hs]|]. destruct Hr as [|[-> ?]]; tauto. }
  set (cur := EntityRow.current_state <$> entities (l_db s) !! Normalized.EntityKey n).
  assert (sql_lock_entity (Normalized.EntityKey n) t (l_db s) = Ok (cur, l_db s)) as Hsel.
  { unfold sql_lock_entity. destruct Hn as [Ht _]. rewrite !andb_true_iff in Ht.
    destruct Ht as [[-> _] _]. done. }
  set (s1 := moved i (mkTx O t (Seen cur))
               (locked_by i (Normalized.EntityKey n) cur (l_locks s)) s).
  assert (tx_step i s s1) as Hstep by (eapply l_select; eauto).
  assert (linv s1) as Hinv1 by (by eapply tx_step_refines).
  assert (l_txs s1 !! i = Some (mkTx O t (Seen cur))) as Hx1 by (cbn; apply lookup_insert_eq).
  assert (∀ k, l_locks s !! k ≠ Some i) as Hnone
    by (intros k Hk; by apply (locks_of _ _ _ _ _ _ Hinv Hx Hp) in Hk as [? _]).
  assert (∀ r db, ended i job r db s1 = ended i job r db s) as Hend.
  { intros r db. apply ended_moved. destruct cur; cbn; [|done].
    by rewrite unlock_insert, unlock_id. }
  destruct (entities (l_db s) !! Normalized.EntityKey n) as [e|] eqn:He; cbn in cur; subst cur.
  - destruct (holder_ends s1 i _ job n Hinv1 Hn Hp Hx1 eq_refl) as (db & Hs & _).
    rewrite Hend in Hs. exists (Ok ()), db. split; [|by left]. by eapply bsteps_l.
  - destruct (insert_ends s1 i job n O t Hinv1 Hn Hp Hx1 Hfree) as (r & db & Hs & Hr).
    rewrite Hend in Hs. exists r, db. split; [by eapply bsteps_l|]. left.
    destruct Hr as [|[_ [e Hr]]]; [done|]. cbn in Hr. congruence.
Qed.

Lemma tx_steps_refine i k s s' : linv s → bsteps (tx_step i) k s s' → linv s'.
Proof.
  intros Hinv Hs. apply (lsteps_refine s s' Hinv).
  apply (rtc_subrel (tx_step i)); [intros x y; apply l_statement|].
  apply rtc_bsteps. by exists k.
Qed.

(** Who finds its key taken can go on after the two statements of the holder. *)
Lemma open_ends s i x job n :
  linv s → stored_before (l_sys s) → projects s i job n → l_txs s !! i = Some x →
  ∃ s1 r db,
    (s1 = s ∨ ∃ j, j ≠ i ∧ l_locks s !! Normalized.EntityKey n = Some j ∧ bsteps (tx_step j) 2 s s1) ∧
    bsteps (tx_step i) 3 s1 (ended i job r db s1) ∧
    (r = Ok () ∨ tx_at x = Seen None ∧ is_Some (entities db !! Normalized.EntityKey n)).
Proof.
  intros Hinv Hst Hp Hx. assert (storable n) as Hn by (eapply Hst, Hp).
  destruct (l_locks s !! Normalized.EntityKey n) as [j|] eqn:Hlk.
  2:{ destruct (free_ends s i x job n Hinv Hn Hp Hx Hlk) as (r & db & Hs & Hr).
      exists s, r, db. split; [by left|done]. }
  destruct (decide (j = i)) as [->|Hj].
  { apply (locks_of _ _ _ _ _ _ Hinv Hx Hp) in Hlk as [Hh _].
    destruct (holder_ends s i x job n Hinv Hn Hp Hx Hh) as (db & Hs & _).
    exists s, (Ok ()), db. split_ands; [by left| |by left].
    apply (bsteps_weaken 2); [lia|exact Hs]. }
  destruct (own_lock _ _ (Hinv j) _ Hlk) as (y & job' & n' & Hy & Hh & Hp' & Hkey).
  destruct (holder_ends s j y job' n' Hinv ltac:(eapply Hst, Hp') Hp' Hy Hh) as (db1 & Hs1 & _).
  set (s1 := ended j job' (Ok ()) db1 s) in *.
  pose proof (tx_steps_refine _ _ _ _ Hinv Hs1) as Hinv1.
  destruct (free_ends s1 i x job n Hinv1 Hn) as (r & db & Hs & Hr).
  - destruct Hp as [Hp Hc]. split; [|done]. cbn. by rewrite lookup_insert_ne.
  - cbn. by rewrite lookup_delete_ne.
  - cbn. apply eq_None_not_Some. intros [k [Hk Hne]%unlock_Some]. congruence.
  - exists s1, r, db. split; [|done]. right. by exists j.
Qed.

(** Steps that touch no entity are steps here. *)
Lemma quiet_steps {UL : UnicodeLaws U} s :
  reachable norm cfg s → entities (s_db s) = ∅ → rtc lstep l_initial (mkLSys s ∅ ∅).
Proof.
  revert s. apply (rtc_ind_r (λ s, entities (s_db s) = ∅ → rtc lstep l_initial (mkLSys s ∅ ∅)));
    [done|]. intros s s' Hs Hst IH He.
  assert (entities (s_db s) = ∅) as He1.
  { apply map_eq. intros k. rewrite lookup_empty. apply eq_None_not_Some. intros [e Hk].
    destruct (steps_sys_inv norm cfg _ _ (rtc_once _ _ Hst) (reachable_sys_inv _ _ _ Hs))
      as [[_ _ Hev] _].
    destruct (Hev k e Hk) as (e' & He' & _). by rewrite He, lookup_empty in He'. }
  eapply rtc_r; [exact (IH He1)|].
  apply (l_elsewhere (mkLSys s ∅ ∅)); [done|cbn; congruence|].
  intros j [x Hx]. cbn in Hx. by rewrite lookup_empty in Hx.
Qed.
End locking.

(** ** Properties *)

(** C8. The one-step invoice transaction of System.v is what row locks make of the
    four statements: in every run in which the statements of any number of invoice
    transactions, other workers and ingest handlers interleave, fail or die with
    their sessions, the committed tables and the workers are those of a reachable
    state; no two transactions that have found or written a row are on one key, and
    the row such a transaction decided on is still in the state it saw; and a run of
    [project], whatever fails in it, is such a sequence of statements. *)
Theorem locking_refines {U : UnicodeTables} {P : Postgres} {C : Client} norm cfg s :
  rtc (lstep norm cfg) l_initial s →
  reachable norm cfg (l_sys s) ∧
  (∀ i j x y job n job' n', l_txs s !! i = Some x → l_txs s !! j = Some y →
     projects s i job n → projects s j job' n' →
     Normalized.EntityKey n = Normalized.EntityKey n' →
     holds x = true → holds y = true → i = j) ∧
  (∀ i x job n current, l_txs s !! i = Some x → projects s i job n →
     tx_at x = Seen (Some current) →
     EntityRow.current_state <$> entities (l_db s) !! Normalized.EntityKey n = Some current) ∧
  (∀ (O : Oracle) i job n w r w', projects s i job n → l_txs s !! i = None →
     l_locks s !! Normalized.EntityKey n = None → w_db w = l_db s → project n w = (r, w') →
     rtc (lstep norm cfg) s
       (mkLSys (mkSys (w_db w') (<[i := Task job (after_project r)]> (l_tasks s)))
          (l_txs s) (l_locks s))).
Proof.
  intros Hs. destruct (lsteps_refine _ _ _ _ l_initial_inv Hs) as [Hinv Hr]. split_ands.
  - exact Hr.
  - intros i j x y job n job' n' Hx Hy Hp Hp' Hk Hhx Hhy.
    assert (l_locks s !! Normalized.EntityKey n = Some i) as Hi by (by eapply locks_of).
    assert (l_locks s !! Normalized.EntityKey n' = Some j) as Hj by (by eapply locks_of).
    congruence.
  - intros i x job n current Hx Hp Hat. pose proof (tx_known _ _ _ _ _ Hinv Hx Hp) as Hok.
    unfold tx_ok in Hok. by rewrite Hat in Hok.
  - intros O i job n w r w' Hp Hx Hfree Hw Hrun.
    apply (project_lsteps norm cfg s i job n Hp Hx) with (w := w); try done.
    intros k. by apply idle_locks.
Qed.

(** C26. Invoice transactions do not deadlock: whatever the others are in the middle
    of, an open transaction ends within three of its own statements, after at most two
    of the worker that holds its key, if another does; all of these are statements that
    run (no abort, no lost session), and none waits for anyone else. They leave the
    transaction no lock, and they end it with success, unless its SELECT found no row
    and another first event of the key has come in between, whose row is there then. *)
Theorem no_deadlock {U : UnicodeTables} {P : Postgres} {C : Client} norm cfg s i x :
  rtc (lstep norm cfg) l_initial s → l_txs s !! i = Some x →
  ∃ job n s1 s' r, projects s i job n ∧
    (s1 = s ∨ ∃ j, j ≠ i ∧ l_locks s !! Normalized.EntityKey n = Some j ∧
                   bsteps (tx_step j) 2 s s1) ∧
    bsteps (tx_step i) 3 s1 s' ∧
    l_tasks s' !! i = Some (Task job (after_project r)) ∧
    l_txs s' !! i = None ∧ (∀ k, l_locks s' !! k ≠ Some i) ∧
    (r = Ok () ∨ tx_at x = Seen None ∧ is_Some (entities (l_db s') !! Normalized.EntityKey n)).
Proof.
  intros Hs Hx. destruct (lsteps_refine _ _ _ _ l_initial_inv Hs) as [Hinv Hr].
  destruct (own_tx _ _ (Hinv i) x Hx) as (job & n & Hp & _).
  destruct (open_ends norm cfg s i x job n Hinv (reachable_stored _ _ _ Hr) Hp Hx)
    as (s1 & r & db & Hrun1 & Hrun & Hres).
  exists job, n, s1, (ended i job r db s1), r. split_ands; try done; cbn.
  - apply lookup_insert_eq.
  - apply lookup_delete_eq.
  - by intros k [_ ?]%unlock_Some.
Qed.

(** ** Witnesses *)

Section witnesses.
Local Existing Instances latin1_tables latin1_laws sample_postgres.

#[local] Instance paid_client : Client := λ _ _,
  Ok (Result.mk (Response.mk "INVOICE" "inv-7" "PAID" "" None "" "" conf_0_95) "mock" "v1").

(** Two events of one invoice, each with a worker about to project it. *)
Definition first_events : list (nat * move) :=
  [(0%nat, Ingest "h1" "{}" ""); (1%nat, Ingest "h2" "[]" ""); (2%nat, Claims 0);
   (3%nat, Claims 1); (4%nat, Calls 0); (5%nat, Calls 1); (6%nat, Calls 0); (7%nat, Calls 1)].
Definition both : LSys := mkLSys (sample_play paid_client first_events initial) ∅ ∅.
Definition paid_fact : Normalized.t :=
  Normalized.mk ClassInvoice "INV-7" StatePaid None None "" "" conf_0_95.
Definition job_of (i : nat) : Job.t :=
  match l_tasks both !! i with Some (Task job _) => job | None => Job.mk "" "" 0 end.

Lemma both_project : projects both 0 (job_of 0) paid_fact ∧ projects both 1 (job_of 1) paid_fact.
Proof. split; (split; [vm_compute; reflexivity|reflexivity]). Qed.

Lemma both_reached : rtc (lstep floor_0_6 sample_cfg) l_initial both.
Proof. apply (quiet_steps floor_0_6 sample_cfg); [apply sample_reachable|vm_compute; reflexivity]. Qed.

(** Worker 0 runs the whole transaction. *)
Lemma locking_refines_witness :
  ∃ w, rtc (lstep floor_0_6 sample_cfg) both
         (mkLSys (mkSys (w_db w) (<[0%nat := Task (job_of 0) (AtFinish None)]> (l_tasks both))) ∅ ∅) ∧
    EntityRow.current_state <$> entities (w_db w) !! "INV-7" = Some StatePaid.
Proof.
  destruct (locking_refines floor_0_6 sample_cfg both both_reached) as (_ & _ & _ & Hruns).
  exists (snd (@project sample_postgres calm paid_fact (set_db (l_db both) boot))).
  split; [|vm_compute; reflexivity].
  apply (Hruns calm 0%nat (job_of 0) paid_fact (set_db (l_db both) boot) (Ok ())).
  - apply both_project.
  - reflexivity.
  - reflexivity.
  - reflexivity.
  - vm_compute. reflexivity.
Defined.

(** Both transactions have begun, and worker 0 has inserted the row. *)
Definition paid_db : DB :=
  match insert_of calm paid_fact 8%nat (l_db both) with Ok (_, db) => db | Err _ => l_db both end.
Definition paid_row : EntityRow.t :=
  default (new_shipment "" 0 None 0) (entities paid_db !! "INV-7").
Definition begun_0 : LSys := moved 0 (mkTx calm 8 Begun) ∅ both.
Definition seen_0 : LSys := moved 0 (mkTx calm 8 (Seen None)) ∅ begun_0.
Definition begun_1 : LSys := moved 1 (mkTx calm 9 Begun) ∅ seen_0.
Definition waiting_for_0 : LSys :=
  moved 0 (mkTx calm 8 (Written paid_row)) (<["INV-7" := 0%nat]> ∅) begun_1.

Lemma waiting_reached : rtc (lstep floor_0_6 sample_cfg) l_initial waiting_for_0.
Proof.
  destruct both_project as [H0 H1].
  assert (rtc (lstep floor_0_6 sample_cfg) l_initial begun_0) as S1
    by exact (rtc_r _ _ _ both_reached (l_begin _ _ both calm 8 0 _ _ H0 eq_refl)).
  assert (rtc (lstep floor_0_6 sample_cfg) l_initial seen_0) as S2.
  { apply (rtc_r _ _ _ S1).
    eapply l_statement, (l_select 0 begun_0 calm 8 (job_of 0) paid_fact None (l_db both));
      [exact H0|reflexivity|vm_compute; reflexivity|by left]. }
  assert (rtc (lstep floor_0_6 sample_cfg) l_initial begun_1) as S3
    by exact (rtc_r _ _ _ S2 (l_begin _ _ seen_0 calm 9 1 _ _ H1 eq_refl)).
  apply (rtc_r _ _ _ S3).
  eapply l_statement, (l_insert 0 begun_1 calm 8 (job_of 0) paid_fact paid_db paid_row).
  - exact H0.
  - reflexivity.
  - reflexivity.
  - vm_compute. reflexivity.
  - vm_compute. reflexivity.
Qed.

Lemma no_deadlock_witness :
  ∃ job s1 s', bsteps (tx_step 0) 2 waiting_for_0 s1 ∧ bsteps (tx_step 1) 3 s1 s' ∧
    l_tasks s' !! 1%nat = Some (Task job (AtFinish None)).
Proof.
  destruct (no_deadlock floor_0_6 sample_cfg waiting_for_0 1 (mkTx calm 9 Begun))
    as (job & n & s1 & s' & r & Hp & Hs1 & Hs & Ht & _ & _ & Hr).
  - exact waiting_reached.
  - reflexivity.
  - exists job, s1, s'. split_ands; [|exact Hs|destruct Hr as [->|[[=] _]]; exact Ht].
    destruct Hs1 as [->|(j & Hj & Hlk & Hs1)]; [apply bsteps_refl|].
    cbn in Hlk. apply lookup_insert_Some in Hlk as [[_ <-]|[_ Hlk]]; [exact Hs1|].
    by rewrite lookup_empty in Hlk.
Defined.
End witnesses.
