(* ===== verification/Claiming.v ===== *)
(** * Claims side by side (FOR UPDATE SKIP LOCKED in internal/store/raw.go)

    System.v takes the claim of a row as one step. Here it is taken apart: the
    snapshot of the statement, one row at a time that is locked or skipped, and the
    commit, each a step, with the steps of any number of other claims, workers,
    handlers and foreign transactions in between. What PostgreSQL does is modelled as
    its documentation has it at READ COMMITTED: the subquery sees the rows committed
    when the statement started and visits those that satisfy its condition in the
    order asked for; SKIP LOCKED passes over a row that another transaction has
    locked; a row that was changed since is locked only if its newest version still
    satisfies the condition, and it is the newest version that is updated; LIMIT 1
    stops at the first row that was locked; the lock is held until the statement
    commits, and an UPDATE of a locked row waits for it. [now()] is the start of the
    statement, which is a transaction of its own. *)

From S2P Require Import Prelude GoErrors Utf8 GoStrings Model Llm Normalize Database.
From S2P Require Import Instances StoreRaw RawFacts StoreFacts Queue Worker Processor System.
From S2P Require Import Trace.
From Stdlib Require Import Sorting.Sorted.
Local Open Scope Z_scope.

(** ** States *)

(** The rows of the snapshot that are still to be visited; the row that is locked. *)
Inductive claim_pc : Type :=
  | Scanning (rows : list (string * RawRow.t))
  | Holding (id : string).

Record claim : Type := mkClaim { c_env : Oracle; c_start : nat; c_at : claim_pc }.

(** Who has a row locked: the claim in a slot, or a transaction that is not modelled. *)
Inductive locker : Type := Claimer (i : nat) | Foreign.
#[export] Instance locker_eq_dec : EqDecision locker.
Proof. solve_decision. Defined.

(** The committed tables and the busy workers, the open claims, and the locked rows. *)
Record QSys : Type := mkQSys {
  q_sys : Sys;
  q_claims : gmap nat claim;
  q_locks : gmap string locker
}.

#[local] Abbreviation q_db s := (s_db (q_sys s)).
#[local] Abbreviation q_raw s := (raw_events (s_db (q_sys s))).
#[local] Abbreviation q_tasks s := (s_tasks (q_sys s)).

Definition c_now (x : claim) : Time := @clock (c_env x) (c_start x).

(** ORDER BY received_at: ties in any order. *)
Definition received_le (p q : string * RawRow.t) : Prop :=
  RawRow.received_at (snd p) ≤ RawRow.received_at (snd q).
Definition scan_of (now : Time) (db : DB) (l : list (string * RawRow.t)) : Prop :=
  l ≡ₚ candidates now ∅ db ∧ StronglySorted received_le l.

(** The newest version of row [id] satisfies the condition. *)
Definition still_claimable (now : Time) (id : string) (db : DB) : bool :=
  match raw_events db !! id with Some r => claimable now r | None => false end.

(** [SKIP LOCKED] stops at it. *)
Definition available (s : QSys) (now : Time) (p : string * RawRow.t) : bool :=
  bool_decide (q_locks s !! fst p = None) && still_claimable now (fst p) (q_db s).

Definition put_claim (i : nat) (x : claim) (s : QSys) : QSys :=
  mkQSys (q_sys s) (<[i := x]> (q_claims s)) (q_locks s).
Definition put_lock (id : string) (who : locker) (s : QSys) : QSys :=
  mkQSys (q_sys s) (q_claims s) (<[id := who]> (q_locks s)).
(** The claim of [i] has ended, and the tables and the workers are [sys]. *)
Definition end_claim (i : nat) (sys : Sys) (s : QSys) : QSys :=
  mkQSys sys (delete i (q_claims s)) (filter (λ p, snd p ≠ Claimer i) (q_locks s)).

Section claiming.
Context {U : UnicodeTables} {P : Postgres} {C : Client}.
Context (norm : Normalizer) (cfg : PgQueue.Config).

(** What the UPDATE writes, and the job it returns. *)
Definition leased (now : Time) (id : string) (r : RawRow.t) (db : DB) : DB :=
  set_raw (<[id := lease_row now (PgQueue.Lease cfg) r]> (raw_events db)) db.
Definition job_of (id : string) (r : RawRow.t) : RawEvent.t :=
  RawEvent.mk id (RawRow.raw_payload r) (RawRow.attempts r + 1).

(** ** Steps *)

(** [Some i]: a step of the claim in slot [i]. *)
Inductive qstep (s : QSys) : option nat → QSys → Prop :=
  (** Anything else, by a worker without an open claim; it leaves locked rows alone. *)
  | q_elsewhere s' :
      step norm cfg (q_sys s) s' →
      (∀ id, is_Some (q_locks s !! id) → raw_events (s_db s') !! id = q_raw s !! id) →
      (∀ i, is_Some (q_claims s !! i) → s_tasks s' !! i = q_tasks s !! i) →
      qstep s None (mkQSys s' (q_claims s) (q_locks s))
  | q_foreign_lock id :
      q_locks s !! id = None → qstep s None (put_lock id Foreign s)
  | q_foreign_unlock id :
      q_locks s !! id = Some Foreign →
      qstep s None (mkQSys (q_sys s) (q_claims s) (delete id (q_locks s)))
  | q_begin i O t l :
      q_tasks s !! i = None → q_claims s !! i = None → scan_of (@clock O t) (q_db s) l →
      qstep s (Some i) (put_claim i (mkClaim O t (Scanning l)) s)
  | q_skip i O t id r l :
      q_claims s !! i = Some (mkClaim O t (Scanning ((id, r) :: l))) →
      (is_Some (q_locks s !! id) ∨ still_claimable (@clock O t) id (q_db s) = false) →
      qstep s (Some i) (put_claim i (mkClaim O t (Scanning l)) s)
  | q_lock i O t id r l :
      q_claims s !! i = Some (mkClaim O t (Scanning ((id, r) :: l))) →
      q_locks s !! id = None → still_claimable (@clock O t) id (q_db s) = true →
      qstep s (Some i) (put_lock id (Claimer i) (put_claim i (mkClaim O t (Holding id)) s))
  (** No row is left, and none is returned. *)
  | q_empty i O t :
      q_claims s !! i = Some (mkClaim O t (Scanning [])) →
      qstep s (Some i) (end_claim i (q_sys s) s)
  (** The newest version is updated, and the row returned, unless the report is lost. *)
  | q_commit i O t id r (lost : bool) :
      q_claims s !! i = Some (mkClaim O t (Holding id)) →
      q_raw s !! id = Some r → RawRow.attempts r + 1 ≤ int4_max →
      qstep s (Some i)
        (end_claim i (mkSys (leased (@clock O t) id r (q_db s))
                        (if lost then q_tasks s else <[i := claimed (job_of id r)]> (q_tasks s))) s)
  (** The counter overflows, the connection breaks, the process dies. *)
  | q_abort i x :
      q_claims s !! i = Some x → qstep s (Some i) (end_claim i (q_sys s) s).

Definition q_initial : QSys := mkQSys initial ∅ ∅.
Definition qmoves (s s' : QSys) : Prop := ∃ who, qstep s who s'.

(** ** Invariant *)

(** A claim is of an idle worker, and holds the lock of the row it is about to lease,
    which is still to be had. *)
Record claim_ok (s : QSys) (i : nat) : Prop := {
  co_idle : is_Some (q_claims s !! i) → q_tasks s !! i = None;
  co_holds O t id : q_claims s !! i = Some (mkClaim O t (Holding id)) →
    q_locks s !! id = Some (Claimer i) ∧ still_claimable (@clock O t) id (q_db s) = true;
  co_lock id : q_locks s !! id = Some (Claimer i) →
    ∃ O t, q_claims s !! i = Some (mkClaim O t (Holding id))
}.

Definition qinv (s : QSys) : Prop := ∀ i, claim_ok s i.

Lemma q_initial_inv : qinv q_initial.
Proof.
  intros i. split; cbn; [intros [x Hx]|intros O t id Hx|intros id Hx];
    by rewrite lookup_empty in Hx.
Qed.

(** A claim that is left alone stays as it is. *)
Lemma claim_frame s s' j :
  claim_ok s j → q_claims s' !! j = q_claims s !! j →
  (is_Some (q_claims s !! j) → q_tasks s' !! j = q_tasks s !! j) →
  (∀ id, q_locks s' !! id = Some (Claimer j) ↔ q_locks s !! id = Some (Claimer j)) →
  (∀ id, q_locks s !! id = Some (Claimer j) → q_raw s' !! id = q_raw s !! id) →
  claim_ok s' j.
Proof.
  intros [Hi Hh Hl] Ec Et El Er. split; rewrite ?Ec.
  - intros Hx. rewrite Et; auto.
  - intros O t id Hx. destruct (Hh O t id Hx) as [Hlk Hcl]. split; [by apply El|].
    unfold still_claimable in *. by rewrite Er.
  - intros id Hid. rewrite El in Hid. destruct (Hl id Hid) as (O & t & Hx). by exists O, t.
Qed.

Lemma end_claim_inv s i sys :
  qinv s →
  (∀ j, j ≠ i → is_Some (q_claims s !! j) → s_tasks sys !! j = q_tasks s !! j) →
  (∀ j id, j ≠ i → q_locks s !! id = Some (Claimer j) → raw_events (s_db sys) !! id = q_raw s !! id) →
  qinv (end_claim i sys s).
Proof.
  intros Hinv Ht Hr j. destruct (decide (j = i)) as [->|Hj].
  - split; cbn.
    + intros [x Hx]. by rewrite lookup_delete_eq in Hx.
    + intros O t id Hx. by rewrite lookup_delete_eq in Hx.
    + intros id Hid. by apply map_lookup_filter_Some in Hid as [_ ?].
  - apply (claim_frame s); [apply Hinv|..]; cbn.
    + by rewrite lookup_delete_ne.
    + by apply Ht.
    + intros id. rewrite map_lookup_filter_Some. cbn. naive_solver.
    + intros id. by apply Hr.
Qed.

Lemma put_claim_inv s i x :
  qinv s → claim_ok (put_claim i x s) i → qinv (put_claim i x s).
Proof.
  intros Hinv Hi j. destruct (decide (j = i)) as [->|Hj]; [done|].
  apply (claim_frame s); [apply Hinv|..]; cbn; try done. by rewrite lookup_insert_ne.
Qed.

(** A scanning claim has nothing locked. *)
Lemma scanning_ok s i O t l :
  qinv s → q_tasks s !! i = None →
  (∀ O t id, q_claims s !! i ≠ Some (mkClaim O t (Holding id))) →
  claim_ok (put_claim i (mkClaim O t (Scanning l)) s) i.
Proof.
  intros Hinv Ht Hx. split; cbn; [done| |].
  - intros O' t' id Hc. rewrite lookup_insert_eq in Hc. by injection Hc.
  - intros id Hid. destruct (co_lock _ _ (Hinv i) id Hid) as (O' & t' & Hc). by destruct (Hx O' t' id).
Qed.

Lemma foreign_inv s lk :
  qinv s → (∀ id j, lk !! id = Some (Claimer j) ↔ q_locks s !! id = Some (Claimer j)) →
  qinv (mkQSys (q_sys s) (q_claims s) lk).
Proof. intros Hinv Hlk j. apply (claim_frame s); [apply Hinv|done..|]; cbn; auto. Qed.

Lemma qstep_inv s who s' : qinv s → qstep s who s' → qinv s'.
Proof.
  intros Hinv Hstep.
  destruct Hstep as [s' _ Hraw Htasks|id Hid|id Hid|i O t l Ht Hx Hl|i O t id r l Hx Hskip
    |i O t id r l Hx Hfree Hcl|i O t Hx|i O t id r lost Hx Hr Ha|i x Hx].
  - intros j. apply (claim_frame s); [apply Hinv|done|..]; cbn; try done.
    + apply Htasks.
    + intros id Hid. apply Hraw. by eexists.
  - apply foreign_inv; [done|]. intros id' j. rewrite lookup_insert_Some. naive_solver.
  - apply foreign_inv; [done|]. intros id' j. rewrite lookup_delete_Some. naive_solver.
  - apply put_claim_inv; [done|]. apply scanning_ok; [done..|]. by rewrite Hx.
  - apply put_claim_inv; [done|]. apply scanning_ok; [done| |].
    + apply (co_idle _ _ (Hinv i)). by eexists.
    + by rewrite Hx.
  - set (s1 := put_claim i _ s).
    assert (claim_ok (put_lock id (Claimer i) s1) i) as Hi.
    { split; cbn.
      - intros _. apply (co_idle _ _ (Hinv i)). by eexists.
      - intros O' t' id' Hc. rewrite lookup_insert_eq in Hc. injection Hc as <- <- <-.
        by rewrite lookup_insert_eq.
      - intros id' [[<- _]|[_ Hid]]%lookup_insert_Some.
        + exists O, t. apply lookup_insert_eq.
        + destruct (co_lock _ _ (Hinv i) id' Hid) as (O' & t' & Hc). congruence. }
    intros j. destruct (decide (j = i)) as [->|Hj]; [exact Hi|].
    apply (claim_frame s); [apply Hinv|..]; cbn; try done.
    + by rewrite lookup_insert_ne.
    + intros id'. rewrite lookup_insert_Some. naive_solver.
  - by apply end_claim_inv.
  - destruct (co_holds _ _ (Hinv i) O t id Hx) as [Hlk _]. apply end_claim_inv; [done|..]; cbn.
    + intros j Hj _. destruct lost; [done|]. by rewrite lookup_insert_ne.
    + intros j id' Hj Hid. rewrite lookup_insert_ne; [done|]. congruence.
  - by apply end_claim_inv.
Qed.

(** ** A claim as one statement *)

(** The environment in which the one statement takes exactly the row [id]: every
    other row is locked. *)
Definition only (O : Oracle) (t : nat) (id : string) (db : DB) : Oracle := {|
  fault := @fault O; clock _ := @clock O t; gen_random_uuid := @gen_random_uuid O;
  locked _ := dom (raw_events db) ∖ {[id]}; choose := @choose O; wakeup := @wakeup O;
  ctx_cancelled := @ctx_cancelled O; rand_Int64N := @rand_Int64N O |}.

Lemma candidates_only O t id r now db :
  raw_events db !! id = Some r → claimable now r = true →
  candidates now (@locked (only O t id db) t) db = [(id, r)].
Proof.
  intros Hr Hcl. apply Permutation_singleton_r, NoDup_Permutation.
  - apply NoDup_filter, NoDup_map_to_list.
  - apply NoDup_singleton.
  - intros [id' r']. rewrite candidates_spec, list_elem_of_singleton. cbn.
    rewrite not_elem_of_difference, elem_of_dom, elem_of_singleton. split.
    + intros (_ & [Hn|Hn] & Hr'); [by destruct Hn|]. congruence.
    + intros [= -> ->]. split_ands; [done|by right|done].
Qed.

Lemma claim_only O t id r db :
  raw_events db !! id = Some r → claimable (@clock O t) r = true →
  RawRow.attempts r + 1 ≤ int4_max →
  @sql_claim _ (only O t id db) (PgQueue.Lease cfg) t db
  = Ok (Some (job_of id r), leased (@clock O t) id r db).
Proof.
  intros Hr Hcl Ha. unfold sql_claim.
  change (@clock (only O t id db) t) with (@clock O t).
  rewrite (candidates_only O t id r) by done.
  assert (oldest [(id, r)] = [(id, r)]) as ->.
  { unfold oldest. rewrite filter_cons_True by (repeat constructor; cbn; lia). done. }
  unfold pick. cbn [length]. rewrite Nat.mod_1_r. cbn [lookup list_lookup].
  by destruct (Z.ltb_spec int4_max (RawRow.attempts r + 1)); [lia|].
Qed.

Lemma qstep_refines s who s' :
  qinv s → qstep s who s' → rtc (step norm cfg) (q_sys s) (q_sys s').
Proof.
  intros Hinv Hstep.
  destruct Hstep as [s' Hst _ _| | | | | | |i O t id r lost Hx Hr Ha|]; try done;
    [by apply rtc_once|].
  destruct (co_holds _ _ (Hinv i) O t id Hx) as [_ Hcl].
  unfold still_claimable in Hcl. rewrite Hr in Hcl.
  assert (q_tasks s !! i = None) as Hi by (apply (co_idle _ _ (Hinv i)); by eexists).
  pose proof (claim_only O t id r (q_db s) Hr Hcl Ha) as Hc. cbn [end_claim q_sys].
  apply rtc_once. destruct s as [[db tasks] cl lk]. cbn in *. destruct lost.
  - apply (taken_step norm cfg (Slot i)).
    apply (step_claim norm cfg (only O t id db) i db tasks (Err ErrNoRows)); [done|].
    by eapply ran_lost.
  - apply (taken_step norm cfg (Slot i)).
    apply (step_claim norm cfg (only O t id db) i db tasks (Ok (Some (job_of id r)))); [done|].
    by eapply ran_ok.
Qed.

Lemma qmoves_refine s s' :
  qinv s → rtc qmoves s s' → qinv s' ∧ rtc (step norm cfg) (q_sys s) (q_sys s').
Proof.
  intros Hinv Hs. induction Hs as [s|s s1 s' [who Hst] _ IH]; [done|].
  destruct IH as [Hinv' Hs']; [by eapply qstep_inv|]. split; [done|].
  etrans; [by eapply qstep_refines|done].
Qed.

(** ** A claim alone *)

(** Steps of the claim in slot [i] and nobody else, at most [n] of them. *)
Definition alone (i n : nat) : relation QSys := bsteps (λ s s', qstep s (Some i) s') n.

Lemma alone_l i n s s1 s' : qstep s (Some i) s1 → alone i n s1 s' → alone i (S n) s s'.
Proof. intros H1 H2. by eapply bsteps_l. Qed.

Lemma put_claim_put i x y s : put_claim i y (put_claim i x s) = put_claim i y s.
Proof. unfold put_claim. cbn. by rewrite insert_insert_eq. Qed.

Lemma available_put i x s now p : available (put_claim i x s) now p = available s now p.
Proof. done. Qed.

(** It skips up to the first row that is to be had. *)
Lemma scan_run i O t n l s s' :
  alone i n (put_claim i (mkClaim O t
    (Scanning (drop_while (λ p, negb (available s (@clock O t) p)) l))) s) s' →
  alone i (length l + n) (put_claim i (mkClaim O t (Scanning l)) s) s'.
Proof.
  induction l as [|[id r] l IH]; [done|]. intros Hs. cbn [drop_while] in Hs.
  destruct (available s (@clock O t) (id, r)) eqn:Hav; cbn [negb] in Hs.
  - eapply bsteps_weaken; [|exact Hs]. cbn. lia.
  - cbn [length plus]. eapply alone_l; [|exact (IH Hs)].
    rewrite <-(put_claim_put i (mkClaim O t (Scanning ((id, r) :: l))) (mkClaim O t (Scanning l)) s).
    apply (q_skip _ i O t id r l); [apply lookup_insert_eq|]. cbn [put_claim q_locks q_sys].
    unfold available in Hav. cbn [fst] in Hav. apply andb_false_iff in Hav as [Hl|Hc]; [left|by right].
    apply bool_decide_eq_false in Hl. by apply not_eq_None_Some.
Qed.

(** What becomes of a claim that scans [l]. *)
Definition outcome (i : nat) (now : Time) (l : list (string * RawRow.t)) (s : QSys) : Sys :=
  match drop_while (λ p, negb (available s now p)) l with
  | [] => q_sys s
  | (id, _) :: _ =>
    match q_raw s !! id with
    | Some r =>
      if int4_max <? RawRow.attempts r + 1 then q_sys s
      else mkSys (leased now id r (q_db s)) (<[i := claimed (job_of id r)]> (q_tasks s))
    | None => q_sys s
    end
  end.

Lemma end_put i x sys s : end_claim i sys (put_claim i x s) = end_claim i sys s.
Proof. unfold end_claim. cbn. by rewrite delete_insert_eq. Qed.

Lemma end_lock i id sys s :
  (∀ id, q_locks s !! id ≠ Some (Claimer i)) → q_locks s !! id = None →
  end_claim i sys (put_lock id (Claimer i) s) = end_claim i sys s.
Proof.
  intros Hn Hid. unfold end_claim. cbn. f_equal.
  rewrite map_filter_insert_False by naive_solver. by rewrite delete_id.
Qed.

Lemma scan_ends i O t l s :
  (∀ id, q_locks s !! id ≠ Some (Claimer i)) →
  alone i (length l + 2) (put_claim i (mkClaim O t (Scanning l)) s)
    (end_claim i (outcome i (@clock O t) l s) s).
Proof.
  intros Hn. apply scan_run. unfold outcome.
  pose proof (drop_while_head (λ p, negb (available s (@clock O t) p)) l) as Hhead.
  destruct (drop_while _ l) as [|[id r0] l'].
  - eapply alone_l; [|apply bsteps_refl]. rewrite <-(end_put i (mkClaim O t (Scanning []))).
    eapply (q_empty (put_claim i (mkClaim O t (Scanning [])) s)). apply lookup_insert_eq.
  - specialize (Hhead (id, r0) eq_refl). apply negb_false_iff, andb_true_iff in Hhead as [Hl Hc].
    apply bool_decide_eq_true in Hl. cbn [fst] in Hl, Hc.
    set (s1 := put_claim i (mkClaim O t (Scanning ((id, r0) :: l'))) s).
    set (s2 := put_lock id (Claimer i) (put_claim i (mkClaim O t (Holding id)) s1)).
    assert (∀ sys, end_claim i sys s2 = end_claim i sys s) as Hend.
    { intros sys. unfold s2. rewrite end_lock by done. unfold s1. by rewrite !end_put. }
    eapply alone_l; [by apply (q_lock s1 i O t id r0 l'); [apply lookup_insert_eq|..]|].
    fold s2. assert (q_claims s2 !! i = Some (mkClaim O t (Holding id))) as Hx by apply lookup_insert_eq.
    unfold still_claimable in Hc. destruct (q_raw s !! id) as [r|] eqn:Hr; [|done].
    eapply alone_l; [|apply bsteps_refl]. rewrite <-Hend.
    destruct (Z.ltb_spec int4_max (RawRow.attempts r + 1)) as [Ha|Ha].
    + by apply (q_abort s2 i (mkClaim O t (Holding id))).
    + by apply (q_commit s2 i O t id r false).
Qed.

(** The environment in which the one statement meets these locks. *)
Definition beside (O : Oracle) (k : nat) (s : QSys) : Oracle := {|
  fault := @fault O; clock := @clock O; gen_random_uuid := @gen_random_uuid O;
  locked _ := dom (q_locks s); choose _ := k; wakeup := @wakeup O;
  ctx_cancelled := @ctx_cancelled O; rand_Int64N := @rand_Int64N O |}.

Lemma drop_while_false {A} (f : A → bool) l x : x ∈ l → f x = false → x ∈ drop_while f l.
Proof.
  induction l as [|y l IH]; [by intros ?%elem_of_nil|]. intros [->|Hx]%elem_of_cons Hf; cbn.
  - rewrite Hf. by left.
  - destruct (f y); [by apply IH|by right].
Qed.

Lemma StronglySorted_suffix {A} (R : relation A) l1 l2 :
  StronglySorted R (l1 ++ l2) → StronglySorted R l2.
Proof. induction l1 as [|x l1 IH]; [done|]. cbn. by intros [? _]%StronglySorted_inv; apply IH. Qed.

(** The rows the one statement chooses from are those to be had. *)
Lemma candidates_available s now l p :
  scan_of now (q_db s) l →
  p ∈ candidates now (dom (q_locks s)) (q_db s) ↔ p ∈ l ∧ available s now p = true.
Proof.
  intros [Hl _]. destruct p as [id r]. rewrite Hl, !candidates_spec. unfold available, still_claimable.
  cbn [fst]. rewrite andb_true_iff, bool_decide_eq_true, not_elem_of_dom. split.
  - intros (Hc & Hf & Hr). rewrite Hr. split_ands; try done.
  - by intros ((Hc & _ & Hr) & Hf & _).
Qed.

Lemma outcome_claim O i t l s :
  scan_of (@clock O t) (q_db s) l → (∀ id r, q_raw s !! id = Some r → RawRow.attempts r < int4_max) →
  ∃ k res db', @sql_claim _ (beside O k s) (PgQueue.Lease cfg) t (q_db s) = Ok (res, db') ∧
    outcome i (@clock O t) l s
    = mkSys db' (match res with
                 | Some ev => <[i := claimed ev]> (q_tasks s)
                 | None => q_tasks s
                 end).
Proof.
  intros Hscan Hatt. pose proof (λ p, candidates_available s (@clock O t) l p Hscan) as Hcand.
  unfold outcome. pose proof (drop_while_head (λ p, negb (available s (@clock O t) p)) l) as Hhead.
  destruct (drop_while_suffix (λ p, negb (available s (@clock O t) p)) l) as [l0 Hl0].
  pose proof (drop_while_false (λ p, negb (available s (@clock O t) p)) l) as Hin.
  destruct (drop_while _ l) as [|[id r] l'].
  - exists 0%nat, None, (q_db s). split; [|by destruct (q_sys s)]. unfold sql_claim.
    change (@clock (beside O 0 s)) with (@clock O).
    change (@locked (beside O 0 s) t) with (dom (q_locks s)).
    destruct (candidates _ _ _) as [|p c] eqn:Hc; [done|]. exfalso.
    assert (p ∈ l ∧ available s (@clock O t) p = true) as [Hp Hav]
      by (apply Hcand; by left).
    apply (not_elem_of_nil p), Hin; [done|]. by rewrite Hav.
  - specialize (Hhead _ eq_refl). apply negb_false_iff in Hhead.
    assert ((id, r) ∈ candidates (@clock O t) (dom (q_locks s)) (q_db s)) as Hmem.
    { apply Hcand. split; [|done]. rewrite Hl0. apply elem_of_app. right. by left. }
    assert ((id, r) ∈ oldest (candidates (@clock O t) (dom (q_locks s)) (q_db s))) as Hold.
    { apply oldest_spec. split; [done|]. intros q [Hq Hav]%Hcand.
      assert (q ∈ (id, r) :: l') as [->|Hq']%elem_of_cons
        by (apply Hin; [done|by rewrite Hav]); [lia|].
      destruct Hscan as [_ Hsort]. rewrite Hl0 in Hsort.
      apply StronglySorted_suffix, StronglySorted_inv in Hsort as [_ Hall].
      rewrite Forall_forall in Hall. exact (Hall q Hq'). }
    apply list_elem_of_lookup in Hold as [k Hk]. apply candidates_spec in Hmem as (_ & _ & Hr).
    rewrite Hr. specialize (Hatt _ _ Hr).
    exists k, (Some (job_of id r)), (leased (@clock O t) id r (q_db s)).
    destruct (Z.ltb_spec int4_max (RawRow.attempts r + 1)) as [?|_]; [lia|]. split; [|done].
    unfold sql_claim. change (@clock (beside O k s)) with (@clock O).
    change (@locked (beside O k s) t) with (dom (q_locks s)).
    change (@choose (beside O k s) t) with k. unfold pick.
    rewrite Nat.mod_small by (by eapply lookup_lt_Some). rewrite Hk.
    by destruct (Z.ltb_spec int4_max (RawRow.attempts r + 1)); [lia|].
Qed.
End claiming.

(** ** Properties *)

(** C9. The one-step claim of System.v is what SKIP LOCKED makes of any number of
    claims whose snapshots, locks and commits interleave with each other and with
    everything else: the committed tables and the workers are those of a reachable
    state; no two claims hold the same row; the row a claim holds is one it may still
    lease when it commits, whatever was committed since its snapshot; and no claim
    ever waits: by its own steps, at most two more than there are rows left to visit,
    it ends with the first of them that is neither locked nor taken, or with none. *)
Theorem claims_refine {U : UnicodeTables} {P : Postgres} {C : Client} norm cfg s :
  rtc (qmoves norm cfg) q_initial s →
  reachable norm cfg (q_sys s) ∧
  (∀ i j O t O' t' id,
     q_claims s !! i = Some (mkClaim O t (Holding id)) →
     q_claims s !! j = Some (mkClaim O' t' (Holding id)) → i = j) ∧
  (∀ i O t id, q_claims s !! i = Some (mkClaim O t (Holding id)) →
     q_tasks s !! i = None ∧ still_claimable (@clock O t) id (q_db s) = true) ∧
  (∀ i O t l, q_claims s !! i = Some (mkClaim O t (Scanning l)) →
     alone norm cfg i (length l + 2) s (end_claim i (outcome cfg i (@clock O t) l s) s)).
Proof.
  intros Hs. destruct (qmoves_refine _ _ _ _ q_initial_inv Hs) as [Hinv Hr]. split_ands.
  - exact Hr.
  - intros i j O t O' t' id Hi Hj.
    destruct (co_holds _ _ (Hinv i) _ _ _ Hi) as [Hli _].
    destruct (co_holds _ _ (Hinv j) _ _ _ Hj) as [Hlj _]. congruence.
  - intros i O t id Hi. split; [apply (co_idle _ _ (Hinv i)); by eexists|].
    by apply (co_holds _ _ (Hinv i) _ _ _ Hi).
  - intros i O t l Hi.
    assert (put_claim i (mkClaim O t (Scanning l)) s = s) as Hput
      by (destruct s; unfold put_claim; cbn in *; by rewrite insert_id).
    rewrite <-Hput at 1. apply scan_ends. intros id Hid.
    destruct (co_lock _ _ (Hinv i) id Hid) as (O' & t' & Hx). congruence.
Qed.

(** C21. A claim that nobody disturbs is the one statement of StoreRaw.v: from any state
    with any rows locked by others, whatever the order in which equally old rows are
    visited, it ends after at most three steps more than there are claimable rows, with
    the tables and the job that [sql_claim] gives when those rows are locked, so with
    the oldest row that is not, and leaves every other claim and lock alone. *)
Theorem claim_alone_is_claim {U : UnicodeTables} {P : Postgres} {C : Client} norm cfg s
    (O : Oracle) t i l :
  rtc (qmoves norm cfg) q_initial s → q_tasks s !! i = None → q_claims s !! i = None →
  scan_of (clock t) (q_db s) l →
  (∀ id r, q_raw s !! id = Some r → RawRow.attempts r < int4_max) →
  ∃ k res db', @sql_claim _ (beside O k s) (PgQueue.Lease cfg) t (q_db s) = Ok (res, db') ∧
    alone norm cfg i (length l + 3) s
      (mkQSys (mkSys db' (match res with
                          | Some ev => <[i := claimed ev]> (q_tasks s)
                          | None => q_tasks s
                          end)) (q_claims s) (q_locks s)).
Proof.
  intros Hs Hi Hx Hscan Hatt. destruct (qmoves_refine _ _ _ _ q_initial_inv Hs) as [Hinv _].
  assert (∀ id, q_locks s !! id ≠ Some (Claimer i)) as Hn.
  { intros id Hid. destruct (co_lock _ _ (Hinv i) id Hid) as (O' & t' & Hx'). congruence. }
  destruct (outcome_claim cfg O i t l s Hscan Hatt) as (k & res & db' & Hc & Hout).
  exists k, res, db'. split; [exact Hc|]. rewrite <-Hout.
  assert (end_claim i (outcome cfg i (clock t) l s) s
    = mkQSys (outcome cfg i (clock t) l s) (q_claims s) (q_locks s)) as <-.
  { unfold end_claim. rewrite delete_id by done. f_equal. apply map_filter_id. intros id who Hid Hwho.
    cbn in Hwho. subst who. by destruct (Hn id). }
  replace (length l + 3)%nat with (S (length l + 2)) by lia.
  eapply alone_l; [by apply (q_begin norm cfg s i O t l)|]. by apply scan_ends.
Qed.

(** ** Witnesses *)

Section witnesses.
Local Existing Instances latin1_tables latin1_laws sample_postgres sample_client.

(** Two events wait; the claim of worker 0 has locked the older one while that of
    worker 1, which started before, has not looked yet. *)
Definition two_events : Sys :=
  sample_play sample_client
    [(0%nat, Ingest "h1" "{}" "acme"); (1%nat, Ingest "h2" "[]" "")] initial.
Definition first_row : RawRow.t := RawRow.mk "h1" "{}" (Some "acme") StatusPending 0 None None 0.
Definition second_row : RawRow.t := RawRow.mk "h2" "[]" None StatusPending 0 None None 60000000000.
Definition by_age : list (string * RawRow.t) := [("id-0", first_row); ("id-1", second_row)].

Definition nobody : QSys := mkQSys two_events ∅ ∅.
Definition racing : QSys :=
  put_lock "id-0" (Claimer 0) (put_claim 0 (mkClaim calm 2 (Holding "id-0"))
    (put_claim 0 (mkClaim calm 2 (Scanning by_age))
      (put_claim 1 (mkClaim calm 2 (Scanning by_age)) nobody))).

Lemma by_age_scan : scan_of (@clock calm 2%nat) (s_db two_events) by_age.
Proof.
  split.
  - symmetry. vm_compute. first [reflexivity|apply Permutation_swap].
  - repeat constructor; unfold received_le; cbn; lia.
Qed.

Lemma quiet_qmoves s :
  reachable floor_0_6 sample_cfg s → rtc (qmoves floor_0_6 sample_cfg) q_initial (mkQSys s ∅ ∅).
Proof.
  revert s. apply (rtc_ind_r (λ s, rtc (qmoves floor_0_6 sample_cfg) q_initial (mkQSys s ∅ ∅)));
    [done|]. intros s s' _ Hst IH. eapply rtc_r; [exact IH|].
  exists None. apply (q_elsewhere _ _ (mkQSys s ∅ ∅)); [exact Hst|..]; cbn;
    intros k [x Hx]; by rewrite lookup_empty in Hx.
Qed.

Lemma nobody_reached : rtc (qmoves floor_0_6 sample_cfg) q_initial nobody.
Proof. apply quiet_qmoves, sample_reachable. Qed.

Lemma racing_reached : rtc (qmoves floor_0_6 sample_cfg) q_initial racing.
Proof.
  etrans; [exact nobody_reached|].
  eapply rtc_l; [eexists; apply (q_begin _ _ nobody 1 calm 2 by_age);
                 [reflexivity|reflexivity|apply by_age_scan]|].
  eapply rtc_l; [eexists; apply (q_begin _ _ _ 0 calm 2 by_age);
                 [reflexivity|reflexivity|apply by_age_scan]|].
  apply rtc_once. eexists. eapply (q_lock _ _ _ 0 calm 2 "id-0" first_row [("id-1", second_row)]);
    [reflexivity|reflexivity|vm_compute; reflexivity].
Qed.

Lemma claims_refine_witness :
  ∃ s', alone floor_0_6 sample_cfg 1 4 racing s' ∧
    (Job.ID ∘ t_job <$> s_tasks (q_sys s') !! 1%nat) = Some "id-1".
Proof.
  destruct (claims_refine floor_0_6 sample_cfg racing racing_reached) as (_ & _ & _ & Halone).
  eexists. split; [exact (Halone 1%nat calm 2%nat by_age eq_refl)|]. vm_compute. reflexivity.
Defined.

Lemma claim_alone_is_claim_witness :
  ∃ s', alone floor_0_6 sample_cfg 7 5 nobody s' ∧ q_claims s' = ∅.
Proof.
  destruct (claim_alone_is_claim floor_0_6 sample_cfg nobody calm 2 7 by_age) as (k & res & db' & _ & Halone).
  - apply nobody_reached.
  - reflexivity.
  - reflexivity.
  - apply by_age_scan.
  - intros id r Hr.
    assert (forallb (λ p, RawRow.attempts (snd p) <? int4_max) (map_to_list (q_raw nobody)) = true)
      as Hall by (vm_compute; reflexivity).
    rewrite forallb_forall in Hall. apply elem_of_map_to_list, list_elem_of_In in Hr.
    specialize (Hall _ Hr). apply Z.ltb_lt. exact Hall.
  - eexists. split; [exact Halone|reflexivity].
Defined.
End witnesses.
