(* ===== verification/Migrate.v ===== *)
(** * Schema migrations (internal/store/store.go)

    [Migrate] applies the embedded SQL files that schema_migrations does not
    record, in lexical order, each in a transaction of its own with its record.
    What a file's SQL does to the schema is PostgreSQL's: the parameter
    [exec_sql]. This file is one run over a database that only it migrates;
    Migrators.v interleaves any number of runs under the advisory lock. *)

From S2P Require Import Prelude GoErrors GoStrings Database.
From Stdlib Require Import Ascii Sorting.Sorted.

Section migrate.
Context {Schema : Type}.
Context (exec_sql : string → Schema → result error Schema).
Context (m_fault : nat → Fault).

(** ** The database *)

(** The table schema_migrations, when it exists, and everything else. *)
Record MigDB : Type := mkMigDB { versions : option (gset string); schema : Schema }.

Record MigWorld : Type := mkMigWorld {
  m_db : MigDB;
  m_tx : option MigDB;
  m_ticks : nat
}.

Abbreviation Mig := (eff MigWorld error).

Definition m_tick (w : MigWorld) : MigWorld := mkMigWorld (m_db w) (m_tx w) (S (m_ticks w)).
Definition m_set_tx (tx : option MigDB) (w : MigWorld) : MigWorld :=
  mkMigWorld (m_db w) tx (m_ticks w).
Definition m_set_db (db : MigDB) (w : MigWorld) : MigWorld :=
  mkMigWorld db (m_tx w) (m_ticks w).

(** [conn.Exec], [conn.QueryRow], outside a transaction. *)
Definition conn_stmt {A} (f : MigDB → result error (A * MigDB)) : Mig A := λ w,
  match m_fault (m_ticks w), f (m_db w) with
  | FailBefore e, _ => (Err e, m_tick w)
  | NoFault, Ok (a, db') => (Ok a, m_set_db db' (m_tick w))
  | FailAfter e, Ok (_, db') => (Err e, m_set_db db' (m_tick w))
  | NoFault, Err e | FailAfter _, Err e => (Err e, m_tick w)
  end.

Definition conn_begin : Mig unit := λ w,
  match m_fault (m_ticks w) with
  | NoFault => (Ok (), m_set_tx (Some (m_db w)) (m_tick w))
  | FailBefore e | FailAfter e => (Err e, m_tick w)
  end.

Definition no_tx : error := errorString "no transaction".

Definition conn_tx_stmt (f : MigDB → result error MigDB) : Mig unit := λ w,
  match m_tx w, m_fault (m_ticks w) with
  | None, _ => (Err no_tx, m_tick w)
  | Some _, (FailBefore e | FailAfter e) => (Err e, m_tick w)
  | Some db, NoFault =>
    match f db with
    | Ok db' => (Ok (), m_set_tx (Some db') (m_tick w))
    | Err e => (Err e, m_tick w)
    end
  end.

Definition conn_rollback : Mig unit := λ w, (Ok (), m_set_tx None (m_tick w)).

Definition conn_commit : Mig unit := λ w,
  match m_tx w, m_fault (m_ticks w) with
  | None, _ => (Err no_tx, m_tick w)
  | Some db, NoFault => (Ok (), m_set_tx None (m_set_db db (m_tick w)))
  | Some db, FailAfter e => (Err e, m_set_tx None (m_set_db db (m_tick w)))
  | Some _, FailBefore e => (Err e, m_set_tx None (m_tick w))
  end.

(** ** Statements *)

(** CREATE TABLE IF NOT EXISTS schema_migrations *)
Definition sql_ensure (db : MigDB) : result error (unit * MigDB) :=
  Ok ((), mkMigDB (Some (default ∅ (versions db))) (schema db)).

Definition missing_table : error := errorString "relation schema_migrations does not exist".
Definition duplicate_version : error := errorString "duplicate key value".

(** SELECT EXISTS(SELECT 1 FROM schema_migrations WHERE version=$1) *)
Definition sql_applied (f : string) (db : MigDB) : result error (bool * MigDB) :=
  match versions db with
  | None => Err missing_table
  | Some vs => Ok (bool_decide (f ∈ vs), db)
  end.

(** INSERT INTO schema_migrations (version) VALUES ($1) *)
Definition sql_record (f : string) (db : MigDB) : result error MigDB :=
  match versions db with
  | None => Err missing_table
  | Some vs =>
    if decide (f ∈ vs) then Err duplicate_version
    else Ok (mkMigDB (Some ({[f]} ∪ vs)) (schema db))
  end.

(** A file's SQL leaves schema_migrations alone. *)
Definition sql_run (sql : string) (db : MigDB) : result error MigDB :=
  s ← exec_sql sql (schema db); Ok (mkMigDB (versions db) s).

(** ** [Migrate] *)

(** [sort.Strings] *)
Definition sort_files : list (string * string) → list (string * string) := sort_named.

(** The body of the loop over the files. *)
Definition migrate_file (f : string * string) : Mig unit :=
  applied ← conn_stmt (sql_applied (fst f));
  if (applied : bool) then mret () else
  conn_begin;;
  r ← attempt (conn_tx_stmt (sql_run (snd f)));
  match r with
  | Err err => conn_rollback;; throw (Errorf_w ("apply " +:+ fst f) err)
  | Ok _ =>
    r ← attempt (conn_tx_stmt (sql_record (fst f)));
    match r with
    | Err err => conn_rollback;; throw err
    | Ok _ => conn_commit
    end
  end.

Fixpoint migrate_files (l : list (string * string)) : Mig unit :=
  match l with
  | [] => mret ()
  | f :: l' => migrate_file f;; migrate_files l'
  end.

(** Acquiring the connection and the lock is one statement each that changes
    nothing; releasing them is no error. *)
Definition idle_stmt (db : MigDB) : result error (unit * MigDB) := Ok ((), db).

Definition Migrate (files : list (string * string)) : Mig unit :=
  r ← attempt (conn_stmt idle_stmt);
  match r with
  | Err err => throw (Errorf_w "acquire conn" err)
  | Ok _ =>
    r ← attempt (conn_stmt idle_stmt);
    match r with
    | Err err => throw (Errorf_w "acquire migration lock" err)
    | Ok _ =>
      r ← attempt (conn_stmt sql_ensure);
      match r with
      | Err err => throw (Errorf_w "ensure migrations table" err)
      | Ok _ => migrate_files (sort_files files)
      end
    end
  end.

(** ** Specification *)

Definition recorded (db : MigDB) : gset string := default ∅ (versions db).

(** The files that are still to be applied, in order. *)
Definition pending (l : list (string * string)) (db : MigDB) : list (string * string) :=
  filter (λ f, fst f ∉ recorded db) l.

(** Running the SQL of the files, one after the other. *)
Fixpoint run_all (l : list (string * string)) (s : Schema) : result error Schema :=
  match l with
  | [] => Ok s
  | f :: l' => s' ← exec_sql (snd f) s; run_all l' s'
  end.

(** Exactly the files [l] were applied, in order, and recorded. *)
Definition applies (l : list (string * string)) (db db' : MigDB) : Prop :=
  run_all l (schema db) = Ok (schema db') ∧
  recorded db' = recorded db ∪ list_to_set (fst <$> l).

(** A prefix of the pending files was applied, all of them if [r] is a success. *)
Definition progress (files : list (string * string)) (db db' : MigDB) (r : result error unit)
    : Prop :=
  ∃ l, l `prefix_of` pending (sort_files files) db ∧ applies l db db' ∧
       (r = Ok () → l = pending (sort_files files) db).
End migrate.

Section migrate_facts.
Context {Schema : Type}.
Context (exec_sql : string → Schema → result error Schema).
Context (m_fault : nat → Fault).

Lemma conn_stmt_cases {A} (f : MigDB → result error (A * MigDB)) w r w' :
  conn_stmt (Schema := Schema) m_fault f w = (r, w') →
  match r with
  | Ok a => f (m_db w) = Ok (a, m_db w')
  | Err _ => m_db w' = m_db w ∨ ∃ a, f (m_db w) = Ok (a, m_db w')
  end.
Proof.
  unfold conn_stmt. destruct (m_fault _), (f (m_db w)) as [[a db']|e'] eqn:Hf;
    intros [= <- <-]; cbn; eauto.
Qed.

Lemma sql_applied_same f (db : MigDB (Schema := Schema)) a db' :
  sql_applied f db = Ok (a, db') → db' = db ∧ (a = true ↔ f ∈ recorded db).
Proof.
  unfold sql_applied, recorded. destruct (versions db); [|done]. intros [= <- <-].
  split; [done|]. by rewrite bool_decide_eq_true.
Qed.

Lemma applies_nil (db : MigDB (Schema := Schema)) : applies exec_sql [] db db.
Proof. split; [done|]. cbn. set_solver. Qed.

Lemma applies_cons f l (db db1 db2 : MigDB (Schema := Schema)) :
  applies exec_sql [f] db db1 → applies exec_sql l db1 db2 → applies exec_sql (f :: l) db db2.
Proof.
  intros [H1 R1] [H2 R2]. unfold applies in *. cbn in *. split.
  - destruct (exec_sql _ _) as [s|]; [|done]. cbn in *. injection H1 as ->. done.
  - rewrite R2, R1. set_solver.
Qed.

(** One file: nothing happened, or the file was applied and recorded. *)
Lemma migrate_file_cases f w r w' :
  migrate_file exec_sql m_fault f w = (r, w') →
  (m_db w' = m_db w ∧ (r = Ok () → fst f ∈ recorded (m_db w))) ∨
  ((fst f ∉ recorded (m_db w)) ∧ applies exec_sql [f] (m_db w) (m_db w')).
Proof.
  unfold migrate_file. rewrite bind_run.
  destruct (conn_stmt m_fault _ w) as [[applied|e] w1] eqn:Ha; apply conn_stmt_cases in Ha.
  2:{ intros [= <- <-]. left. split; [|done]. destruct Ha as [Ha|[a Ha]]; [done|].
      by apply sql_applied_same in Ha as [? _]. }
  apply sql_applied_same in Ha as [Hdb Hap]. destruct applied.
  { intros [= <- <-]. left. split; [done|]. intros _. by apply Hap. }
  assert (fst f ∉ recorded (m_db w)) as Hn by (intros H; by apply Hap in H).
  rewrite bind_run. unfold conn_begin. destruct (m_fault (m_ticks w1));
    [|intros [= <- <-]; by left..].
  rewrite attempt_bind. unfold conn_tx_stmt at 1. cbn [m_tx m_set_tx m_tick].
  destruct (m_fault _) as [|e|e];
    [|destruct (is_panic e); intros [= <- <-]; by left..].
  cbn [m_db]. unfold sql_run. rewrite Hdb.
  destruct (exec_sql (snd f) (schema (m_db w))) as [s|e] eqn:Hx; cbn [mbind result_bind];
    [|destruct (is_panic e); intros [= <- <-]; by left].
  rewrite attempt_bind. unfold conn_tx_stmt. cbn [m_tx m_set_tx m_tick].
  destruct (m_fault _) as [|e|e];
    [|destruct (is_panic e); intros [= <- <-]; by left..].
  unfold sql_record. cbn [versions]. destruct (versions (m_db w)) as [vs|] eqn:Hv;
    [|cbn; intros [= <- <-]; by left].
  destruct (decide (fst f ∈ vs)) as [Hin|_]; [cbn; intros [= <- <-]; by left|].
  unfold conn_commit. cbn [m_tx m_set_tx m_tick m_ticks].
  assert (applies exec_sql [f] (m_db w) (mkMigDB (Some ({[fst f]} ∪ vs)) s)) as Happ.
  { split; cbn; [by rewrite Hx|]. unfold recorded. rewrite Hv. cbn. set_solver. }
  destruct (m_fault _) as [|e|e]; intros [= <- <-]; [by right|by left|by right].
Qed.

Lemma pending_step (f : string * string) (l : list (string * string)) (db db' : MigDB (Schema := Schema)) :
  (fst f ∉ (fst <$> l)) → recorded db' = recorded db ∪ {[fst f]} → pending l db' = pending l db.
Proof.
  intros Hf Hr. unfold pending. rewrite Hr. clear Hr.
  induction l as [|g l IH]; [done|]. rewrite !filter_cons.
  rewrite fmap_cons, not_elem_of_cons in Hf. destruct Hf as [Hne Hf]. rewrite IH by done.
  destruct (decide (fst g ∉ recorded db)); repeat case_decide; set_solver.
Qed.

Lemma migrate_files_cases (l : list (string * string)) w r w' :
  NoDup (fst <$> l) → migrate_files exec_sql m_fault l w = (r, w') →
  ∃ l1, l1 `prefix_of` pending l (m_db w) ∧ applies exec_sql l1 (m_db w) (m_db w') ∧
        (r = Ok () → l1 = pending l (m_db w)).
Proof.
  revert w. induction l as [|f l IH]; intros w Hnd Hrun.
  { injection Hrun as <- <-. exists []. split_ands; try done. apply applies_nil. }
  rewrite fmap_cons, NoDup_cons in Hnd. destruct Hnd as [Hf Hnd].
  cbn [migrate_files] in Hrun. rewrite bind_run in Hrun.
  destruct (migrate_file exec_sql m_fault f w) as [rf w1] eqn:Hfile.
  destruct (migrate_file_cases _ _ _ _ Hfile) as [[Hdb Hok]|[Hn Happ]].
  - destruct rf as [[]|e].
    + unfold pending. rewrite filter_cons_False by (intros H; by apply H, Hok).
      rewrite <-Hdb. by apply IH.
    + injection Hrun as <- <-. exists []. split_ands; try done; [apply prefix_nil|].
      rewrite Hdb. apply applies_nil.
  - assert (pending (f :: l) (m_db w) = f :: pending l (m_db w)) as Hp
      by (unfold pending; by rewrite filter_cons_True).
    assert (recorded (m_db w1) = recorded (m_db w) ∪ {[fst f]}) as Hr
      by (destruct Happ as [_ ->]; cbn; set_solver).
    rewrite Hp. destruct rf as [[]|e].
    + destruct (IH w1 Hnd Hrun) as (l1 & Hpre & Happ1 & Hfull).
      rewrite (pending_step f l _ _ Hf Hr) in Hpre, Hfull.
      exists (f :: l1). split; [by apply prefix_cons|].
      split; [by eapply applies_cons|]. intros Hr'. by rewrite Hfull.
    + injection Hrun as <- <-. exists [f]. split; [apply prefix_cons, prefix_nil|by split].
Qed.

Lemma sort_files_perm l : sort_files l ≡ₚ l.
Proof. apply sort_named_perm. Qed.

Lemma sort_files_sorted l : Sorted name_le (sort_files l).
Proof. apply sort_named_sorted. Qed.

Lemma sort_files_nodup files : NoDup (fst <$> files) → NoDup (fst <$> sort_files files).
Proof. by rewrite sort_files_perm. Qed.

Lemma recorded_same (db db' : MigDB (Schema := Schema)) :
  schema db' = schema db → recorded db' = recorded db → applies exec_sql [] db db'.
Proof. intros Hs Hr. split; [by rewrite <-Hs|]. rewrite Hr. cbn. set_solver. Qed.

Lemma applies_ext l (db db1 db' : MigDB (Schema := Schema)) :
  schema db1 = schema db → recorded db1 = recorded db →
  applies exec_sql l db1 db' → applies exec_sql l db db'.
Proof. intros Hs Hr [H1 H2]. by rewrite Hs, Hr in *. Qed.

(** What a statement that keeps schema and records leaves. *)
Lemma conn_stmt_keeps {A} (f : MigDB → result error (A * MigDB)) w r w' :
  (∀ db a db', f db = Ok (a, db') → schema db' = schema db ∧ recorded db' = recorded db) →
  conn_stmt (Schema := Schema) m_fault f w = (r, w') →
  schema (m_db w') = schema (m_db w) ∧ recorded (m_db w') = recorded (m_db w).
Proof.
  intros Hf Hc. apply conn_stmt_cases in Hc. destruct r as [a|e]; [by apply (Hf _ a)|].
  destruct Hc as [->|[a Ha]]; [done|by apply (Hf _ a)].
Qed.

Lemma Migrate_cases files w r w' :
  NoDup (fst <$> files) → Migrate exec_sql m_fault files w = (r, w') →
  progress exec_sql files (m_db w) (m_db w') r.
Proof.
  intros Hnd Hrun. unfold Migrate in Hrun.
  assert (∀ w1 : MigWorld, schema (m_db w1) = schema (m_db w) →
    recorded (m_db w1) = recorded (m_db w) →
    ∀ e, progress exec_sql files (m_db w) (m_db w1) (Err e)) as Hstop.
  { intros w1 Hs Hr e. exists []. split_ands; [apply prefix_nil|by apply recorded_same|done]. }
  rewrite attempt_bind in Hrun.
  destruct (conn_stmt m_fault idle_stmt w) as [r1 w1] eqn:H1.
  apply conn_stmt_keeps in H1 as [S1 R1]; [|by intros ??? [= _ <-]].
  destruct r1 as [[]|e1]; [|destruct (is_panic e1); injection Hrun as <- <-; by apply Hstop].
  rewrite attempt_bind in Hrun.
  destruct (conn_stmt m_fault idle_stmt w1) as [r2 w2] eqn:H2.
  apply conn_stmt_keeps in H2 as [S2 R2]; [|by intros ??? [= _ <-]].
  rewrite S1, R1 in *.
  destruct r2 as [[]|e2]; [|destruct (is_panic e2); injection Hrun as <- <-; by apply Hstop].
  rewrite attempt_bind in Hrun.
  destruct (conn_stmt m_fault sql_ensure w2) as [r3 w3] eqn:H3.
  apply conn_stmt_keeps in H3 as [S3 R3]; [|by intros ??? [= _ <-]].
  rewrite S2, R2 in *.
  destruct r3 as [[]|e3]; [|destruct (is_panic e3); injection Hrun as <- <-; by apply Hstop].
  destruct (migrate_files_cases _ _ _ _ (sort_files_nodup _ Hnd) Hrun) as (l & Hpre & Happ & Hok).
  assert (pending (sort_files files) (m_db w3) = pending (sort_files files) (m_db w)) as Hp
    by (unfold pending; by rewrite R3).
  rewrite Hp in *. exists l. split_ands; [done| |done]. by eapply applies_ext.
Qed.
End migrate_facts.

(** ** Property *)

(** Migrations are applied in order, once each and all or nothing, under every
    pattern of failures: a run of [Migrate] executes the SQL of a prefix of the
    files not yet recorded, in lexical order, and records exactly these; if it
    reports success it is all of them; and whatever happens in a later run, on the
    database a successful one left, changes nothing. *)
Theorem Migrate_exactly_once {Schema} (exec_sql : string → Schema → result error Schema)
    fault1 fault2 files w r w' r2 w2 :
  NoDup (fst <$> files) → Migrate exec_sql fault1 files w = (r, w') →
  Migrate exec_sql fault2 files w' = (r2, w2) →
  Sorted name_le (sort_files files) ∧ sort_files files ≡ₚ files ∧
  progress exec_sql files (m_db w) (m_db w') r ∧
  (r = Ok () → schema (m_db w2) = schema (m_db w') ∧
               recorded (m_db w2) = recorded (m_db w')).
Proof.
  intros Hnd H1 H2. split; [apply sort_files_sorted|]. split; [apply sort_files_perm|].
  pose proof (Migrate_cases _ _ _ _ _ _ Hnd H1) as Hprog. split; [done|]. intros Hok.
  destruct Hprog as (l & _ & Happ & Hall). rewrite (Hall Hok) in Happ.
  destruct (Migrate_cases _ _ _ _ _ _ Hnd H2) as (l2 & Hpre2 & [Hrun Hrec] & _).
  assert (pending (sort_files files) (m_db w') = []) as Hnone.
  { destruct Happ as [_ Hr]. apply elem_of_nil_inv. intros f [Hnot Hf]%list_elem_of_filter.
    apply Hnot. rewrite Hr. destruct (decide (fst f ∈ recorded (m_db w))); [set_solver|].
    apply elem_of_union. right. apply elem_of_list_to_set, list_elem_of_fmap. exists f.
    split; [done|]. by apply list_elem_of_filter. }
  rewrite Hnone in Hpre2. apply prefix_nil_inv in Hpre2 as ->. cbn in Hrun.
  injection Hrun as Hrun. split; [done|]. rewrite Hrec. cbn. set_solver.
Qed.

Section example.
(** A schema is the list of scripts that were run; the second commit fails after its
    effect. *)
Definition run_script (sql : string) (s : list string) : result error (list string) :=
  Ok (s ++ [sql]).
Definition two_files : list (string * string) := [("0002_b.sql", "B"); ("0001_a.sql", "A")].
Definition flaky (t : nat) : Fault :=
  if decide (t = 12)%nat then FailAfter (errorString "reset by peer") else NoFault.
Definition fresh_db : MigWorld := mkMigWorld (mkMigDB None ([] : list string)) None 0.
Definition no_fault (t : nat) : Fault := NoFault.
Definition run1 := Migrate run_script flaky two_files fresh_db.
Definition run2 := Migrate run_script no_fault two_files (snd run1).
Definition run3 := Migrate run_script flaky two_files (snd run2).

Example flaky_run :
  is_ok (fst run1) = false ∧ schema (m_db (snd run1)) = ["A"; "B"] ∧ is_ok (fst run2) = true.
Proof. by vm_compute. Qed.

Lemma Migrate_exactly_once_witness :
  fst run2 = Ok () ∧ schema (m_db (snd run3)) = schema (m_db (snd run2)).
Proof.
  assert (fst run2 = Ok ()) as Hok by (vm_compute; reflexivity). split; [exact Hok|].
  destruct (Migrate_exactly_once run_script no_fault flaky two_files (snd run1)
              (fst run2) (snd run2) (fst run3) (snd run3)) as (_ & _ & _ & H).
  - repeat (constructor; [set_solver|]). constructor.
  - apply surjective_pairing.
  - apply surjective_pairing.
  - apply (H Hok).
Defined.
End example.
