(* ===== verification/Migrators.v ===== *)
(** * Migrators that start together (the advisory lock of internal/store/store.go)

    A server and any number of workers boot at once and each runs [Migrate]. Here
    the runs interleave statement by statement, each statement may fail as in
    Migrate.v, any of the processes may die at any point, and what keeps them apart
    is the advisory lock: PostgreSQL grants it to one session at a time and takes it
    back when the session ends. A transaction commits its own view of the database,
    so the lock is what excludes lost updates. [Migrate_steps] ties the steps to the
    function [Migrate] of Migrate.v. *)

From S2P Require Import Prelude GoErrors GoStrings Database Migrate.
From Stdlib Require Import Sorting.Sorted.

Section migrators.
Context {Schema : Type}.
Context (exec_sql : string → Schema → result error Schema).
Context (files : list (string * string)).
Abbreviation DB := (MigDB (Schema := Schema)).
Abbreviation file := (string * string)%type.

(** ** Steps *)

(** What a migrator does next; a transaction is its view of the database. *)
Inductive mpc : Type :=
  | Acquire                                       (** [s.Pool.Acquire] *)
  | Lock                                          (** [pg_advisory_lock] *)
  | Ensure                                        (** CREATE TABLE IF NOT EXISTS *)
  | Next (l : list file)                          (** the head of the loop *)
  | BeginTx (f : file) (l : list file)
  | RunSql (f : file) (l : list file) (tx : DB)
  | RecordVersion (f : file) (l : list file) (tx : DB)
  | Commit (f : file) (l : list file) (tx : DB)
  | Unlock (r : result error unit)                (** the deferred [pg_advisory_unlock] *)
  | Done (r : result error unit).

Record MSys : Type := mkMSys {
  ms_db : DB;
  ms_lock : option nat;      (** the migrator whose session holds the lock *)
  ms_procs : gmap nat mpc
}.

(** A statement outside a transaction, as [conn_stmt] runs it. *)
Inductive conn_ran {A} (f : DB → result error (A * DB)) (db : DB) : result error A → DB → Prop :=
  | conn_ok a db' : f db = Ok (a, db') → conn_ran f db (Ok a) db'
  | conn_err e : conn_ran f db (Err e) db
  | conn_lost a db' e : f db = Ok (a, db') → conn_ran f db (Err e) db'.

Definition after_acquire (r : result error unit) : mpc :=
  match r with Ok _ => Lock | Err e => Done (Err (Errorf_w "acquire conn" e)) end.
Definition after_ensure (r : result error unit) : mpc :=
  match r with
  | Ok _ => Next (sort_files files)
  | Err e => Unlock (Err (Errorf_w "ensure migrations table" e))
  end.
Definition after_applied (f : file) (l : list file) (r : result error bool) : mpc :=
  match r with
  | Ok true => Next l
  | Ok false => BeginTx f l
  | Err e => Unlock (Err e)
  end.
Definition after_begin (f : file) (l : list file) (r : result error DB) : mpc :=
  match r with Ok tx => RunSql f l tx | Err e => Unlock (Err e) end.
Definition after_run (f : file) (l : list file) (r : result error DB) : mpc :=
  match r with
  | Ok tx => RecordVersion f l tx
  | Err e => Unlock (Err (Errorf_w ("apply " +:+ fst f) e))
  end.
Definition after_record (f : file) (l : list file) (r : result error DB) : mpc :=
  match r with Ok tx => Commit f l tx | Err e => Unlock (Err e) end.
Definition after_commit (l : list file) (r : result error unit) : mpc :=
  match r with Ok _ => Next l | Err e => Unlock (Err e) end.

(** The session of [i] gives the lock back, if it holds it. *)
Definition release (i : nat) (lk : option nat) : option nat :=
  if decide (lk = Some i) then None else lk.

Inductive mstep : MSys → MSys → Prop :=
  | m_start i db lk ps :
      ps !! i = None → mstep (mkMSys db lk ps) (mkMSys db lk (<[i := Acquire]> ps))
  | m_acquire i r db lk ps :
      ps !! i = Some Acquire →
      mstep (mkMSys db lk ps) (mkMSys db lk (<[i := after_acquire r]> ps))
  | m_lock i db ps :
      ps !! i = Some Lock →
      mstep (mkMSys db None ps) (mkMSys db (Some i) (<[i := Ensure]> ps))
  | m_lock_fails i e db lk ps :
      ps !! i = Some Lock →
      mstep (mkMSys db lk ps)
            (mkMSys db lk (<[i := Done (Err (Errorf_w "acquire migration lock" e))]> ps))
  | m_ensure i r db db' lk ps :
      ps !! i = Some Ensure → conn_ran sql_ensure db r db' →
      mstep (mkMSys db lk ps) (mkMSys db' lk (<[i := after_ensure r]> ps))
  | m_applied i f l r db db' lk ps :
      ps !! i = Some (Next (f :: l)) → conn_ran (sql_applied (fst f)) db r db' →
      mstep (mkMSys db lk ps) (mkMSys db' lk (<[i := after_applied f l r]> ps))
  | m_finish i db lk ps :
      ps !! i = Some (Next []) →
      mstep (mkMSys db lk ps) (mkMSys db lk (<[i := Unlock (Ok ())]> ps))
  | m_begin i f l r db lk ps :
      ps !! i = Some (BeginTx f l) → (∀ tx, r = Ok tx → tx = db) →
      mstep (mkMSys db lk ps) (mkMSys db lk (<[i := after_begin f l r]> ps))
  | m_run i f l tx r db lk ps :
      ps !! i = Some (RunSql f l tx) → (is_ok r = true → r = sql_run exec_sql (snd f) tx) →
      mstep (mkMSys db lk ps) (mkMSys db lk (<[i := after_run f l r]> ps))
  | m_record i f l tx r db lk ps :
      ps !! i = Some (RecordVersion f l tx) → (is_ok r = true → r = sql_record (fst f) tx) →
      mstep (mkMSys db lk ps) (mkMSys db lk (<[i := after_record f l r]> ps))
  | m_commit i f l tx r db db' lk ps :
      ps !! i = Some (Commit f l tx) → conn_ran (λ _, Ok ((), tx)) db r db' →
      mstep (mkMSys db lk ps) (mkMSys db' lk (<[i := after_commit l r]> ps))
  | m_unlock i r db lk ps :
      ps !! i = Some (Unlock r) →
      mstep (mkMSys db lk ps) (mkMSys db (release i lk) (<[i := Done r]> ps))
  | m_crash i db lk ps :
      mstep (mkMSys db lk ps) (mkMSys db (release i lk) (delete i ps)).

(** ** What a run leaves *)

(** The files between [db] and [db'], each applied once and in order. *)
Definition advances (db db' : DB) : Prop :=
  ∃ l, pending (sort_files files) db = l ++ pending (sort_files files) db' ∧
       applies exec_sql l db db'.

#[export] Instance advances_preorder : PreOrder advances.
Proof.
  split.
  - intros db. exists []. split; [done|]. apply applies_nil.
  - intros d1 d2 d3 (l1 & H1 & A1) (l2 & H2 & A2). exists (l1 ++ l2).
    split; [by rewrite H1, H2, app_assoc|]. clear H1 H2. revert d1 A1.
    induction l1 as [|f l1 IH]; intros d1 A1; cbn [app].
    + destruct A1 as [[= Hs] Hr]. eapply applies_ext; [by symmetry| |done]. rewrite Hr. cbn. set_solver.
    + destruct A1 as [Hrun Hr]. cbn in Hrun.
      destruct (exec_sql (snd f) (schema d1)) as [s|e] eqn:Hx; [|done]. cbn in Hrun.
      apply (applies_cons _ _ _ _ (mkMigDB (Some (recorded d1 ∪ {[fst f]})) s)).
      * split; [cbn; by rewrite Hx|]. cbn. set_solver.
      * apply IH. split; [done|]. rewrite Hr. cbn. set_solver.
Qed.

Lemma advances_done db db' :
  advances db db' → pending (sort_files files) db = [] → pending (sort_files files) db' = [].
Proof. intros (l & Hl & _) Hn. rewrite Hn in Hl. by destruct l. Qed.

(** A position in the loop: the files before it are recorded. *)
Definition at_file (l : list file) (db : DB) : Prop :=
  ∃ before, sort_files files = before ++ l ∧ Forall (λ f, fst f ∈ recorded db) before.

Lemma at_file_pending l db : at_file l db → pending (sort_files files) db = pending l db.
Proof.
  intros (before & -> & Hb). induction Hb as [|f before Hf _ IH]; [done|].
  unfold pending in *. cbn [app]. rewrite filter_cons_False; [done|]. by intros [].
Qed.

Lemma at_file_here f l db :
  at_file (f :: l) db → fst f ∈ recorded db → at_file l db.
Proof.
  intros (before & Hs & Hb) Hf. exists (before ++ [f]). rewrite <-app_assoc. split; [done|].
  apply Forall_app. split; [done|]. by repeat constructor.
Qed.

(** Only what is recorded counts. *)
Lemma at_file_mono l db db' : recorded db ⊆ recorded db' → at_file l db → at_file l db'.
Proof.
  intros Hr (before & Hs & Hb). exists before. split; [done|].
  eapply Forall_impl; [exact Hb|]. intros f Hf. by apply Hr.
Qed.

(** A commit of the first pending file is an advance. *)
Lemma commit_advances f l db tx :
  NoDup (fst <$> files) → at_file (f :: l) db → (fst f ∉ recorded db) →
  exec_sql (snd f) (schema db) = Ok (schema tx) → recorded tx = recorded db ∪ {[fst f]} →
  advances db tx ∧ at_file l tx.
Proof.
  intros Hnd Hat Hf Hx Hr.
  assert (at_file l tx) as Hat'.
  { apply at_file_here with f; [|rewrite Hr; set_solver].
    eapply at_file_mono; [|exact Hat]. rewrite Hr. set_solver. }
  split; [|done]. exists [f]. split.
  - rewrite (at_file_pending _ _ Hat), (at_file_pending _ _ Hat').
    unfold pending at 1. rewrite filter_cons_True by done. cbn [app]. f_equal.
    symmetry. apply (pending_step f l); [|done].
    apply sort_files_nodup in Hnd. destruct Hat as (before & Hs & _).
    rewrite Hs, fmap_app, fmap_cons in Hnd. apply NoDup_app in Hnd as (_ & _ & Hnd).
    by apply NoDup_cons in Hnd as [? _].
  - split; [cbn; by rewrite Hx|]. rewrite Hr. cbn. set_solver.
Qed.

(** ** The invariant *)

(** Between taking the lock and giving it back. *)
Definition critical (p : mpc) : bool :=
  match p with Acquire | Lock | Done _ => false | _ => true end.

Definition finished (r : result error unit) (db : DB) : Prop :=
  r = Ok () → pending (sort_files files) db = [].

Definition mpc_ok (db : DB) (p : mpc) : Prop :=
  match p with
  | Acquire | Lock | Ensure => True
  | Next l => at_file l db
  | BeginTx f l => at_file (f :: l) db ∧ (fst f ∉ recorded db)
  | RunSql f l tx => at_file (f :: l) db ∧ (fst f ∉ recorded db) ∧ tx = db
  | RecordVersion f l tx =>
    at_file (f :: l) db ∧ (fst f ∉ recorded db) ∧
    exec_sql (snd f) (schema db) = Ok (schema tx) ∧ versions tx = versions db
  | Commit f l tx =>
    at_file (f :: l) db ∧ (fst f ∉ recorded db) ∧
    exec_sql (snd f) (schema db) = Ok (schema tx) ∧ recorded tx = recorded db ∪ {[fst f]}
  | Unlock r | Done r => finished r db
  end.

Record msys_inv (db0 : DB) (s : MSys) : Prop := {
  mi_advances : advances db0 (ms_db s);
  mi_lock i p : ms_procs s !! i = Some p → critical p = true → ms_lock s = Some i;
  mi_held i : ms_lock s = Some i → ∃ p, ms_procs s !! i = Some p ∧ critical p = true;
  mi_pc i p : ms_procs s !! i = Some p → mpc_ok (ms_db s) p
}.

(** What a migrator outside the critical section knows stays true. *)
Lemma idle_stable db db' p :
  advances db db' → critical p = false → mpc_ok db p → mpc_ok db' p.
Proof. intros Hadv. destruct p; try done. intros _ Hfin Hr. by eapply advances_done, Hfin. Qed.

Lemma others_idle db0 s i j p :
  msys_inv db0 s → ms_lock s = None ∨ ms_lock s = Some i → j ≠ i →
  ms_procs s !! j = Some p → critical p = false.
Proof.
  intros Hinv Hlk Hne Hj. apply not_true_is_false. intros Hc.
  pose proof (mi_lock _ _ Hinv _ _ Hj Hc). naive_solver congruence.
Qed.

(** One migrator moves within its rights: the lock and the database do not change,
    or nobody else is in the critical section. *)
Lemma msys_move db0 db db' lk lk' ps i p :
  msys_inv db0 (mkMSys db lk ps) → advances db db' → mpc_ok db' p →
  (critical p = true ↔ lk' = Some i) →
  (db' = db ∧ lk' = lk) ∨ ((lk = None ∨ lk = Some i) ∧ (lk' = None ∨ lk' = Some i)) →
  msys_inv db0 (mkMSys db' lk' (<[i := p]> ps)).
Proof.
  intros Hinv Hadv Hp Hlk Hcase. split; cbn.
  - etrans; [apply (mi_advances _ _ Hinv)|done].
  - intros j q [[<- <-]|[Hne Hj]]%lookup_insert_Some Hc; [by apply Hlk|].
    destruct Hcase as [[_ ->]|[Hcase _]]; [by apply (mi_lock _ _ Hinv _ _ Hj)|].
    by rewrite (others_idle _ _ _ _ _ Hinv Hcase (not_eq_sym Hne) Hj) in Hc.
  - intros j Hj. destruct (decide (i = j)) as [<-|Hne].
    { exists p. split; [apply lookup_insert_eq|]. by apply Hlk. }
    rewrite lookup_insert_ne by done. destruct Hcase as [[_ ->]|[_ [-> | ->]]]; [|done|congruence].
    by apply (mi_held _ _ Hinv).
  - intros j q [[<- <-]|[Hne Hj]]%lookup_insert_Some; [done|].
    pose proof (mi_pc _ _ Hinv _ _ Hj) as Hq.
    destruct Hcase as [[-> _]|[Hcase _]]; [done|].
    eapply idle_stable; [exact Hadv|by eapply others_idle|exact Hq].
Qed.

(** A migrator outside the critical section, or not started, moves within what is
    outside it. *)
Lemma idle_move db0 db lk ps i q p :
  msys_inv db0 (mkMSys db lk ps) → default q (ps !! i) = q →
  critical q = false → mpc_ok db p → critical p = false →
  msys_inv db0 (mkMSys db lk (<[i := p]> ps)).
Proof.
  intros Hinv Hi Hq Hp Hc. assert (lk ≠ Some i) as Hlk.
  { intros Hlk. destruct (mi_held _ _ Hinv _ Hlk) as (q' & Hq' & Hcq). cbn in Hq'.
    rewrite Hq' in Hi. cbn in Hi. congruence. }
  eapply msys_move; [exact Hinv|done|exact Hp| |by left]. by rewrite Hc.
Qed.

Lemma conn_ran_advances {A} (f : DB → result error (A * DB)) db r db' :
  (∀ a db1, f db = Ok (a, db1) → advances db db1) → conn_ran f db r db' → advances db db'.
Proof. intros Hf [a db1 H|e|a db1 e H]; [by eapply Hf|done|by eapply Hf]. Qed.

Lemma ensure_advances db a db' : sql_ensure db = Ok (a, db') → advances db db'.
Proof.
  unfold sql_ensure. intros [= _ <-]. exists []. unfold pending, recorded.
  split; [done|]. by apply recorded_same.
Qed.

(** The holder of the lock moves. *)
Lemma holder_move db0 db db' lk ps i q p :
  msys_inv db0 (mkMSys db lk ps) → ps !! i = Some q → critical q = true → critical p = true →
  advances db db' → mpc_ok db' p → msys_inv db0 (mkMSys db' lk (<[i := p]> ps)).
Proof.
  intros Hinv Hi Hq Hp Hadv Hok. pose proof (mi_lock _ _ Hinv _ _ Hi Hq) as Hlk. cbn in Hlk.
  eapply msys_move; [exact Hinv|exact Hadv|exact Hok|done|right; auto].
Qed.

Lemma applied_inv db0 db db' lk ps i f l r :
  msys_inv db0 (mkMSys db lk ps) → ps !! i = Some (Next (f :: l)) →
  conn_ran (sql_applied (fst f)) db r db' →
  msys_inv db0 (mkMSys db' lk (<[i := after_applied f l r]> ps)).
Proof.
  intros Hinv Hi Hr. pose proof (mi_pc _ _ Hinv _ _ Hi) as Hat. cbn in Hat.
  assert (db' = db) as ->.
  { destruct Hr as [a db1 H|e|a db1 e H]; [|done|]; by apply sql_applied_same in H as [-> _]. }
  apply (holder_move _ _ _ _ _ _ _ _ Hinv Hi); [done|by destruct r as [[]|]|done|].
  destruct r as [a|e]; [|done].
  assert (∃ db1, sql_applied (fst f) db = Ok (a, db1)) as [db1 H] by (inversion Hr; eauto).
  apply sql_applied_same in H as [_ Ha]. destruct a; cbn.
  - by apply at_file_here with f; [|apply Ha].
  - split; [done|]. intros Hin. by apply Ha in Hin.
Qed.

(** A step inside the transaction, which changes its view only. *)
Lemma record_view f (tx tx' db : DB) :
  versions tx = versions db → sql_record f tx = Ok tx' →
  schema tx' = schema tx ∧ recorded tx' = recorded db ∪ {[f]}.
Proof.
  intros Hv. unfold sql_record, recorded. rewrite Hv. destruct (versions db) as [vs|]; [|done].
  case_decide; [done|]. intros [= <-]. split; [done|]. cbn. set_solver.
Qed.

Lemma transaction_inv db0 db lk ps i p p' :
  msys_inv db0 (mkMSys db lk ps) → ps !! i = Some p → critical p = true → critical p' = true →
  mpc_ok db p' → msys_inv db0 (mkMSys db lk (<[i := p']> ps)).
Proof. intros. by eapply holder_move. Qed.

(** ** The function [Migrate] in the transition system *)

Section runs.
Context (m_fault : nat → Fault) (i : nat) (ps : gmap nat mpc) (idle : ps !! i = None).
Abbreviation steps := (rtc mstep).
Abbreviation here := (λ db p, mkMSys db (Some i) (<[i := p]> ps)).

Lemma conn_stmt_ran {A} (f : DB → result error (A * DB)) w r w' :
  conn_stmt m_fault f w = (r, w') → conn_ran f (m_db w) r (m_db w').
Proof using.
  unfold conn_stmt. destruct (m_fault _), (f (m_db w)) as [[a db']|e'] eqn:Hf;
    intros [= <- <-]; by econstructor.
Qed.

Lemma conn_tx_cases f w (tx : DB) r w' :
  m_tx w = Some tx → conn_tx_stmt m_fault f w = (r, w') →
  m_db w' = m_db w ∧
  match r with Ok _ => ∃ tx', m_tx w' = Some tx' ∧ f tx = Ok tx' | Err _ => True end.
Proof using.
  intros Htx. unfold conn_tx_stmt. rewrite Htx.
  destruct (m_fault _); [destruct (f tx) as [tx'|e]|..]; intros [= <- <-]; cbn; eauto.
Qed.

Lemma conn_commit_ran w (tx : DB) r w' :
  m_tx w = Some tx → conn_commit m_fault w = (r, w') →
  conn_ran (λ _, Ok ((), tx)) (m_db w) r (m_db w').
Proof using.
  intros Htx. unfold conn_commit. rewrite Htx.
  destruct (m_fault _); intros [= <- <-]; by econstructor.
Qed.

(** The move of [i] from [p], which is what it is at. *)
Lemma at_insert p : <[i := p]> ps !! i = Some p.
Proof using. apply lookup_insert_eq. Qed.

Lemma then_step s db lk p db' lk' q :
  steps s (mkMSys db lk (<[i := p]> ps)) →
  (<[i := p]> ps !! i = Some p →
   mstep (mkMSys db lk (<[i := p]> ps)) (mkMSys db' lk' (<[i := q]> (<[i := p]> ps)))) →
  steps s (mkMSys db' lk' (<[i := q]> ps)).
Proof using.
  intros Hs Hstep. eapply rtc_r; [exact Hs|]. rewrite <-(insert_insert_eq ps i q p).
  apply Hstep, at_insert.
Qed.

Lemma then_crash s db lk p :
  steps s (mkMSys db lk (<[i := p]> ps)) → lk = None ∨ lk = Some i → steps s (mkMSys db None ps).
Proof using idle.
  intros Hs Hlk. eapply rtc_r; [exact Hs|].
  pose proof (m_crash i db lk (<[i := p]> ps)) as H. rewrite delete_insert_id in H by done.
  unfold release in H. destruct Hlk as [-> | ->]; by case_decide.
Qed.

Lemma migrate_file_steps f l w r w' s :
  migrate_file exec_sql m_fault f w = (r, w') → steps s (here (m_db w) (Next (f :: l))) →
  ∃ p, steps s (here (m_db w') p) ∧ (r = Ok () → p = Next l).
Proof using.
  intros Hrun Hs. unfold migrate_file in Hrun. rewrite bind_run in Hrun.
  destruct (conn_stmt m_fault _ w) as [ra w1] eqn:Ha. apply conn_stmt_ran in Ha.
  apply (then_step _ _ _ _ (m_db w1) (Some i) (after_applied f l ra)) in Hs;
    [|intros Hi; by apply m_applied].
  destruct ra as [[]|e]; [injection Hrun as <- <-; by eexists| |injection Hrun as <- <-; by eexists].
  rewrite bind_run in Hrun. unfold conn_begin in Hrun.
  destruct (m_fault (m_ticks w1)) as [|e|e];
    [|injection Hrun as <- <-; by exists (BeginTx f l)..].
  apply (then_step _ _ _ _ (m_db w1) (Some i) (after_begin f l (Ok (m_db w1)))) in Hs;
    [|intros Hi; apply m_begin; [done|by intros tx [= ->]]].
  cbn iota beta in Hrun.
  set (w2 := m_set_tx (Some (m_db w1)) (m_tick w1)) in Hrun.
  change (m_db w1) with (m_db w2) in Hs. assert (m_tx w2 = Some (m_db w2)) as Htx by done.
  clearbody w2. rewrite attempt_bind in Hrun.
  destruct (conn_tx_stmt m_fault (sql_run _ _) w2) as [r2 w3] eqn:H2.
  destruct (conn_tx_cases _ _ _ _ _ Htx H2) as [Hdb3 Hr2]. rewrite <-Hdb3 in Hs.
  destruct r2 as [[]|e].
  2:{ exists (RunSql f l (m_db w3)). by destruct (is_panic e); cbn in Hrun; injection Hrun as <- <-. }
  destruct Hr2 as (tx3 & Htx3 & Hsql).
  apply (then_step _ _ _ _ (m_db w3) (Some i) (after_run f l (Ok tx3))) in Hs;
    [|intros Hi; apply (m_run _ _ _ (m_db w3)); [done|]; intros _; by rewrite Hdb3].
  rewrite attempt_bind in Hrun.
  destruct (conn_tx_stmt m_fault (sql_record _) w3) as [r3 w4] eqn:H3.
  destruct (conn_tx_cases _ _ _ _ _ Htx3 H3) as [Hdb4 Hr3]. rewrite <-Hdb4 in Hs.
  destruct r3 as [[]|e].
  2:{ exists (RecordVersion f l tx3). by destruct (is_panic e); cbn in Hrun; injection Hrun as <- <-. }
  destruct Hr3 as (tx4 & Htx4 & Hrec).
  apply (then_step _ _ _ _ (m_db w4) (Some i) (after_record f l (Ok tx4))) in Hs;
    [|intros Hi; by apply (m_record _ _ _ tx3)].
  apply (conn_commit_ran _ tx4) in Hrun; [|done].
  apply (then_step _ _ _ _ (m_db w') (Some i) (after_commit l r)) in Hs;
    [|intros Hi; by apply (m_commit _ f l tx4)].
  exists (after_commit l r). split; [exact Hs|]. by intros ->.
Qed.

Lemma migrate_files_steps l w r w' s :
  migrate_files exec_sql m_fault l w = (r, w') → steps s (here (m_db w) (Next l)) →
  ∃ p, steps s (here (m_db w') p) ∧ (r = Ok () → p = Next []).
Proof using.
  revert w. induction l as [|f l IH]; intros w Hrun Hs.
  { injection Hrun as <- <-. by exists (Next []). }
  cbn [migrate_files] in Hrun. rewrite bind_run in Hrun.
  destruct (migrate_file exec_sql m_fault f w) as [rf w1] eqn:Hf.
  destruct (migrate_file_steps _ _ _ _ _ _ Hf Hs) as (p & Hs1 & Hp).
  destruct rf as [[]|e]; [|injection Hrun as <- <-; by exists p].
  rewrite Hp in Hs1 by done. by apply (IH w1).
Qed.

(** Where a run of [Migrate] leaves its process: done, or ended with its error. *)
Definition after_Migrate (r : result error unit) : gmap nat mpc :=
  match r with Ok _ => <[i := Done (Ok ())]> ps | Err _ => ps end.

Lemma Migrate_steps w r w' :
  Migrate exec_sql m_fault files w = (r, w') →
  steps (mkMSys (m_db w) None ps) (mkMSys (m_db w') None (after_Migrate r)).
Proof using idle.
  intros Hrun. unfold Migrate in Hrun. set (s := mkMSys (m_db w) None ps).
  assert (∀ (w1 : MigWorld (Schema := Schema)) lk p e,
    (Err e, w1) = (r, w') → steps s (mkMSys (m_db w1) lk (<[i := p]> ps)) → lk = None ∨ lk = Some i →
    steps s (mkMSys (m_db w') None (after_Migrate r))) as Hcrash.
  { intros w1 lk p e [= <- <-] Hs Hlk. by eapply then_crash. }
  assert (∀ (w1 w2 : MigWorld (Schema := Schema)) r1,
    conn_stmt m_fault idle_stmt w1 = (r1, w2) → m_db w2 = m_db w1) as Hidle.
  { intros w1 w2 r1 H. apply conn_stmt_ran in H. unfold idle_stmt in H. by inversion H; simplify_eq. }
  assert (steps s (mkMSys (m_db w) None (<[i := Acquire]> ps))) as Hs by (by apply rtc_once, m_start).
  rewrite attempt_bind in Hrun. destruct (conn_stmt m_fault idle_stmt w) as [r1 w1] eqn:H1.
  rewrite <-(Hidle _ _ _ H1) in Hs.
  destruct r1 as [[]|e]; [|destruct (is_panic e); (eapply Hcrash; [exact Hrun|exact Hs|by left])].
  apply (then_step _ _ _ _ (m_db w1) None (after_acquire (Ok ()))) in Hs;
    [|intros Hi; by apply m_acquire].
  rewrite attempt_bind in Hrun. destruct (conn_stmt m_fault idle_stmt w1) as [r2 w2] eqn:H2.
  rewrite <-(Hidle _ _ _ H2) in Hs.
  destruct r2 as [[]|e]; [|destruct (is_panic e); (eapply Hcrash; [exact Hrun|exact Hs|by left])].
  apply (then_step _ _ _ _ (m_db w2) (Some i) Ensure) in Hs; [|intros Hi; by apply m_lock].
  rewrite attempt_bind in Hrun. destruct (conn_stmt m_fault sql_ensure w2) as [r3 w3] eqn:H3.
  apply conn_stmt_ran in H3.
  apply (then_step _ _ _ _ (m_db w3) (Some i) (after_ensure r3)) in Hs;
    [|intros Hi; by apply m_ensure].
  destruct r3 as [[]|e]; [|destruct (is_panic e); (eapply Hcrash; [exact Hrun|exact Hs|by right])].
  destruct (migrate_files_steps _ _ _ _ _ Hrun Hs) as (p & Hs' & Hp).
  destruct r as [[]|e]; [|by eapply Hcrash; [|exact Hs'|right]].
  rewrite Hp in Hs' by done.
  apply (then_step _ _ _ _ (m_db w') (Some i) (Unlock (Ok ()))) in Hs';
    [|intros Hi; by apply m_finish].
  apply (then_step _ _ _ _ (m_db w') (release i (Some i)) (Done (Ok ()))) in Hs';
    [|intros Hi; by apply m_unlock].
  unfold release in Hs'. by rewrite decide_True in Hs'.
Qed.
End runs.

Context (nodup : NoDup (fst <$> files)).

Lemma mstep_inv db0 s s' : msys_inv db0 s → mstep s s' → msys_inv db0 s'.
Proof using nodup.
  intros Hinv Hstep. destruct Hstep as
    [i db lk ps Hi|i r db lk ps Hi|i db ps Hi|i e db lk ps Hi|i r db db' lk ps Hi Hr
    |i f l r db db' lk ps Hi Hr|i db lk ps Hi|i f l r db lk ps Hi Hr|i f l tx r db lk ps Hi Hr
    |i f l tx r db lk ps Hi Hr|i f l tx r db db' lk ps Hi Hr|i r db lk ps Hi|i db lk ps];
    try (pose proof (mi_pc _ _ Hinv _ _ Hi) as Hpc; cbn in Hpc).
  - by apply (idle_move _ _ _ _ _ Acquire _ Hinv); [rewrite Hi|..].
  - apply (idle_move _ _ _ _ _ Acquire _ Hinv);
      [by rewrite Hi|done|by destruct r; [|intros ?]|by destruct r].
  - eapply msys_move; [exact Hinv|done|done|done|right; auto].
  - apply (idle_move _ _ _ _ _ Lock _ Hinv); [by rewrite Hi|done|by intros ?|done].
  - apply (holder_move _ _ _ _ _ _ _ _ Hinv Hi); [done|by destruct r| |].
    + eapply conn_ran_advances; [|exact Hr]. apply ensure_advances.
    + destruct r; [|done]. by exists [].
  - by eapply applied_inv.
  - apply (transaction_inv _ _ _ _ _ _ _ Hinv Hi); [done|by try destruct r|]. intros _.
    by rewrite (at_file_pending _ _ Hpc).
  - apply (transaction_inv _ _ _ _ _ _ _ Hinv Hi); [done|by try destruct r|].
    destruct r as [tx|e]; [|done]. destruct Hpc as [Hat Hf]. cbn. split_ands; [done..|by apply Hr].
  - apply (transaction_inv _ _ _ _ _ _ _ Hinv Hi); [done|by try destruct r|]. destruct Hpc as (Hat & Hf & ->).
    destruct r as [tx'|e]; [|done]. specialize (Hr eq_refl). unfold sql_run in Hr.
    destruct (exec_sql _ _) as [sc|] eqn:Hx; [|done]. injection Hr as ->. cbn. by rewrite Hx.
  - apply (transaction_inv _ _ _ _ _ _ _ Hinv Hi); [done|by try destruct r|]. destruct Hpc as (Hat & Hf & Hx & Hv).
    destruct r as [tx'|e]; [|done]. symmetry in Hr.
    destruct (record_view _ _ _ _ Hv (Hr eq_refl)) as [Hs' Hr']. cbn. by rewrite Hs'.
  - destruct Hpc as (Hat & Hf & Hx & Hrec).
    destruct (commit_advances f l db tx nodup Hat Hf Hx Hrec) as [Hadv Hat'].
    apply (holder_move _ _ _ _ _ _ _ _ Hinv Hi); [done|by destruct r| |].
    + eapply conn_ran_advances; [|exact Hr]. by intros [] db1 [= <-].
    + destruct r as [[]|e]; [|done]. cbn. by inversion Hr; simplify_eq.
  - pose proof (mi_lock _ _ Hinv _ _ Hi eq_refl) as Hlk. cbn in Hlk. unfold release.
    rewrite decide_True by done.
    eapply msys_move; [exact Hinv|done|exact Hpc|done|right; auto].
  - pose proof (mi_lock _ _ Hinv) as Hlk. cbn in Hlk. unfold release.
    split; cbn; [apply (mi_advances _ _ Hinv)|..].
    + intros j q [Hne Hj]%lookup_delete_Some Hc. specialize (Hlk _ _ Hj Hc). by case_decide; simplify_eq.
    + intros j Hj. case_decide; [done|]. destruct (mi_held _ _ Hinv _ Hj) as (q & Hq & Hc).
      exists q. rewrite lookup_delete_ne by congruence. done.
    + intros j q [Hne Hj]%lookup_delete_Some. apply (mi_pc _ _ Hinv _ _ Hj).
Qed.
End migrators.

(** ** Property *)

(** C33. Migrations are applied in order and once each even when any number of
    processes migrate at the same time, any statement of theirs may fail and any of
    them may die: from a database nobody is migrating, in every reachable state the
    schema is what the SQL of a prefix of the unrecorded files makes of it, run once
    each in lexical order, and exactly these are recorded; whoever has returned
    without an error finds no file left; at most one process is past the lock, and
    the lock is never held by a process that is not. A run of [Migrate] by a process
    that finds the lock free is a sequence of these steps. *)
Theorem concurrent_migrations {Schema} (exec_sql : string → Schema → result error Schema)
    files db0 s :
  NoDup (fst <$> files) → rtc (mstep exec_sql files) (mkMSys db0 None ∅) s →
  advances exec_sql files db0 (ms_db s) ∧
  (∀ i, ms_procs s !! i = Some (Done (Ok ())) → pending (sort_files files) (ms_db s) = []) ∧
  (∀ i, ms_lock s = Some i ↔ ∃ p, ms_procs s !! i = Some p ∧ critical p = true) ∧
  (∀ m_fault i w r w', ms_lock s = None → ms_procs s !! i = None → m_db w = ms_db s →
     Migrate exec_sql m_fault files w = (r, w') →
     rtc (mstep exec_sql files) s (mkMSys (m_db w') None (after_Migrate i (ms_procs s) r))).
Proof.
  intros Hnd Hs.
  assert (msys_inv exec_sql files db0 s) as Hinv.
  { assert (msys_inv exec_sql files db0 (mkMSys db0 None ∅)) as H0 by (by split).
    revert H0. induction Hs as [|x y z Hxy _ IH]; intros Hx; [done|].
    by apply IH, (mstep_inv exec_sql files Hnd _ x). }
  split_ands.
  - apply (mi_advances _ _ _ _ Hinv).
  - intros i Hi. by apply (mi_pc _ _ _ _ Hinv _ _ Hi).
  - intros i. split; [apply (mi_held _ _ _ _ Hinv)|].
    intros (p & Hp & Hc). by apply (mi_lock _ _ _ _ Hinv _ _ Hp).
  - intros m_fault i w r w' Hlk Hi Hw Hrun. destruct s as [db lk ps]. cbn in *. subst lk db.
    by apply (Migrate_steps exec_sql files m_fault i).
Qed.

Section example.
(** One migrator is about to wait for the lock when another runs the whole of
    [Migrate]; then the first takes the lock. *)
Definition clean := Migrate run_script no_fault two_files fresh_db.
Definition waiting_procs : gmap nat (mpc (Schema := list string)) := <[0%nat := Lock]> (<[0%nat := Acquire]> ∅).
Definition raced : MSys :=
  mkMSys (m_db (snd clean)) (Some 0%nat) (<[0%nat := Ensure]> (after_Migrate 1 waiting_procs (fst clean))).

Lemma raced_reachable : rtc (mstep run_script two_files) (mkMSys (m_db fresh_db) None ∅) raced.
Proof.
  eapply rtc_l; [by apply (m_start _ _ 0)|].
  eapply rtc_l; [by apply (m_acquire _ _ 0 (Ok ()))|].
  eapply rtc_r; [|by apply m_lock].
  apply (Migrate_steps run_script two_files no_fault 1 waiting_procs eq_refl fresh_db).
  apply surjective_pairing.
Qed.

Lemma concurrent_migrations_witness :
  advances run_script two_files (m_db fresh_db) (ms_db raced) ∧
  pending (sort_files two_files) (ms_db raced) = [] ∧ schema (ms_db raced) = ["A"; "B"].
Proof.
  destruct (concurrent_migrations run_script two_files (m_db fresh_db) raced)
    as (H1 & H2 & _).
  - repeat (constructor; [set_solver|]). constructor.
  - apply raced_reachable.
  - split; [exact H1|]. split; [apply (H2 1%nat)|]; vm_compute; reflexivity.
Defined.
End example.
