(* ===== verification/Supervise.v ===== *)
(** * Running and stopping a process (main.go, init.go, Pool.Run)

    What happens after startup: the HTTP server with its graceful shutdown
    ([runServer]), the pool that starts its workers and joins them ([Pool.Run]), the
    two together under one cancellable context ([runAll]), and the exit code. The
    goroutines interleave, so a running process is a transition system; the roles
    differ in what they start and in what ends them. A worker is here only inside
    its loop or out of it: what its turns do is Worker.v and System.v, and
    [worker_return] is why it leaves only under a done context. *)

From S2P Require Import Prelude GoErrors Queue Worker App.
Local Open Scope Z_scope.

(** ** States *)

(** The goroutine of [ListenAndServe]. *)
Inductive listener : Type := NotListening | Listening | ListenFailed | ListenerClosed.

(** [runServer]: before it is called, at its [select], in [srv.Shutdown], returned. *)
Inductive server_pc : Type := ServerOff | Serving | ShuttingDown | ServerReturned (err : option error).

Record Proc : Type := mkProc {
  p_signal : bool;              (** the context of main is done *)
  p_cancel : bool;              (** [cancel()] of [runAll] was called *)
  p_listener : listener;
  p_errCh : option error;       (** a channel of capacity one *)
  p_server : server_pc;
  p_workers : list bool;        (** per goroutine of the pool: still in its loop? *)
  p_result : option (option error)   (** what [Run] returned *)
}.

(** The context handed to the server and to the workers. *)
Definition ctx_done (s : Proc) : bool := p_signal s || p_cancel s.
(** What [wg.Wait] of the pool waits for. *)
Definition all_stopped (s : Proc) : bool := forallb negb (p_workers s).

(** [Run] enters the role; [Pool.Run] starts every worker. *)
Definition start (r : role) (cfg_workers : Z) : Proc :=
  let workers := replicate (Z.to_nat (NewPool cfg_workers)) true in
  match r with
  | RunServer => mkProc false false Listening None Serving [] None
  | RunPool => mkProc false false NotListening None ServerOff workers None
  | RunAll => mkProc false false Listening None Serving workers None
  end.

(** ** Steps *)

Definition set_signal (s : Proc) : Proc :=
  mkProc true (p_cancel s) (p_listener s) (p_errCh s) (p_server s) (p_workers s) (p_result s).
Definition set_cancel (s : Proc) : Proc :=
  mkProc (p_signal s) true (p_listener s) (p_errCh s) (p_server s) (p_workers s) (p_result s).
Definition set_listen_error (e : error) (s : Proc) : Proc :=
  mkProc (p_signal s) (p_cancel s) ListenFailed (Some e) (p_server s) (p_workers s) (p_result s).
Definition set_shutting_down (ch : option error) (s : Proc) : Proc :=
  mkProc (p_signal s) (p_cancel s) (p_listener s) ch ShuttingDown (p_workers s) (p_result s).
Definition close_listener (l : listener) : listener :=
  match l with Listening => ListenerClosed | l => l end.
Definition set_returned (r : option error) (s : Proc) : Proc :=
  mkProc (p_signal s) (p_cancel s) (close_listener (p_listener s)) (p_errCh s)
    (ServerReturned r) (p_workers s) (p_result s).
Definition set_stopped (i : nat) (s : Proc) : Proc :=
  mkProc (p_signal s) (p_cancel s) (p_listener s) (p_errCh s) (p_server s)
    (<[i := false]> (p_workers s)) (p_result s).
Definition set_result (r : option error) (s : Proc) : Proc :=
  mkProc (p_signal s) (p_cancel s) (p_listener s) (p_errCh s) (p_server s) (p_workers s)
    (Some r).

(** What a goroutine does next. *)
Inductive action : Type :=
  | Signal                          (** SIGINT or SIGTERM *)
  | ListenError (e : error)         (** [ListenAndServe] fails: [errCh <- err] *)
  | SelectDone                      (** [case <-ctx.Done()] *)
  | SelectErr                       (** [case err := <-errCh]: logged *)
  | Shutdown (r : option error)     (** [srv.Shutdown] returns [r] *)
  | Cancel                          (** [cancel()] *)
  | WorkerTurn (i : nat)            (** a turn of the loop of a worker *)
  | WorkerReturn (i : nat)          (** a worker leaves its loop *)
  | ReturnRun.                      (** [Run] returns *)

(** One step of one goroutine; [None] where it cannot take it. *)
Definition act (r : role) (a : action) (s : Proc) : option Proc :=
  match a with
  | Signal => if p_signal s then None else Some (set_signal s)
  | ListenError e =>
    match p_listener s with Listening => Some (set_listen_error e s) | _ => None end
  | SelectDone =>
    match p_server s with
    | Serving => if ctx_done s then Some (set_shutting_down (p_errCh s) s) else None
    | _ => None
    end
  | SelectErr =>
    match p_server s, p_errCh s with
    | Serving, Some _ => Some (set_shutting_down None s)
    | _, _ => None
    end
  | Shutdown err =>
    match p_server s with ShuttingDown => Some (set_returned err s) | _ => None end
  | Cancel =>
    match r, p_server s with
    | RunAll, ServerReturned _ => if p_cancel s then None else Some (set_cancel s)
    | _, _ => None
    end
  | WorkerTurn i =>
    match p_workers s !! i with Some true => Some s | _ => None end
  | WorkerReturn i =>
    match p_workers s !! i with
    | Some true => if ctx_done s then Some (set_stopped i s) else None
    | _ => None
    end
  | ReturnRun =>
    match p_result s with
    | Some _ => None
    | None =>
      match r, p_server s with
      | RunServer, ServerReturned err => Some (set_result err s)
      | RunPool, _ => if all_stopped s then Some (set_result None s) else None
      | RunAll, ServerReturned err =>
        if p_cancel s && all_stopped s then Some (set_result err s) else None
      | _, _ => None
      end
    end
  end.

Fixpoint acts (r : role) (l : list action) (s : Proc) : option Proc :=
  match l with
  | [] => Some s
  | a :: l' => s' ← act r a s; acts r l' s'
  end.

(** Every interleaving of a process started in role [r]. *)
Inductive runs (r : role) (n : Z) : Proc → Prop :=
  | runs_start : runs r n (start r n)
  | runs_act a s s' : runs r n s → act r a s = Some s' → runs r n s'.

(** [main]: the exit code, given what [newApp] and then [Run] returned. *)
Definition main (startup : option error) (run : option error) : Z :=
  match startup with
  | Some _ => 1
  | None => match run with Some _ => 1 | None => 0 end
  end.

(** ** The loop of Worker.v leaves only under a done context *)

Section loop.
Context {W : Type} `{!Queue W, !Handler W} (ctx_err : eff W error bool).

Lemma worker_turn_return w w' :
  worker_turn ctx_err w = (Ok Return, w') → ∃ w1 w2, ctx_err w1 = (Ok true, w2).
Proof.
  unfold worker_turn. cbv [mbind eff_bind mret eff_ret].
  destruct (attempt Claim w) as [[[[job|]|e]|] w1]; [| |destruct (ctx_err w1) as [[[]|] w2] eqn:H1|];
    try done.
  - by destruct (dispatch job w1) as [[[]|] w2].
  - by exists w1, w2.
  - destruct (ctx_err w2) as [[[]|] w3] eqn:H2; try done. by exists w2, w3.
Qed.

Lemma worker_return k w w' :
  worker ctx_err k w = (Ok true, w') → ∃ w1 w2, ctx_err w1 = (Ok true, w2).
Proof.
  revert w. induction k as [|k IH]; cbn; intros w; [done|]. cbv [mbind eff_bind].
  destruct (worker_turn ctx_err w) as [[[]|] w1] eqn:Ht; [apply IH| |done].
  intros _. by eapply worker_turn_return.
Qed.
End loop.

(** ** Invariant *)

(** Where the listener, the channel and [cancel] are, by where the server is. *)
Definition server_inv (r : role) (s : Proc) : Prop :=
  match p_server s with
  | ServerOff => r = RunPool ∧ p_listener s = NotListening ∧ p_cancel s = false
  | Serving =>
    r ≠ RunPool ∧ p_cancel s = false ∧
    (p_listener s = Listening ∨ p_listener s = ListenFailed ∧ is_Some (p_errCh s))
  | ShuttingDown =>
    r ≠ RunPool ∧ p_cancel s = false ∧
    (p_listener s = ListenFailed ∨ p_listener s = Listening ∧ p_signal s = true)
  | ServerReturned _ =>
    r ≠ RunPool ∧ (p_cancel s = true → r = RunAll) ∧
    (p_listener s = ListenFailed ∨ p_listener s = ListenerClosed ∧ p_signal s = true)
  end.

Definition result_inv (r : role) (s : Proc) : Prop :=
  match p_result s with
  | None => True
  | Some err => all_stopped s = true ∧
                match r with RunPool => err = None | _ => p_server s = ServerReturned err end
  end.

Record proc_inv (r : role) (n : Z) (s : Proc) : Prop := {
  pi_workers : length (p_workers s) =
    match r with RunServer => 0%nat | _ => Z.to_nat (NewPool n) end;
  (** workers leave their loops only under a done context *)
  pi_stopped i : p_workers s !! i = Some false → ctx_done s = true;
  pi_server : server_inv r s;
  (** the channel carries the failure of the listener and nothing else *)
  pi_errCh e : p_errCh s = Some e → p_listener s = ListenFailed;
  pi_result : result_inv r s
}.

Lemma NewPool_pos n : (0 < Z.to_nat (NewPool n))%nat.
Proof. unfold NewPool. destruct (Z.ltb_spec n 1); lia. Qed.

Lemma all_stopped_spec s : all_stopped s = true ↔ Forall (λ b, b = false) (p_workers s).
Proof.
  unfold all_stopped. rewrite forallb_forall, Forall_forall.
  split; intros H b Hb; specialize (H b); rewrite list_elem_of_In in *;
    specialize (H Hb); by destruct b.
Qed.

Lemma all_stopped_lookup s i : all_stopped s = true → p_workers s !! i ≠ Some true.
Proof. rewrite all_stopped_spec, Forall_lookup. intros H Hi. by specialize (H _ _ Hi). Qed.

Lemma proc_inv_start r n : proc_inv r n (start r n).
Proof.
  assert (∀ k i, replicate k true !! i ≠ Some false) as Hrep.
  { intros k i Hi. by apply lookup_replicate in Hi as [? _]. }
  destruct r; constructor; cbn; rewrite ?length_replicate; try done;
    try (intros i Hi; by apply Hrep in Hi); split_and?; (done || by left).
Qed.

Lemma server_inv_act r a s s' :
  (∀ e, p_errCh s = Some e → p_listener s = ListenFailed) →
  server_inv r s → act r a s = Some s' → server_inv r s'.
Proof.
  destruct s as [sg ca li ch sv ws re]. unfold server_inv. intros Hch Hinv Hact.
  destruct a; cbn in Hact, Hinv, Hch; unfold ctx_done in *; cbn in Hact;
    repeat case_match; simplify_eq; cbn in *; try done; try (by naive_solver).
  destruct Hinv as (? & -> & Hli). rewrite orb_false_r in *. naive_solver.
Qed.

Lemma result_inv_act r a s s' :
  (r = RunServer → p_workers s = []) →
  result_inv r s → act r a s = Some s' → result_inv r s'.
Proof.
  unfold result_inv. intros Hnone Hinv Hact.
  destruct a as [| | | | | |i|i|]; cbn in Hact;
    try (repeat case_match; simplify_eq; cbn in *; simplify_eq; naive_solver).
  - destruct (p_workers s !! i) as [[]|] eqn:Hi; [|done..].
    destruct (ctx_done s); [|done]. injection Hact as <-. cbn.
    destruct (p_result s) as [err|]; [|done]. destruct Hinv as [Hall _].
    by destruct (all_stopped_lookup s i Hall).
  - destruct (p_result s); [done|].
    destruct r; destruct (p_server s) eqn:Hsv; try done;
      try (destruct (all_stopped s) eqn:Hall; rewrite ?andb_true_r, ?andb_false_r in Hact; [|done]);
      try (destruct (p_cancel s); [|done]); injection Hact as <-; cbn; try by split.
    split; [|done]. unfold all_stopped. cbn. by rewrite Hnone.
Qed.

Lemma act_signal r a s s' : act r a s = Some s' → ctx_done s = true → ctx_done s' = true.
Proof.
  unfold ctx_done. destruct a; cbn; repeat case_match; intros [= <-]; cbn; auto using orb_true_r.
Qed.

Lemma workers_act r a s s' i :
  act r a s = Some s' → p_workers s' !! i = Some false →
  p_workers s !! i = Some false ∨ ctx_done s = true.
Proof.
  intros Hact Hi. destruct a as [| | | | | |k|k|]; cbn in Hact;
    try (repeat case_match; simplify_eq; by left).
  destruct (p_workers s !! k) as [[]|]; [|done..].
  destruct (ctx_done s) eqn:Hd; [by right|done].
Qed.

Lemma proc_inv_act r n a s s' : proc_inv r n s → act r a s = Some s' → proc_inv r n s'.
Proof.
  intros [Hw Hst Hsv Hch Hre] Hact. constructor.
  - rewrite <-Hw. destruct a; cbn in Hact; repeat case_match; simplify_eq; cbn;
      by rewrite ?length_insert.
  - intros i Hi. apply (act_signal _ _ _ _ Hact).
    destruct (workers_act _ _ _ _ _ Hact Hi); eauto.
  - by eapply server_inv_act.
  - intros e He. destruct a; cbn in Hact; repeat case_match; simplify_eq; cbn in *;
      try done; try (by eauto); by rewrite (Hch _ He).
  - eapply result_inv_act; [|done..]. intros ->. by apply nil_length_inv.
Qed.

Lemma runs_inv r n s : runs r n s → proc_inv r n s.
Proof.
  induction 1; [apply proc_inv_start|by eapply proc_inv_act].
Qed.

(** ** Properties *)

(** What is left to do: it drops at every action but a turn of a worker. *)
Definition listener_work (l : listener) : nat := match l with Listening => 1 | _ => 0 end.
Definition server_work (p : server_pc) : nat :=
  match p with Serving => 2 | ShuttingDown => 1 | _ => 0 end.
Fixpoint running (ws : list bool) : nat :=
  match ws with [] => 0 | b :: ws' => (if b then 1 else 0) + running ws' end.
Definition work (s : Proc) : nat :=
  (if p_signal s then 0 else 1) + (if p_cancel s then 0 else 1) + listener_work (p_listener s)
  + server_work (p_server s) + running (p_workers s)
  + match p_result s with Some _ => 0 | None => 1 end.

Definition is_turn (a : action) : bool := match a with WorkerTurn _ => true | _ => false end.
(** Actions that need nothing from outside and are no turn. *)
Definition closing (a : action) : bool :=
  match a with WorkerTurn _ | Signal | ListenError _ => false | _ => true end.
Lemma closing_turn a : closing a = true → is_turn a = false.
Proof. by destruct a. Qed.

Lemma running_stop l i : l !! i = Some true → running l = S (running (<[i := false]> l)).
Proof.
  revert i. induction l as [|b l IH]; intros [|i] Hi; try done; cbn in *.
  - by injection Hi as ->.
  - rewrite (IH i Hi). by destruct b.
Qed.

Lemma running_length l : (running l ≤ length l)%nat.
Proof. induction l as [|[] l IH]; cbn; lia. Qed.

Lemma act_work r a s s' :
  act r a s = Some s' → if is_turn a then s' = s else (work s' < work s)%nat.
Proof.
  intros Hact. unfold work. destruct a as [| | | | | |i|i|]; cbn in Hact |- *.
  8: { destruct (p_workers s !! i) as [[]|] eqn:Hi; [|done..].
       destruct (ctx_done s); [|done]. injection Hact as <-. cbn.
       rewrite (running_stop _ _ Hi). lia. }
  7: { repeat case_match; congruence. }
  all: destruct s as [[] [] li ch sv ws re]; unfold ctx_done in Hact; cbn in Hact |- *.
  all: repeat case_match; simplify_eq; cbn; try lia; destruct li; cbn; lia.
Qed.

Lemma acts_runs r n l s s' : runs r n s → acts r l s = Some s' → runs r n s'.
Proof.
  revert s. induction l as [|a l IH]; cbn; intros s Hs; [by intros [= <-]|].
  destruct (act r a s) as [s1|] eqn:Ha; [|done]. by apply IH, runs_act with a s.
Qed.

Lemma acts_app r l1 l2 s : acts r (l1 ++ l2) s = acts r l1 s ≫= acts r l2.
Proof.
  revert s. induction l1 as [|a l1 IH]; cbn; intros s; [done|]. by destruct (act r a s); cbn.
Qed.

(** A reason to stop: a signal, or a listener that failed. *)
Definition stopping (s : Proc) : Prop := p_signal s = true ∨ p_listener s = ListenFailed.

Lemma stopping_act r a s s' : act r a s = Some s' → stopping s → stopping s'.
Proof.
  unfold stopping. destruct a; cbn; repeat case_match; intros [= <-]; cbn; try tauto.
  intros [?|Hl]; [by left|right]. by rewrite Hl.
Qed.

Lemma running_worker l : forallb negb l = false → ∃ i, l !! i = Some true.
Proof.
  induction l as [|[] l IH]; cbn; [done| |]; intros Hl; [by exists 0%nat|].
  destruct (IH Hl) as [i Hi]. by exists (S i).
Qed.

(** While there is a reason to stop, some goroutine can go on towards the end. *)
Lemma progress r n s :
  proc_inv r n s → stopping s → p_result s = None →
  ∃ a s', act r a s = Some s' ∧ closing a = true.
Proof.
  intros [_ _ Hsv Hch _] Hstop Hres. unfold server_inv in Hsv.
  assert (∀ i, ctx_done s = true → p_workers s !! i = Some true →
    ∃ a s', act r a s = Some s' ∧ closing a = true) as Hworker.
  { intros i Hd Hi. exists (WorkerReturn i). cbn. rewrite Hi, Hd. by eexists. }
  assert (∀ a s', act r a s = Some s' → closing a = true →
    ∃ a s', act r a s = Some s' ∧ closing a = true) as Hdo by eauto.
  destruct (p_server s) as [| | |err] eqn:Hpc.
  - destruct Hsv as (-> & Hl & _). destruct Hstop as [Hsig|Hf]; [|congruence].
    destruct (all_stopped s) eqn:Hall.
    + eapply (Hdo ReturnRun); [|done]. cbn. by rewrite Hres, Hall.
    + destruct (running_worker _ Hall) as [i Hi]. apply (Hworker i); [|done].
      unfold ctx_done. by rewrite Hsig.
  - destruct Hstop as [Hsig|Hf].
    + eapply (Hdo SelectDone); [|done]. cbn. unfold ctx_done. by rewrite Hpc, Hsig.
    + destruct Hsv as (_ & _ & [Hl|[_ [e He]]]); [congruence|].
      eapply (Hdo SelectErr); [|done]. cbn. by rewrite Hpc, He.
  - eapply (Hdo (Shutdown None)); [|done]. cbn. by rewrite Hpc.
  - destruct Hsv as (Hr & _). destruct r; [|done|].
    + eapply (Hdo ReturnRun); [|done]. cbn. by rewrite Hres, Hpc.
    + destruct (p_cancel s) eqn:Hc.
      * destruct (all_stopped s) eqn:Hall.
        -- eapply (Hdo ReturnRun); [|done]. cbn. by rewrite Hres, Hpc, Hc, Hall.
        -- destruct (running_worker _ Hall) as [i Hi]. apply (Hworker i); [|done].
           unfold ctx_done. by rewrite Hc, orb_true_r.
      * eapply (Hdo Cancel); [|done]. cbn. by rewrite Hpc, Hc.
Qed.

Lemma finish r n k s :
  (work s ≤ k)%nat → runs r n s → stopping s →
  ∃ l s' err, acts r l s = Some s' ∧ p_result s' = Some err ∧ forallb closing l = true ∧
              (length l ≤ work s)%nat.
Proof.
  revert s. induction k as [|k IH]; intros s Hk Hs Hstop;
    (destruct (p_result s) as [err|] eqn:Hres; [by exists [], s, err; cbn; auto with lia|]).
  all: destruct (progress r n s (runs_inv _ _ _ Hs) Hstop Hres) as (a & s1 & Ha & Hcl).
  all: pose proof (act_work _ _ _ _ Ha) as Hw; rewrite (closing_turn _ Hcl) in Hw.
  { lia. }
  destruct (IH s1) as (l & s' & err & Hl & Hr & Hc & Hlen);
    [lia|by eapply runs_act|by eapply stopping_act|].
  exists (a :: l), s', err. cbn. rewrite Ha, Hcl. cbn. split_ands; (done || lia).
Qed.

(** Once the server returned, closing actions change neither that nor what ended it. *)
Lemma closing_acts r l s s' err :
  p_server s = ServerReturned err → forallb closing l = true → acts r l s = Some s' →
  p_server s' = ServerReturned err ∧ p_signal s' = p_signal s ∧ p_listener s' = p_listener s.
Proof.
  revert s. induction l as [|a l IH]; cbn; intros s Hsv Hl; [by intros [= <-]|].
  apply andb_true_iff in Hl as [Ha Hl].
  destruct (act r a s) as [s1|] eqn:Hact; [|done]. intros Hrest.
  assert (p_server s1 = ServerReturned err ∧ p_signal s1 = p_signal s ∧ p_listener s1 = p_listener s)
    as (H1 & <- & <-) by (destruct a; cbn in Ha, Hact; repeat case_match; simplify_eq; by cbn).
  by apply IH.
Qed.

(** A process stops cleanly: when [Run] returns, every worker of the pool has left
    its loop and none of them did so before its context was done, the listener
    accepts no more requests, there was a signal or a failed listener, and what
    [Run] returns is what [srv.Shutdown] returned, or nil for a pool alone. *)
Theorem run_joins r n s err :
  runs r n s → p_result s = Some err →
  Forall (λ b, b = false) (p_workers s) ∧ p_listener s ≠ Listening ∧
  (r ≠ RunServer → length (p_workers s) = Z.to_nat (NewPool n) ∧ ctx_done s = true) ∧
  (r ≠ RunPool → stopping s) ∧
  match r with RunPool => err = None | _ => p_server s = ServerReturned err end.
Proof.
  intros Hs Hres. destruct (runs_inv _ _ _ Hs) as [Hw Hst Hsv _ Hre].
  unfold result_inv in Hre. rewrite Hres in Hre. destruct Hre as [Hall Herr].
  apply all_stopped_spec in Hall. unfold server_inv, stopping in *. split; [done|].
  assert (r ≠ RunServer → length (p_workers s) = Z.to_nat (NewPool n)) as Hlen
    by (by destruct r).
  assert (r ≠ RunServer → ctx_done s = true) as Hdone.
  { intros Hr. specialize (Hlen Hr). pose proof (NewPool_pos n).
    destruct (p_workers s) as [|b ws] eqn:Hws; [cbn in Hlen; lia|].
    apply (Hst 0%nat). cbn. by apply Forall_cons in Hall as [-> _]. }
  assert (p_listener s ≠ Listening ∧ (r ≠ RunPool → p_signal s = true ∨ p_listener s = ListenFailed))
    as [Hli Hstop].
  { destruct r.
    - rewrite Herr in Hsv. destruct Hsv as (_ & _ & [Hl|[Hl Hsig]]); rewrite Hl; auto.
    - split; [|done]. destruct (p_server s); destruct Hsv as (? & ? & ?); congruence.
    - rewrite Herr in Hsv. destruct Hsv as (_ & _ & [Hl|[Hl Hsig]]); rewrite Hl; auto. }
  split_ands; auto.
Qed.

(** C39. A process that has a reason to stop does: after a signal, or once the listener
    has failed, every action of any goroutine other than one more turn of a worker
    brings the end nearer, in whatever order they come, and as long as [Run] has
    not returned some such action is possible that needs nothing from outside; so
    it can return within as many actions as there is work left, at most one per
    worker and six more. *)
Theorem run_terminates r n s :
  runs r n s → stopping s →
  (∀ a s', act r a s = Some s' →
     stopping s' ∧ if is_turn a then s' = s else (work s' < work s)%nat) ∧
  (p_result s = None → ∃ a s', act r a s = Some s' ∧ closing a = true) ∧
  (∃ l s' err, acts r l s = Some s' ∧ p_result s' = Some err ∧ forallb closing l = true ∧
               (length l ≤ work s)%nat) ∧
  (work s ≤ length (p_workers s) + 6)%nat.
Proof.
  intros Hs Hstop. split_ands.
  - intros a s' Ha. split; [by eapply stopping_act|by apply act_work in Ha].
  - intros Hres. by eapply progress; [apply runs_inv| |].
  - by eapply finish.
  - unfold work. pose proof (running_length (p_workers s)).
    unfold listener_work, server_work. repeat case_match; lia.
Qed.

(** ** A failed listener is not reported *)

(** A failed listener goes unreported: whatever error [ListenAndServe] fails with,
    in the server role and with any number of workers in the combined role, the
    process can end without a signal and with exit code 0; the error is only
    logged, since what [Run] returns is what [srv.Shutdown] returned. *)
Theorem listen_failure_exits_zero r n e :
  r ≠ RunPool →
  ∃ l s, acts r (ListenError e :: l) (start r n) = Some s ∧
         p_listener s = ListenFailed ∧ p_signal s = false ∧
         ∃ err, p_result s = Some err ∧ main None err = 0.
Proof.
  intros Hr. assert (∃ s, acts r [ListenError e; SelectErr; Shutdown None] (start r n) = Some s ∧
    p_server s = ServerReturned None ∧ p_signal s = false ∧ p_listener s = ListenFailed)
    as (s & Hs & Hsv & Hsig & Hli) by (destruct r; [by eexists|done|by eexists]).
  pose proof (acts_runs r n _ _ _ (runs_start r n) Hs) as Hrun.
  destruct (finish r n (work s) s) as (l & s' & err & Hl & Hres & Hcl & _);
    [done|done|by right|].
  destruct (closing_acts _ _ _ _ _ Hsv Hcl Hl) as (Hsv' & Hsig' & Hli').
  exists ([SelectErr; Shutdown None] ++ l), s'. split_ands; [|congruence..|].
  - change (ListenError e :: [SelectErr; Shutdown None] ++ l)
      with ([ListenError e; SelectErr; Shutdown None] ++ l).
    by rewrite acts_app, Hs.
  - exists err. split; [done|].
    pose proof (pi_result _ _ _ (runs_inv _ _ _ (acts_runs _ _ _ _ _ Hrun Hl))) as Hinv.
    unfold result_inv in Hinv. rewrite Hres in Hinv. destruct Hinv as [_ Herr].
    destruct r; [|done|]; rewrite Hsv' in Herr; by injection Herr as <-.
Qed.

(** ** Witnesses *)

Definition refused : error := errorString "listen tcp :8080: bind: address already in use".

(** Two workers and a server, stopped by a signal while a worker is busy. *)
Definition stop_all : list action :=
  [WorkerTurn 0; Signal; WorkerReturn 1; SelectDone; WorkerTurn 0; Shutdown None; Cancel;
   WorkerReturn 0; ReturnRun].
Definition stopped : Proc :=
  mkProc true true ListenerClosed None (ServerReturned None) [false; false] (Some None).

Lemma run_joins_witness :
  Forall (λ b, b = false) (p_workers stopped) ∧ p_listener stopped ≠ Listening.
Proof.
  destruct (run_joins RunAll 2 stopped None) as (H1 & H2 & _).
  - apply (acts_runs RunAll 2 stop_all (start RunAll 2) stopped); [apply runs_start|].
    vm_compute. reflexivity.
  - reflexivity.
  - by split.
Defined.

Lemma run_terminates_witness :
  ∃ l s err, acts RunAll l (set_signal (start RunAll 3)) = Some s ∧ p_result s = Some err.
Proof.
  destruct (run_terminates RunAll 3 (set_signal (start RunAll 3)))
    as (_ & _ & (l & s & err & Hl & Hr & _) & _).
  - apply (runs_act RunAll 3 Signal (start RunAll 3)); [apply runs_start|reflexivity].
  - left. reflexivity.
  - by exists l, s, err.
Defined.

Lemma listen_failure_exits_zero_witness :
  ∃ l s, acts RunAll (ListenError refused :: l) (start RunAll 4) = Some s ∧ p_signal s = false.
Proof.
  destruct (listen_failure_exits_zero RunAll 4 refused) as (l & s & Hl & _ & Hs & _).
  - discriminate.
  - by exists l, s.
Defined.
