(* ===== verification/Deployment.v ===== *)
(** * Any number of processes on one database

    System.v has the workers and the handlers but no processes; Supervise.v has one
    process but not what its workers do. Here they are put together: any number of
    processes, each in its role, are started, run, stopped by a signal or killed, and
    share nothing but the database. A worker acts only while it is in the loop of a
    living process and leaves the loop only between two jobs; a request is handled
    only while its server serves; a process that dies takes with it every worker it
    has. The projections are what the two files are about, so their theorems hold of
    a deployment. *)

From S2P Require Import Prelude GoErrors Utf8 GoStrings Model Llm Normalize Database Instances.
From S2P Require Import StoreRaw StoreFacts Queue Worker Processor System Refinement Invariants.
From S2P Require Import Trace Ingest Service Drain App Supervise.
Local Open Scope Z_scope.

(** ** States *)

(** A process: its role, its WORKER_CONCURRENCY, and where its goroutines are. *)
Record Node : Type := mkNode { n_role : role; n_workers : Z; n_proc : Proc }.

Record Deployment : Type := mkDeployment { d_sys : Sys; d_nodes : gmap nat Node }.

(** The slot of System.v that worker [i] of process [p] has. *)
Definition slot (p i : nat) : nat := encode_nat (p, i).

Definition set_sys (s : Sys) (d : Deployment) : Deployment := mkDeployment s (d_nodes d).
Definition set_node (p : nat) (nd : Node) (d : Deployment) : Deployment :=
  mkDeployment (d_sys d) (<[p := nd]> (d_nodes d)).
Definition remove_node (p : nat) (d : Deployment) : Deployment :=
  mkDeployment (d_sys d) (delete p (d_nodes d)).
Definition set_proc (s : Proc) (nd : Node) : Node := mkNode (n_role nd) (n_workers nd) s.

(** Worker [i] of process [p] is between two jobs. *)
Definition idle (p i : nat) (d : Deployment) : Prop := s_tasks (d_sys d) !! slot p i = None.

(** Requests are handled: until [Shutdown] returned nil, which it does when no
    connection is busy any more. *)
Definition serving (s : Proc) : bool :=
  match p_server s with
  | Serving | ShuttingDown | ServerReturned (Some _) => true
  | ServerOff | ServerReturned None => false
  end.

(** The workers of a process die with it. *)
Definition lose_worker (p : nat) (s : Sys) (i : nat) : Sys :=
  mkSys (s_db s) (delete (slot p i) (s_tasks s)).
Definition lose_process (p : nat) (nd : Node) (s : Sys) : Sys :=
  foldl (lose_worker p) s (seq 0 (length (p_workers (n_proc nd)))).
Definition kill (p : nat) (nd : Node) (d : Deployment) : Deployment :=
  remove_node p (set_sys (lose_process p nd (d_sys d)) d).

Section deployment.
Context {U : UnicodeTables} {P : Postgres} {C : Client}.
Context (norm : Normalizer) (cfg : PgQueue.Config).

(** ** Steps *)

Inductive dstep (d : Deployment) : Deployment → Prop :=
  (** [newApp] succeeded and [Run] is entered. *)
  | d_start p r n :
      d_nodes d !! p = None → dstep d (set_node p (mkNode r n (start r n)) d)
  (** A goroutine of a process, other than a worker at work. *)
  | d_act p a nd s' :
      d_nodes d !! p = Some nd → is_turn a = false →
      (∀ i, a = WorkerReturn i → idle p i d) →
      act (n_role nd) a (n_proc nd) = Some s' → dstep d (set_node p (set_proc s' nd) d)
  (** A statement or a call of the model by a worker in its loop. *)
  | d_work p i nd s' :
      d_nodes d !! p = Some nd → act (n_role nd) (WorkerTurn i) (n_proc nd) = Some (n_proc nd) →
      taken norm cfg (Slot (slot p i)) (d_sys d) s' → dstep d (set_sys s' d)
  (** A statement of an HTTP handler. *)
  | d_serve p nd s' :
      d_nodes d !! p = Some nd → serving (n_proc nd) = true →
      taken norm cfg Web (d_sys d) s' → dstep d (set_sys s' d)
  (** SIGKILL, a panic, the loss of the machine. *)
  | d_kill p nd : d_nodes d !! p = Some nd → dstep d (kill p nd d)
  (** [main] returns or exits after [Run] returned. *)
  | d_exit p nd err :
      d_nodes d !! p = Some nd → p_result (n_proc nd) = Some err → dstep d (remove_node p d).

Definition empty_deployment : Deployment := mkDeployment initial ∅.
Definition deployed (d : Deployment) : Prop := rtc dstep empty_deployment d.

(** ** Slots *)

#[local] Instance slot_inj : Inj2 (=) (=) (=) slot.
Proof. intros p i q j H. apply (inj encode_nat) in H. by injection H. Qed.

Lemma lose_process_eq p nd s :
  lose_process p nd s
  = mkSys (s_db s) (foldl (λ m i, delete (slot p i) m) (s_tasks s)
                      (seq 0 (length (p_workers (n_proc nd))))).
Proof.
  unfold lose_process. generalize (seq 0 (length (p_workers (n_proc nd)))) as l. intros l. revert s.
  induction l as [|i l IH]; cbn; intros s; [by destruct s|]. by rewrite IH.
Qed.

Lemma delete_all_lookup {A} (p : nat) (l : list nat) (m : gmap nat A) k x :
  foldl (λ m i, delete (slot p i) m) m l !! k = Some x ↔
  m !! k = Some x ∧ ∀ i, i ∈ l → k ≠ slot p i.
Proof.
  revert m. induction l as [|j l IH]; cbn; intros m.
  - split; [intros; split; [done|by intros i Hi%elem_of_nil]|by intros [? _]].
  - rewrite IH, lookup_delete_Some. setoid_rewrite elem_of_cons. naive_solver.
Qed.

(** A task that is left is of another process. *)
Lemma lose_process_lookup p nd s k t :
  s_tasks (lose_process p nd s) !! k = Some t ↔
  s_tasks s !! k = Some t ∧
  ∀ i, (i < length (p_workers (n_proc nd)))%nat → k ≠ slot p i.
Proof.
  rewrite lose_process_eq. cbn. rewrite delete_all_lookup. setoid_rewrite elem_of_seq.
  split; intros [? H]; (split; [done|]); intros i Hi; apply H; lia.
Qed.

Lemma lose_process_db p nd s : s_db (lose_process p nd s) = s_db s.
Proof. by rewrite lose_process_eq. Qed.

(** It is a step of the transition system per worker. *)
Lemma lose_process_steps p nd s : rtc (step norm cfg) s (lose_process p nd s).
Proof.
  unfold lose_process. generalize (seq 0 (length (p_workers (n_proc nd)))) as l. intros l. revert s.
  induction l as [|i l IH]; cbn; intros s; [done|].
  eapply rtc_l; [|apply IH]. destruct s. apply (taken_step norm cfg (Loss (slot p i))), step_crash.
Qed.

(** Dying first and then losing the process is losing the process. *)
Lemma lose_process_lost p nd s s' i :
  (i < length (p_workers (n_proc nd)))%nat → taken norm cfg (Loss (slot p i)) s s' →
  lose_process p nd s = lose_process p nd s'.
Proof.
  intros Hi Hl. remember (Loss (slot p i)) as who. destruct Hl; try done. simplify_eq.
  rewrite !lose_process_eq. cbn. f_equal. apply map_eq. intros k.
  apply option_eq. intros t. rewrite !delete_all_lookup, lookup_delete_Some.
  split; [|tauto]. intros [Ht Hk]. split; [|done]. split; [|done].
  intros He. apply (Hk i); [apply elem_of_seq; lia|done].
Qed.

(** ** Invariant *)

(** A busy slot is that of a worker in the loop of a living process. *)
Definition owned (nodes : gmap nat Node) (k : nat) : Prop :=
  ∃ p i nd, k = slot p i ∧ nodes !! p = Some nd ∧ p_workers (n_proc nd) !! i = Some true.

Record dep_inv (d : Deployment) : Prop := {
  dep_sys : reachable norm cfg (d_sys d);
  dep_proc p nd : d_nodes d !! p = Some nd → runs (n_role nd) (n_workers nd) (n_proc nd);
  dep_owned k : is_Some (s_tasks (d_sys d) !! k) → owned (d_nodes d) k
}.

(** A step in slot [i] makes no other slot busy. *)
Lemma taken_busy who s s' k :
  taken norm cfg who s s' → is_Some (s_tasks s' !! k) →
  is_Some (s_tasks s !! k) ∨ who = Slot k.
Proof.
  intros Hs Hk. destruct Hs; cbn in *; repeat case_match; cbn in *; try (by left);
    (rewrite lookup_insert_is_Some in Hk || rewrite lookup_delete_is_Some in Hk); naive_solver.
Qed.

(** An action of a process takes no worker out of its loop but the one that returns. *)
Lemma act_workers r a s s' i :
  act r a s = Some s' → a ≠ WorkerReturn i → p_workers s !! i = Some true →
  p_workers s' !! i = Some true.
Proof.
  intros Hact Ha Hi. destruct a as [| | | | | |k|k|]; cbn in Hact; repeat case_match;
    simplify_eq; cbn; try done.
  rewrite list_lookup_insert_ne; [done|]. congruence.
Qed.

Lemma owned_insert nodes p nd k :
  owned nodes k → (∀ i nd', k = slot p i → nodes !! p = Some nd' →
                    p_workers (n_proc nd') !! i = Some true →
                    p_workers (n_proc nd) !! i = Some true) →
  owned (<[p := nd]> nodes) k.
Proof.
  intros (q & i & nd' & -> & Hq & Hi) H. destruct (decide (q = p)) as [->|Hne].
  - exists p, i, nd. rewrite lookup_insert_eq. eauto.
  - exists q, i, nd'. by rewrite lookup_insert_ne by done.
Qed.

Lemma dstep_inv d d' : dep_inv d → dstep d d' → dep_inv d'.
Proof.
  intros [Hsys Hproc Hown] Hstep.
  destruct Hstep as [p r n Hp|p a nd s' Hp Ha Hidle Hact|p i nd s' Hp Hact Ht|p nd s' Hp Hserve Ht
    |p nd Hp|p nd err Hp Hres]; constructor; cbn; try done.
  - intros q nd [[<- <-]|[_ Hq]]%lookup_insert_Some; [apply runs_start|by eapply Hproc].
  - intros k Hk. apply owned_insert; [by apply Hown|]. intros i nd' _ Hp'. congruence.
  - intros q nd' [[<- <-]|[_ Hq]]%lookup_insert_Some; [|by eapply Hproc].
    cbn. eapply runs_act; [exact (Hproc _ _ Hp)|exact Hact].
  - intros k Hk. apply owned_insert; [by apply Hown|]. intros i nd' -> Hp' Hi. cbn.
    rewrite Hp in Hp'. injection Hp' as <-. eapply act_workers; [done| |done].
    intros ->. specialize (Hidle i eq_refl). unfold idle in Hidle. rewrite Hidle in Hk.
    by destruct Hk.
  - eapply rtc_r; [exact Hsys|by eapply taken_step].
  - intros k Hk. destruct (taken_busy _ _ _ _ Ht Hk) as [Hb|[= <-]]; [by apply Hown|].
    exists p, i, nd. split; [done|]. split; [done|]. cbn in Hact. by repeat case_match.
  - eapply rtc_r; [exact Hsys|by eapply taken_step].
  - intros k Hk. destruct (taken_busy _ _ _ _ Ht Hk) as [Hb|[=]]. by apply Hown.
  - unfold reachable in *. etrans; [exact Hsys|apply lose_process_steps].
  - intros q nd' [_ Hq]%lookup_delete_Some. by eapply Hproc.
  - intros k [t [Ht Hk]%lose_process_lookup]. destruct (Hown k) as (q & i & nd' & -> & Hq & Hi); [by eexists|].
    exists q, i, nd'. split; [done|]. split; [|done]. apply lookup_delete_Some. split; [|done].
    intros ->. rewrite Hp in Hq. injection Hq as <-. apply (Hk i); [|done]. by eapply lookup_lt_Some.
  - intros q nd' [_ Hq]%lookup_delete_Some. by eapply Hproc.
  - intros k Hk. destruct (Hown k Hk) as (q & i & nd' & -> & Hq & Hi).
    exists q, i, nd'. split; [done|]. split; [|done]. apply lookup_delete_Some. split; [|done].
    intros ->. rewrite Hp in Hq. injection Hq as <-.
    pose proof (pi_result _ _ _ (runs_inv _ _ _ (Hproc _ _ Hp))) as Hr.
    unfold result_inv in Hr. rewrite Hres in Hr. by apply (all_stopped_lookup _ i (proj1 Hr)).
Qed.

Lemma deployed_inv d : deployed d → dep_inv d.
Proof.
  unfold deployed. apply rtc_ind_r; [|intros; by eapply dstep_inv].
  split; cbn; [apply rtc_refl|done|]. intros k Hk. by rewrite lookup_empty in Hk; destruct Hk.
Qed.

(** ** How many jobs are in flight *)

Definition slots_of (x : nat * Node) : list nat :=
  slot (fst x) <$> seq 0 (length (p_workers (n_proc (snd x)))).

Lemma slots_length l :
  length (l ≫= slots_of) = sum_list_with (λ x, length (p_workers (n_proc (snd x)))) l.
Proof.
  induction l as [|x l IH]; cbn; [done|]. rewrite length_app, IH. unfold slots_of.
  by rewrite length_fmap, length_seq.
Qed.

Lemma busy_size d :
  dep_inv d →
  (size (s_tasks (d_sys d)) ≤
     sum_list_with (λ x, length (p_workers (n_proc (snd x)))) (map_to_list (d_nodes d)))%nat.
Proof.
  intros [_ _ Hown]. rewrite <-slots_length, <-size_dom.
  set (l := map_to_list (d_nodes d) ≫= slots_of).
  transitivity (size (list_to_set l : gset nat)).
  - apply subseteq_size. intros k Hk%elem_of_dom. apply elem_of_list_to_set.
    destruct (Hown k Hk) as (p & i & nd & -> & Hp & Hi).
    apply list_elem_of_bind. exists (p, nd).
    split; [|by apply elem_of_map_to_list]. unfold slots_of. cbn.
    apply list_elem_of_fmap. exists i. split; [done|]. apply elem_of_seq.
    apply lookup_lt_Some in Hi. lia.
  - clear. induction l as [|k l IH]; cbn; [by rewrite size_empty|].
    rewrite size_union_alt, size_singleton.
    assert (size (list_to_set l ∖ {[k]} : gset nat) ≤ size (list_to_set l : gset nat))%nat
      by (apply subseteq_size; set_solver). lia.
Qed.

(** ** The code in a deployment *)

Lemma work_steps d p i nd s :
  d_nodes d !! p = Some nd → p_workers (n_proc nd) !! i = Some true →
  rtc (taken norm cfg (Slot (slot p i))) (d_sys d) s → rtc dstep d (set_sys s d).
Proof.
  intros Hp Hi Hs. remember (d_sys d) as s0 eqn:H0. revert d Hp H0.
  induction Hs as [s|s0 s1 s Ht Hs IH]; intros d Hp ->; [by destruct d|].
  eapply rtc_l; [|by apply (IH (set_sys s1 d))]. eapply d_work; [done| |done]. cbn. by rewrite Hi.
Qed.

Lemma serve_steps d p nd s :
  d_nodes d !! p = Some nd → serving (n_proc nd) = true →
  rtc (taken norm cfg Web) (d_sys d) s → rtc dstep d (set_sys s d).
Proof.
  intros Hp Hi Hs. remember (d_sys d) as s0 eqn:H0. revert d Hp H0.
  induction Hs as [s|s0 s1 s Ht Hs IH]; intros d Hp ->; [by destruct d|].
  eapply rtc_l; [|by apply (IH (set_sys s1 d))]. by eapply d_serve.
Qed.

(** Goroutines of one process whose workers are all idle. *)
Lemma acts_steps d p nd l s :
  d_nodes d !! p = Some nd → (∀ i, idle p i d) → forallb (λ a, negb (is_turn a)) l = true →
  acts (n_role nd) l (n_proc nd) = Some s → rtc dstep d (set_node p (set_proc s nd) d).
Proof.
  intros Hp Hidle. revert d nd Hp Hidle. induction l as [|a l IH]; cbn; intros d nd Hp Hidle Hl Hacts.
  - injection Hacts as <-. unfold set_node, set_proc. destruct d as [sys nodes], nd. cbn in *.
    by rewrite insert_id.
  - apply andb_true_iff in Hl as [Ha Hl]. destruct (act _ a _) as [s1|] eqn:Hact; [|done].
    eapply rtc_l.
    { eapply d_act; [done|by apply negb_true_iff in Ha|intros; apply Hidle|done]. }
    specialize (IH (set_node p (set_proc s1 nd) d) (set_proc s1 nd)).
    assert (set_node p (set_proc s nd) d
      = set_node p (set_proc s (set_proc s1 nd)) (set_node p (set_proc s1 nd) d)) as ->.
    { unfold set_node, set_proc. cbn. by rewrite insert_insert_eq. }
    apply IH; [cbn; apply lookup_insert_eq|apply Hidle|done|done].
Qed.
End deployment.

(** ** Properties *)

(** C6. Any number of processes on one database, started, stopped and killed at any
    time: the tables and the busy workers are those of a reachable state of the
    system, each process is in a state of its own that Supervise.v describes, no more
    jobs are in flight than there are workers of living processes, each of them with
    a worker that is still in its loop; and once [Run] of a process has returned it
    has no job in flight, its workers have all left their loops, its listener accepts
    nothing, there was a signal or a failed listener, and its result is that of
    [Shutdown]. *)
Theorem deployment_safe {U : UnicodeTables} {P : Postgres} {C : Client} norm cfg d :
  deployed norm cfg d →
  reachable norm cfg (d_sys d) ∧
  (size (s_tasks (d_sys d)) ≤
     sum_list_with (λ x, length (p_workers (n_proc (snd x)))) (map_to_list (d_nodes d)))%nat ∧
  (∀ k, is_Some (s_tasks (d_sys d) !! k) →
     ∃ p i nd, k = slot p i ∧ d_nodes d !! p = Some nd ∧
       p_workers (n_proc nd) !! i = Some true ∧ p_result (n_proc nd) = None) ∧
  ∀ p nd, d_nodes d !! p = Some nd →
    runs (n_role nd) (n_workers nd) (n_proc nd) ∧
    ∀ err, p_result (n_proc nd) = Some err →
      (∀ i, idle p i d) ∧ Forall (λ b, b = false) (p_workers (n_proc nd)) ∧
      p_listener (n_proc nd) ≠ Listening ∧
      (n_role nd ≠ RunServer → ctx_done (n_proc nd) = true) ∧
      (n_role nd ≠ RunPool → stopping (n_proc nd)) ∧
      match n_role nd with
      | RunPool => err = None
      | _ => p_server (n_proc nd) = ServerReturned err
      end.
Proof.
  intros Hd. pose proof (deployed_inv norm cfg d Hd) as Hinv. pose proof (busy_size _ _ _ Hinv).
  destruct Hinv as [Hsys Hproc Hown].
  assert (∀ k, is_Some (s_tasks (d_sys d) !! k) → ∃ p i nd, k = slot p i ∧
    d_nodes d !! p = Some nd ∧ p_workers (n_proc nd) !! i = Some true ∧
    p_result (n_proc nd) = None) as Hbusy.
  { intros k Hk. destruct (Hown k Hk) as (p & i & nd & -> & Hp & Hi). exists p, i, nd.
    split_ands; try done. destruct (p_result (n_proc nd)) as [err|] eqn:Hres; [|done].
    destruct (run_joins _ _ _ _ (Hproc _ _ Hp) Hres) as [Hall _].
    rewrite Forall_lookup in Hall. by specialize (Hall _ _ Hi). }
  split_ands; try done. intros p nd Hp. split; [exact (Hproc _ _ Hp)|]. intros err Hres.
  destruct (run_joins _ _ _ _ (Hproc _ _ Hp) Hres) as (Hall & Hli & Hdone & Hstop & Herr).
  split_ands; try done; [|by intros Hr; destruct (Hdone Hr)].
  intros i. unfold idle. destruct (s_tasks (d_sys d) !! slot p i) as [t|] eqn:Ht; [|done].
  destruct (Hbusy (slot p i)) as (q & j & nd' & Hk & Hq & _ & Hr); [by eexists|].
  apply slot_inj in Hk as [<- <-]. congruence.
Qed.

(** C5. The code runs in a deployment as it does alone: a turn of the worker loop by an
    idle worker of a process whose loop it has not left, under any environment, is a
    sequence of steps of the deployment, at the end of which the worker is idle, or,
    if the turn panicked, the process is gone with all its workers; and so is a
    request that [Routes] handles for a process whose server serves. *)
Theorem deployment_refines {U : UnicodeTables} {P : Postgres} {C : Client} (O : Oracle)
    norm cfg d p nd w :
  OracleLaws O → d_nodes d !! p = Some nd → w_db w = s_db (d_sys d) →
  (∀ i, p_workers (n_proc nd) !! i = Some true → idle p i d →
     let out := @worker_turn World (PgQueue.pg_queue cfg) (processor_handler norm) ctx_err w in
     let d' := set_sys (mkSys (w_db (snd out)) (s_tasks (d_sys d))) d in
     rtc (dstep norm cfg) d (match fst out with Ok _ => d' | Err _ => kill p nd d' end)) ∧
  (∀ debug r, serving (n_proc nd) = true →
     rtc (dstep norm cfg) d
       (set_sys (mkSys (w_db (snd (Routes debug r w))) (s_tasks (d_sys d))) d)).
Proof.
  intros OL Hp Hw. assert (d_sys d = mkSys (w_db w) (s_tasks (d_sys d))) as Hs
    by (rewrite Hw; by destruct (d_sys d)). split.
  - intros i Hi Hidle out d'. pose proof (turn_turned norm cfg _ _ w Hidle) as Ht.
    cbv zeta in Ht. fold out in Ht. rewrite <-Hs in Ht. destruct (fst out) as [|e]; cbn [turned] in Ht.
    + by eapply work_steps.
    + destruct Ht as (s1 & Hsteps & Hloss). eapply rtc_r.
      { by eapply (work_steps norm cfg d p i nd s1). }
      assert (kill p nd d' = kill p nd (set_sys s1 d)) as ->; [|by apply d_kill].
      unfold kill, d'. cbn [set_sys d_sys].
      by rewrite (lose_process_lost norm cfg p nd _ _ i (lookup_lt_Some _ _ _ Hi) Hloss).
  - intros debug r Hserve. eapply serve_steps; [done..|]. rewrite Hs at 1. by apply Routes_steps.
Qed.

(** The deployment with process [p] in state [s] and the tables [db]. *)
Definition with_worker (p : nat) (n : Z) (s : Proc) (db : DB) (d : Deployment) : Deployment :=
  set_node p (mkNode RunPool n s) (set_sys (mkSys db (s_tasks (d_sys d))) d).

(** C16. Recovery. Whatever a deployment went through, if every event that is left over
    has been attempted less often than its int4 column can count and is decided by the
    model and the gate (an answer that is accepted and stored, or a refusal for good),
    then there is a time, the end of the last lease, such that a worker process that is
    started anew, whose statements do not fail, for which no row is locked by others,
    and whose clock is past that time, decides every event that is left over, in as
    many turns of one of its workers as there are such events; on a signal it then
    returns a result on which main exits with code 0, and leaves every other process
    as it was. *)
Theorem new_worker_recovers {U : UnicodeTables} {UL : UnicodeLaws U} {P : Postgres}
    {C : Client} norm cfg d p n :
  deployed norm cfg d → d_nodes d !! p = None → decidable_log norm (s_db (d_sys d)) →
  ∃ until, ∀ (O : Oracle) w, w_db w = s_db (d_sys d) →
  (∀ t, fault t = NoFault) → (∀ t, locked t = ∅) → (∀ t, until < clock t) →
  ∃ w' s err,
    @worker World (PgQueue.pg_queue cfg) (processor_handler norm) ctx_err
      (size (unfinished (w_db w))) w = (Ok false, w') ∧
    emptied norm (s_db (d_sys d)) (w_db w') ∧
    rtc (dstep norm cfg) d (with_worker p n s (w_db w') d) ∧
    p_result s = Some err ∧ main None err = 0 ∧
    rtc (dstep norm cfg) d (set_sys (mkSys (w_db w') (s_tasks (d_sys d))) d).
Proof.
  intros Hd Hp Hlog. destruct (leases_end_ex (s_db (d_sys d))) as [until Hu]. exists until.
  intros O w Hw Hnf Hnl Hclock. rewrite <-Hw in Hu, Hlog. pose proof (deployed_inv norm cfg d Hd) as [Hsys Hproc Hown].
  assert (∀ i, idle p i d) as Hidle.
  { intros i. unfold idle. destruct (_ !! slot p i) as [t|] eqn:Ht; [|done].
    destruct (Hown (slot p i)) as (q & j & nd & [<- <-]%slot_inj & Hq & _); [by eexists|congruence]. }
  assert (d_sys d = mkSys (w_db w) (s_tasks (d_sys d))) as Hs by (rewrite Hw; by destruct (d_sys d)).
  rewrite Hs in Hsys.
  destruct (pool_drained norm cfg (slot p 0) _ until w Hsys (Hidle 0%nat) Hnf Hnl Hu Hclock Hlog)
    as (w' & Hrun & Hsteps & Hemp). rewrite <-Hs in Hsteps.
  set (s1 := set_signal (start RunPool n)).
  assert (runs RunPool n s1) as Hs1 by (apply (runs_act RunPool n Signal (start RunPool n));
    [apply runs_start|done]).
  destruct (finish RunPool n (work s1) s1) as (l & s & err & Hl & Hres & Hcl & _);
    [done|done|by left|].
  assert (err = None) as -> by (by apply (run_joins RunPool n s err (acts_runs _ _ _ _ _ Hs1 Hl))).
  assert (rtc (dstep norm cfg) d (with_worker p n s (w_db w') d)) as Hto.
  { eapply rtc_l; [by apply (d_start norm cfg d p RunPool n)|].
    etrans.
    - apply (work_steps norm cfg _ p 0 (mkNode RunPool n (start RunPool n))
        (mkSys (w_db w') (s_tasks (d_sys d)))); [apply lookup_insert_eq| |exact Hsteps].
      cbn. apply lookup_replicate_2. apply NewPool_pos.
    - unfold with_worker. set (d2 := set_sys _ (set_node _ _ _)).
      assert (set_node p (mkNode RunPool n s) (set_sys (mkSys (w_db w') (s_tasks (d_sys d))) d)
        = set_node p (set_proc s (mkNode RunPool n (start RunPool n))) d2) as ->.
      { unfold d2, set_node, set_sys. cbn. by rewrite insert_insert_eq. }
      apply (acts_steps norm cfg d2 p _ (Signal :: l)); [apply lookup_insert_eq|exact Hidle| |].
      + cbn. rewrite forallb_forall in Hcl |- *. intros a Ha. by rewrite (closing_turn a (Hcl a Ha)).
      + exact Hl. }
  exists w', s, None. rewrite <-Hw. split_ands; try done. eapply rtc_r; [exact Hto|].
  replace (set_sys _ d) with (remove_node p (with_worker p n s (w_db w') d)).
  - eapply d_exit; [apply lookup_insert_eq|exact Hres].
  - unfold remove_node, with_worker, set_node, set_sys. cbn. f_equal.
    by rewrite delete_insert_id.
Qed.

(** ** Witnesses *)

Section witnesses.
Local Existing Instances latin1_tables latin1_laws sample_postgres.

Abbreviation dsteps C := (rtc (@dstep latin1_tables sample_postgres C floor_0_6 sample_cfg)).

Definition started (p : nat) (r : role) (n : Z) (d : Deployment) : Deployment :=
  set_node p (mkNode r n (start r n)) d.
(** A server that has stored what it was sent. *)
Definition received (C : Client) (l : list (nat * move)) (p : nat) (r : role) : Deployment :=
  set_sys (sample_play C l initial) (started p r 2 empty_deployment).

Lemma received_deployed C p r l :
  serving (start r 2) = true → Forall (λ x, ∃ h j s, snd x = Ingest h j s) l →
  @deployed latin1_tables sample_postgres C floor_0_6 sample_cfg (received C l p r).
Proof.
  intros Hr Hl. unfold deployed. eapply rtc_l; [by apply (d_start _ _ _ p r 2)|].
  eapply (serve_steps _ _ (started p r 2 empty_deployment) p); [apply lookup_insert_eq|done|].
  cbn [d_sys started set_node empty_deployment]. unfold sample_play. revert Hl.
  generalize initial as s. induction l as [|[t m] l IH]; intros s Hl; [done|].
  apply Forall_cons in Hl as [(h & j & src & Hm) Hl]. cbn in Hm. subst m.
  eapply rtc_l; [|by apply IH]. apply (@play1_ingest _ _ C calm calm_laws).
Qed.

(** Process 0 serves and has two workers; process 1 has one worker, which has claimed
    the event when process 0 gets its signal and ends. *)
Definition both : Deployment :=
  let d := started 1 RunPool 1 (received sample_client [(0%nat, Ingest "h1" "{}" "acme")] 0 RunAll) in
  set_sys (sample_play sample_client [(1%nat, Claims (slot 1 0))] (d_sys d)) d.
Definition one_stopped : Deployment := set_node 0 (mkNode RunAll 2 stopped) both.

Lemma one_stopped_deployed : @deployed _ _ sample_client floor_0_6 sample_cfg one_stopped.
Proof.
  set (d0 := received sample_client [(0%nat, Ingest "h1" "{}" "acme")] 0 RunAll).
  assert (dsteps sample_client d0 (started 1 RunPool 1 d0)) as H1
    by (apply rtc_once; by apply d_start).
  assert (dsteps sample_client (started 1 RunPool 1 d0) both) as H2.
  { eapply (work_steps _ _ (started 1 RunPool 1 d0) 1 0); [apply lookup_insert_eq|done|].
    apply rtc_once. by apply (@play1_claim _ _ sample_client calm calm_laws). }
  assert (dsteps sample_client both one_stopped) as H3.
  { apply (acts_steps _ _ both 0 (mkNode RunAll 2 (start RunAll 2))
      (filter (λ a, is_turn a = false) stop_all)).
    - reflexivity.
    - intros i. unfold idle. destruct (s_tasks (d_sys both) !! slot 0 i) as [x|] eqn:Hx; [|done].
      assert (forallb (λ x, fst x =? slot 1 0)%nat (map_to_list (s_tasks (d_sys both))) = true)
        as Hall by (vm_compute; reflexivity).
      rewrite forallb_forall in Hall. specialize (Hall (slot 0 i, x)).
      apply elem_of_map_to_list, list_elem_of_In in Hx. specialize (Hall Hx).
      apply Nat.eqb_eq, slot_inj in Hall as [[=] _].
    - reflexivity.
    - vm_compute. reflexivity. }
  unfold deployed. etrans; [apply (received_deployed sample_client 0 RunAll [(0%nat, Ingest "h1" "{}" "acme")])|].
  - done.
  - repeat constructor; by do 3 eexists.
  - etrans; [exact H1|]. by etrans.
Qed.

Lemma deployment_safe_witness :
  (∀ i, idle 0 i one_stopped) ∧ is_Some (s_tasks (d_sys one_stopped) !! slot 1 0) ∧
  (size (s_tasks (d_sys one_stopped)) ≤ 3)%nat.
Proof.
  destruct (deployment_safe floor_0_6 sample_cfg one_stopped one_stopped_deployed)
    as (_ & Hsize & _ & Hproc).
  destruct (Hproc 0%nat (mkNode RunAll 2 stopped)) as [_ Hres]; [reflexivity|].
  destruct (Hres None eq_refl) as [Hidle _]. split; [exact Hidle|]. split; [|exact Hsize].
  vm_compute. by eexists.
Defined.

(** A turn of a worker with one event waiting. *)
Definition at_work : Deployment :=
  set_sys (mkSys (w_db Refinement.one_waiting) ∅) (started 0 RunAll 1 empty_deployment).

Lemma deployment_refines_witness :
  ∃ w', dsteps sample_client at_work (set_sys (mkSys (w_db w') ∅) at_work) ∧
        RawRow.status <$> raw_events (w_db w') !! "id-0" = Some StatusProcessed.
Proof.
  destruct (@deployment_refines _ _ sample_client calm floor_0_6 sample_cfg at_work 0
    (mkNode RunAll 1 (start RunAll 1)) Refinement.one_waiting calm_laws) as [Hturn _].
  - reflexivity.
  - reflexivity.
  - eexists. split; [exact (Hturn 0%nat eq_refl eq_refl)|]. vm_compute. reflexivity.
Defined.

(** The server that took the two events of Drain.v is gone. *)
Definition server_gone : Deployment := mkDeployment good_and_bad ∅.

Lemma server_gone_deployed : @deployed _ _ picky floor_0_6 sample_cfg server_gone.
Proof.
  set (d := received picky [(0%nat, Ingest "h1" "[]" ""); (1%nat, Ingest "h2" "{}" "")] 0 RunServer).
  assert (server_gone = kill 0 (mkNode RunServer 2 (start RunServer 2)) d) as ->.
  { unfold kill, lose_process, remove_node, d, received, started, set_node, set_sys. cbn [d_nodes d_sys].
    by rewrite delete_insert_eq. }
  unfold deployed. eapply rtc_r; [apply (received_deployed picky 0 RunServer
    [(0%nat, Ingest "h1" "[]" ""); (1%nat, Ingest "h2" "{}" "")])|].
  - done.
  - repeat constructor; by do 3 eexists.
  - apply d_kill. apply lookup_insert_eq.
Qed.

Lemma new_worker_recovers_witness :
  ∃ db, dsteps picky server_gone (mkDeployment (mkSys db ∅) ∅) ∧ unfinished db = ∅.
Proof.
  destruct (@new_worker_recovers _ latin1_laws _ picky floor_0_6 sample_cfg server_gone 7 4
    server_gone_deployed) as (until & Hrec).
  - reflexivity.
  - apply two_waiting_log.
  - destruct (Hrec (later until) two_waiting) as (w' & s & err & _ & Hemp & _ & _ & _ & Hsteps).
    + reflexivity.
    + reflexivity.
    + reflexivity.
    + intros t. cbn [clock later]. lia.
    + exists (w_db w'). split; [|exact (emptied_none _ _ _ Hemp)].
      assert (s_tasks (d_sys server_gone) = ∅) as Ht by (vm_compute; reflexivity).
      rewrite Ht in Hsteps. exact Hsteps.
Defined.
End witnesses.
